(* ===== verification/_CoqProject ===== *)
-Q . S2P
Prelude.v
Std.v
Files.v
Stream.v
Wire.v
BlobProtocol.v
UniversalProtocol.v
Core.v
BlobTypes.v
BlobBehaviour.v
BlobDemo.v
BlobBehaviourProps.v
BlobQueues.v
BlobReceive.v
BlobSafety.v
BlobHandler.v
BlobHandlerProps.v
BlobTransfer.v
TransferSpec.v
BlobWire.v
BlobCancel.v
BlobOffers.v
BlobTests.v
BlobAsync.v
BlobRuns.v
BlobSettle.v
BlobLink.v
Messaging.v
Template.v
Advertise.v
Memcache.v
Concurrent.v
Calls.v
GossipTopics.v
Gossipsub.v
MessagingHandle.v
MessagingTransfer.v
MessagingNetwork.v
AdvertiseHandle.v
AdvertiseTransfer.v
AdvertiseSession.v
Kad.v
BlobHandle.v
Adapters.v
Select.v
Upgrades.v
SwarmEvents.v
SwarmLoop.v
Macros.v
Features.v
Requests.v
Node.v
Listening.v
Callbacks.v
AllowBlock.v
Identity.v
Commands.v
Shell.v
Hyper.v
