(* ===== verification/Prelude.v ===== *)
(** * OwlNest: a verification library for the peer-to-peer node

    OwlNest is a libp2p node in Rust.  A swarm task owns libp2p's swarm and one
    composed behaviour; each protocol has a behaviour (one per node), a
    connection handler (one per connection) and a handle through which the
    application sends requests.  Requests reach the behaviour over channels, a
    behaviour and its handlers exchange messages through the swarm, handlers of
    two nodes talk over streams, and events go to all subscribers of a broadcast
    channel.  This library models those parts as executable definitions and
    proves what they do.

    ** Parts, and where they are modelled

    Paths without a crate are below [owlnest/src].

    - Shared ground.  This file: outcomes of calls (return, panic, out of fuel),
      loops, the platform.  [Std]: bytes, big-endian integers, open files, paths,
      callbacks.  [Files]: the file system.  [Stream]: the interface of byte
      streams.  [Core]: errors of [owlnest-core/src/lib.rs] and the events libp2p
      exchanges with behaviours and handlers.  [Concurrent]: methods on
      concurrent maps as programs of atomic operations.  [Calls]: the macros
      [generate_handler_method!], [listen_event!], [future_timeout!] of
      [owlnest-macro/src/lib.rs] and [utils/mod.rs], of which every handle is made.
      [Macros]: the rules of those macros that generate methods, and the
      declarations of all handles.
    - Wire formats.  [Wire]: a request and its answer between two streams.
      [BlobProtocol]: [send], [recv], [cursor_read] of
      [owlnest-blob/src/protocol.rs].  [UniversalProtocol]: [send], [recv] of
      [owlnest-prelude/src/lib.rs].
    - Blob transfers ([protocols/owlnest-blob/src]).  [BlobTypes]: [lib.rs],
      [error.rs], [config.rs], [op.rs], the records of [behaviour.rs] and the
      messages.  [BlobBehaviour]: [behaviour.rs], one definition per method, and
      the behaviour as a transition system ([Op], [step], [run]).
      [BlobHandler]: [handler.rs].  Theorems: [BlobBehaviourProps],
      [BlobQueues], [BlobReceive], [BlobSafety], [BlobHandlerProps],
      [BlobTransfer]; [BlobDemo] has concrete states.  [BlobWire]: two nodes,
      behaviours, handlers and streams, and a file that crosses; [BlobCancel]:
      one that is taken back; [BlobOffers]: any sequence of offers, withdrawals,
      refusals and acceptances of both; [BlobTests]: the tests of [blob.rs].
      [TransferSpec]: the life of one transfer, as an abstract machine;
      [BlobAsync]: two nodes under any schedule, each of whose transfers is a run
      of it; [BlobRuns]: such runs go through; [BlobSettle]: and come to rest;
      [BlobLink]: what lies between the behaviours in [BlobAsync] is what handlers,
      [send] and [recv] do.
      [BlobHandle]: the handle
      and the commands of [net/p2p/protocols/blob.rs].
    - Messaging.  [Messaging]: [protocols/owlnest-messaging/src].
      [MessagingHandle]: message store, handle and commands of
      [net/p2p/protocols/messaging.rs].  [MessagingTransfer]: the way of a
      message from one node's behaviour to the other's store;
      [MessagingNetwork]: any number of nodes, and the tests of [messaging.rs].
    - Advertising.  [Advertise]: [protocols/owlnest-advertise/src].
      [AdvertiseHandle]: handle and commands of [net/p2p/protocols/advertise.rs].
      [AdvertiseTransfer]: how a peer is found, over three nodes;
      [AdvertiseSession]: a provider and its clients over a whole session, and
      the test of [advertise.rs].
    - [Memcache]: stores and managers of [memcache/src].
    - Gossipsub ([net/p2p/protocols/gossipsub.rs]).  [GossipTopics]:
      [mem_store].  [Gossipsub]: [config], [HashType], requests, [map_in_event],
      [Handle], [cli], [serde_types].
    - Adapters of libp2p's protocols ([net/p2p/protocols]).  [Kad]: [kad.rs].
      [Adapters]: [mdns.rs], [autonat.rs], [relay_server.rs], [relay_client.rs],
      [identify.rs].
    - [Select], [Upgrades]: [behaviour_select!] and
      [connection_handler_select!] of [owlnest-macro/src], for any list of
      behaviours; [Upgrades] has the upgrades that negotiate streams.
    - The swarm task ([net/p2p/swarm]).  [SwarmLoop]: the event loop of
      [mod.rs].  [SwarmEvents]: [out_event.rs], the requests of [mod.rs] and
      [swarm_op_exec] of [event_handlers.rs].  [Requests]: the channels of
      [manager.rs] that [owlnest-proc/src/lib.rs] generates; its module
      [SwarmHandle]: [handle.rs].  [Node]: the dispatch of requests and swarm
      events to the behaviours ([event_handlers.rs]) and their construction from
      the configuration ([mod.rs], [net/p2p/mod.rs], [behaviour.rs]).
      [Callbacks]: requests, polls of the behaviours, the handlers of all
      connections and what happens to the connections, in any order, and where a
      request's callback is meanwhile.  [Listening]: the calls of [advertise.rs]
      and [kad.rs] that listen for their answer, as steps beside the loop.
    - The program.  [Identity]: [net/p2p/identity.rs] and [get_ident] of
      [main.rs].  [Commands]: [swarm/cli.rs], [cli/utils.rs] and the [cli]
      modules of the protocols, with the calls of the handles as the shell's
      thread sees them.  [Shell]: [cli/mod.rs], and [read_config],
      [setup_logging] and [main] of [main.rs].
    - The build.  [Features]: the attribute macros of [owlnest-proc/src/lib.rs]
      and the tables the sources keep under [cfg] next to the structs they
      assemble ([swarm/behaviour.rs], [swarm/manager.rs], [swarm/mod.rs],
      [event_handlers.rs], [net/p2p/mod.rs], [protocols/mod.rs], [cli/mod.rs]).
    - Outside the build.  [AllowBlock]: [net/p2p/protocols/allow_block_list.rs].
      [Hyper]: [protocols/owlnest-hyper/src].  [Template]: the crate new
      protocols start from, [protocols/template/src].

    ** How the parts interact

    A call of a handle puts a request into a channel ([Calls]); the swarm task
    takes it ([Requests.poll_next]) and hands it to the behaviour of its protocol
    ([Node.handle_incoming_event]), which queues it, answers its callback, or
    passes a command to a connection handler ([Select]).  Handlers write frames
    ([BlobProtocol], [UniversalProtocol]) to streams obtained through
    [Upgrades]; what the remote sends comes back through the handler and the
    behaviour's [poll] as an event of the swarm, which
    [Node.handle_swarm_event] looks at and the loop ([SwarmLoop]) publishes to
    every subscriber, among them the calls that listen and the tasks that fill
    the stores.

    ** How code becomes definitions

    A method that changes [self] is a function from state to state; [outcome]
    says whether the call returns or panics ([unwrap], [expect], slices out of
    range, arithmetic overflow with the checks of the build profile).  Callbacks
    that are answered or dropped are returned as a list of [Sent].  A loop is
    run with fuel and [OutOfFuel] for every fuel means that it never ends.  The
    clock, files and the operating system's answers are arguments.  Futures a
    handler polls are the started calls; the poll context says what they answer.
    Hash maps are finite maps whose iteration order is any permutation
    ([hm_iter], [hs_iter]).  [u64] is [N] below [2^64] with explicit additions
    ([u64_add], [u64_sub]).  Concurrency is a sequence of steps: of operations
    of a behaviour, of an actor and its callers ([Memcache]), of the loop, its
    callers, its subscribers and a call that listens ([SwarmLoop], [Listening]),
    of a node's behaviours and handlers ([Callbacks]), of senders and the task
    that receives ([Requests]), of atomic operations of two threads
    ([Concurrent.interleave]).  A command of the shell is what it has done and how
    that ends ([Commands.Run], [Commands.End]): the rest of the program is, for each
    call it makes, a [Commands.CallCx], with the node that takes the request, or a
    full or a closed channel, what comes on callbacks later and the events heard.
    The theorem on the shell holds for all of them whose callbacks carry answers of
    their requests, which is what [Callbacks] shows of the node.

    Code outside the repository is a parameter with laws that state its
    documented behaviour: [Platform], [AsyncIO]/[ReliableIO]/[Network] (streams), the
    generated protobuf code ([BlobHandler.Codec]/[CodecLaws]/[CodecSizes]), [Json]/[JsonLaws]
    (serde_json), [TopicTypes], [ConfigBuilder],
    [GossipBehaviour]/[GossipLaws], [Libp2pKad]/[KadLaws], [Libp2pMdns],
    [Libp2pAutonat], [Libp2pIdentify], [Libp2pSwarm], [Constructors] (of
    behaviours), [Keys]/[KeyLaws] (libp2p's identities),
    [Broadcast]/[BroadcastLaws]/[Lag] (tokio), [Terminal], [Texts] and [GossipTexts]
    (shlex, clap, parsing and printing), [ConfigText] (toml), [HyperTasks] (hyper),
    [NetworkBehaviour], [ConnectionHandler] and [Upgrade] (libp2p).  Those that
    a witness needs have an instance.

    ** What is proved

    - End to end: a file that is offered and accepted arrives byte for byte and
      both callers hear of it ([file_crosses_the_wire], over frames and streams;
      [file_arrives_as_sent], for the behaviours alone), and can be taken back
      by either side before ([either_side_cancels]); messages arrive once and in order
      and their callers are answered ([messages_arrive_in_order]); a peer that
      asked to be advertised is found ([advertised_peer_is_found]); for any sizes
      of reads and writes.
    - Sessions: any sequence of requests at connected nodes implements an abstract
      state: two nodes and the offers that stand ([offers_stay_in_step]), a
      network and the messages received ([network_delivers]), a provider and its
      registry ([provider_implements_registry]).  In those the nodes take turns: what
      is queued is delivered before the next request.
    - Any schedule, for blob transfers: two nodes that make requests, poll, send,
      acknowledge and report whenever they like.  Every transfer follows
      [TransferSpec] ([transfers_follow_their_specification]); what is written is a
      beginning of the right file behind what the destination held
      ([no_byte_out_of_place]); neither node makes the other panic or loop
      ([runs_return]); and without further requests all transfers end
      ([transfers_come_to_an_end], within one round more than [work], which counts
      8 for a record and for each byte left to read, and less for what is queued or
      under way).  The same nodes with their handlers and streams, polled in any
      order, do nothing else ([handlers_implement_the_link]; fuel above [MAX_BODY],
      the longest frame).  A connection that closes is not one of the steps; what the
      behaviour does then is in [BlobBehaviourProps].
    - The tests of the repository for
      transfers, messages, advertisements, topics and the cache are programs on the
      same definitions, and pass.
    - Invariants of every run: the tables of the blob behaviour, the advertised
      peers, the stores of the gossipsub handle, the subscribers of the event
      loop, the addresses kad knows, the connections of peers that are not
      allowed.
    - Refinements: the topic store implements a map of topics, the message store
      a history per peer, the advertise behaviour a plain specification of its
      requests; the cache is linearizable.
    - Requests: taken in the order they were sent; in any run of the node
      answered at most once and with a value of the callback's type, dropped only
      if a remote had to see them, and until then in exactly one place
      ([callbacks_are_settled_once], of the runs in which no step panics).  A call
      that listens subscribes before it sends, and gets the answer that was emitted
      ([listening_call_gets_its_answer]; the other order misses it,
      [late_subscriber_misses_the_answer]).
    - The shell: when its thread ends, waits or panics, what it has done by then,
      and whether [main] was notified ([shell_ends]).
    - Functional behaviour of the operations, errors included: chunks, the end
      of a receive, cancellations, expiry, queries, compositions, negotiated
      streams, the calls of the handles and the files they leave behind, the
      identity of a node from one start to the next.
    - Round trips: messages and frames of both protocols, identities.
    - Termination and liveness: polls of handlers return with the fuel
      [outbound_fuel] (two turns per queued command and three for the ends; each
      turn of the loop uses one of them up), queues drain, and
      where a loop of the code can run for ever, that it does
      ([recv_spins_at_eof], [write_zero_never_ends],
      [universal_recv_spins_at_eof]).  The loops over a stream or a file take
      fuel above the number of bytes: each turn moves at least one.  A poll of
      the hyper handler takes two turns.  A transfer between two nodes ends within
      as many polls of the sender ([rounds]) as two for each byte and two more.
    - The build: for every set of features the assembled structs and everything
      written next to them agree ([features_agree]); the macros for methods expand
      every declaration ([handler_methods_expand]) and those of the program build
      well-typed requests ([program_methods_typed]).
    - Failures the code has: transfers of two peers that share a record
      ([two_senders_share_a_record]), panics a remote can cause
      ([second_acceptance_panics], [short_garbage_panics]), races
      ([naming_a_topic_races], [first_messages_race]), a capacity exceeded by one
      ([capacity_plus_one_advertised]), a swarm that is never polled
      ([swarm_polled_unless_behind]), an identity that is overwritten
      ([node_keeps_its_identity]), addresses lost with one of two connections
      ([addresses_follow_events]), requests that are never sent
      ([requests_are_never_sent]).

    ** What is not modelled

    Logging and tracing, but for the file the log goes to; the layout of tables;
    printing to a standard output that is closed;
    the test of relayed connections, which is about libp2p; the token rules of the composition macros; protocol negotiation inside
    libp2p; transports; the real scheduler (any order of steps is allowed); drop
    order of values without callbacks.  No definitions: the adapters that only
    log ([dcutr.rs], [ping.rs], [upnp.rs]); the placeholders of
    [db] and [net/http]; [protocols/hyper.rs], which is not compiled, but for the
    declaration of its method ([Macros.hyper_methods]). *)

From stdpp Require Import base gmap sets list strings fin_maps.
From Stdlib Require Import Lia NArith.

(** ** Outcomes of a call

    A call of the Rust code returns, panics (an [unwrap], an [expect], an
    arithmetic overflow, an index out of range) or does not return. *)

Inductive outcome (A : Type) : Type :=
| Return (a : A)
| Panic (msg : string)
| OutOfFuel.
Arguments Return {A} a.
Arguments Panic {A} msg.
Arguments OutOfFuel {A}.

(** Rust's [Result] and [Poll]. *)
Inductive result (A E : Type) : Type :=
| Ok (a : A)
| Err (e : E).
Arguments Ok {A E} a.
Arguments Err {A E} e.

Inductive Poll (A : Type) : Type :=
| Ready (a : A)
| Pending.
Arguments Ready {A} a.
Arguments Pending {A}.

Definition obind {A B} (m : outcome A) (f : A → outcome B) : outcome B :=
  match m with
  | Return a => f a
  | Panic s => Panic s
  | OutOfFuel => OutOfFuel
  end.

(** Sequencing, in a scope of its own: [x ← m; k], [' pat ← m; k]. *)
Declare Scope outcome_scope.
Delimit Scope outcome_scope with outcome.
Bind Scope outcome_scope with outcome.
Notation "m ≫= f" := (obind m f) : outcome_scope.
Notation "x ← y ; z" := (obind y (λ x : _, z)) : outcome_scope.
Notation "' x ← y ; z" := (obind y (λ x : _, z)) : outcome_scope.
#[global] Open Scope outcome_scope.

(** [Option::expect] / [Option::unwrap]. *)
Definition expect {A} (o : option A) (msg : string) : outcome A :=
  match o with
  | Some a => Return a
  | None => Panic msg
  end.

Definition is_return {A} (m : outcome A) : Prop := ∃ a, m = Return a.

Lemma bind_return {A B} (m : outcome A) (f : A → outcome B) b :
  m ≫= f = Return b ↔ ∃ a, m = Return a ∧ f a = Return b.
Proof.
  destruct m as [a| |]; simpl; (split; [intros E|intros (a' & E & ?)]); try done; [by eauto|].
  by injection E as <-.
Qed.

Lemma expect_return {A} (o : option A) msg a :
  expect o msg = Return a ↔ o = Some a.
Proof. destruct o; simpl; split; congruence. Qed.

(** Invert every bind that is known to return. *)
Ltac inv_return :=
  repeat match goal with
  | H : _ ≫= _ = Return _ |- _ => apply bind_return in H as (? & ? & ?)
  | H : expect _ _ = Return _ |- _ => apply expect_return in H
  | p : _ * _ |- _ => destruct p
  | _ => progress simplify_eq/=
  end.

(** Sequential application of a fallible step to the elements of a list. *)
Fixpoint fold_outcome {A S} (f : A → S → outcome S) (l : list A) (s : S) : outcome S :=
  match l with
  | [] => Return s
  | a :: l => s' ← f a s; fold_outcome f l s'
  end.

Fixpoint map_outcome {A B} (f : A → outcome B) (l : list A) : outcome (list B) :=
  match l with
  | [] => Return []
  | a :: l => b ← f a; bs ← map_outcome f l; Return (b :: bs)
  end.

Fixpoint filter_outcome {A} (p : A → outcome bool) (l : list A) : outcome (list A) :=
  match l with
  | [] => Return []
  | a :: l => b ← p a; l' ← filter_outcome p l; Return (if (b : bool) then a :: l' else l')
  end.

Lemma fold_outcome_app {A S} (f : A → S → outcome S) l1 l2 s :
  fold_outcome f (l1 ++ l2) s = fold_outcome f l1 s ≫= fold_outcome f l2.
Proof.
  revert s. induction l1 as [|a l1 IH]; intros s; simpl; [done|].
  destruct (f a s); simpl; auto.
Qed.

(** An invariant kept by the step is kept by the fold. *)
Lemma fold_outcome_inv {A S} (f : A → S → outcome S) (I : S → Prop) :
  (∀ a s s', I s → f a s = Return s' → I s') →
  ∀ l s s', I s → fold_outcome f l s = Return s' → I s'.
Proof.
  intros Hstep l. induction l as [|a l IH]; intros s s' HI Hf; simpl in Hf.
  - by inv_return.
  - inv_return. eauto.
Qed.

Lemma filter_outcome_total {A} (p : A → outcome bool) (q : A → bool) l :
  (∀ a, a ∈ l → p a = Return (q a)) →
  filter_outcome p l = Return (filter (λ a, q a = true) l).
Proof.
  induction l as [|a l IH]; intros Hp; [done|]. simpl.
  rewrite (Hp a) by set_solver. simpl.
  rewrite IH by set_solver. simpl.
  rewrite filter_cons. destruct (q a); [rewrite decide_True|rewrite decide_False]; done.
Qed.

Lemma map_outcome_total {A B} (f : A → outcome B) (g : A → B) l :
  (∀ a, a ∈ l → f a = Return (g a)) → map_outcome f l = Return (g <$> l).
Proof.
  induction l as [|a l IH]; intros Hf; [done|]. simpl.
  rewrite (Hf a) by set_solver. simpl.
  rewrite IH by set_solver. done.
Qed.

(** ** Loops

    A Rust [loop] is a body that continues with a new state ([inl]) or breaks
    with a result ([inr]); it is run with fuel, and [OutOfFuel] for every fuel
    is a loop that never ends. *)
Fixpoint loop {S R} (body : S → outcome (S + R)) (fuel : nat) (s : S) : outcome R :=
  match fuel with
  | O => OutOfFuel
  | S fuel' =>
      next ← body s;
      match next with
      | inl s' => loop body fuel' s'
      | inr r => Return r
      end
  end.

(** If every iteration keeps an invariant and decreases a measure, fuel above
    the measure is enough: the loop does not run out of it. *)
Lemma loop_terminates {S R} (body : S → outcome (S + R)) (I : S → Prop) (m : S → nat) :
  (∀ s, I s → body s ≠ OutOfFuel) →
  (∀ s s', I s → body s = Return (inl s') → I s' ∧ m s' < m s) →
  ∀ fuel s, I s → m s < fuel → loop body fuel s ≠ OutOfFuel.
Proof.
  intros Hbody Hdec fuel. induction fuel as [|fuel IH]; intros s HI Hm; [lia|].
  simpl. destruct (body s) as [[s'|r]|msg|] eqn:E; simpl; try done.
  - destruct (Hdec s s' HI E). apply IH; [done|lia].
  - by destruct (Hbody s HI).
Qed.

(** The same for a body that never panics under the invariant: the loop
    returns, with a result that satisfies what every break guarantees. *)
Lemma loop_returns {S R} (body : S → outcome (S + R)) (I : S → Prop) (m : S → nat)
    (Q : R → Prop) :
  (∀ s, I s → (∃ s', body s = Return (inl s') ∧ I s' ∧ m s' < m s) ∨
              (∃ r, body s = Return (inr r) ∧ Q r)) →
  ∀ fuel s, I s → m s < fuel → ∃ r, loop body fuel s = Return r ∧ Q r.
Proof.
  intros Hbody fuel. induction fuel as [|fuel IH]; intros s HI Hm; [lia|]. simpl.
  destruct (Hbody s HI) as [(s' & -> & HI' & Hlt)|(r & -> & HQ)]; simpl; [|by eauto].
  apply IH; [done|lia].
Qed.

(** Partial correctness: what an invariant and the breaks give. *)
Lemma loop_inv {S R} (body : S → outcome (S + R)) (I : S → Prop) (Q : R → Prop) :
  (∀ s s', I s → body s = Return (inl s') → I s') →
  (∀ s r, I s → body s = Return (inr r) → Q r) →
  ∀ fuel s r, I s → loop body fuel s = Return r → Q r.
Proof.
  intros Hc Hb fuel. induction fuel as [|fuel IH]; intros s r HI; simpl; [done|].
  destruct (body s) as [[s'|r']|msg|] eqn:E; simpl; [by eauto| |done|done].
  intros [= <-]. eauto.
Qed.

(** A loop that stays inside a set of states that always continue never ends. *)
Lemma loop_diverges {S R} (body : S → outcome (S + R)) (I : S → Prop) :
  (∀ s, I s → ∃ s', body s = Return (inl s') ∧ I s') →
  ∀ fuel s, I s → loop body fuel s = OutOfFuel.
Proof.
  intros Hc fuel. induction fuel as [|fuel IH]; intros s HI; simpl; [done|].
  destruct (Hc s HI) as (s' & -> & HI'). simpl. auto.
Qed.

Lemma loop_fuel_mono {S R} (body : S → outcome (S + R)) fuel fuel' s :
  fuel ≤ fuel' → loop body fuel s ≠ OutOfFuel → loop body fuel' s = loop body fuel s.
Proof.
  revert fuel' s. induction fuel as [|fuel IH]; intros fuel' s Hle; simpl; [done|].
  destruct fuel' as [|fuel']; [lia|]. simpl.
  destruct (body s) as [[s'|r]|msg|]; simpl; auto with lia.
Qed.

(** ** The platform

    What the sources take from outside: libp2p's [PeerId] (an opaque hashable
    identifier), the build profile's overflow checks, the iteration order of
    [HashMap]/[HashSet] (some permutation of the contents), the text that
    [Debug]/[Display] give an [io::Error] or a peer, [String::from_utf8_lossy], the xxHash
    checksum, timers
    (a [Delay] polled in some context), and the remaining identifiers of libp2p
    that the sources only pass around. *)

Inductive ErrorKind :=
| NotFound | PermissionDenied | AlreadyExists | Interrupted | WriteZero
| UnexpectedEof | InvalidData | ConnectionAborted | OtherErrorKind (code : N).

#[export] Instance ErrorKind_eq_dec : EqDecision ErrorKind.
Proof. solve_decision. Defined.

(** [io::Error]: a kind, and the message of the errors built with
    [io::Error::new]. *)
Record IoError := { io_kind : ErrorKind; io_message : string }.
Definition os_error (k : ErrorKind) : IoError := {| io_kind := k; io_message := "" |}.

Class Platform := {
  PeerId : Type;
  PeerId_eq_dec :: EqDecision PeerId;
  PeerId_countable :: Countable PeerId;
  overflow_checks : bool;
  hm_iter : ∀ A : Type, gmap N A → list (N * A);
  hm_iter_perm : ∀ A (m : gmap N A), hm_iter A m ≡ₚ map_to_list m;
  hs_iter : gset PeerId → list PeerId;
  hs_iter_perm : ∀ s, hs_iter s ≡ₚ elements s;
  io_debug : IoError → string;
  io_display : IoError → string;
  kind_display : ErrorKind → string;
  xxh3_128 : list Byte.byte → N;
  xxh3_128_u128 : ∀ bs, (xxh3_128 bs < 2 ^ 128)%N;
  peer_display : PeerId → string;
  utf8_lossy : list Byte.byte → string;
  PollCx : Type;
  Delay : Type;
  delay_new : N → Delay;
  delay_reset : N → Delay → Delay;
  delay_poll : PollCx → Delay → bool * Delay;
  Multiaddr : Type;
  Multiaddr_eq_dec :: EqDecision Multiaddr;
  ConnectionId : Type;
  ListenerId : Type;
  DialOpts : Type;
  ListenOpts : Type;
}.
Arguments hm_iter {_ A} _.

Lemma elem_of_hm_iter {P : Platform} {A} (m : gmap N A) k v :
  (k, v) ∈ hm_iter m ↔ m !! k = Some v.
Proof. by rewrite hm_iter_perm, elem_of_map_to_list. Qed.

Lemma elem_of_hs_iter {P : Platform} (s : gset PeerId) x : x ∈ hs_iter s ↔ x ∈ s.
Proof. by rewrite hs_iter_perm, elem_of_elements. Qed.

Lemma hm_iter_empty {P : Platform} {A} : hm_iter (∅ : gmap N A) = [].
Proof. apply Permutation_nil_r. by rewrite hm_iter_perm, map_to_list_empty. Qed.

(** ** Maps: a lookup at the key that was changed, or beside it *)
Ltac at_key h k :=
  destruct (decide (h = k)) as [->|];
  rewrite ?lookup_insert_eq, ?lookup_delete_eq, ?lookup_alter_eq, ?lookup_insert_ne,
    ?lookup_delete_ne, ?lookup_alter_ne by done.

(** ** Machine integers: [u64] in [N], with the profile's overflow behaviour. *)
Section u64.
Context {P : Platform}.

Definition U64 : N := 2 ^ 64.

Definition u64_add (a b : N) : outcome N :=
  if (a + b <? U64)%N then Return (a + b)%N
  else if overflow_checks then Panic "attempt to add with overflow"
  else Return ((a + b) mod U64)%N.

Definition u64_sub (a b : N) : outcome N :=
  if (b <=? a)%N then Return (a - b)%N
  else if overflow_checks then Panic "attempt to subtract with overflow"
  else Return (a + U64 - b)%N.

Lemma u64_add_small a b : (a + b < U64)%N → u64_add a b = Return (a + b)%N.
Proof. intros H. unfold u64_add. by rewrite (proj2 (N.ltb_lt _ _) H). Qed.

Lemma u64_sub_small a b : (b ≤ a)%N → u64_sub a b = Return (a - b)%N.
Proof. intros H. unfold u64_sub. by rewrite (proj2 (N.leb_le _ _) H). Qed.

Lemma u64_add_range a b c : u64_add a b = Return c → (c < U64)%N.
Proof.
  unfold u64_add. destruct (N.ltb_spec (a + b) U64); [by intros [= <-]|].
  destruct overflow_checks; [done|]. intros [= <-]. by apply N.mod_lt.
Qed.
End u64.
Arguments U64 : simpl never.
Lemma U64_eq : U64 = 18446744073709551616%N.
Proof. reflexivity. Qed.

(** A concrete platform, for the witnesses: peers are numbers, maps are
    iterated in the order stdpp lists them, overflow checks are on, a timer is
    its deadline and a poll context the current time. *)
Definition demo_platform : Platform := {|
  PeerId := N;
  PeerId_eq_dec := N.eq_dec;
  PeerId_countable := N_countable;
  overflow_checks := true;
  hm_iter := λ A m, map_to_list m;
  hm_iter_perm := λ A m, reflexivity _;
  hs_iter := λ s, elements s;
  hs_iter_perm := λ s, reflexivity _;
  io_debug := λ _, "Os";
  io_display := λ _, "os error";
  kind_display := λ _, "kind";
  xxh3_128 := λ bs, (foldl (λ h b, h * 31 + Byte.to_N b) 7 bs mod 2 ^ 128)%N;
  xxh3_128_u128 := λ bs, N.mod_lt _ (2 ^ 128) ltac:(done);
  peer_display := λ _, "peer";
  utf8_lossy := λ bs, String.string_of_list_byte bs;
  PollCx := N;
  Delay := N;
  delay_new := λ ms, ms;
  delay_reset := λ ms d, (d + ms)%N;
  delay_poll := λ now d, ((d <=? now)%N, d);
  Multiaddr := string;
  Multiaddr_eq_dec := String.eq_dec;
  ConnectionId := N;
  ListenerId := N;
  DialOpts := unit;
  ListenOpts := unit;
|}.
