(* ===== verification/Std.v ===== *)
(** * The parts of Rust's standard library the sources rely on

    - bytes, big-endian integers ([u64::to_be_bytes], [from_be_bytes]);
    - [std::fs::File] as contents, a cursor and the operating system's answers;
    - [std::path::Path]: [file_name], [PathBuf::push] (Unix rules);
    - [oneshot::Sender] callbacks and the replies sent on them. *)

From stdpp Require Import base gmap sets list strings fin_maps.
From Stdlib Require Import Lia NArith Ascii.
From S2P Require Import Prelude.

(** ** Bytes *)
Abbreviation byte := Byte.byte.
Abbreviation bytes := (list Byte.byte).

Definition byte_to_N (b : byte) : N := Byte.to_N b.
Definition byte_of_N (n : N) : byte := default Byte.x00 (Byte.of_N (n mod 256)).

Lemma byte_to_N_lt b : (byte_to_N b < 256)%N.
Proof. pose proof (Byte.to_N_bounded b). unfold byte_to_N. lia. Qed.

Lemma byte_of_to_N b : byte_of_N (byte_to_N b) = b.
Proof.
  unfold byte_of_N, byte_to_N.
  rewrite N.mod_small by (pose proof (Byte.to_N_bounded b); lia).
  by rewrite Byte.of_to_N.
Qed.

Lemma byte_to_of_N n : byte_to_N (byte_of_N n) = (n mod 256)%N.
Proof.
  unfold byte_of_N, byte_to_N.
  destruct (Byte.of_N (n mod 256)) as [b|] eqn:E; simpl.
  - by apply Byte.to_of_N.
  - apply Byte.of_N_None_iff in E. pose proof (N.mod_lt n 256). lia.
Qed.

#[export] Instance byte_eq_dec : EqDecision byte.
Proof. intros x y. destruct (Byte.byte_eq_dec x y); [left|right]; done. Defined.

(** Big-endian encoding of a number on [k] bytes, and its inverse. *)
Fixpoint to_be (k : nat) (n : N) : bytes :=
  match k with
  | O => []
  | S k' => to_be k' (n / 256) ++ [byte_of_N n]
  end.

Definition from_be (bs : bytes) : N :=
  foldl (λ acc b, (acc * 256 + byte_to_N b)%N) 0%N bs.

Definition u64_to_be_bytes (n : N) : bytes := to_be 8 n.
Definition u128_to_be_bytes (n : N) : bytes := to_be 16 n.

Lemma length_to_be k n : length (to_be k n) = k.
Proof. revert n. induction k; intros n; simpl; [done|]. rewrite length_app, IHk. simpl. lia. Qed.

Lemma from_be_snoc bs b : from_be (bs ++ [b]) = (from_be bs * 256 + byte_to_N b)%N.
Proof. unfold from_be. by rewrite foldl_app. Qed.

Lemma from_to_be k n : from_be (to_be k n) = (n mod 256 ^ N.of_nat k)%N.
Proof.
  revert n. induction k as [|k IH]; intros n; simpl to_be.
  - by rewrite N.mod_1_r.
  - rewrite from_be_snoc, IH, byte_to_of_N.
    rewrite Nat2N.inj_succ, N.pow_succ_r'.
    rewrite N.Div0.mod_mul_r. lia.
Qed.

Lemma from_to_be_small k n : (n < 256 ^ N.of_nat k)%N → from_be (to_be k n) = n.
Proof. intros. rewrite from_to_be. by apply N.mod_small. Qed.

Lemma to_be_inj k n m : (n < 256 ^ N.of_nat k)%N → (m < 256 ^ N.of_nat k)%N →
  to_be k n = to_be k m → n = m.
Proof. intros Hn Hm E. rewrite <-(from_to_be_small k n), <-(from_to_be_small k m), E; done. Qed.

(** Big-endian numbers of one length are equal only if their bytes are. *)
Lemma from_be_inj l1 l2 : length l1 = length l2 → from_be l1 = from_be l2 → l1 = l2.
Proof.
  revert l2. induction l1 as [|b1 l1 IH] using rev_ind; intros l2 Hlen Heq.
  { by destruct l2. }
  destruct l2 as [|b2 l2 _] using rev_ind; [rewrite length_app in Hlen; simpl in Hlen; lia|].
  rewrite !length_app in Hlen. rewrite !from_be_snoc in Heq.
  pose proof (byte_to_N_lt b1). pose proof (byte_to_N_lt b2).
  assert (from_be l1 = from_be l2 ∧ byte_to_N b1 = byte_to_N b2) as [E1 E2] by lia.
  rewrite (IH l2) by (simpl in *; lia || done). f_equal. f_equal.
  by rewrite <-(byte_of_to_N b1), E2, byte_of_to_N.
Qed.

(** The leading byte of a big-endian number is zero when the number fits in
    the remaining bytes. *)
Lemma to_be_head k n : (n < 256 ^ N.of_nat k)%N →
  ∃ l, to_be (S k) n = Byte.x00 :: l ∧ length l = k ∧ from_be l = n.
Proof.
  revert n. induction k as [|k IH]; intros n Hn.
  - exists []. simpl in *. assert (n = 0)%N as -> by lia. done.
  - destruct (IH (n / 256)%N) as (l & El & Hl & Hf).
    { rewrite Nat2N.inj_succ, N.pow_succ_r' in Hn. apply N.Div0.div_lt_upper_bound. lia. }
    exists (l ++ [byte_of_N n]). split; [|split].
    + change (to_be (S (S k)) n) with (to_be (S k) (n / 256) ++ [byte_of_N n]).
      by rewrite El.
    + rewrite length_app. simpl. lia.
    + rewrite from_be_snoc, Hf, byte_to_of_N.
      rewrite (N.div_mod' n 256) at 3. lia.
Qed.

(** ** Files

    [std::fs::File]: the bytes on disk, the cursor, whether [metadata] works,
    and the operating system's answer to the n-th transfer: fail, or move at
    most so many bytes.  A read moves no byte only at the end of the file or
    into an empty buffer; a write may accept no byte at all. *)
Inductive os_step :=
| OsFail (k : ErrorKind)
| OsUpTo (n : nat).

Record File := MkFile {
  f_bytes : bytes;
  f_pos : nat;
  f_metadata : result unit ErrorKind;
  f_os : nat → os_step;
  f_calls : nat;
}.

Module File.

Definition metadata_len (f : File) : result N ErrorKind :=
  match f_metadata f with
  | Ok _ => Ok (N.of_nat (length (f_bytes f)))
  | Err k => Err k
  end.

Definition advance (data : bytes) (n : nat) (f : File) : File :=
  {| f_bytes := data; f_pos := f_pos f + n; f_metadata := f_metadata f;
     f_os := f_os f; f_calls := S (f_calls f) |}.

(** [Read::read] into a buffer of [n] bytes. *)
Definition read (n : N) (f : File) : result bytes ErrorKind * File :=
  match f_os f (f_calls f) with
  | OsFail k => (Err k, advance (f_bytes f) 0 f)
  | OsUpTo m =>
      let rest := drop (f_pos f) (f_bytes f) in
      let count := N.min n (N.of_nat (length rest `min` (1 `max` m))) in
      let got := take (N.to_nat count) rest in
      (Ok got, advance (f_bytes f) (length got) f)
  end.

(** [Write::write]: the accepted prefix overwrites the file at the cursor. *)
Definition write (buf : bytes) (f : File) : result nat ErrorKind * File :=
  match f_os f (f_calls f) with
  | OsFail k => (Err k, advance (f_bytes f) 0 f)
  | OsUpTo m =>
      let n := length buf `min` m in
      (Ok n,
       advance (take (f_pos f) (f_bytes f) ++ take n buf ++ drop (f_pos f + n) (f_bytes f)) n f)
  end.

(** What is left to read. *)
Definition rest (f : File) : bytes := drop (f_pos f) (f_bytes f).

(** The cursor is at the end of the contents, as in a file only appended to. *)
Definition at_end (f : File) : Prop := f_pos f = length (f_bytes f).

(** The operating system never fails; for writes, every call makes progress. *)
Definition os_reliable (f : File) : Prop := ∀ i, ∃ n, f_os f i = OsUpTo n.
Definition os_progress (f : File) : Prop :=
  ∀ i, (∃ k, f_os f i = OsFail k) ∨ ∃ n, f_os f i = OsUpTo (S n).

Lemma f_os_advance data n f : f_os (advance data n f) = f_os f.
Proof. done. Qed.

Lemma read_ok n f bs f' :
  read n f = (Ok bs, f') →
  rest f = bs ++ rest f' ∧ (N.of_nat (length bs) ≤ n)%N ∧ (bs = [] → n = 0%N ∨ rest f = []) ∧
  f_bytes f' = f_bytes f ∧ f_os f' = f_os f.
Proof.
  unfold read, rest. destruct (f_os f (f_calls f)) as [k|m]; [done|].
  intros [= <- <-]. cbn [advance f_bytes f_pos f_os]. set (r := drop (f_pos f) (f_bytes f)).
  set (k := N.to_nat _). assert (Hk : k ≤ length r ∧ (N.of_nat k ≤ n)%N) by (subst k; lia).
  split; [|split; [|split]]; try done.
  - rewrite length_take, <-drop_drop. fold r. rewrite Nat.min_l by apply Hk.
    by rewrite take_drop.
  - rewrite length_take. lia.
  - intros Hnil%(f_equal length). rewrite length_take in Hnil. cbn [length] in Hnil.
    destruct (decide (length r = 0)) as [E|E]; [right; by apply nil_length_inv|left].
    subst k. lia.
Qed.

Lemma write_ok_at_end buf f n f' :
  at_end f → write buf f = (Ok n, f') →
  n ≤ length buf ∧ f_bytes f' = f_bytes f ++ take n buf ∧ at_end f' ∧ f_os f' = f_os f.
Proof.
  unfold write, at_end. intros He. destruct (f_os f (f_calls f)) as [k|m]; [done|].
  intros [= <- <-]. simpl. rewrite He, firstn_all, (drop_ge _ (_ + _)) by lia.
  rewrite app_nil_r. split; [lia|]. split; [done|]. split; [|done].
  rewrite length_app, length_take. lia.
Qed.

Lemma write_err buf f k f' :
  write buf f = (Err k, f') → f_bytes f' = f_bytes f ∧ f_os f' = f_os f ∧ f_pos f' = f_pos f.
Proof.
  unfold write. destruct (f_os f (f_calls f)); [|done]. intros [= <- <-]. simpl.
  auto with lia.
Qed.

End File.

(** ** Paths (Unix) *)
Fixpoint split_slash (s : string) : list string :=
  match s with
  | EmptyString => [EmptyString]
  | String c s' =>
      match split_slash s' with
      | [] => []
      | w :: ws => if decide (c = "/"%char) then EmptyString :: w :: ws else String c w :: ws
      end
  end.

(** [Path::file_name]: the last component, when it is a normal one. *)
Definition file_name (p : string) : option string :=
  match last (filter (λ w, w ≠ "" ∧ w ≠ ".") (split_slash p)) with
  | Some w => if decide (w = "..") then None else Some w
  | None => None
  end.

Fixpoint last_char (s : string) : option ascii :=
  match s with
  | EmptyString => None
  | String c EmptyString => Some c
  | String _ s' => last_char s'
  end.

(** [PathBuf::push]: an absolute path replaces the buffer. *)
Definition path_push (self path : string) : string :=
  match path with
  | String "/" _ => path
  | _ =>
      match last_char self with
      | None | Some "/"%char => self +:+ path
      | Some _ => self +:+ "/" +:+ path
      end
  end.

Lemma split_slash_cons s : ∃ w ws, split_slash s = w :: ws.
Proof. induction s as [|c s (w & ws & E)]; [by eexists _, _|]. simpl. rewrite E. destruct (decide _); by eexists _, _. Qed.
Lemma split_slash_app a b : split_slash (a +:+ "/" +:+ b) = split_slash a ++ split_slash b.
Proof.
  induction a as [|c a IH].
  - change ("" +:+ "/" +:+ b) with (String "/" b). cbn [split_slash]. destruct (split_slash_cons b) as (w & ws & ->). done.
  - change (String c a +:+ "/" +:+ b) with (String c (a +:+ "/" +:+ b)). cbn [split_slash]. rewrite IH.
    destruct (split_slash_cons a) as (w & ws & ->). simpl. by destruct (decide _).
Qed.
Lemma split_slash_component p w : w ∈ split_slash p → split_slash w = [w].
Proof.
  revert w. induction p as [|c p IH]; intros w.
  - by intros ->%list_elem_of_singleton.
  - cbn [split_slash]. destruct (split_slash_cons p) as (v & vs & E). rewrite E in IH |- *. destruct (decide (c = _)) as [Hc|Hc].
    + intros [->|H]%elem_of_cons; [done|by apply IH].
    + intros [->|H]%elem_of_cons; [|apply IH; by right]. cbn [split_slash]. rewrite IH by by left. by rewrite decide_False.
Qed.
Lemma string_app_slash a b : (a +:+ "/") +:+ b = a +:+ "/" +:+ b.
Proof. induction a as [|c a IH]; [done|]. change (String c ((a +:+ "/") +:+ b) = String c (a +:+ "/" +:+ b)). by rewrite IH. Qed.
Lemma last_char_slash s : last_char s = Some "/"%char → ∃ t, s = t +:+ "/".
Proof.
  induction s as [|c s IH]; [done|]. destruct s as [|c' s]; cbn [last_char].
  - intros [= ->]. by exists "".
  - intros [t Ht]%IH. rewrite Ht. by exists (String c t).
Qed.
Lemma last_char_None s : last_char s = None → s = "".
Proof. induction s as [|c s IH]; [done|]. destruct s; [done|]. intros H. by apply IH in H. Qed.
Lemma path_push_relative d name : split_slash name = [name] →
  path_push d name = match last_char d with None | Some "/"%char => d +:+ name | Some _ => d +:+ "/" +:+ name end.
Proof.
  destruct name as [|c s]; [done|]. cbn [split_slash]. destruct (split_slash_cons s) as (w & ws & ->).
  destruct (decide (c = "/"%char)) as [|Hc]; [done|]. intros _. by destruct c as [[] [] [] [] [] [] [] []].
Qed.
(** A name that is one lands in the directory it is pushed to. *)
Lemma file_name_pushed d p name : file_name p = Some name → file_name (path_push d name) = Some name.
Proof.
  unfold file_name at 1. destruct (last _) as [w|] eqn:Hl; [|done]. destruct (decide (w = "..")) as [|Hdots]; [done|]. intros [= ->].
  apply last_Some_elem_of, list_elem_of_filter in Hl as [Hw Hin]. apply split_slash_component in Hin.
  assert (∀ a, file_name (a +:+ "/" +:+ name) = Some name) as Hdir.
  { intros a. unfold file_name. rewrite split_slash_app, Hin, filter_app, filter_cons, decide_True, filter_nil, last_snoc by done.
    by rewrite decide_False. }
  assert (file_name name = Some name) as Hname.
  { unfold file_name. rewrite Hin, filter_cons, decide_True, filter_nil by done. simpl. by rewrite decide_False. }
  rewrite path_push_relative by done. destruct (last_char d) as [c|] eqn:Hd; [|by apply last_char_None in Hd as ->].
  destruct (decide (c = "/"%char)) as [->|Hc].
  - apply last_char_slash in Hd as [t ->]. rewrite string_app_slash. apply Hdir.
  - rewrite <-(Hdir d). f_equal. by destruct c as [[] [] [] [] [] [] [] []].
Qed.

Example file_name_plain : file_name "/home/a/f.txt" = Some "f.txt".
Proof. reflexivity. Qed.
Example file_name_parent : file_name "dir/.." = None.
Proof. reflexivity. Qed.
Example path_push_rel : path_push "dl" "f.txt" = "dl/f.txt".
Proof. reflexivity. Qed.
Example path_push_abs : path_push "dl" "/etc/f" = "/etc/f".
Proof. reflexivity. Qed.

(** ** [std::time::Duration], in nanoseconds *)
Definition from_secs (s : N) : N := s * 1000000000.
Definition as_secs (d : N) : N := d / 1000000000.

Lemma as_from_secs s : as_secs (from_secs s) = s.
Proof. unfold as_secs, from_secs. by rewrite N.div_mul. Qed.

Definition newline : string := String (Ascii.ascii_of_nat 10) EmptyString.

(** ** [assert!] *)
Definition assert (b : bool) : outcome () := if b then Return () else Panic "assertion failed".

(** ** [str::contains] *)
Definition contains (pattern s : string) : bool :=
  match String.index 0 pattern s with Some _ => true | None => false end.

(** ** Callbacks

    A [oneshot::Sender] is used at most once: it is answered or dropped.  The
    receiver may be gone already, which only [send(..).expect(..)] notices. *)
Record Callback := { cb_id : N; cb_open : bool }.

Inductive Sent (A : Type) :=
| Answered (cb : Callback) (a : A)
| Dropped (cb : Callback).
Arguments Answered {A} cb a.
Arguments Dropped {A} cb.

(** The macro [handle_callback_sender!]: a closed channel is only logged. *)
Definition handle_callback_sender {A} (message : A) (sender : Callback) : list (Sent A) :=
  [Answered sender message].

(** [sender.send(message).expect(msg)]. *)
Definition send_expect {A} (message : A) (sender : Callback) (msg : string) : outcome (list (Sent A)) :=
  if cb_open sender then Return [Answered sender message] else Panic msg.
