(* ===== verification/Files.v ===== *)
(** * The file system, as [std::fs] shows it

    Module [Files]: a map from paths to directories and files, the ways the
    sources open files and make directories, [Write::write_all] and [Read::read_to_end].  Opening can
    be refused by the operating system, and every transfer can fail or be short
    ([Std.File]).  Every opening starts at the beginning of the file: contents
    are kept with the cursor there. *)

From stdpp Require Import base gmap sets list strings fin_maps.
From Stdlib Require Import Lia NArith.
From S2P Require Import Prelude Std.

Module Files.

(** ** Opening files *)
Inductive Node := Directory | Regular (f : File).
Record Fs := {
  nodes : gmap string Node;
  refuse : string → option ErrorKind;
  fresh_os : string → nat → os_step;
}.
Definition is_dir (path : string) (fs : Fs) : bool :=
  match nodes fs !! path with Some Directory => true | _ => false end.

(** What is opened: a file, or a handle to a directory, which has no bytes. *)
Definition opened (path : string) (n : Node) (fs : Fs) : File :=
  match n with
  | Regular f => f
  | Directory => {| f_bytes := []; f_pos := 0; f_metadata := Ok (); f_os := fresh_os fs path; f_calls := 0 |}
  end.

(** [OpenOptions::new().read(true).write(false).open(path)]. *)
Definition open_read (path : string) (fs : Fs) : result File ErrorKind :=
  match refuse fs path with
  | Some k => Err k
  | None =>
      match nodes fs !! path with
      | None => Err NotFound
      | Some n => Ok (opened path n fs)
      end
  end.

(** [OpenOptions::new().create_new(true).read(true).write(true).open(path)]. *)
Definition empty_file (path : string) (fs : Fs) : File :=
  {| f_bytes := []; f_pos := 0; f_metadata := Ok (); f_os := fresh_os fs path; f_calls := 0 |}.
Definition create_new (path : string) (fs : Fs) : result File ErrorKind * Fs :=
  match refuse fs path with
  | Some k => (Err k, fs)
  | None =>
      match nodes fs !! path with
      | Some _ => (Err AlreadyExists, fs)
      | None =>
          (Ok (empty_file path fs),
           {| nodes := <[path := Regular (empty_file path fs)]> (nodes fs); refuse := refuse fs;
              fresh_os := fresh_os fs |})
      end
  end.

(** [fs::File::create(path)]: the file is made, or its contents are dropped. *)
Definition IsADirectory : ErrorKind := OtherErrorKind 21.
Definition set_file (path : string) (f : File) (fs : Fs) : Fs :=
  {| nodes := <[path := Regular f]> (nodes fs); refuse := refuse fs; fresh_os := fresh_os fs |}.
Definition create (path : string) (fs : Fs) : result File ErrorKind * Fs :=
  match refuse fs path with
  | Some k => (Err k, fs)
  | None =>
      match nodes fs !! path with
      | Some Directory => (Err IsADirectory, fs)
      | _ => (Ok (empty_file path fs), set_file path (empty_file path fs) fs)
      end
  end.

(** [fs::create_dir(path)]. *)
Definition create_dir (path : string) (fs : Fs) : result unit ErrorKind * Fs :=
  match refuse fs path with
  | Some k => (Err k, fs)
  | None =>
      match nodes fs !! path with
      | Some _ => (Err AlreadyExists, fs)
      | None => (Ok tt, {| nodes := <[path := Directory]> (nodes fs); refuse := refuse fs; fresh_os := fresh_os fs |})
      end
  end.

(** What the file holds once the handle is closed. *)
Definition on_disk (path : string) (f : File) (fs : Fs) : File :=
  {| f_bytes := f_bytes f; f_pos := 0; f_metadata := Ok (); f_os := fresh_os fs path; f_calls := 0 |}.

(** ** [Write::write_all] *)
Definition write_body (s : bytes * File) : outcome ((bytes * File) + (result unit ErrorKind * File)) :=
  let '(buf, f) := s in
  match buf with
  | [] => Return (inr (Ok tt, f))
  | _ =>
      match File.write buf f with
      | (Ok O, f) => Return (inr (Err WriteZero, f))
      | (Ok n, f) => Return (inl (drop n buf, f))
      | (Err Interrupted, f) => Return (inl (buf, f))
      | (Err e, f) => Return (inr (Err e, f))
      end
  end.
Definition write_all (fuel : nat) (buf : bytes) (f : File) : outcome (result unit ErrorKind * File) :=
  loop write_body fuel (buf, f).

(** ** [Read::read_to_end]: what was read, also when an error ends it *)
Definition read_body (s : bytes * File) : outcome ((bytes * File) + (bytes * result unit ErrorKind)) :=
  let '(acc, f) := s in
  match File.read 8192 f with
  | (Ok [], f) => Return (inr (acc, Ok tt))
  | (Ok got, f) => Return (inl (acc ++ got, f))
  | (Err Interrupted, f) => Return (inl (acc, f))
  | (Err e, f) => Return (inr (acc, Err e))
  end.
Definition read_to_end (fuel : nat) (f : File) : outcome (bytes * result unit ErrorKind) :=
  loop read_body fuel ([], f).

(** [fs::read(path)]. *)
Definition read (fuel : nat) (path : string) (fs : Fs) : outcome (result bytes ErrorKind) :=
  if is_dir path fs then Return (Err (default IsADirectory (refuse fs path)))
  else
    match open_read path fs with
    | Err e => Return (Err e)
    | Ok f =>
        ' (buf, r) ← read_to_end fuel f;
        Return (match r with Ok _ => Ok buf | Err e => Err e end)
    end.

(** ** What they do *)

(** Only the path itself can change. *)
Lemma create_only path fs q : q ≠ path → nodes (create path fs).2 !! q = nodes fs !! q.
Proof.
  intros Hq. unfold create. destruct (refuse fs path); [done|].
  destruct (nodes fs !! path) as [[|f]|]; [done| |]; cbn; by rewrite lookup_insert_ne.
Qed.
Lemma create_dir_only path fs q : q ≠ path → nodes (create_dir path fs).2 !! q = nodes fs !! q.
Proof.
  intros Hq. unfold create_dir. destruct (refuse fs path); [done|].
  destruct (nodes fs !! path); [done|]; cbn; by rewrite lookup_insert_ne.
Qed.
Lemma create_ok path fs f : (create path fs).1 = Ok f → nodes (create path fs).2 !! path = Some (Regular f).
Proof.
  unfold create. destruct (refuse fs path); [done|].
  destruct (nodes fs !! path) as [[|g]|]; [done| |]; intros [= <-]; cbn; by rewrite lookup_insert_eq.
Qed.

(** The operating system takes at least a byte each time. *)
Definition takes_bytes (os : nat → os_step) : Prop := ∀ i, ∃ n, os i = OsUpTo (S n).

Lemma write_all_spec fuel buf f r f' : File.at_end f → write_all fuel buf f = Return (r, f') →
  ∃ k, f_bytes f' = f_bytes f ++ take k buf ∧ (r = Ok tt → take k buf = buf).
Proof.
  intros He. revert r f'.
  cut (∀ q, write_all fuel buf f = Return q →
    ∃ k, f_bytes q.2 = f_bytes f ++ take k buf ∧ (q.1 = Ok tt → take k buf = buf)).
  { intros H r f' Hw. by apply (H (r, f')). }
  unfold write_all. intros q.
  apply (loop_inv write_body
    (λ '(b, g), File.at_end g ∧ ∃ k, b = drop k buf ∧ f_bytes g = f_bytes f ++ take k buf)
    (λ q, ∃ k, f_bytes q.2 = f_bytes f ++ take k buf ∧ (q.1 = Ok tt → take k buf = buf))).
  - intros [b g] [b' g'] (Hg & k & -> & Hk) Hs. unfold write_body in Hs.
    destruct (drop k buf) as [|x xs] eqn:Ed; [done|]. rewrite <-Ed in *.
    destruct (File.write (drop k buf) g) as [[[|n]|[]] g1] eqn:Hw; inv_return.
    + apply File.write_ok_at_end in Hw as (Hn & Hb & Hg1 & _); [|done].
      split; [done|]. exists (k + S n). rewrite drop_drop. split; [done|].
      by rewrite Hb, Hk, <-app_assoc, take_take_drop.
    + apply File.write_err in Hw as (Hb & _ & Hp). split; [unfold File.at_end in *; congruence|].
      exists k. split; [done|congruence].
  - intros [b g] [r g'] (Hg & k & -> & Hk) Hs. unfold write_body in Hs. simpl.
    destruct (drop k buf) as [|x xs] eqn:Ed.
    { inv_return. exists k. split; [done|]. intros _. apply take_ge.
      apply (f_equal length) in Ed. rewrite length_drop in Ed. cbn in Ed. lia. }
    rewrite <-Ed in *.
    destruct (File.write (drop k buf) g) as [[[|n]|[]] g1] eqn:Hw; inv_return;
      try (apply File.write_err in Hw as (Hb & _); exists k; split; [congruence|done]).
    apply File.write_ok_at_end in Hw as (_ & Hb & _); [|done]. exists k. split; [|done].
    rewrite Hb, Hk. cbn. by rewrite app_nil_r.
  - split; [done|]. exists 0. split; [done|]. cbn. by rewrite app_nil_r.
Qed.

Lemma write_all_returns fuel buf f : takes_bytes (f_os f) → length buf < fuel →
  ∃ q, write_all fuel buf f = Return q ∧ q.1 = Ok tt.
Proof.
  intros Hos Hf. unfold write_all.
  apply (loop_returns write_body (λ '(b, g), f_os g = f_os f) (λ '(b, g), length b)
    (λ q, q.1 = Ok tt)); [|done|done].
  intros [b g] Hg. unfold write_body. destruct b as [|x b]; [right; by eexists|left].
  unfold File.write. rewrite Hg. destruct (Hos (f_calls g)) as [n ->].
  replace (length (x :: b) `min` S n) with (S (length b `min` n)) by (cbn; lia).
  eexists. split; [done|]. split; [done|]. rewrite length_drop. cbn. lia.
Qed.

Lemma read_to_end_ok fuel f : File.os_reliable f → length (File.rest f) < fuel →
  ∃ q, read_to_end fuel f = Return q ∧ q = (File.rest f, Ok tt).
Proof.
  intros Hos Hf. unfold read_to_end.
  apply (loop_returns read_body (λ '(a, g), f_os g = f_os f ∧ File.rest f = a ++ File.rest g)
    (λ '(a, g), length (File.rest g)) (λ q, q = (File.rest f, Ok tt))); [|done|done].
  intros [a g] [Hg Ha]. unfold read_body. destruct (File.read 8192 g) as [[got|e] g1] eqn:Hr.
  - apply File.read_ok in Hr as (Hrest & _ & Hnil & _ & Hos'). destruct got as [|x got].
    + right. eexists. split; [done|]. destruct (Hnil eq_refl) as [|E]; [done|]. by rewrite Ha, E, app_nil_r.
    + left. eexists. split; [done|]. split; [split; [congruence|]|].
      * by rewrite Ha, Hrest, <-app_assoc.
      * rewrite Hrest. cbn. rewrite length_app. lia.
  - unfold File.read in Hr. rewrite Hg in Hr. by destruct (Hos (f_calls g)) as [n E]; rewrite E in Hr.
Qed.
End Files.
