(* ===== verification/Stream.v ===== *)
(** * Byte streams

    The protocol functions are generic over a stream that implements futures'
    [AsyncRead] and [AsyncWrite].  [AsyncIO] is that interface with the
    documented behaviour of its methods, in terms of the bytes still to come
    ([input]) and the bytes written so far ([output]); [ReliableIO] adds that
    no operation fails while there is something to read, [Network] that bytes
    arrive.  [Pipe] is an instance with arbitrary short reads and writes. *)

From stdpp Require Import base list strings.
From Stdlib Require Import Lia NArith.
From S2P Require Import Prelude Std.

Class AsyncIO (St : Type) := {
  input : St → bytes;
  output : St → bytes;
  (** [AsyncReadExt::read]: no byte only at the end of the input, or into an
      empty buffer. *)
  sread : N → St → result bytes IoError * St;
  sread_ok n s bs s' : sread n s = (Ok bs, s') →
    input s = bs ++ input s' ∧ (N.of_nat (length bs) ≤ n)%N ∧
    (bs = [] → n = 0%N ∨ input s = []) ∧ output s' = output s;
  (** [read_exact]: fills the buffer. *)
  read_exact : N → St → result bytes IoError * St;
  read_exact_ok n s bs s' : read_exact n s = (Ok bs, s') →
    input s = bs ++ input s' ∧ N.of_nat (length bs) = n ∧ output s' = output s;
  (** [write]: accepts a prefix. *)
  swrite : bytes → St → result nat IoError * St;
  swrite_ok b s n s' : swrite b s = (Ok n, s') →
    n ≤ length b ∧ output s' = output s ++ take n b ∧ input s' = input s;
  (** [write_all]: accepts everything. *)
  write_all : bytes → St → result unit IoError * St;
  write_all_ok b s s' : write_all b s = (Ok (), s') →
    output s' = output s ++ b ∧ input s' = input s;
  flush : St → result unit IoError * St;
  flush_ok s s' : flush s = (Ok (), s') → output s' = output s ∧ input s' = input s;
}.

Class ReliableIO (St : Type) {io : AsyncIO St} := {
  reliable : St → Prop;
  reliable_sread n s : reliable s → ∃ bs s', sread n s = (Ok bs, s') ∧ reliable s';
  reliable_read_exact n s : reliable s → (n ≤ N.of_nat (length (input s)))%N →
    ∃ bs s', read_exact n s = (Ok bs, s') ∧ reliable s';
  reliable_swrite b s : reliable s → b ≠ [] →
    ∃ n s', swrite b s = (Ok n, s') ∧ 0 < n ∧ reliable s';
  reliable_write_all b s : reliable s → ∃ s', write_all b s = (Ok (), s') ∧ reliable s';
  reliable_flush s : reliable s → ∃ s', flush s = (Ok (), s') ∧ reliable s';
}.

(** What the network does to a stream meanwhile: more bytes arrive. *)
Class Network (St : Type) {io : AsyncIO St} {rel : ReliableIO St} := {
  arrive : bytes → St → St;
  arrive_input bs s : input (arrive bs s) = input s ++ bs;
  arrive_output bs s : output (arrive bs s) = output s;
  arrive_reliable bs s : reliable s → reliable (arrive bs s);
}.

(** ** Fallible functions on a stream ([async fn .. -> io::Result<..>])

    The state is the stream; the bind is [.await?]. *)
Definition io (St A : Type) : Type := St → outcome (result A IoError * St).

Definition io_ret {St A} (a : A) : io St A := λ s, Return (Ok a, s).
Definition io_err {St A} (kind : ErrorKind) (message : string) : io St A :=
  λ s, Return (Err {| io_kind := kind; io_message := message |}, s).
Definition io_bind {St A B} (m : io St A) (k : A → io St B) : io St B := λ s,
  '(r, s) ← m s;
  match r with
  | Ok a => k a s
  | Err e => Return (Err e, s)
  end.
Definition io_op {St A} (op : St → result A IoError * St) : io St A := λ s, Return (op s).

Notation "'let*' p := m 'in' k" := (io_bind m (fun p => k))
  (at level 10, p pattern, m at level 100, k at level 200).

Lemma io_bind_ok {St A B} (m : io St A) (k : A → io St B) s b s' :
  io_bind m k s = Return (Ok b, s') ↔
  ∃ a s1, m s = Return (Ok a, s1) ∧ k a s1 = Return (Ok b, s').
Proof.
  unfold io_bind. rewrite bind_return. split.
  - intros ([[a|e] s1] & Hm & Hk); [by eexists _, _|done].
  - intros (a & s1 & Hm & Hk). by eexists (Ok a, s1).
Qed.

Lemma io_bind_assoc {St A B C} (m : io St A) (k : A → io St B) (l : B → io St C) s :
  io_bind (io_bind m k) l s = io_bind m (λ a, io_bind (k a) l) s.
Proof. unfold io_bind. by destruct (m s) as [[[a|e] s1]| |]. Qed.
Lemma io_bind_ext {St A B} (m : io St A) (k k' : A → io St B) s :
  (∀ a s', k a s' = k' a s') → io_bind m k s = io_bind m k' s.
Proof. intros H. unfold io_bind. destruct (m s) as [[[a|e] s1]| |]; cbn; [apply H|done..]. Qed.

Lemma io_op_ok {St A} (op : St → result A IoError * St) s a s' :
  io_op op s = Return (Ok a, s') ↔ op s = (Ok a, s').
Proof. unfold io_op. split; [by intros [= ->]|by intros ->]. Qed.

(** ** A stream that moves at most so many bytes in its n-th transfer *)
Record Pipe := { p_in : bytes; p_out : bytes; p_step : nat → nat; p_calls : nat }.

Definition pipe_read (n : N) (s : Pipe) : result bytes IoError * Pipe :=
  let k := N.to_nat (N.min n (N.of_nat (length (p_in s) `min` (1 `max` p_step s (p_calls s))))) in
  (Ok (take k (p_in s)),
   {| p_in := drop k (p_in s); p_out := p_out s; p_step := p_step s; p_calls := S (p_calls s) |}).

Definition pipe_read_exact (n : N) (s : Pipe) : result bytes IoError * Pipe :=
  if (n <=? N.of_nat (length (p_in s)))%N then
    (Ok (take (N.to_nat n) (p_in s)),
     {| p_in := drop (N.to_nat n) (p_in s); p_out := p_out s; p_step := p_step s; p_calls := S (p_calls s) |})
  else (Err (os_error UnexpectedEof),
     {| p_in := []; p_out := p_out s; p_step := p_step s; p_calls := S (p_calls s) |}).

Definition pipe_write (b : bytes) (s : Pipe) : result nat IoError * Pipe :=
  let k := length b `min` (1 `max` p_step s (p_calls s)) in
  (Ok k, {| p_in := p_in s; p_out := p_out s ++ take k b; p_step := p_step s; p_calls := S (p_calls s) |}).

Definition pipe_write_all (b : bytes) (s : Pipe) : result unit IoError * Pipe :=
  (Ok (), {| p_in := p_in s; p_out := p_out s ++ b; p_step := p_step s; p_calls := S (p_calls s) |}).

#[export] Program Instance Pipe_io : AsyncIO Pipe := {|
  input := p_in; output := p_out;
  sread := pipe_read; read_exact := pipe_read_exact; swrite := pipe_write;
  write_all := pipe_write_all; flush := λ s, (Ok (), s);
|}.
Next Obligation.
  unfold pipe_read. intros n s bs s' H.
  set (m := 1 `max` p_step s (p_calls s)) in H. assert (Hm : 1 ≤ m) by (subst m; lia). clearbody m.
  injection H as <- <-. simpl. split_and!; [by rewrite take_drop| | |done].
  - rewrite length_take. lia.
  - intros E%(f_equal length). rewrite length_take in E. cbn [length] in E.
    destruct (decide (length (p_in s) = 0)); [right; by apply nil_length_inv|left; lia].
Qed.
Next Obligation.
  unfold pipe_read_exact. intros n s bs s'. destruct (N.leb_spec n (N.of_nat (length (p_in s)))); [|done].
  intros [= <- <-]. simpl. split_and!; [by rewrite take_drop| |done]. rewrite length_take. lia.
Qed.
Next Obligation.
  unfold pipe_write. intros b s n s' [= <- <-]. simpl. split_and!; [|done|done]. apply Nat.le_min_l.
Qed.
Next Obligation. intros b s s' [= <-]. done. Qed.
Next Obligation. intros s s' [= <-]. done. Qed.

#[export] Program Instance Pipe_reliable : ReliableIO Pipe := {| reliable := λ _, True |}.
Next Obligation. intros. by eexists _, _. Qed.
Next Obligation.
  intros n s _ H. simpl in *. unfold pipe_read_exact. rewrite (proj2 (N.leb_le _ _) H). by eexists _, _.
Qed.
Next Obligation.
  intros b s _ Hb. simpl. eexists _, _. split; [done|]. split; [|done].
  destruct b; [done|]. cbn [length]. lia.
Qed.
Next Obligation. intros. by eexists. Qed.
Next Obligation. intros. by eexists. Qed.

#[export] Program Instance Pipe_network : Network Pipe := {|
  arrive := λ bs s, {| p_in := p_in s ++ bs; p_out := p_out s; p_step := p_step s; p_calls := p_calls s |};
|}.
Next Obligation. done. Qed.
Next Obligation. done. Qed.
Next Obligation. done. Qed.
