(* ===== verification/Wire.v ===== *)
(** * A request and its answer between two streams

    Every protocol of the repository works in turns: one side writes a request
    and waits, the other side reads it and writes an answer, which the first
    side reads.  [exchange] runs the three parts on two connected streams; the
    network brings to each side what the other side wrote ([Network]). *)

From stdpp Require Import base list strings.
From Stdlib Require Import Lia NArith.
From S2P Require Import Prelude Std Stream.

Module Wire.
Section exchange.
Context {St : Type} {stream : AsyncIO St} {rel : ReliableIO St} {net : Network St}.

(** The bytes written between two states of a stream. *)
Definition written (s s' : St) : bytes := drop (length (output s)) (output s').

(** What a future answers: its stream and its result, or the error. *)
Definition finished {A} (r : result A IoError) (s : St) : Poll (result (St * A) IoError) :=
  Ready (match r with Ok a => Ok (s, a) | Err e => Err e end).

(** The future on one side up to its answer ([request], then [answer]) and the
    one on the other side ([receive]).  A failed request leaves the receiver
    waiting. *)
Definition exchange {R A} (request : io St unit) (receive : io St R) (answer : io St A) (sa sb : St)
    : outcome (Poll (result (St * A) IoError) * Poll (result (St * R) IoError)) :=
  ' (r, sa1) ← request sa;
  match r with
  | Err e => Return (Ready (Err e), Pending)
  | Ok _ =>
      let sb := arrive (written sa sa1) sb in
      ' (rb, sb1) ← receive sb;
      ' (ra, sa2) ← answer (arrive (written sb sb1) sa1);
      Return (finished ra sa2, finished rb sb1)
  end.

(** A stream on which nothing is under way. *)
Definition quiet (s : St) : Prop := reliable s ∧ input s = [].

(** [m] on a quiet stream writes [out]; on a stream with [inp] to come it takes
    it, returns [a] and writes [out]. *)
Definition takes {A} (m : io St A) (inp : bytes) (a : A) (out : bytes) : Prop :=
  ∀ s, reliable s → input s = inp →
    ∃ s', m s = Return (Ok a, s') ∧ output s' = output s ++ out ∧ quiet s'.

Lemma written_app s s' bs : output s' = output s ++ bs → written s s' = bs.
Proof. intros E. unfold written. by rewrite E, drop_app_length. Qed.

Lemma arrive_quiet bs s : quiet s → reliable (arrive bs s) ∧ input (arrive bs s) = bs.
Proof. intros [Hr Hi]. split; [by apply arrive_reliable|]. by rewrite arrive_input, Hi. Qed.

(** Three parts that fit together. *)
Lemma exchange_ok {R A} (request : io St unit) (receive : io St R) (answer : io St A) msg reply r a sa sb :
  takes request [] () msg → takes receive msg r reply → takes answer reply a [] → quiet sa → quiet sb →
  ∃ sa' sb', exchange request receive answer sa sb = Return (Ready (Ok (sa', a)), Ready (Ok (sb', r))) ∧
    quiet sa' ∧ quiet sb'.
Proof.
  intros Hreq Hrec Hans [Hra Hia] Hqb. unfold exchange.
  destruct (Hreq sa Hra Hia) as (sa1 & -> & Ho1 & Hq1). cbn [obind]. rewrite (written_app _ _ _ Ho1).
  destruct (arrive_quiet msg sb Hqb) as [Hrb Hib].
  destruct (Hrec _ Hrb Hib) as (sb1 & -> & Ho2 & Hq2). cbn [obind]. rewrite (written_app _ _ _ Ho2).
  destruct (arrive_quiet reply sa1 Hq1) as [Hr1 Hi1].
  destruct (Hans _ Hr1 Hi1) as (sa2 & -> & _ & Hq3). cbn [obind]. by exists sa2, sb1.
Qed.
End exchange.
End Wire.
