(* ===== verification/BlobProtocol.v ===== *)
(** * The wire protocol of blob transfers ([owlnest-blob/src/protocol.rs])

    A frame is eight bytes of header (the message type and the length of the
    body on seven bytes, big endian) and the body; the receiver answers with
    the xxh3 checksum of the body.  [fuel] bounds the loop of [cursor_read]. *)

From stdpp Require Import base list strings pretty.
From Stdlib Require Import Lia NArith.
From S2P Require Import Prelude Std Stream Wire.
Import Wire.

Section protocol.
Context {P : Platform} {St : Type} {stream : AsyncIO St}.

Definition MAX_PACKET_SIZE : N := 2 ^ 18.

(** Rust's [{:?}] of an array of bytes. *)
Definition debug_bytes (bs : bytes) : string :=
  "[" +:+ String.concat ", " ((λ b, pretty (byte_to_N b)) <$> bs) +:+ "]".

(** [header[0] = b]. *)
Definition set_first (b : byte) (header : bytes) : bytes := <[0 := b]> header.

Definition frame_header (len : N) (message_type : byte) : bytes :=
  set_first message_type (u64_to_be_bytes len).

(** [elapsed] is what the clock says at the end. *)
Definition send (elapsed : N) (buf : bytes) (message_type : byte) : io St N :=
  let len := (N.of_nat (length buf) mod U64)%N in
  let verf := xxh3_128 buf in
  let header := frame_header len message_type in
  let* _ := io_op (write_all header) in
  let* _ := io_op (write_all buf) in
  let* _ := io_op flush in
  let* verf_read := io_op (read_exact 16) in
  if (from_be verf_read =? verf)%N then io_ret elapsed
  else io_err InvalidData
    ("Verifier mismatch! expected " +:+ debug_bytes (u128_to_be_bytes verf) +:+
     ", got " +:+ debug_bytes verf_read).

(** One turn of the loop of [cursor_read]: the bytes read land in the buffer at
    the cursor. *)
Definition cursor_read_body (len : nat) (st : nat * bytes * St)
    : outcome ((nat * bytes * St) + (result (nat * bytes) IoError * St)) :=
  let '(cursor, buf, s) := st in
  if Nat.leb len cursor then Return (inr (Ok (cursor, buf), s))
  else
    match sread (N.of_nat (len - cursor)) s with
    | (Ok got, s) =>
        Return (inl (cursor + length got,
                     take cursor buf ++ got ++ drop (cursor + length got) buf, s))
    | (Err e, s) => Return (inr (Err e, s))
    end.

Definition cursor_read (fuel : nat) (buf : bytes) (len : nat) : io St bytes :=
  let* (cursor, buf) := (λ s, loop (cursor_read_body len) fuel (0, buf, s)) in
  let* _ := io_op (write_all (u128_to_be_bytes (xxh3_128 (take cursor buf)))) in
  let* _ := io_op flush in
  io_ret buf.

Definition recv (fuel : nat) : io St (bytes * byte) :=
  let* header := io_op (read_exact 8) in
  let message_type := default Byte.x00 (header !! 0) in
  let header := set_first Byte.x00 header in
  let bytes_to_read := from_be header in
  if ((2 ^ 18 + 16) <? bytes_to_read)%N
  then io_err ConnectionAborted "Stream too long. Terminating."
  else
    let bytes_to_read := N.to_nat bytes_to_read in
    let buf := replicate bytes_to_read Byte.x00 in
    let* buf := cursor_read fuel buf bytes_to_read in
    io_ret (buf, message_type).
End protocol.

(** ** Frames *)
Definition MAX_BODY : N := 2 ^ 18 + 16.

Definition frame (message_type : byte) (body : bytes) : bytes :=
  frame_header (N.of_nat (length body)) message_type ++ body.

Definition checksum {P : Platform} (body : bytes) : bytes := u128_to_be_bytes (xxh3_128 body).

Section proofs.
Context {P : Platform} {St : Type} {stream : AsyncIO St} {rel : ReliableIO St}.

Lemma frame_header_decode len t :
  (len < 2 ^ 56)%N →
  length (frame_header len t) = 8 ∧ frame_header len t !! 0 = Some t ∧
  from_be (set_first Byte.x00 (frame_header len t)) = len.
Proof.
  intros Hlen. unfold frame_header, set_first, u64_to_be_bytes.
  destruct (to_be_head 7 len) as (l & -> & Hl & Hf); [exact Hlen|]. simpl.
  split_and!; [by rewrite Hl|done|]. change (from_be (Byte.x00 :: l)) with (from_be ([Byte.x00] ++ l)).
  unfold from_be in *. rewrite foldl_app. exact Hf.
Qed.

Lemma checksum_decode body : from_be (checksum body) = xxh3_128 body ∧ length (checksum body) = 16.
Proof.
  unfold checksum, u128_to_be_bytes. split; [|apply length_to_be].
  apply from_to_be_small. apply xxh3_128_u128.
Qed.

Lemma app_same_length {A} (l1 l2 k1 k2 : list A) :
  l1 ++ k1 = l2 ++ k2 → length l1 = length l2 → l1 = l2 ∧ k1 = k2.
Proof. intros H Hlen. by apply app_inj_1. Qed.

(** A read inside a body that is all there. *)
Lemma sread_body n s got s' body rest :
  sread n s = (Ok got, s') → input s = body ++ rest → n = N.of_nat (length body) → body ≠ [] →
  0 < length got ∧ got = take (length got) body ∧ input s' = drop (length got) body ++ rest.
Proof.
  intros Hr Hin Hn Hne. apply sread_ok in Hr as (E & Hle & Hnil & _). rewrite Hin in E.
  assert (Hlen : length got ≤ length body) by lia.
  split.
  - destruct got; [|simpl; lia]. destruct (Hnil eq_refl) as [H0|H0].
    + destruct body; [done|]. simpl in *. lia.
    + rewrite H0 in Hin. by destruct body.
  - rewrite <-(take_drop (length got) body), <-app_assoc in E.
    apply app_same_length in E as [E1 E2]; [done|]. rewrite length_take. lia.
Qed.

(** The loop of [cursor_read] collects a body that is all there. *)
Lemma cursor_loop_reads fuel s body rest :
  reliable s → input s = body ++ rest → length body < fuel →
  ∃ s', loop (cursor_read_body (length body)) fuel (0, replicate (length body) Byte.x00, s) =
          Return (Ok (length body, body), s') ∧
        input s' = rest ∧ output s' = output s ∧ reliable s'.
Proof.
  intros Hrel Hin Hfuel.
  destruct (loop_returns (cursor_read_body (length body))
    (λ '(c, buf, s1), c ≤ length body ∧
       buf = take c body ++ replicate (length body - c) Byte.x00 ∧
       input s1 = drop c body ++ rest ∧ output s1 = output s ∧ reliable s1)
    (λ '(c, _, _), length body - c)
    (λ '(r, s'), r = Ok (length body, body) ∧ input s' = rest ∧ output s' = output s ∧ reliable s'))
    with (fuel := fuel) (s := (0, replicate (length body) Byte.x00, s))
    as ([r s'] & -> & -> & ? & ? & ?).
  - intros [[c buf] s1] (Hc & Hbuf & Hin1 & Hout1 & Hrel1). simpl.
    destruct (Nat.leb_spec (length body) c) as [Hge|Hlt].
    { right. eexists. split; [done|]. assert (c = length body) as -> by lia.
      rewrite Hbuf, Nat.sub_diag, firstn_all. simpl. rewrite app_nil_r.
      rewrite drop_ge in Hin1 by lia. done. }
    destruct (reliable_sread (N.of_nat (length body - c)) s1 Hrel1) as (got & s2 & Hr & Hrel2).
    rewrite Hr. pose proof (sread_ok _ _ _ _ Hr) as (_ & Hle & _ & Hout2).
    eapply sread_body in Hr as (Hpos & Hgot & Hin2);
      [|exact Hin1|by rewrite length_drop|by intros E%(f_equal length); rewrite length_drop in E; simpl in E; lia].
    left. eexists. split; [done|]. split; [|lia].
    split_and!; [lia| |by rewrite Hin2, drop_drop|congruence|done].
    rewrite Hbuf at 1. rewrite take_app_le by (rewrite length_take; lia).
    rewrite take_take, Nat.min_id.
    rewrite Hgot at 1. rewrite app_assoc, take_take_drop. f_equal.
    rewrite Hbuf, drop_app_ge by (rewrite length_take; lia).
    rewrite drop_replicate. f_equal. rewrite length_take. lia.
  - split_and!; [lia| |by rewrite drop_0|done|done]. by rewrite take_0, Nat.sub_0_r.
  - lia.
  - by exists s'.
Qed.

Lemma cursor_read_reads fuel s body rest :
  reliable s → input s = body ++ rest → length body < fuel →
  ∃ s', cursor_read fuel (replicate (length body) Byte.x00) (length body) s = Return (Ok body, s') ∧
        input s' = rest ∧ output s' = output s ++ checksum body ∧ reliable s'.
Proof.
  intros Hrel Hin Hfuel.
  destruct (cursor_loop_reads fuel s body rest Hrel Hin Hfuel) as (s1 & Hloop & Hin1 & Hout1 & Hrel1).
  unfold cursor_read, io_bind, io_op, io_ret. rewrite Hloop. simpl. rewrite firstn_all.
  destruct (reliable_write_all (checksum body) s1 Hrel1) as (s2 & Hw & Hrel2).
  unfold checksum in Hw. rewrite Hw. simpl.
  destruct (reliable_flush s2 Hrel2) as (s3 & Hf & Hrel3). rewrite Hf. simpl.
  apply write_all_ok in Hw as [Ho2 Hi2]. apply flush_ok in Hf as [Ho3 Hi3].
  exists s3. split_and!; [done|congruence| |done]. by rewrite Ho3, Ho2, Hout1.
Qed.

(** Reading a header that is all there. *)
Lemma read_header s len t rest :
  reliable s → (len < 2 ^ 56)%N → input s = frame_header len t ++ rest →
  ∃ s', read_exact 8 s = (Ok (frame_header len t), s') ∧ input s' = rest ∧
        output s' = output s ∧ reliable s'.
Proof.
  intros Hrel Hlen Hin. destruct (frame_header_decode len t Hlen) as (H8 & _ & _).
  destruct (reliable_read_exact 8 s Hrel) as (bs & s' & Hr & Hrel').
  { rewrite Hin, length_app, H8. lia. }
  rewrite Hr. apply read_exact_ok in Hr as (E & Hn & Ho). rewrite Hin in E.
  apply app_same_length in E as [<- E]; [|rewrite H8; lia]. by exists s'.
Qed.

Lemma recv_ok fuel s t body rest :
  reliable s → input s = frame t body ++ rest → (N.of_nat (length body) ≤ MAX_BODY)%N →
  length body < fuel →
  ∃ s', recv fuel s = Return (Ok (body, t), s') ∧
        input s' = rest ∧ output s' = output s ++ checksum body ∧ reliable s'.
Proof.
  intros Hrel Hin Hmax Hfuel. unfold frame in Hin. rewrite <-app_assoc in Hin.
  assert (Hlen : (N.of_nat (length body) < 2 ^ 56)%N) by (unfold MAX_BODY in Hmax; lia).
  destruct (read_header _ _ _ _ Hrel Hlen Hin) as (s1 & Hr & Hin1 & Hout1 & Hrel1).
  destruct (frame_header_decode _ t Hlen) as (_ & H0 & Hd).
  unfold recv. unfold io_bind at 1, io_op at 1. rewrite Hr. cbn [obind]. rewrite H0, Hd.
  destruct (N.ltb_spec (2 ^ 18 + 16) (N.of_nat (length body))); [unfold MAX_BODY in Hmax; lia|].
  rewrite Nat2N.id.
  destruct (cursor_read_reads fuel s1 body rest Hrel1 Hin1 Hfuel) as (s2 & Hc & Hin2 & Hout2 & Hrel2).
  unfold io_bind. rewrite Hc. simpl. exists s2. split_and!; [done|done| |done]. by rewrite Hout2, Hout1.
Qed.

(** C35: [recv] reads back exactly the frame that was written.  Whatever the
    sizes of the stream's reads, a frame with a body of at most [2^18 + 16]
    bytes is returned with its type, the bytes after it stay on the stream, and
    the checksum of the body is written back; fuel above the length of the body
    is enough. *)
Theorem recv_reads_frame fuel s t body rest :
  reliable s → input s = frame t body ++ rest → (N.of_nat (length body) ≤ MAX_BODY)%N →
  length body < fuel →
  ∃ s', recv fuel s = Return (Ok (body, t), s') ∧
        input s' = rest ∧ output s' = output s ++ checksum body ∧ reliable s'.
Proof. apply recv_ok. Qed.

(** A length field above the limit is refused before any byte of the body
    is read. *)
Theorem recv_refuses_long_frame fuel s len t rest :
  reliable s → input s = frame_header len t ++ rest → (MAX_BODY < len < 2 ^ 56)%N →
  ∃ s', recv fuel s = Return (Err {| io_kind := ConnectionAborted;
                                     io_message := "Stream too long. Terminating." |}, s') ∧
        input s' = rest ∧ output s' = output s.
Proof.
  intros Hrel Hin [Hmax Hlen].
  destruct (read_header _ _ _ _ Hrel Hlen Hin) as (s1 & Hr & Hin1 & Hout1 & Hrel1).
  destruct (frame_header_decode _ t Hlen) as (_ & _ & Hd).
  unfold recv. unfold io_bind at 1, io_op at 1. rewrite Hr. cbn [obind]. rewrite Hd.
  destruct (N.ltb_spec (2 ^ 18 + 16) len) as [_|H]; [by exists s1|unfold MAX_BODY in Hmax; lia].
Qed.

(** A stream that ends inside a body makes [recv] spin: it returns for no
    amount of fuel (a read of zero bytes is not taken as the end of the file). *)
Theorem recv_spins_at_eof fuel s len t partial :
  reliable s → input s = frame_header len t ++ partial →
  (N.of_nat (length partial) < len ≤ MAX_BODY)%N → recv fuel s = OutOfFuel.
Proof.
  intros Hrel Hin [Hpart Hmax].
  assert (Hlen : (len < 2 ^ 56)%N) by (unfold MAX_BODY in Hmax; lia).
  destruct (read_header _ _ _ _ Hrel Hlen Hin) as (s1 & Hr & Hin1 & Hout1 & Hrel1).
  destruct (frame_header_decode _ t Hlen) as (_ & _ & Hd).
  unfold recv. unfold io_bind at 1, io_op at 1. rewrite Hr. cbn [obind]. rewrite Hd.
  destruct (N.ltb_spec (2 ^ 18 + 16) len) as [H|_]; [unfold MAX_BODY in Hmax; lia|].
  unfold io_bind, cursor_read, io_bind.
  rewrite (loop_diverges _ (λ '(c, _, s2), c + length (input s2) < N.to_nat len ∧ reliable s2)); [done| |].
  - intros [[c buf] s2] [Hc Hrel2]. simpl.
    destruct (Nat.leb_spec (N.to_nat len) c); [lia|].
    destruct (reliable_sread (N.of_nat (N.to_nat len - c)) s2 Hrel2) as (got & s3 & Hr3 & Hrel3).
    rewrite Hr3. eexists. split; [done|]. split; [|done].
    apply sread_ok in Hr3 as (E & _). apply (f_equal length) in E. rewrite length_app in E. lia.
  - rewrite Hin1. split; [lia|done].
Qed.

(** [send] up to the point where it waits for the answer, and from there. *)
Definition blob_request (buf : bytes) (message_type : byte) : io St unit :=
  let* _ := io_op (write_all (frame_header (N.of_nat (length buf) mod U64) message_type)) in
  let* _ := io_op (write_all buf) in
  io_op flush.
Definition blob_answer (elapsed : N) (buf : bytes) : io St N :=
  let* verf_read := io_op (read_exact 16) in
  if (from_be verf_read =? xxh3_128 buf)%N then io_ret elapsed
  else io_err InvalidData
    ("Verifier mismatch! expected " +:+ debug_bytes (u128_to_be_bytes (xxh3_128 buf)) +:+
     ", got " +:+ debug_bytes verf_read).

Lemma send_halves elapsed buf t s :
  send elapsed buf t s = io_bind (blob_request buf t) (λ _, blob_answer elapsed buf) s.
Proof.
  unfold send, blob_request. rewrite io_bind_assoc. apply io_bind_ext. intros ? ?. by rewrite io_bind_assoc.
Qed.

Lemma blob_request_ok buf t s :
  reliable s → (N.of_nat (length buf) < U64)%N →
  ∃ s', blob_request buf t s = Return (Ok (), s') ∧
    output s' = output s ++ frame t buf ∧ input s' = input s ∧ reliable s'.
Proof.
  intros Hrel Hlen. unfold blob_request, io_bind, io_op. rewrite N.mod_small by done.
  destruct (reliable_write_all (frame_header (N.of_nat (length buf)) t) s Hrel) as (s1 & E1 & Hrel1).
  rewrite E1. cbn [obind]. apply write_all_ok in E1 as [Ho1 Hi1].
  destruct (reliable_write_all buf s1 Hrel1) as (s2 & E2 & Hrel2).
  rewrite E2. cbn [obind]. apply write_all_ok in E2 as [Ho2 Hi2].
  destruct (reliable_flush s2 Hrel2) as (s3 & E3 & Hrel3). rewrite E3. apply flush_ok in E3 as [Ho3 Hi3].
  exists s3. split_and!; [done| |congruence|done]. unfold frame. by rewrite Ho3, Ho2, Ho1, app_assoc.
Qed.

(** The answer is taken for what it is. *)
Lemma blob_answer_ok elapsed buf s answer rest :
  reliable s → input s = answer ++ rest → length answer = 16 →
  ∃ s' r, blob_answer elapsed buf s = Return (r, s') ∧
    output s' = output s ∧ input s' = rest ∧ reliable s' ∧
    (answer = checksum buf → r = Ok elapsed) ∧
    (answer ≠ checksum buf → ∃ m, r = Err {| io_kind := InvalidData; io_message := m |}).
Proof.
  intros Hrel Hin H16. unfold blob_answer, io_bind, io_op.
  destruct (reliable_read_exact 16 s Hrel) as (bs & s4 & E4 & Hrel4).
  { rewrite Hin, length_app, H16. lia. }
  rewrite E4. cbn [obind]. apply read_exact_ok in E4 as (E & Hn & Ho4). rewrite Hin in E.
  apply app_same_length in E as [<- Hrest]; [|lia].
  destruct (checksum_decode buf) as [Hdec H16'].
  destruct (N.eqb_spec (from_be answer) (xxh3_128 buf)) as [Heq|Hne]; unfold io_ret, io_err;
    eexists s4, _; (split; [done|]); split_and!; try done.
  - intros Hna. destruct Hna. apply from_be_inj; congruence.
  - intros ->. by destruct Hne.
  - intros _. by eexists.
Qed.

(** [send] writes exactly the frame of its message and accepts exactly the
    right checksum: with the sixteen bytes of the answer on the stream, it
    returns the round-trip time if they are the checksum of the body, and an
    [InvalidData] error otherwise. *)
Theorem send_writes_frame elapsed buf t s answer rest :
  reliable s → input s = answer ++ rest → length answer = 16 → (N.of_nat (length buf) < U64)%N →
  ∃ s' r, send elapsed buf t s = Return (r, s') ∧
    output s' = output s ++ frame t buf ∧ input s' = rest ∧
    (answer = checksum buf → r = Ok elapsed) ∧
    (answer ≠ checksum buf → ∃ m, r = Err {| io_kind := InvalidData; io_message := m |}).
Proof.
  intros Hrel Hin H16 Hlen. rewrite send_halves. unfold io_bind.
  destruct (blob_request_ok buf t s Hrel Hlen) as (s1 & -> & Ho1 & Hi1 & Hrel1). cbn [obind].
  destruct (blob_answer_ok elapsed buf s1 answer rest Hrel1) as (s2 & r & -> & Ho2 & Hi2 & _ & H); [congruence|done|].
  exists s2, r. split; [done|]. split; [congruence|]. by split.
Qed.
End proofs.

(** ** A message and its answer *)
Section exchange.
Context {P : Platform} {St : Type} {stream : AsyncIO St} {rel : ReliableIO St} {net : Network St}.

(** The future of [send] on one side and the one of [recv] on the other. *)
Definition blob_exchange (fuel : nat) (elapsed : N) (buf : bytes) (message_type : byte) (sa sb : St)
    : outcome (Poll (result (St * N) IoError) * Poll (result (St * (bytes * byte)) IoError)) :=
  exchange (blob_request buf message_type) (recv fuel) (blob_answer elapsed buf) sa sb.

Lemma blob_exchange_ok fuel elapsed buf t sa sb :
  quiet sa → quiet sb → (N.of_nat (length buf) ≤ MAX_BODY)%N → length buf < fuel →
  ∃ sa' sb', blob_exchange fuel elapsed buf t sa sb =
      Return (Ready (Ok (sa', elapsed)), Ready (Ok (sb', (buf, t)))) ∧ quiet sa' ∧ quiet sb'.
Proof.
  intros Hqa Hqb Hmax Hfuel.
  apply (exchange_ok _ _ _ (frame t buf) (checksum buf)); [..|done|done]; intros s Hr Hi.
  - destruct (blob_request_ok buf t s Hr) as (s' & -> & Ho & Hi' & Hr').
    { unfold MAX_BODY in Hmax. rewrite U64_eq. lia. }
    exists s'. unfold quiet. by rewrite Hi'.
  - destruct (recv_ok fuel s t buf [] Hr) as (s' & -> & Hi' & Ho & Hr'); [by rewrite app_nil_r|done..|].
    by exists s'.
  - destruct (blob_answer_ok elapsed buf s (checksum buf) [] Hr) as (s' & r & -> & Ho & Hi' & Hr' & Hok & _);
      [by rewrite app_nil_r|apply checksum_decode|]. rewrite Hok by done.
    exists s'. by rewrite app_nil_r.
Qed.
End exchange.

(** ** Witnesses *)
Section witnesses.
#[local] Existing Instance demo_platform.

Definition demo_body : bytes := [Byte.x61; Byte.x62; Byte.x63].
(** One byte at a time. *)
Definition demo_pipe (inp : bytes) : Pipe :=
  {| p_in := inp; p_out := []; p_step := λ _, 1; p_calls := 0 |}.

Lemma recv_reads_frame_witness :
  ∃ s', recv 10 (demo_pipe (frame Byte.x04 demo_body ++ [Byte.xff])) = Return (Ok (demo_body, Byte.x04), s') ∧
    input s' = [Byte.xff] ∧ output s' = [] ++ checksum demo_body ∧ reliable s'.
Proof.
  exact (recv_reads_frame 10 (demo_pipe (frame Byte.x04 demo_body ++ [Byte.xff])) Byte.x04 demo_body
           [Byte.xff] I eq_refl ltac:(done) ltac:(simpl; lia)).
Defined.

Lemma recv_refuses_long_frame_witness :
  ∃ s', recv 10 (demo_pipe (frame_header 300000 Byte.x04 ++ demo_body)) =
          Return (Err {| io_kind := ConnectionAborted;
                         io_message := "Stream too long. Terminating." |}, s') ∧
        input s' = demo_body ∧ output s' = [].
Proof.
  exact (recv_refuses_long_frame 10 (demo_pipe (frame_header 300000 Byte.x04 ++ demo_body)) 300000 Byte.x04
           demo_body I eq_refl ltac:(done)).
Defined.

Lemma recv_spins_at_eof_witness :
  recv 1000 (demo_pipe (frame_header 4 Byte.x04 ++ demo_body)) = OutOfFuel.
Proof.
  exact (recv_spins_at_eof 1000 (demo_pipe (frame_header 4 Byte.x04 ++ demo_body)) 4 Byte.x04
           demo_body I eq_refl ltac:(done)).
Defined.

Lemma send_writes_frame_witness :
  ∃ s' r, send 5 demo_body Byte.x04 (demo_pipe (checksum demo_body)) = Return (r, s') ∧
    output s' = [] ++ frame Byte.x04 demo_body ∧ input s' = [] ∧
    (checksum demo_body = checksum demo_body → r = Ok 5%N) ∧
    (checksum demo_body ≠ checksum demo_body →
       ∃ m, r = Err {| io_kind := InvalidData; io_message := m |}).
Proof.
  exact (send_writes_frame 5 demo_body Byte.x04 (demo_pipe (checksum demo_body)) (checksum demo_body) []
           I ltac:(by rewrite app_nil_r) eq_refl ltac:(done)).
Defined.
End witnesses.
