(* ===== verification/UniversalProtocol.v ===== *)
(** * The universal protocol ([owlnest-prelude/src/lib.rs])

    The frames of the messaging and advertise protocols: a length on eight
    bytes, the body, and the checksum as the answer.  The receiver reads in
    blocks of 2048 bytes and stops once it has at least the announced length. *)

From stdpp Require Import base list strings pretty.
From Stdlib Require Import Lia NArith.
From S2P Require Import Prelude Std Stream Wire BlobProtocol.
Import Wire.

Section universal.
Context {P : Platform} {St : Type} {stream : AsyncIO St}.

(** The loop of [send] writes at least once, whatever is left. *)
Definition universal_write_body (msg_bytes : bytes) (st : nat * St)
    : outcome ((nat * St) + (result unit IoError * St)) :=
  let '(cursor, s) := st in
  match swrite (drop cursor msg_bytes) s with
  | (Ok bytes_written, s) =>
      let cursor := cursor + bytes_written in
      if Nat.leb (length msg_bytes) cursor then Return (inr (Ok (), s))
      else Return (inl (cursor, s))
  | (Err e, s) => Return (inr (Err e, s))
  end.

Definition universal_send (fuel : nat) (elapsed : N) (msg_bytes : bytes) : io St N :=
  let verf := xxh3_128 msg_bytes in
  let len := N.of_nat (length msg_bytes) in
  let* _ := io_op (write_all (u64_to_be_bytes len)) in
  let* _ := io_op flush in
  let* _ := (λ s, loop (universal_write_body msg_bytes) fuel (0, s)) in
  let* _ := io_op flush in
  let* verf_read := io_op (read_exact 16) in
  if decide (verf_read = u128_to_be_bytes verf) then io_ret elapsed
  else io_err InvalidData "Verifier mismatch".

Definition universal_read_body (bytes_to_read : N) (st : bytes * St)
    : outcome ((bytes * St) + (result bytes IoError * St)) :=
  let '(msg_buf, s) := st in
  match sread 2048 s with
  | (Ok got, s) =>
      let msg_buf := msg_buf ++ got in
      if (bytes_to_read <=? N.of_nat (length msg_buf))%N then Return (inr (Ok msg_buf, s))
      else Return (inl (msg_buf, s))
  | (Err e, s) => Return (inr (Err e, s))
  end.

Definition universal_recv (fuel : nat) : io St bytes :=
  let* buf := io_op (read_exact 8) in
  let bytes_to_read := from_be buf in
  if (128 <? bytes_to_read / 1024)%N
  then io_err ConnectionAborted "Stream too long. Terminating."
  else
    let* msg_buf := (λ s, loop (universal_read_body bytes_to_read) fuel ([], s)) in
    let* _ := io_op (write_all (u128_to_be_bytes (xxh3_128 msg_buf))) in
    let* _ := io_op flush in
    io_ret msg_buf.
End universal.

Definition universal_frame (body : bytes) : bytes :=
  u64_to_be_bytes (N.of_nat (length body)) ++ body.

(** The largest body [universal_recv] accepts. *)
Definition UNIVERSAL_MAX : N := 128 * 1024 + 1023.

Section proofs.
Context {P : Platform} {St : Type} {stream : AsyncIO St} {rel : ReliableIO St}.

Lemma universal_limit n : (128 <? n / 1024)%N = (UNIVERSAL_MAX <? n)%N.
Proof.
  unfold UNIVERSAL_MAX. pose proof (N.div_mod' n 1024) as Hd.
  pose proof (N.mod_lt n 1024 ltac:(done)) as Hm.
  generalize dependent (n mod 1024)%N. generalize (n / 1024)%N. intros q r Hd Hm.
  apply eq_true_iff_eq. rewrite !N.ltb_lt. lia.
Qed.

Lemma universal_header s n rest :
  reliable s → (n < U64)%N → input s = u64_to_be_bytes n ++ rest →
  ∃ s', read_exact 8 s = (Ok (u64_to_be_bytes n), s') ∧ input s' = rest ∧
        output s' = output s ∧ reliable s'.
Proof.
  intros Hrel Hn Hin. assert (H8 : length (u64_to_be_bytes n) = 8) by apply length_to_be.
  destruct (reliable_read_exact 8 s Hrel) as (bs & s' & Hr & Hrel').
  { rewrite Hin, length_app, H8. lia. }
  rewrite Hr. apply read_exact_ok in Hr as (E & Hlen & Ho). rewrite Hin in E.
  apply app_same_length in E as [<- E]; [|rewrite H8; lia]. by exists s'.
Qed.

Lemma u64_decode n : (n < U64)%N → from_be (u64_to_be_bytes n) = n.
Proof. intros. apply from_to_be_small. by rewrite U64_eq in *. Qed.

(** The loop stops with the body when nothing follows it on the stream. *)
Lemma universal_loop_reads fuel s body :
  reliable s → input s = body → length body < fuel →
  ∃ s', loop (universal_read_body (N.of_nat (length body))) fuel ([], s) = Return (Ok body, s') ∧
        input s' = [] ∧ output s' = output s ∧ reliable s'.
Proof.
  intros Hrel Hin Hfuel.
  destruct (loop_returns (universal_read_body (N.of_nat (length body)))
    (λ '(buf, s1), (buf = [] ∨ length buf < length body) ∧ body = buf ++ input s1 ∧
                   output s1 = output s ∧ reliable s1)
    (λ '(buf, _), length body - length buf)
    (λ '(r, s'), r = Ok body ∧ input s' = [] ∧ output s' = output s ∧ reliable s'))
    with (fuel := fuel) (s := ([] : bytes, s)) as ([r s'] & -> & -> & ? & ? & ?).
  - intros [buf s1] (Hlt & Hb & Ho1 & Hrel1). simpl.
    destruct (reliable_sread 2048 s1 Hrel1) as (got & s2 & Hr & Hrel2). rewrite Hr.
    apply sread_ok in Hr as (E & Hle & Hnil & Ho2).
    assert (Hb2 : body = (buf ++ got) ++ input s2) by (by rewrite <-app_assoc, <-E).
    pose proof (f_equal length Hb2) as Hlen. rewrite length_app in Hlen.
    destruct (N.leb_spec (N.of_nat (length body)) (N.of_nat (length (buf ++ got)))) as [H|H].
    + right. eexists. split; [done|].
      assert (input s2 = []) as Hnil2 by (apply nil_length_inv; lia).
      rewrite Hnil2, app_nil_r in Hb2. split_and!; congruence || done.
    + left. eexists. split; [done|]. split; [split_and!; [right; lia|done|congruence|done]|].
      rewrite length_app in *. destruct got; [|simpl in *; lia].
      destruct (Hnil eq_refl) as [?|E0]; [done|]. rewrite E0 in E. simpl in E. rewrite <-E in Hlen.
      simpl in *. lia.
  - by split_and!; [left|..].
  - simpl. lia.
  - by exists s'.
Qed.

Lemma universal_recv_ok fuel s body :
  reliable s → input s = universal_frame body → (N.of_nat (length body) ≤ UNIVERSAL_MAX)%N →
  length body < fuel →
  ∃ s', universal_recv fuel s = Return (Ok body, s') ∧
        input s' = [] ∧ output s' = output s ++ checksum body ∧ reliable s'.
Proof.
  intros Hrel Hin Hmax Hfuel.
  assert (Hn : (N.of_nat (length body) < U64)%N) by (rewrite U64_eq; unfold UNIVERSAL_MAX in Hmax; lia).
  destruct (universal_header _ _ _ Hrel Hn Hin) as (s1 & Hr & Hin1 & Hout1 & Hrel1).
  unfold universal_recv. unfold io_bind at 1, io_op at 1. rewrite Hr. cbn [obind].
  rewrite u64_decode, universal_limit by done.
  destruct (N.ltb_spec UNIVERSAL_MAX (N.of_nat (length body))); [lia|].
  destruct (universal_loop_reads fuel s1 body Hrel1 Hin1 Hfuel) as (s2 & Hloop & Hin2 & Hout2 & Hrel2).
  unfold io_bind. rewrite Hloop. unfold io_op, io_ret. cbn [obind].
  destruct (reliable_write_all (checksum body) s2 Hrel2) as (s3 & Hw & Hrel3).
  unfold checksum in Hw. rewrite Hw. cbn [obind].
  destruct (reliable_flush s3 Hrel3) as (s4 & Hf & Hrel4). rewrite Hf. cbn [obind].
  apply write_all_ok in Hw as [Ho3 Hi3]. apply flush_ok in Hf as [Ho4 Hi4].
  exists s4. split_and!; [done|congruence| |done]. by rewrite Ho4, Ho3, Hout2, Hout1.
Qed.

(** [universal::recv] returns the body of a frame that is alone on the
    stream, however it is cut, up to 132095 bytes; it answers with the
    checksum.  (A frame that is followed by another one may be read together
    with its successor: the loop does not limit a read to the frame.) *)
Theorem universal_recv_reads_frame fuel s body :
  reliable s → input s = universal_frame body → (N.of_nat (length body) ≤ UNIVERSAL_MAX)%N →
  length body < fuel →
  ∃ s', universal_recv fuel s = Return (Ok body, s') ∧
        input s' = [] ∧ output s' = output s ++ checksum body.
Proof.
  intros Hrel Hin Hmax Hfuel.
  destruct (universal_recv_ok fuel s body Hrel Hin Hmax Hfuel) as (s' & H1 & H2 & H3 & _). by exists s'.
Qed.

(** A body that is not followed by its announced length of bytes before the
    stream ends is never returned: the loop spins on reads of zero bytes. *)
Theorem universal_recv_spins_at_eof fuel s n partial :
  reliable s → input s = u64_to_be_bytes n ++ partial →
  (N.of_nat (length partial) < n ≤ UNIVERSAL_MAX)%N → universal_recv fuel s = OutOfFuel.
Proof.
  intros Hrel Hin [Hpart Hmax].
  assert (Hn : (n < U64)%N) by (rewrite U64_eq; unfold UNIVERSAL_MAX in Hmax; lia).
  destruct (universal_header _ _ _ Hrel Hn Hin) as (s1 & Hr & Hin1 & Hout1 & Hrel1).
  unfold universal_recv. unfold io_bind at 1, io_op at 1. rewrite Hr. cbn [obind].
  rewrite u64_decode, universal_limit by done.
  destruct (N.ltb_spec UNIVERSAL_MAX n); [lia|]. unfold io_bind.
  rewrite (loop_diverges _ (λ '(buf, s2),
    (N.of_nat (length buf + length (input s2)) < n)%N ∧ reliable s2)); [done| |].
  - intros [buf s2] [Hlt Hrel2]. simpl.
    destruct (reliable_sread 2048 s2 Hrel2) as (got & s3 & Hr3 & Hrel3). rewrite Hr3.
    apply sread_ok in Hr3 as (E & _). apply (f_equal length) in E. rewrite length_app in E.
    destruct (N.leb_spec n (N.of_nat (length (buf ++ got)))) as [H'|_];
      [rewrite length_app in H'; lia|].
    eexists. split; [done|]. split; [|done]. rewrite length_app. lia.
  - rewrite Hin1. split; [simpl; lia|done].
Qed.

(** The loop of [send] hands over the whole message. *)
Lemma universal_write_loop fuel s msg :
  reliable s → msg ≠ [] → length msg < fuel →
  ∃ s', loop (universal_write_body msg) fuel (0, s) = Return (Ok (), s') ∧
        output s' = output s ++ msg ∧ input s' = input s ∧ reliable s'.
Proof.
  intros Hrel Hne Hfuel.
  destruct (loop_returns (universal_write_body msg)
    (λ '(c, s1), c < length msg ∧ output s1 = output s ++ take c msg ∧ input s1 = input s ∧ reliable s1)
    (λ '(c, _), length msg - c)
    (λ '(r, s'), r = Ok () ∧ output s' = output s ++ msg ∧ input s' = input s ∧ reliable s'))
    with (fuel := fuel) (s := (0, s)) as ([r s'] & -> & -> & ? & ? & ?).
  - intros [c s1] (Hc & Ho1 & Hi1 & Hrel1). simpl.
    destruct (reliable_swrite (drop c msg) s1 Hrel1) as (k & s2 & Hw & Hk & Hrel2).
    { intros E%(f_equal length). rewrite length_drop in E. simpl in E. lia. }
    rewrite Hw. apply swrite_ok in Hw as (Hle & Ho2 & Hi2). rewrite length_drop in Hle.
    assert (Ho : output s2 = output s ++ take (c + k) msg)
      by (by rewrite Ho2, Ho1, <-app_assoc, take_take_drop).
    destruct (Nat.leb_spec (length msg) (c + k)).
    + right. eexists. split; [done|]. rewrite take_ge in Ho by lia. split_and!; congruence || done.
    + left. eexists. split; [done|]. split; [|lia]. split_and!; congruence || done.
  - split_and!; [|by rewrite take_0, app_nil_r|done|done]. destruct msg; [done|]. simpl. lia.
  - lia.
  - by exists s'.
Qed.

(** [send] up to the point where it waits for the answer, and from there. *)
Definition send_request (fuel : nat) (msg : bytes) : io St unit :=
  let* _ := io_op (write_all (u64_to_be_bytes (N.of_nat (length msg)))) in
  let* _ := io_op flush in
  let* _ := (λ s, loop (universal_write_body msg) fuel (0, s)) in
  io_op flush.
Definition await_answer (elapsed : N) (msg : bytes) : io St N :=
  let* verf_read := io_op (read_exact 16) in
  if decide (verf_read = u128_to_be_bytes (xxh3_128 msg)) then io_ret elapsed
  else io_err InvalidData "Verifier mismatch".

Lemma universal_send_halves fuel elapsed msg s :
  universal_send fuel elapsed msg s = io_bind (send_request fuel msg) (λ _, await_answer elapsed msg) s.
Proof.
  unfold universal_send, send_request. rewrite !io_bind_assoc. do 2 (apply io_bind_ext; intros ? ?; rewrite ?io_bind_assoc).
  done.
Qed.

Lemma send_request_ok fuel msg s :
  reliable s → msg ≠ [] → length msg < fuel →
  ∃ s', send_request fuel msg s = Return (Ok (), s') ∧
    output s' = output s ++ universal_frame msg ∧ input s' = input s ∧ reliable s'.
Proof.
  intros Hrel Hne Hfuel. unfold send_request, io_bind, io_op.
  destruct (reliable_write_all (u64_to_be_bytes (N.of_nat (length msg))) s Hrel) as (s1 & E1 & Hrel1).
  rewrite E1. cbn [obind]. apply write_all_ok in E1 as [Ho1 Hi1].
  destruct (reliable_flush s1 Hrel1) as (s2 & E2 & Hrel2).
  rewrite E2. cbn [obind]. apply flush_ok in E2 as [Ho2 Hi2].
  destruct (universal_write_loop fuel s2 msg Hrel2 Hne Hfuel) as (s3 & E3 & Ho3 & Hi3 & Hrel3).
  rewrite E3. cbn [obind].
  destruct (reliable_flush s3 Hrel3) as (s4 & E4 & Hrel4). rewrite E4.
  apply flush_ok in E4 as [Ho4 Hi4]. exists s4. split_and!; try done; [|congruence].
  unfold universal_frame. by rewrite Ho4, Ho3, Ho2, Ho1, <-app_assoc.
Qed.

Lemma await_answer_ok elapsed msg s answer rest :
  reliable s → input s = answer ++ rest → length answer = 16 →
  ∃ s', await_answer elapsed msg s = Return
      (if decide (answer = checksum msg) then Ok elapsed
       else Err {| io_kind := InvalidData; io_message := "Verifier mismatch" |}, s') ∧
    output s' = output s ∧ input s' = rest ∧ reliable s'.
Proof.
  intros Hrel Hin H16. unfold await_answer, io_bind, io_op.
  destruct (reliable_read_exact 16 s Hrel) as (bs & s5 & E5 & Hrel5).
  { rewrite Hin, length_app, H16. lia. }
  rewrite E5. cbn [obind]. apply read_exact_ok in E5 as (E & Hn & Ho5). rewrite Hin in E.
  apply app_same_length in E as [<- Hrest]; [|lia].
  unfold checksum. exists s5. by case_decide.
Qed.

(** [universal::send] writes exactly the frame of a non-empty message and
    succeeds exactly when the answer is the checksum of the message. *)
Theorem universal_send_writes_frame fuel elapsed msg s answer rest :
  reliable s → input s = answer ++ rest → length answer = 16 → msg ≠ [] →
  length msg < fuel →
  ∃ s' r, universal_send fuel elapsed msg s = Return (r, s') ∧
    output s' = output s ++ universal_frame msg ∧ input s' = rest ∧
    (answer = checksum msg → r = Ok elapsed) ∧
    (answer ≠ checksum msg →
       r = Err {| io_kind := InvalidData; io_message := "Verifier mismatch" |}).
Proof.
  intros Hrel Hin H16 Hne Hfuel. rewrite universal_send_halves. unfold io_bind.
  destruct (send_request_ok fuel msg s Hrel Hne Hfuel) as (s1 & -> & Ho1 & Hi1 & Hrel1). cbn [obind].
  destruct (await_answer_ok elapsed msg s1 answer rest Hrel1) as (s2 & -> & Ho2 & Hi2 & _); [congruence|done|].
  eexists _, _. split; [done|]. split; [congruence|]. split; [done|]. split; intros H; by case_decide.
Qed.
End proofs.

(** ** A message and its answer *)
Section exchange.
Context {P : Platform} {St : Type} {stream : AsyncIO St} {rel : ReliableIO St} {net : Network St}.

(** The future of [send] on one side and the one of [recv] on the other. *)
Definition universal_exchange (fuel : nat) (elapsed : N) (msg : bytes) (sa sb : St)
    : outcome (Poll (result (St * N) IoError) * Poll (result (St * bytes) IoError)) :=
  exchange (send_request fuel msg) (universal_recv fuel) (await_answer elapsed msg) sa sb.

Lemma universal_exchange_ok fuel elapsed msg sa sb :
  quiet sa → quiet sb → msg ≠ [] → (N.of_nat (length msg) ≤ UNIVERSAL_MAX)%N → length msg < fuel →
  ∃ sa' sb', universal_exchange fuel elapsed msg sa sb =
      Return (Ready (Ok (sa', elapsed)), Ready (Ok (sb', msg))) ∧ quiet sa' ∧ quiet sb'.
Proof.
  intros Hqa Hqb Hne Hmax Hfuel.
  apply (exchange_ok _ _ _ (universal_frame msg) (checksum msg)); [..|done|done]; intros s Hr Hi.
  - destruct (send_request_ok fuel msg s Hr Hne Hfuel) as (s' & -> & Ho & Hi' & Hr').
    exists s'. unfold quiet. by rewrite Hi'.
  - destruct (universal_recv_ok fuel s msg Hr Hi Hmax Hfuel) as (s' & -> & Hi' & Ho & Hr'). by exists s'.
  - destruct (await_answer_ok elapsed msg s (checksum msg) [] Hr) as (s' & -> & Ho & Hi' & Hr');
      [by rewrite app_nil_r|apply length_to_be|]. rewrite decide_True by done.
    exists s'. by rewrite app_nil_r.
Qed.
End exchange.

(** ** Witnesses *)
Section witnesses.
#[local] Existing Instance demo_platform.

Lemma universal_recv_reads_frame_witness :
  ∃ s', universal_recv 10 (demo_pipe (universal_frame demo_body)) = Return (Ok demo_body, s') ∧
        input s' = [] ∧ output s' = [] ++ checksum demo_body.
Proof.
  exact (universal_recv_reads_frame 10 (demo_pipe (universal_frame demo_body)) demo_body
           I eq_refl ltac:(done) ltac:(simpl; lia)).
Defined.

Lemma universal_recv_spins_at_eof_witness :
  universal_recv 1000 (demo_pipe (u64_to_be_bytes 4 ++ demo_body)) = OutOfFuel.
Proof.
  exact (universal_recv_spins_at_eof 1000 (demo_pipe (u64_to_be_bytes 4 ++ demo_body)) 4 demo_body
           I eq_refl ltac:(done)).
Defined.

Lemma universal_send_writes_frame_witness :
  ∃ s' r, universal_send 10 5 demo_body (demo_pipe (checksum demo_body)) = Return (r, s') ∧
    output s' = [] ++ universal_frame demo_body ∧ input s' = [] ∧
    (checksum demo_body = checksum demo_body → r = Ok 5%N) ∧
    (checksum demo_body ≠ checksum demo_body →
       r = Err {| io_kind := InvalidData; io_message := "Verifier mismatch" |}).
Proof.
  exact (universal_send_writes_frame 10 5 demo_body (demo_pipe (checksum demo_body)) (checksum demo_body) []
           I ltac:(by rewrite app_nil_r) eq_refl ltac:(done) ltac:(simpl; lia)).
Defined.
End witnesses.
