(* ===== verification/Core.v ===== *)
(** * Shared vocabulary of the protocol crates

    - [owlnest-core]: [ChannelError], [OperationError] and their conversions;
    - the events libp2p's swarm exchanges with a [NetworkBehaviour] and a
      [ConnectionHandler], with the constructors the sources name.  The fields
      are opaque identifiers of the platform. *)

From stdpp Require Import base gmap sets list strings fin_maps.
From Stdlib Require Import Lia NArith.
From S2P Require Import Prelude Std.

(** ** owlnest-core *)
Module error.

Inductive ChannelError := Timeout | Closed.
Inductive OperationError := OpTimeout | Interrupted.

(** [From<SendError>], [From<RecvError>] for [ChannelError] and
    [From<Elapsed>] for [OperationError]. *)
Definition channel_error_from_send_error : ChannelError := Closed.
Definition channel_error_from_recv_error : ChannelError := Closed.
Definition operation_error_from_elapsed : OperationError := OpTimeout.

Definition ChannelError_fmt (e : ChannelError) : string :=
  match e with
  | Timeout => "Timeout waiting for response"
  | Closed => "Channel closed unexpectedly"
  end.

Definition OperationError_fmt (e : OperationError) : string :=
  match e with OpTimeout => "Timeout" | Interrupted => "Interrupted" end.

End error.

(** The messages of [owlnest_core::expect]. *)
Definition CALLBACK_CLEAR : string :=
  "Callbacks should never be dropped without a proper cleanup.".
Definition SWARM_RECEIVER_KEPT_ALIVE : string :=
  "Receiver in the swarm should stay alive the entire lifetime of the app.".

(** A duration, in milliseconds. *)
Abbreviation Duration := N (only parsing).

(** ** libp2p's events *)
Section libp2p.
Context {P : Platform}.

Inductive NotifyHandler_target := Any | One (c : ConnectionId).
Inductive CloseConnection_target := CloseAll | CloseOne (c : ConnectionId).

(** [libp2p::swarm::ToSwarm<E, H>]: what a behaviour's [poll] hands out. *)
Inductive ToSwarm (E H : Type) :=
| GenerateEvent (event : E)
| Dial (opts : DialOpts)
| ListenOn (opts : ListenOpts)
| RemoveListener (id : ListenerId)
| NotifyHandler (peer_id : PeerId) (handler : NotifyHandler_target) (event : H)
| NewExternalAddrCandidate (addr : Multiaddr)
| ExternalAddrConfirmed (addr : Multiaddr)
| ExternalAddrExpired (addr : Multiaddr)
| CloseConnection (peer_id : PeerId) (connection : CloseConnection_target)
| NewExternalAddrOfPeer (peer_id : PeerId) (address : Multiaddr)
| UncoveredToSwarm.

(** [libp2p::swarm::FromSwarm]: only [ConnectionClosed] is looked at. *)
Record ConnectionClosed := {
  cc_peer_id : PeerId;
  cc_remaining_established : N;
}.
Inductive FromSwarm :=
| FromSwarmConnectionClosed (info : ConnectionClosed)
| FromSwarmOther.

(** [libp2p::core::ConnectedPoint], with the fields the sources read. *)
Inductive ConnectedPoint :=
| Dialer (address : Multiaddr)
| Listener (local_addr send_back_addr : Multiaddr).

(** What a connection handler's [poll] hands out. *)
Inductive ConnectionHandlerEvent (B : Type) :=
| OutboundSubstreamRequest (protocol : string)
| NotifyBehaviour (event : B).

Inductive StreamUpgradeError :=
| UpgradeTimeout
| NegotiationFailed
| UpgradeOther (debug : string).

(** What the connection tells its handler; [St] is the type of streams. *)
Inductive ConnectionEvent (St : Type) :=
| FullyNegotiatedInbound (protocol : St)
| FullyNegotiatedOutbound (protocol : St)
| AddressChange (new_address : Multiaddr)
| DialUpgradeError (error : StreamUpgradeError)
| ListenUpgradeError
| LocalProtocolsChange
| RemoteProtocolsChange
| UncoveredConnectionEvent.

End libp2p.

Arguments GenerateEvent {P E H} event.
Arguments Dial {P E H} opts.
Arguments ListenOn {P E H} opts.
Arguments RemoveListener {P E H} id.
Arguments NotifyHandler {P E H} peer_id handler event.
Arguments NewExternalAddrCandidate {P E H} addr.
Arguments ExternalAddrConfirmed {P E H} addr.
Arguments ExternalAddrExpired {P E H} addr.
Arguments CloseConnection {P E H} peer_id connection.
Arguments NewExternalAddrOfPeer {P E H} peer_id address.
Arguments UncoveredToSwarm {P E H}.
Arguments OutboundSubstreamRequest {B} protocol.
Arguments NotifyBehaviour {B} event.
Arguments FullyNegotiatedInbound {P St} protocol.
Arguments FullyNegotiatedOutbound {P St} protocol.
Arguments AddressChange {P St} new_address.
Arguments DialUpgradeError {P St} error.
Arguments ListenUpgradeError {P St}.
Arguments LocalProtocolsChange {P St}.
Arguments RemoteProtocolsChange {P St}.
Arguments UncoveredConnectionEvent {P St}.
