(* ===== verification/BlobTypes.v ===== *)
(** * Data of the blob (file transfer) protocol

    [owlnest-blob]: configuration, errors, the events of the behaviour
    ([lib.rs]), the records of the four tables of [behaviour.rs], the events
    between behaviour and handler and the wire messages ([handler.rs],
    [messages.proto]).  Tracing spans are left out everywhere. *)

From stdpp Require Import base gmap sets list strings fin_maps pretty.
From Stdlib Require Import Lia NArith Ascii.
From S2P Require Import Prelude Std Core.

Definition PROTOCOL_NAME : string := "/owlnest/blob/0.0.1".
Definition FILE_CHUNK_SIZE : N := 2 ^ 18.
Arguments FILE_CHUNK_SIZE : simpl never.

(** ** config.rs *)
Record Config := {
  timeout_ms : N;
  max_pending_recv : N;
  pending_recv_timeout_sec : N;
  ongoing_recv_timeout_sec : N;
  pending_send_timeout_sec : N;
  ongoing_send_timeout_sec : N;
}.

Definition Config_default : Config := {|
  timeout_ms := 60 * 1000;
  max_pending_recv := 16;
  pending_recv_timeout_sec := 60 * 60;
  ongoing_recv_timeout_sec := 60;
  pending_send_timeout_sec := 0;
  ongoing_send_timeout_sec := 3 * 60;
|}.

Definition Config_new : Config := Config_default.

Definition with_timeout (self : Config) (timeout : N) : Config := {|
  timeout_ms := timeout;
  max_pending_recv := max_pending_recv self;
  pending_recv_timeout_sec := pending_recv_timeout_sec self;
  ongoing_recv_timeout_sec := ongoing_recv_timeout_sec self;
  pending_send_timeout_sec := pending_send_timeout_sec self;
  ongoing_send_timeout_sec := ongoing_send_timeout_sec self;
|}.

(** ** error.rs *)
Inductive Error :=
| UnrecognizedMessage (msg : string)
| IO (msg : string)
| Channel
| UnexpectedEOF (recv_id : N).

Definition Error_fmt (e : Error) : string :=
  match e with
  | UnrecognizedMessage msg => msg
  | IO msg => msg
  | Channel => "Callback channel closed unexpectedly"
  | UnexpectedEOF recv_id =>
      "The file of recv ID " +:+ pretty recv_id +:+ " meets an unexpected EOF"
  end.

Module FileSendError.
Inductive t :=
| IsDirectory
| FileNotFound
| PermissionDenied
| OtherFsError (kind : ErrorKind)
| PeerNotFound
| Channel (e : error.ChannelError)
| Operation (e : error.OperationError).

Section fmt.
Context {P : Platform}.
Definition fmt (e : t) : string :=
  match e with
  | IsDirectory => "The target to send to is a directory"
  | FileNotFound => "The target file is not found"
  | PermissionDenied => "Permission denied"
  | OtherFsError error_kind => "Other file system error: " +:+ kind_display error_kind
  | PeerNotFound => "Target peer is not found"
  | Channel e => error.ChannelError_fmt e
  | Operation e => error.OperationError_fmt e
  end.
End fmt.
End FileSendError.

Module FileRecvError.
Inductive t :=
| PendingRecvNotFound (id : N)
| Timeout
| FsError (path : string) (error : ErrorKind)
| Channel (e : error.ChannelError)
| Operation (e : error.OperationError).

Section fmt.
Context {P : Platform}.
Definition fmt (e : t) : string :=
  match e with
  | PendingRecvNotFound id =>
      "Cannot find operation associated with recv ID " +:+ pretty id +:+
      ", is the request already accepted or cancaled?"
  | Timeout => "Timeout when waiting response from remote."
  | FsError path AlreadyExists =>
      "File(or folder) " +:+ path +:+
      " already exists. Overwritting is not allowed. Please delete the file before accepting the request."
  | FsError path PermissionDenied =>
      "Cannot write to file(or folder) " +:+ path +:+
      ": Permission denied. Please make sure you have properly set the permission."
  | FsError path e => "OS reported OtherError " +:+ kind_display e
  | Channel e => error.ChannelError_fmt e
  | Operation e => error.OperationError_fmt e
  end.
End fmt.
End FileRecvError.

Inductive CancellationError := IdNotFound | CancelPeerNotFound.

Definition CancellationError_fmt (e : CancellationError) : string :=
  match e with
  | IdNotFound => "ID not found"
  | CancelPeerNotFound => "Peer not found"
  end.

(** ** op.rs *)
Inductive OpResult :=
| SuccessfulPost (rtt : Duration)
| OpError (e : Error).

(** ** Tables of the behaviour (behaviour.rs 827-870) *)
Module PendingRecv.
Record t {P : Platform} := {
  local_recv_id : N;
  remote_send_id : N;
  bytes_total : N;
  file_name : string;
  remote : PeerId;
  timestamp : N;
}.
End PendingRecv.

Module OngoingFileRecv.
Record t {P : Platform} := {
  remote_send_id : N;
  local_recv_id : N;
  remote : PeerId;
  bytes_received : N;
  bytes_total : N;
  file_handle : File;
  file_path : string;
  last_active : N;
}.
End OngoingFileRecv.

Module PendingSend.
Record t {P : Platform} := {
  local_send_id : N;
  remote : PeerId;
  file_path : string;
  bytes_total : N;
  file : File;
  timestamp : N;
}.
End PendingSend.

Module OngoingFileSend.
Record t {P : Platform} := {
  local_send_id : N;
  remote : PeerId;
  bytes_sent : N;
  bytes_total : N;
  file_handle : File;
  file_path : string;
  last_active : N;
}.
End OngoingFileSend.

(** ** Information given out about transfers *)
Module RecvInfo.
Record t {P : Platform} := {
  local_recv_id : N;
  bytes_total : N;
  bytes_received : N;
  file_name : string;
  remote : PeerId;
  timestamp : N;
}.
End RecvInfo.

Module SendInfo.
Record t {P : Platform} := {
  local_send_id : N;
  bytes_sent : N;
  bytes_total : N;
  started : bool;
  remote : PeerId;
  file_path : string;
}.
End SendInfo.

(** A byte that starts a character of a UTF-8 string. *)
Definition is_char_start (c : ascii) : bool :=
  let n := Ascii.N_of_ascii c in negb ((128 <=? n)%N && (n <? 192)%N).

(** [&s[i..]]: panics unless [i] is a character boundary. *)
Definition str_from (s : string) (i : nat) : outcome string :=
  match String.get i s with
  | Some c =>
      if is_char_start c then Return (String.substring i (String.length s - i) s)
      else Panic "byte index is not a char boundary"
  | None =>
      if Nat.eqb i (String.length s) then Return ""
      else Panic "byte index out of bounds"
  end.

Definition char_count (s : string) : nat :=
  length (filter (λ c, is_char_start c = true) (String.list_ascii_of_string s)).

(** [{:w}] on a string: pad on the right with spaces. *)
Definition pad_right (w : nat) (s : string) : string :=
  s +:+ String.string_of_list_ascii (replicate (w - char_count s) " "%char).


Section info.
Context {P : Platform}.

Definition RecvInfo_from_pending (value : PendingRecv.t) : RecvInfo.t := {|
  RecvInfo.local_recv_id := PendingRecv.local_recv_id value;
  RecvInfo.remote := PendingRecv.remote value;
  RecvInfo.file_name := PendingRecv.file_name value;
  RecvInfo.bytes_total := PendingRecv.bytes_total value;
  RecvInfo.bytes_received := 0;
  RecvInfo.timestamp := PendingRecv.timestamp value;
|}.

Definition RecvInfo_from_ongoing (value : OngoingFileRecv.t) : outcome RecvInfo.t :=
  name ← expect (file_name (OngoingFileRecv.file_path value))
           "called `Option::unwrap()` on a `None` value";
  Return {|
    RecvInfo.local_recv_id := OngoingFileRecv.local_recv_id value;
    RecvInfo.bytes_total := OngoingFileRecv.bytes_total value;
    RecvInfo.bytes_received := OngoingFileRecv.bytes_received value;
    RecvInfo.file_name := name;
    RecvInfo.remote := OngoingFileRecv.remote value;
    RecvInfo.timestamp := OngoingFileRecv.last_active value;
  |}.

Definition SendInfo_from_pending (value : PendingSend.t) : SendInfo.t := {|
  SendInfo.local_send_id := PendingSend.local_send_id value;
  SendInfo.remote := PendingSend.remote value;
  SendInfo.bytes_total := PendingSend.bytes_total value;
  SendInfo.bytes_sent := 0;
  SendInfo.started := false;
  SendInfo.file_path := PendingSend.file_path value;
|}.

Definition SendInfo_from_ongoing (value : OngoingFileSend.t) : SendInfo.t := {|
  SendInfo.local_send_id := OngoingFileSend.local_send_id value;
  SendInfo.remote := OngoingFileSend.remote value;
  SendInfo.file_path := OngoingFileSend.file_path value;
  SendInfo.bytes_total := OngoingFileSend.bytes_total value;
  SendInfo.bytes_sent := OngoingFileSend.bytes_sent value;
  SendInfo.started := true;
|}.

(** [Display for SendInfo]; the precision of an integer is ignored by Rust, so
    the percentage is the integer quotient as written. *)
Definition SendInfo_fmt (self : SendInfo.t) : outcome string :=
  let path := SendInfo.file_path self in
  shown ← str_from path (String.length path - 30);
  let head :=
    "ID(" +:+ pretty (SendInfo.local_send_id self) +:+ ")" +:+ pad_right 30 shown +:+ newline +:+
    "Remote: " +:+ peer_display (SendInfo.remote self) +:+ newline in
  if SendInfo.started self then
    if decide (SendInfo.bytes_sent self = 0%N) then Panic "attempt to divide by zero"
    else
      Return (head +:+ "Bytes total: " +:+ pretty (SendInfo.bytes_total self) +:+
              "; Bytes sent: " +:+ pretty (SendInfo.bytes_sent self) +:+
              "(" +:+ pretty (SendInfo.bytes_total self / SendInfo.bytes_sent self)%N +:+ "%)" +:+
              newline)
  else Return (head +:+ "Bytes total: " +:+ pretty (SendInfo.bytes_total self)).

(** ** Events of the behaviour (lib.rs) *)
Inductive InEvent :=
| SendFile (file : File) (file_path : string) (to : PeerId) (callback : Callback)
| AcceptFile (file : File) (recv_id : N) (path : string) (callback : Callback)
| ListConnected (callback : Callback)
| ListRecv (callback : Callback)
| ListSend (callback : Callback)
| CancelRecv (local_recv_id : N) (callback : Callback)
| CancelSend (local_send_id : N) (callback : Callback).

Inductive OutEvent :=
| IncomingFile (from : PeerId) (file_name : string) (local_recv_id bytes_total : N)
| RecvProgressed (local_recv_id bytes_received bytes_total : N)
| OngoingRecvError (local_recv_id : N) (error : string)
| SendProgressed (local_send_id bytes_sent bytes_total : N)
| OngoingSendError (local_send_id : N) (error : string)
| CancelledSend (id : N)
| CancelledRecv (id : N)
| OutError (e : Error)
| InboundNegotiated (peer : PeerId)
| OutboundNegotiated (peer : PeerId)
| Unsupported (peer : PeerId).

(** What is sent on the callbacks. *)
Inductive Answer :=
| AnsSendFile (r : result N FileSendError.t)
| AnsAcceptFile (r : result Duration FileRecvError.t)
| AnsListConnected (peers : list PeerId)
| AnsListRecv (infos : list RecvInfo.t)
| AnsListSend (infos : list SendInfo.t)
| AnsCancel (r : result unit CancellationError).

End info.

(** ** Events between behaviour and handler (handler.rs) *)
Inductive FromBehaviourEvent :=
| NewFileSend (file_name : string) (local_send_id : N) (callback : Callback) (bytes_total : N)
| FileChunk (local_send_id : N) (bytes_to_send : bytes)
| HAcceptFile (remote_send_id : N) (callback : Callback)
| LocalCancelSend (local_send_id : N)
| LocalCancelRecv (remote_send_id : N).

Inductive ToBehaviourEvent :=
| HRecvProgressed (remote_send_id : N) (content : bytes)
| HSendProgressed (local_send_id : N) (rtt : Duration)
| HIncomingFile (file_name : string) (remote_send_id bytes_total : N)
| FileSendAccepted (local_send_id : N)
| FileSendPending (local_send_id : N)
| RemoteCancelSend (local_send_id : N)
| RemoteCancelRecv (remote_send_id : N)
| HError (e : Error)
| HInboundNegotiated
| HOutboundNegotiated
| HUnsupported.

(** ** Wire messages (messages.proto) *)
Module messages.
Record IncomingFile := { if_remote_send_id : N; if_bytes_total : N; if_file_name : string }.
Record AcceptFile := { af_local_send_id : N }.
Record CancelSend := { cs_remote_send_id : N }.
Record CancelRecv := { cr_local_send_id : N }.
Record FileChunk := { fc_remote_send_id : N; fc_content : bytes }.
End messages.

(** [From<messages::_> for ToBehaviourEvent]. *)
Definition from_IncomingFile (value : messages.IncomingFile) : ToBehaviourEvent :=
  HIncomingFile (messages.if_file_name value) (messages.if_remote_send_id value)
    (messages.if_bytes_total value).
Definition from_AcceptFile (value : messages.AcceptFile) : ToBehaviourEvent :=
  FileSendAccepted (messages.af_local_send_id value).
Definition from_CancelSend (value : messages.CancelSend) : ToBehaviourEvent :=
  RemoteCancelRecv (messages.cs_remote_send_id value).
Definition from_CancelRecv (value : messages.CancelRecv) : ToBehaviourEvent :=
  RemoteCancelSend (messages.cr_local_send_id value).
Definition from_FileChunk (value : messages.FileChunk) : ToBehaviourEvent :=
  HRecvProgressed (messages.fc_remote_send_id value) (messages.fc_content value).
