(* ===== verification/BlobBehaviour.v ===== *)
(** * The blob behaviour ([owlnest-blob/src/behaviour.rs])

    One definition per method of [Behaviour], with the clock [now] (the seconds
    of [time_now!]) as an argument and the result of a call as an [outcome]:
    the new state and what was sent on callbacks.  [fuel] bounds the loop that
    writes a chunk to a file, the only loop that may not end. *)

From stdpp Require Import base gmap sets list strings fin_maps.
From Stdlib Require Import Lia NArith.
From S2P Require Import Prelude Std Core BlobTypes.

Section behaviour.
Context {P : Platform}.

Record Behaviour := {
  config : Config;
  out_events : list OutEvent;
  pending_handler_event : list (ToSwarm OutEvent FromBehaviourEvent);
  connected_peers : gset PeerId;
  recv_counter : N;
  send_counter : N;
  pending_recv : gmap N PendingRecv.t;
  pending_send : gmap N PendingSend.t;
  ongoing_recv : gmap N OngoingFileRecv.t;
  ongoing_send : gmap N OngoingFileSend.t;
  expiry_check_throttle : Delay;
}.

Definition Behaviour_default : Behaviour := {|
  config := Config_default;
  out_events := [];
  pending_handler_event := [];
  connected_peers := ∅;
  recv_counter := 0;
  send_counter := 0;
  pending_recv := ∅;
  pending_send := ∅;
  ongoing_recv := ∅;
  ongoing_send := ∅;
  expiry_check_throttle := delay_new 5000;
|}.

(** [Behaviour::new]: the default with the given configuration. *)
Definition new (config : Config) : Behaviour := {|
  config := config;
  out_events := out_events Behaviour_default;
  pending_handler_event := pending_handler_event Behaviour_default;
  connected_peers := connected_peers Behaviour_default;
  recv_counter := recv_counter Behaviour_default;
  send_counter := send_counter Behaviour_default;
  pending_recv := pending_recv Behaviour_default;
  pending_send := pending_send Behaviour_default;
  ongoing_recv := ongoing_recv Behaviour_default;
  ongoing_send := ongoing_send Behaviour_default;
  expiry_check_throttle := expiry_check_throttle Behaviour_default;
|}.

(** Assignments to one field. *)
Definition set_out_events (v : list OutEvent) (s : Behaviour) : Behaviour :=
  {| config := config s; out_events := v; pending_handler_event := pending_handler_event s;
     connected_peers := connected_peers s; recv_counter := recv_counter s;
     send_counter := send_counter s; pending_recv := pending_recv s;
     pending_send := pending_send s; ongoing_recv := ongoing_recv s;
     ongoing_send := ongoing_send s; expiry_check_throttle := expiry_check_throttle s |}.

Definition set_pending_handler_event
    (v : list (ToSwarm OutEvent FromBehaviourEvent)) (s : Behaviour) : Behaviour :=
  {| config := config s; out_events := out_events s; pending_handler_event := v;
     connected_peers := connected_peers s; recv_counter := recv_counter s;
     send_counter := send_counter s; pending_recv := pending_recv s;
     pending_send := pending_send s; ongoing_recv := ongoing_recv s;
     ongoing_send := ongoing_send s; expiry_check_throttle := expiry_check_throttle s |}.

Definition set_connected_peers (v : gset PeerId) (s : Behaviour) : Behaviour :=
  {| config := config s; out_events := out_events s;
     pending_handler_event := pending_handler_event s; connected_peers := v;
     recv_counter := recv_counter s; send_counter := send_counter s;
     pending_recv := pending_recv s; pending_send := pending_send s;
     ongoing_recv := ongoing_recv s; ongoing_send := ongoing_send s;
     expiry_check_throttle := expiry_check_throttle s |}.

Definition set_recv_counter (v : N) (s : Behaviour) : Behaviour :=
  {| config := config s; out_events := out_events s;
     pending_handler_event := pending_handler_event s; connected_peers := connected_peers s;
     recv_counter := v; send_counter := send_counter s; pending_recv := pending_recv s;
     pending_send := pending_send s; ongoing_recv := ongoing_recv s;
     ongoing_send := ongoing_send s; expiry_check_throttle := expiry_check_throttle s |}.

Definition set_send_counter (v : N) (s : Behaviour) : Behaviour :=
  {| config := config s; out_events := out_events s;
     pending_handler_event := pending_handler_event s; connected_peers := connected_peers s;
     recv_counter := recv_counter s; send_counter := v; pending_recv := pending_recv s;
     pending_send := pending_send s; ongoing_recv := ongoing_recv s;
     ongoing_send := ongoing_send s; expiry_check_throttle := expiry_check_throttle s |}.

Definition set_pending_recv (v : gmap N PendingRecv.t) (s : Behaviour) : Behaviour :=
  {| config := config s; out_events := out_events s;
     pending_handler_event := pending_handler_event s; connected_peers := connected_peers s;
     recv_counter := recv_counter s; send_counter := send_counter s; pending_recv := v;
     pending_send := pending_send s; ongoing_recv := ongoing_recv s;
     ongoing_send := ongoing_send s; expiry_check_throttle := expiry_check_throttle s |}.

Definition set_pending_send (v : gmap N PendingSend.t) (s : Behaviour) : Behaviour :=
  {| config := config s; out_events := out_events s;
     pending_handler_event := pending_handler_event s; connected_peers := connected_peers s;
     recv_counter := recv_counter s; send_counter := send_counter s;
     pending_recv := pending_recv s; pending_send := v; ongoing_recv := ongoing_recv s;
     ongoing_send := ongoing_send s; expiry_check_throttle := expiry_check_throttle s |}.

Definition set_ongoing_recv (v : gmap N OngoingFileRecv.t) (s : Behaviour) : Behaviour :=
  {| config := config s; out_events := out_events s;
     pending_handler_event := pending_handler_event s; connected_peers := connected_peers s;
     recv_counter := recv_counter s; send_counter := send_counter s;
     pending_recv := pending_recv s; pending_send := pending_send s; ongoing_recv := v;
     ongoing_send := ongoing_send s; expiry_check_throttle := expiry_check_throttle s |}.

Definition set_ongoing_send (v : gmap N OngoingFileSend.t) (s : Behaviour) : Behaviour :=
  {| config := config s; out_events := out_events s;
     pending_handler_event := pending_handler_event s; connected_peers := connected_peers s;
     recv_counter := recv_counter s; send_counter := send_counter s;
     pending_recv := pending_recv s; pending_send := pending_send s;
     ongoing_recv := ongoing_recv s; ongoing_send := v;
     expiry_check_throttle := expiry_check_throttle s |}.

Definition set_expiry_check_throttle (v : Delay) (s : Behaviour) : Behaviour :=
  {| config := config s; out_events := out_events s;
     pending_handler_event := pending_handler_event s; connected_peers := connected_peers s;
     recv_counter := recv_counter s; send_counter := send_counter s;
     pending_recv := pending_recv s; pending_send := pending_send s;
     ongoing_recv := ongoing_recv s; ongoing_send := ongoing_send s;
     expiry_check_throttle := v |}.

Definition push_out (ev : OutEvent) (s : Behaviour) : Behaviour :=
  set_out_events (out_events s ++ [ev]) s.

(** [pending_handler_event.push_back(ToSwarm::NotifyHandler { .. Any .. })]. *)
Definition notify_any (peer_id : PeerId) (event : FromBehaviourEvent) (s : Behaviour) : Behaviour :=
  set_pending_handler_event (pending_handler_event s ++ [NotifyHandler peer_id Any event]) s.

Definition next_recv_id (s : Behaviour) : outcome (N * Behaviour) :=
  let id := recv_counter s in
  c ← u64_add (recv_counter s) 1;
  Return (id, set_recv_counter c s).

Definition next_send_id (s : Behaviour) : outcome (N * Behaviour) :=
  let id := send_counter s in
  c ← u64_add (send_counter s) 1;
  Return (id, set_send_counter c s).

(** ** Removing records *)
Definition remove_recv_record (local_recv_id : N) (s : Behaviour)
    : option (PeerId * N) * Behaviour :=
  match pending_recv s !! local_recv_id with
  | Some v =>
      (Some (PendingRecv.remote v, PendingRecv.remote_send_id v),
       set_pending_recv (delete local_recv_id (pending_recv s)) s)
  | None =>
      match ongoing_recv s !! local_recv_id with
      | Some v =>
          (Some (OngoingFileRecv.remote v, OngoingFileRecv.remote_send_id v),
           set_ongoing_recv (delete local_recv_id (ongoing_recv s)) s)
      | None => (None, s)
      end
  end.

Definition remove_send_record (local_send_id : N) (s : Behaviour)
    : option PeerId * Behaviour :=
  match pending_send s !! local_send_id with
  | Some v =>
      (Some (PendingSend.remote v),
       set_pending_send (delete local_send_id (pending_send s)) s)
  | None =>
      match ongoing_send s !! local_send_id with
      | Some v =>
          (Some (OngoingFileSend.remote v),
           set_ongoing_send (delete local_send_id (ongoing_send s)) s)
      | None => (None, s)
      end
  end.

(** [extract_if(..).next()] takes the first match in iteration order. *)
Definition remove_recv_by_remote_send_id (remote_send_id : N) (s : Behaviour)
    : option (PeerId * N) * Behaviour :=
  match ongoing_recv s !! remote_send_id with
  | Some v =>
      (Some (OngoingFileRecv.remote v, OngoingFileRecv.local_recv_id v),
       set_ongoing_recv (delete remote_send_id (ongoing_recv s)) s)
  | None =>
      match list_find (λ '(_, v), PendingRecv.remote_send_id v = remote_send_id)
              (hm_iter (pending_recv s)) with
      | Some (_, (k, v)) =>
          (Some (PendingRecv.remote v, PendingRecv.remote_send_id v),
           set_pending_recv (delete k (pending_recv s)) s)
      | None => (None, s)
      end
  end.

(** ** Cancelling *)
Definition cancel_recv_by_local_recv_id (local_recv_id : N) (s : Behaviour) : bool * Behaviour :=
  match remove_recv_record local_recv_id s with
  | (Some (remote, remote_send_id), s) =>
      let s := notify_any remote (LocalCancelRecv remote_send_id) s in
      (true, push_out (CancelledRecv local_recv_id) s)
  | (None, s) => (false, s)
  end.

Definition cancel_send_by_local_send_id (local_send_id : N) (s : Behaviour) : bool * Behaviour :=
  match remove_send_record local_send_id s with
  | (Some remote, s) => (true, notify_any remote (LocalCancelSend local_send_id) s)
  | (None, s) => (false, s)
  end.

(** ** Receiving *)
Definition on_new_pending_recv (now : N) (from : PeerId) (file_name : string)
    (remote_send_id bytes_total : N) (s : Behaviour) : outcome Behaviour :=
  '(local_recv_id, s) ← next_recv_id s;
  let r := {|
    PendingRecv.local_recv_id := local_recv_id;
    PendingRecv.remote_send_id := remote_send_id;
    PendingRecv.remote := from;
    PendingRecv.bytes_total := bytes_total;
    PendingRecv.file_name := file_name;
    PendingRecv.timestamp := now;
  |} in
  let s := set_pending_recv (<[local_recv_id := r]> (pending_recv s)) s in
  Return (push_out (IncomingFile from file_name local_recv_id bytes_total) s).

Definition accept_pending_recv (now : N) (file : File) (path : string) (recv_id : N)
    (callback : Callback) (s : Behaviour) : Behaviour * list (Sent Answer) :=
  match pending_recv s !! recv_id with
  | None =>
      (s, handle_callback_sender
            (AnsAcceptFile (Err (FileRecvError.PendingRecvNotFound recv_id))) callback)
  | Some v =>
      let s := set_pending_recv (delete recv_id (pending_recv s)) s in
      let r := {|
        OngoingFileRecv.remote_send_id := PendingRecv.remote_send_id v;
        OngoingFileRecv.local_recv_id := recv_id;
        OngoingFileRecv.file_handle := file;
        OngoingFileRecv.bytes_received := 0;
        OngoingFileRecv.bytes_total := PendingRecv.bytes_total v;
        OngoingFileRecv.remote := PendingRecv.remote v;
        OngoingFileRecv.file_path := path_push path (PendingRecv.file_name v);
        OngoingFileRecv.last_active := now;
      |} in
      let s := set_ongoing_recv (<[PendingRecv.remote_send_id v := r]> (ongoing_recv s)) s in
      (notify_any (PendingRecv.remote v)
         (HAcceptFile (PendingRecv.remote_send_id v) callback) s, [])
  end.

Definition ongoing_recv_after (r : OngoingFileRecv.t) (file : File) (received now : N)
    : OngoingFileRecv.t := {|
  OngoingFileRecv.remote_send_id := OngoingFileRecv.remote_send_id r;
  OngoingFileRecv.local_recv_id := OngoingFileRecv.local_recv_id r;
  OngoingFileRecv.remote := OngoingFileRecv.remote r;
  OngoingFileRecv.bytes_received := received;
  OngoingFileRecv.bytes_total := OngoingFileRecv.bytes_total r;
  OngoingFileRecv.file_handle := file;
  OngoingFileRecv.file_path := OngoingFileRecv.file_path r;
  OngoingFileRecv.last_active := now;
|}.

(** One turn of the loop that writes a chunk: it breaks with the bytes written
    or with the error of the failing write. *)
Definition write_chunk_body (content : bytes) (st : nat * File)
    : outcome ((nat * File) + (File * result nat ErrorKind)) :=
  let '(cursor, file) := st in
  match File.write (drop cursor content) file with
  | (Ok bytes_written, file) =>
      let cursor := cursor + bytes_written in
      if Nat.leb (length content) cursor then Return (inr (file, Ok cursor))
      else Return (inl (cursor, file))
  | (Err e, file) => Return (inr (file, Err e))
  end.

Definition write_chunk (fuel : nat) (content : bytes) (file : File)
    : outcome (File * result nat ErrorKind) :=
  loop (write_chunk_body content) fuel (0, file).

(** The record is out of the table while the chunk is handled, and put back
    only when every byte was written; the result of the final [flush] is only
    logged. *)
Definition progress_ongoing_recv (fuel : nat) (now : N) (remote_send_id : N) (content : bytes)
    (s : Behaviour) : outcome Behaviour :=
  match ongoing_recv s !! remote_send_id with
  | None => Return s
  | Some r =>
      let s := set_ongoing_recv (delete remote_send_id (ongoing_recv s)) s in
      let len := length content in
      if Nat.eqb len 0 then
        if negb (OngoingFileRecv.bytes_received r =? OngoingFileRecv.bytes_total r)%N then
          Return (push_out (OutError (UnexpectedEOF (OngoingFileRecv.local_recv_id r))) s)
        else
          Return (push_out (RecvProgressed (OngoingFileRecv.local_recv_id r)
                              (OngoingFileRecv.bytes_total r) (OngoingFileRecv.bytes_total r)) s)
      else
        '(file, written) ← write_chunk fuel content (OngoingFileRecv.file_handle r);
        match written with
        | Err e => Return (push_out (OngoingRecvError (OngoingFileRecv.local_recv_id r) (io_debug (os_error e))) s)
        | Ok cursor =>
            received ← u64_add (OngoingFileRecv.bytes_received r) (N.of_nat cursor);
            Return (set_ongoing_recv
                      (<[remote_send_id := ongoing_recv_after r file received now]> (ongoing_recv s)) s)
        end
  end.

(** ** Sending *)
Definition ongoing_send_after (r : OngoingFileSend.t) (file : File) (sent now : N)
    : OngoingFileSend.t := {|
  OngoingFileSend.local_send_id := OngoingFileSend.local_send_id r;
  OngoingFileSend.remote := OngoingFileSend.remote r;
  OngoingFileSend.bytes_sent := sent;
  OngoingFileSend.bytes_total := OngoingFileSend.bytes_total r;
  OngoingFileSend.file_handle := file;
  OngoingFileSend.file_path := OngoingFileSend.file_path r;
  OngoingFileSend.last_active := now;
|}.

Definition progress_ongoing_send (now : N) (local_send_id : N) (s : Behaviour) : outcome Behaviour :=
  match ongoing_send s !! local_send_id with
  | None => Return s
  | Some r =>
      match File.read FILE_CHUNK_SIZE (OngoingFileSend.file_handle r) with
      | (Err e, _) => Return (set_ongoing_send (delete local_send_id (ongoing_send s)) s)
      | (Ok buf, file) =>
          sent ← u64_add (OngoingFileSend.bytes_sent r) (N.of_nat (length buf));
          let s := set_ongoing_send
            (<[local_send_id := ongoing_send_after r file sent now]> (ongoing_send s)) s in
          let s := notify_any (OngoingFileSend.remote r)
            (FileChunk (OngoingFileSend.local_send_id r) buf) s in
          if Nat.eqb (length buf) 0
          then Return (set_ongoing_send (delete local_send_id (ongoing_send s)) s)
          else Return s
      end
  end.

(** The record's own ID replaces the argument once it is destructured. *)
Definition pending_send_accepted (now : N) (local_send_id : N) (s : Behaviour)
    : outcome (result N unit * Behaviour) :=
  match pending_send s !! local_send_id, ongoing_send s !! local_send_id with
  | None, None => Return (Err (), s)
  | found, _ =>
      v ← expect found "Already handled";
      let s := set_pending_send (delete local_send_id (pending_send s)) s in
      let id := PendingSend.local_send_id v in
      let r := {|
        OngoingFileSend.local_send_id := id;
        OngoingFileSend.remote := PendingSend.remote v;
        OngoingFileSend.bytes_total := PendingSend.bytes_total v;
        OngoingFileSend.file_handle := PendingSend.file v;
        OngoingFileSend.file_path := PendingSend.file_path v;
        OngoingFileSend.bytes_sent := 0;
        OngoingFileSend.last_active := now;
      |} in
      let s := set_ongoing_send (<[id := r]> (ongoing_send s)) s in
      s ← progress_ongoing_send now id s;
      Return (Ok (PendingSend.bytes_total v), s)
  end.

(** ** Expiry *)
Definition expired (now timestamp timeout : N) : outcome bool :=
  age ← u64_sub now timestamp; Return (timeout <? age)%N.

(** The keys (or the IDs) of the expired records, in iteration order, computed
    before anything is cancelled. *)
Definition expired_ids {A} (now : N) (timestamp : A → N) (timeout : N) (id : N * A → N)
    (m : gmap N A) : outcome (list N) :=
  l ← filter_outcome (λ '(_, v), expired now (timestamp v) timeout) (hm_iter m);
  Return (id <$> l).

Definition cancel_sends (ids : list N) (s : Behaviour) : Behaviour :=
  foldl (λ s k, (cancel_send_by_local_send_id k s).2) s ids.
Definition cancel_recvs (ids : list N) (s : Behaviour) : Behaviour :=
  foldl (λ s k, (cancel_recv_by_local_recv_id k s).2) s ids.

Definition check_pending_send (now : N) (s : Behaviour) : outcome Behaviour :=
  let timeout := pending_send_timeout_sec (config s) in
  if (0 <? timeout)%N then
    ids ← expired_ids now PendingSend.timestamp timeout fst (pending_send s);
    Return (cancel_sends ids s)
  else Return s.

Definition check_pending_recv (now : N) (s : Behaviour) : outcome Behaviour :=
  let timeout := pending_recv_timeout_sec (config s) in
  if (0 <? timeout)%N then
    ids ← expired_ids now PendingRecv.timestamp timeout fst (pending_recv s);
    Return (cancel_recvs ids s)
  else Return s.

Definition check_ongoing_send (now : N) (s : Behaviour) : outcome Behaviour :=
  let timeout := ongoing_send_timeout_sec (config s) in
  if (0 <? timeout)%N then
    ids ← expired_ids now OngoingFileSend.last_active timeout fst (ongoing_send s);
    Return (cancel_sends ids s)
  else Return s.

Definition check_ongoing_recv (now : N) (s : Behaviour) : outcome Behaviour :=
  let timeout := ongoing_recv_timeout_sec (config s) in
  if (0 <? timeout)%N then
    ids ← expired_ids now OngoingFileRecv.last_active timeout
            (λ '(_, v), OngoingFileRecv.local_recv_id v) (ongoing_recv s);
    Return (cancel_recvs ids s)
  else Return s.

Definition check_expiry (now : N) (s : Behaviour) : outcome Behaviour :=
  s ← check_pending_send now s;
  s ← check_pending_recv now s;
  s ← check_ongoing_send now s;
  check_ongoing_recv now s.

(** ** A peer disconnects *)
Definition on_disconnect (info : ConnectionClosed) (s : Behaviour) : Behaviour :=
  if (cc_remaining_established info <? 1)%N then
    let peer := cc_peer_id info in
    let s := set_connected_peers (connected_peers s ∖ {[peer]}) s in
    let s := set_pending_send
      (filter (λ '(_, v), PendingSend.remote v ≠ peer) (pending_send s)) s in
    let s := set_pending_recv
      (filter (λ '(_, v), PendingRecv.remote v ≠ peer) (pending_recv s)) s in
    let s := set_ongoing_send
      (filter (λ '(_, v), OngoingFileSend.remote v ≠ peer) (ongoing_send s)) s in
    set_ongoing_recv
      (filter (λ '(_, v), OngoingFileRecv.remote v ≠ peer) (ongoing_recv s)) s
  else s.

(** ** Requests of the application *)
Definition send_file (now : N) (file : File) (path : string) (to : PeerId) (callback : Callback)
    (s : Behaviour) : outcome (Behaviour * list (Sent Answer)) :=
  '(local_send_id, s) ← next_send_id s;
  if decide (to ∈ connected_peers s) then
    match File.metadata_len file with
    | Err _ => Return (s, [Dropped callback])
    | Ok bytes_total =>
        let r := {|
          PendingSend.local_send_id := local_send_id;
          PendingSend.remote := to;
          PendingSend.file_path := path;
          PendingSend.bytes_total := bytes_total;
          PendingSend.file := file;
          PendingSend.timestamp := now;
        |} in
        let s := set_pending_send (<[local_send_id := r]> (pending_send s)) s in
        name ← expect (file_name path) "called `Option::unwrap()` on a `None` value";
        Return (notify_any to (NewFileSend name local_send_id callback bytes_total) s, [])
    end
  else
    sent ← send_expect (AnsSendFile (Err FileSendError.PeerNotFound)) callback "callback to succeed";
    Return (s, sent).

Definition list_recv (s : Behaviour) : outcome (list RecvInfo.t) :=
  ongoing ← map_outcome (λ '(_, v), RecvInfo_from_ongoing v) (hm_iter (ongoing_recv s));
  let pending := (λ '(_, v), RecvInfo_from_pending v) <$> hm_iter (pending_recv s) in
  Return (ongoing ++ pending).

Definition list_send (s : Behaviour) : list SendInfo.t :=
  ((λ '(_, v), SendInfo_from_ongoing v) <$> hm_iter (ongoing_send s)) ++
  ((λ '(_, v), SendInfo_from_pending v) <$> hm_iter (pending_send s)).

Definition push_event (now : N) (ev : InEvent) (s : Behaviour)
    : outcome (Behaviour * list (Sent Answer)) :=
  match ev with
  | SendFile file file_path to callback => send_file now file file_path to callback s
  | AcceptFile file recv_id path callback =>
      Return (accept_pending_recv now file path recv_id callback s)
  | CancelRecv recv_id callback =>
      let '(found, s) := cancel_recv_by_local_recv_id recv_id s in
      Return (s, handle_callback_sender
                   (AnsCancel (if found : bool then Ok () else Err IdNotFound)) callback)
  | CancelSend local_send_id callback =>
      let '(found, s) := cancel_send_by_local_send_id local_send_id s in
      Return (s, handle_callback_sender
                   (AnsCancel (if found : bool then Ok () else Err IdNotFound)) callback)
  | ListConnected callback =>
      Return (s, handle_callback_sender (AnsListConnected (hs_iter (connected_peers s))) callback)
  | ListRecv callback =>
      infos ← list_recv s;
      Return (s, handle_callback_sender (AnsListRecv infos) callback)
  | ListSend callback =>
      Return (s, handle_callback_sender (AnsListSend (list_send s)) callback)
  end.

(** ** Events of the connection handlers *)
Definition on_connection_handler_event (fuel : nat) (now : N) (peer_id : PeerId)
    (event : ToBehaviourEvent) (s : Behaviour) : outcome Behaviour :=
  match event with
  | HRecvProgressed remote_send_id content =>
      progress_ongoing_recv fuel now remote_send_id content s
  | HIncomingFile file_name remote_send_id bytes_total =>
      on_new_pending_recv now peer_id file_name remote_send_id bytes_total s
  | HError e => Return (push_out (OutError e) s)
  | HInboundNegotiated => Return (push_out (InboundNegotiated peer_id) s)
  | HOutboundNegotiated =>
      let s := set_connected_peers ({[peer_id]} ∪ connected_peers s) s in
      Return (push_out (OutboundNegotiated peer_id) s)
  | HUnsupported => Return (push_out (Unsupported peer_id) s)
  | FileSendPending _ => Return s
  | FileSendAccepted local_send_id =>
      '(r, s) ← pending_send_accepted now local_send_id s;
      match r with
      | Ok bytes_total => Return (push_out (SendProgressed local_send_id 0 bytes_total) s)
      | Err _ => Return s
      end
  | HSendProgressed local_send_id _ =>
      let s := match ongoing_send s !! local_send_id with
               | Some v => push_out (SendProgressed local_send_id
                             (OngoingFileSend.bytes_sent v) (OngoingFileSend.bytes_total v)) s
               | None => s
               end in
      progress_ongoing_send now local_send_id s
  | RemoteCancelSend local_send_id =>
      let s := push_out (CancelledSend local_send_id) s in
      Return (remove_send_record local_send_id s).2
  | RemoteCancelRecv remote_send_id =>
      match remove_recv_by_remote_send_id remote_send_id s with
      | (Some (_, local_recv_id), s) => Return (push_out (CancelledRecv local_recv_id) s)
      | (None, s) => Return s
      end
  end.

Definition on_swarm_event (event : FromSwarm) (s : Behaviour) : Behaviour :=
  match event with
  | FromSwarmConnectionClosed info => on_disconnect info s
  | FromSwarmOther => s
  end.

(** ** poll *)
Definition pop_event (s : Behaviour) : Behaviour * Poll (ToSwarm OutEvent FromBehaviourEvent) :=
  match out_events s with
  | ev :: l => (set_out_events l s, Ready (GenerateEvent ev))
  | [] =>
      match pending_handler_event s with
      | ev :: l => (set_pending_handler_event l s, Ready ev)
      | [] => (s, Pending)
      end
  end.

Definition poll (cx : PollCx) (now : N) (s : Behaviour)
    : outcome (Behaviour * Poll (ToSwarm OutEvent FromBehaviourEvent)) :=
  let '(ready, delay) := delay_poll cx (expiry_check_throttle s) in
  let s := set_expiry_check_throttle delay s in
  s ← (if ready : bool
       then s ← check_expiry now s;
            Return (set_expiry_check_throttle (delay_reset 5000 (expiry_check_throttle s)) s)
       else Return s);
  Return (pop_event s).

(** ** The behaviour as a transition system

    Everything that can happen to a behaviour, in any order: a request of the
    application, an event of a connection handler, an event of the swarm, a
    poll. *)
Inductive Op :=
| OpPush (now : N) (ev : InEvent)
| OpHandler (now : N) (peer_id : PeerId) (ev : ToBehaviourEvent)
| OpSwarm (ev : FromSwarm)
| OpPoll (cx : PollCx) (now : N).

Inductive Output :=
| Replied (r : Sent Answer)
| Emitted (ev : ToSwarm OutEvent FromBehaviourEvent).

Definition step (fuel : nat) (op : Op) (s : Behaviour) : outcome (Behaviour * list Output) :=
  match op with
  | OpPush now ev => '(s, l) ← push_event now ev s; Return (s, Replied <$> l)
  | OpHandler now peer_id ev =>
      s ← on_connection_handler_event fuel now peer_id ev s; Return (s, [])
  | OpSwarm ev => Return (on_swarm_event ev s, [])
  | OpPoll cx now =>
      '(s, p) ← poll cx now s;
      Return (s, match p with Ready ev => [Emitted ev] | Pending => [] end)
  end.

Fixpoint run (fuel : nat) (ops : list Op) (s : Behaviour) : outcome (Behaviour * list Output) :=
  match ops with
  | [] => Return (s, [])
  | op :: ops =>
      '(s, l) ← step fuel op s;
      '(s, l') ← run fuel ops s;
      Return (s, l ++ l')
  end.

End behaviour.
