(* ===== verification/BlobDemo.v ===== *)
(** * Concrete states of the blob behaviour

    The files, callbacks and reachable states the witnesses of the blob theorems
    evaluate. *)

From stdpp Require Import base gmap sets list strings fin_maps.
From Stdlib Require Import Lia NArith.
From S2P Require Import Prelude Std Core BlobTypes BlobBehaviour.

#[export] Existing Instance demo_platform.

Definition demo_file : File := MkFile (replicate 3 Byte.x41) 0 (Ok ()) (λ _, OsUpTo 2) 0.
Definition demo_empty : File := MkFile [] 0 (Ok ()) (λ _, OsUpTo 2) 0.
Definition demo_cb (n : N) : Callback := {| cb_id := n; cb_open := true |}.

(** The state and the outputs of a run that returns. *)
Definition final (m : outcome (Behaviour * list Output)) : Behaviour :=
  match m with Return (s, _) => s | _ => new Config_default end.
Definition outputs (m : outcome (Behaviour * list Output)) : list Output :=
  match m with Return (_, l) => l | _ => [] end.

(** A peer connects and is offered a file... *)
Definition ops_offer : list Op := [
  OpHandler 0 7%N HOutboundNegotiated;
  OpPush 0 (SendFile demo_file "dir/a.txt" 7%N (demo_cb 0))].
Definition s_offer : Behaviour := final (run 10 ops_offer (new Config_default)).

(** ...and accepts it; the first chunk is queued. *)
Definition ops_send : list Op := ops_offer ++ [OpHandler 0 7%N (FileSendAccepted 0)].
Definition s_send : Behaviour := final (run 10 ops_send (new Config_default)).

(** A peer offers a file under its own ID 5... *)
Definition ops_offered : list Op := [OpHandler 0 7%N (HIncomingFile "b.txt" 5 3)].
Definition s_offered : Behaviour := final (run 10 ops_offered (new Config_default)).

(** ...which is accepted into an empty file. *)
Definition ops_recv : list Op := ops_offered ++ [OpPush 0 (AcceptFile demo_empty 0 "dl" (demo_cb 0))].
Definition s_recv : Behaviour := final (run 10 ops_recv (new Config_default)).
Definition r_recv : OngoingFileRecv.t :=
  default {| OngoingFileRecv.remote_send_id := 0; OngoingFileRecv.local_recv_id := 0;
             OngoingFileRecv.remote := 0%N; OngoingFileRecv.bytes_received := 0;
             OngoingFileRecv.bytes_total := 0; OngoingFileRecv.file_handle := demo_empty;
             OngoingFileRecv.file_path := ""; OngoingFileRecv.last_active := 0 |}
    (ongoing_recv s_recv !! 5%N).
