(* ===== verification/BlobBehaviourProps.v ===== *)
(** * The blob behaviour: invariants and safety

    The tables stay consistent in every run, which operations can panic and
    which cannot, and what a query of the application sees. *)

From stdpp Require Import base gmap sets list strings fin_maps.
From Stdlib Require Import Lia NArith.
From S2P Require Import Prelude Std Core BlobTypes BlobBehaviour BlobDemo.

(** The runs considered: fewer than [2^45] operations, so that neither the
    64-bit counters nor the bytes sent of a transfer can overflow. *)
Definition MAX_OPS : N := 2 ^ 45.
Definition CHUNK : N := 2 ^ 18.
Lemma MAX_OPS_eq : MAX_OPS = 35184372088832%N. Proof. reflexivity. Qed.
Lemma CHUNK_eq : CHUNK = 262144%N. Proof. reflexivity. Qed.
Arguments MAX_OPS : simpl never.
Arguments CHUNK : simpl never.
Lemma FILE_CHUNK_SIZE_eq : FILE_CHUNK_SIZE = CHUNK. Proof. reflexivity. Qed.

Section inv.
Context {P : Platform}.

(** ** The tables of the sending side *)
Record send_wf (n : N) (conn : gset PeerId) (ctr : N) (ps : gmap N PendingSend.t)
    (os : gmap N OngoingFileSend.t) : Prop := {
  sw_counter : (ctr ≤ n)%N;
  sw_pending k v : ps !! k = Some v →
    PendingSend.local_send_id v = k ∧ (k < ctr)%N ∧ PendingSend.remote v ∈ conn ∧ os !! k = None;
  sw_ongoing k v : os !! k = Some v →
    OngoingFileSend.local_send_id v = k ∧ (k < ctr)%N ∧ OngoingFileSend.remote v ∈ conn ∧
    (0 < OngoingFileSend.bytes_sent v)%N ∧ (OngoingFileSend.bytes_sent v ≤ n * CHUNK)%N;
}.

(** ** The tables of the receiving side *)
Record recv_wf (n : N) (ctr : N) (pr : gmap N PendingRecv.t) (or : gmap N OngoingFileRecv.t)
    : Prop := {
  rw_counter : (ctr ≤ n)%N;
  rw_pending k v : pr !! k = Some v → PendingRecv.local_recv_id v = k ∧ (k < ctr)%N;
  rw_ongoing k v : or !! k = Some v →
    OngoingFileRecv.remote_send_id v = k ∧ (OngoingFileRecv.local_recv_id v < ctr)%N ∧
    pr !! OngoingFileRecv.local_recv_id v = None;
  rw_distinct k1 v1 k2 v2 : or !! k1 = Some v1 → or !! k2 = Some v2 →
    OngoingFileRecv.local_recv_id v1 = OngoingFileRecv.local_recv_id v2 → k1 = k2;
}.

(** After at most [n] operations. *)
Definition wf (n : N) (s : Behaviour) : Prop :=
  send_wf n (connected_peers s) (send_counter s) (pending_send s) (ongoing_send s) ∧
  recv_wf n (recv_counter s) (pending_recv s) (ongoing_recv s).

Lemma wf_new n cfg : wf n (new cfg).
Proof. split; split; try (intros * H; rewrite ?lookup_empty in H; done); simpl; lia. Qed.

Lemma send_wf_mono n n' conn ctr ps os :
  (n ≤ n')%N → send_wf n conn ctr ps os → send_wf n' conn ctr ps os.
Proof.
  intros Hn [H1 H2 H3]. split; [lia|done|]. intros k v Hv.
  destruct (H3 k v Hv) as (?&?&?&?&?). repeat split; try done. nia.
Qed.

Lemma recv_wf_mono n n' ctr pr or :
  (n ≤ n')%N → recv_wf n ctr pr or → recv_wf n' ctr pr or.
Proof. intros Hn [H1 H2 H3 H4]. split; [lia|done..]. Qed.

Lemma wf_mono n n' s : (n ≤ n')%N → wf n s → wf n' s.
Proof. intros Hn [Hs Hr]. split; [eapply send_wf_mono|eapply recv_wf_mono]; done. Qed.

(** Fewer records is still well formed. *)
Lemma send_wf_sub n conn ctr ps os ps' os' :
  ps' ⊆ ps → os' ⊆ os → send_wf n conn ctr ps os → send_wf n conn ctr ps' os'.
Proof.
  intros Hps Hos [H1 H2 H3]. split; [done| |].
  - intros k v Hv. destruct (H2 k v) as (?&?&?&Hn); [by eapply lookup_weaken|].
    repeat split; try done. by eapply lookup_weaken_None.
  - intros k v Hv. apply H3. by eapply lookup_weaken.
Qed.

Lemma recv_wf_sub n ctr pr or pr' or' :
  pr' ⊆ pr → or' ⊆ or → recv_wf n ctr pr or → recv_wf n ctr pr' or'.
Proof.
  intros Hpr Hor [H1 H2 H3 H4]. split; [done| | |].
  - intros k v Hv. apply H2. by eapply lookup_weaken.
  - intros k v Hv. destruct (H3 k v) as (?&?&Hn); [by eapply lookup_weaken|].
    repeat split; try done. by eapply lookup_weaken_None.
  - intros k1 v1 k2 v2 Hv1 Hv2. apply H4; by eapply lookup_weaken.
Qed.

Lemma send_wf_conn n conn conn' ctr ps os :
  conn ⊆ conn' → send_wf n conn ctr ps os → send_wf n conn' ctr ps os.
Proof.
  intros Hc [H1 H2 H3]. split; [done| |]; intros k v Hv.
  - destruct (H2 k v Hv) as (?&?&?&?). repeat split; try done. by apply Hc.
  - destruct (H3 k v Hv) as (?&?&?&?&?). repeat split; try done. by apply Hc.
Qed.

Lemma send_wf_disconnect n conn ctr ps os p :
  send_wf n conn ctr ps os →
  send_wf n (conn ∖ {[p]}) ctr
    (filter (λ '(_, v), PendingSend.remote v ≠ p) ps)
    (filter (λ '(_, v), OngoingFileSend.remote v ≠ p) os).
Proof.
  intros [H1 H2 H3]. split; [done| |]; intros k v.
  - intros [Hv Hp]%map_lookup_filter_Some. destruct (H2 k v Hv) as (?&?&?&?).
    repeat split; try done; [by apply elem_of_difference; rewrite elem_of_singleton|].
    apply map_lookup_filter_None. by left.
  - intros [Hv Hp]%map_lookup_filter_Some. destruct (H3 k v Hv) as (?&?&?&?&?).
    repeat split; try done. by apply elem_of_difference; rewrite elem_of_singleton.
Qed.

Lemma send_wf_fresh n conn ctr ps os : send_wf n conn ctr ps os → ps !! ctr = None ∧ os !! ctr = None.
Proof.
  intros [H1 H2 H3]. split; apply eq_None_not_Some; intros [v Hv].
  - destruct (H2 _ _ Hv). lia.
  - destruct (H3 _ _ Hv). lia.
Qed.

Lemma send_wf_insert n conn ctr ps os v :
  send_wf n conn ctr ps os → PendingSend.local_send_id v = ctr → PendingSend.remote v ∈ conn →
  send_wf (n + 1) conn (ctr + 1) (<[ctr := v]> ps) os.
Proof.
  intros Hwf Hid Hr. destruct (send_wf_fresh _ _ _ _ _ Hwf) as [_ Hos].
  destruct Hwf as [H1 H2 H3]. split; [lia| |].
  - intros k v'. rewrite lookup_insert_Some. intros [[<- <-]|[Hne Hv]].
    + repeat split; try done. lia.
    + destruct (H2 k v' Hv) as (?&?&?&?). repeat split; try done. lia.
  - intros k v' Hv. destruct (H3 k v' Hv) as (?&?&?&?&?). repeat split; try done; [lia|nia].
Qed.

Lemma send_wf_skip n conn ctr ps os :
  send_wf n conn ctr ps os → send_wf (n + 1) conn (ctr + 1) ps os.
Proof.
  intros [H1 H2 H3]. split; [lia| |].
  - intros k v Hv. destruct (H2 k v Hv) as (?&?&?&?). repeat split; try done. lia.
  - intros k v Hv. destruct (H3 k v Hv) as (?&?&?&?&?). repeat split; try done; [lia|nia].
Qed.

(** A record moves to, or is updated in, the table of ongoing sends. *)
Lemma send_wf_update n conn ctr ps os k r :
  send_wf n conn ctr ps (delete k os) → ps !! k = None →
  OngoingFileSend.local_send_id r = k → (k < ctr)%N → OngoingFileSend.remote r ∈ conn →
  (0 < OngoingFileSend.bytes_sent r)%N → (OngoingFileSend.bytes_sent r ≤ n * CHUNK)%N →
  send_wf n conn ctr ps (<[k := r]> os).
Proof.
  intros [H1 H2 H3] Hps Hid Hk Hrem H0 Hle. split; [done| |].
  - intros k' v Hv. destruct (H2 k' v Hv) as (?&?&?&Hn). repeat split; try done.
    assert (k ≠ k') by congruence.
    rewrite lookup_insert_ne by done. by rewrite lookup_delete_ne in Hn.
  - intros k' v. rewrite lookup_insert_Some. intros [[<- <-]|[Hne Hv]]; [done|].
    apply H3. by rewrite lookup_delete_ne.
Qed.

Lemma recv_wf_skip n ctr pr or : recv_wf n ctr pr or → recv_wf (n + 1) ctr pr or.
Proof. apply recv_wf_mono. lia. Qed.

Lemma recv_wf_insert n ctr pr or v :
  recv_wf n ctr pr or → PendingRecv.local_recv_id v = ctr →
  recv_wf (n + 1) (ctr + 1) (<[ctr := v]> pr) or.
Proof.
  intros [H1 H2 H3 H4] Hid. split; [lia| | |done].
  - intros k v'. rewrite lookup_insert_Some. intros [[<- <-]|[Hne Hv]]; [split; [done|lia]|].
    destruct (H2 k v' Hv). split; [done|lia].
  - intros k v' Hv. destruct (H3 k v' Hv) as (?&?&?). repeat split; [done|lia|].
    rewrite lookup_insert_ne; [done|lia].
Qed.

(** Accepting moves a record to the ongoing table under the remote's ID. *)
Lemma recv_wf_accept n ctr pr or id v r :
  recv_wf n ctr pr or → pr !! id = Some v →
  OngoingFileRecv.local_recv_id r = id →
  OngoingFileRecv.remote_send_id r = PendingRecv.remote_send_id v →
  recv_wf n ctr (delete id pr) (<[PendingRecv.remote_send_id v := r]> or).
Proof.
  intros [H1 H2 H3 H4] Hv Hid Hrem. destruct (H2 _ _ Hv) as [_ Hlt].
  assert (Hnot : ∀ k v', or !! k = Some v' → OngoingFileRecv.local_recv_id v' ≠ id).
  { intros k v' Hv' E. destruct (H3 _ _ Hv') as (_&_&?). rewrite E in *. congruence. }
  split; [done| | |].
  - intros k v' Hk. apply H2. by eapply lookup_weaken; [|apply delete_subseteq].
  - intros k v'. rewrite lookup_insert_Some. intros [[<- <-]|[Hne Hk]].
    + split; [done|]. rewrite Hid. split; [lia|]. apply lookup_delete_eq.
    + destruct (H3 k v' Hk) as (?&?&?). repeat split; [done..|].
      rewrite lookup_delete_ne; [done|]. intros E. by apply (Hnot k v').
  - intros k1 v1 k2 v2. rewrite !lookup_insert_Some.
    intros [[<- <-]|[Hne1 Hv1]] [[<- <-]|[Hne2 Hv2]] E; [done| | |by eauto].
    + exfalso. apply (Hnot _ _ Hv2). congruence.
    + exfalso. apply (Hnot _ _ Hv1). congruence.
Qed.

Lemma recv_wf_update n ctr pr or k r r' :
  recv_wf n ctr pr or → or !! k = Some r →
  OngoingFileRecv.local_recv_id r' = OngoingFileRecv.local_recv_id r →
  OngoingFileRecv.remote_send_id r' = OngoingFileRecv.remote_send_id r →
  recv_wf n ctr pr (<[k := r']> (delete k or)).
Proof.
  intros [H1 H2 H3 H4] Hr Hid Hrem. destruct (H3 _ _ Hr) as (?&?&?).
  split; [done|done| |].
  - intros k' v. rewrite insert_delete_eq, lookup_insert_Some. intros [[<- <-]|[Hne Hk]].
    + rewrite Hid, Hrem. done.
    + by apply H3.
  - intros k1 v1 k2 v2. rewrite !insert_delete_eq, !lookup_insert_Some.
    intros [[<- <-]|[Hne1 Hv1]] [[<- <-]|[Hne2 Hv2]] E; [done| | |by eauto].
    + apply (H4 k r k2 v2); congruence.
    + apply (H4 k1 v1 k r); congruence.
Qed.

End inv.

Create HintDb wf.
#[export] Hint Resolve send_wf_mono recv_wf_mono wf_mono wf_new : wf.
#[export] Hint Extern 1 (delete _ _ ⊆ _) => apply delete_subseteq : wf.
#[export] Hint Extern 1 (filter _ _ ⊆ _) => apply map_filter_subseteq : wf.
#[export] Hint Extern 1 (_ ⊆ _) => reflexivity : wf.

(** ** Every operation keeps the tables well formed *)
Section ops.
Context {P : Platform}.

Lemma wf_skip n s : wf n s → wf (n + 1) s.
Proof. apply wf_mono. lia. Qed.

Lemma cancel_send_wf n id s : wf n s → wf n (cancel_send_by_local_send_id id s).2.
Proof.
  intros [Hs Hr]. unfold cancel_send_by_local_send_id, remove_send_record.
  destruct (pending_send s !! id); [|destruct (ongoing_send s !! id); [|done]];
    (split; [|done]); simpl; (eapply send_wf_sub; [| |exact Hs]); auto with wf.
Qed.

Lemma remove_recv_record_wf n id s : wf n s → wf n (remove_recv_record id s).2.
Proof.
  intros [Hs Hr]. unfold remove_recv_record.
  destruct (pending_recv s !! id); [|destruct (ongoing_recv s !! id); [|done]];
    (split; [done|]); simpl; (eapply recv_wf_sub; [| |exact Hr]); auto with wf.
Qed.

Lemma cancel_recv_wf n id s : wf n s → wf n (cancel_recv_by_local_recv_id id s).2.
Proof.
  intros H. apply (remove_recv_record_wf n id) in H. unfold cancel_recv_by_local_recv_id.
  by destruct (remove_recv_record id s) as [[[? ?]|] s'].
Qed.

Lemma foldl_inv {A S} (f : S → A → S) (I : S → Prop) l s :
  (∀ s a, I s → I (f s a)) → I s → I (foldl f s l).
Proof. intros Hf. revert s. induction l; simpl; auto. Qed.

Lemma cancel_sends_wf n ids s : wf n s → wf n (cancel_sends ids s).
Proof. apply foldl_inv. intros ??. apply cancel_send_wf. Qed.
Lemma cancel_recvs_wf n ids s : wf n s → wf n (cancel_recvs ids s).
Proof. apply foldl_inv. intros ??. apply cancel_recv_wf. Qed.

Lemma check_expiry_wf n now s s' : wf n s → check_expiry now s = Return s' → wf n s'.
Proof.
  unfold check_expiry, check_pending_send, check_pending_recv, check_ongoing_send,
    check_ongoing_recv. intros Hwf H.
  repeat match goal with
  | H : context [if ?b then _ else _] |- _ => destruct b
  | _ => progress inv_return
  end; auto using cancel_sends_wf, cancel_recvs_wf.
Qed.

Lemma on_disconnect_wf n info s : wf n s → wf n (on_disconnect info s).
Proof.
  intros [Hs Hr]. unfold on_disconnect. destruct (_ <? 1)%N; [|done]. split; simpl.
  - by apply send_wf_disconnect.
  - eapply recv_wf_sub; [| |exact Hr]; auto with wf.
Qed.

Lemma u64_add_le a b c : u64_add a b = Return c → (c ≤ a + b)%N.
Proof.
  unfold u64_add. destruct (N.ltb_spec (a + b) U64); [by intros [= <-]|].
  destruct overflow_checks; [done|]. intros [= <-]. apply N.Div0.mod_le.
Qed.

(** Progress of a send whose record, the bytes sent apart, is well formed. *)
Lemma progress_ongoing_send_wf n now id r s s' :
  (n < MAX_OPS)%N →
  send_wf n (connected_peers s) (send_counter s) (pending_send s) (delete id (ongoing_send s)) →
  recv_wf n (recv_counter s) (pending_recv s) (ongoing_recv s) →
  ongoing_send s !! id = Some r → pending_send s !! id = None →
  OngoingFileSend.local_send_id r = id → (id < send_counter s)%N →
  OngoingFileSend.remote r ∈ connected_peers s → (OngoingFileSend.bytes_sent r ≤ n * CHUNK)%N →
  progress_ongoing_send now id s = Return s' → wf (n + 1) s'.
Proof.
  intros Hn Hs Hr Hrec Hps Hid Hlt Hrem Hle. unfold progress_ongoing_send. rewrite Hrec.
  destruct (File.read _ _) as [[buf|e] file] eqn:Hread; intros H.
  2: { inv_return. apply wf_skip. by split. }
  inv_return. match goal with H : u64_add _ _ = Return ?x |- _ => rename x into sent; rename H into Hadd end.
  apply File.read_ok in Hread as (_ & Hlen & _).
  assert (HlenN : (N.of_nat (length buf) ≤ CHUNK)%N) by (by rewrite <-FILE_CHUNK_SIZE_eq).
  rewrite u64_add_small in Hadd.
  2: { rewrite U64_eq. rewrite MAX_OPS_eq in Hn. rewrite CHUNK_eq in *. nia. }
  injection Hadd as <-.
  destruct (Nat.eqb_spec (length buf) 0) as [E|E]; inv_return.
  - apply wf_skip. split; simpl; [|done]. by rewrite delete_insert_eq.
  - split; simpl; [|by apply recv_wf_skip].
    apply send_wf_update; simpl; try done; [eapply send_wf_mono; [|done]; lia|lia|nia].
Qed.

Lemma progress_ongoing_send_wf' n now id s s' :
  (n < MAX_OPS)%N → wf n s → progress_ongoing_send now id s = Return s' → wf (n + 1) s'.
Proof.
  intros Hn [Hs Hr] Hp. destruct (ongoing_send s !! id) as [r|] eqn:Hrec.
  - destruct (sw_ongoing _ _ _ _ _ Hs _ _ Hrec) as (?&?&?&?&?).
    eapply progress_ongoing_send_wf; try done.
    + eapply send_wf_sub; [| |exact Hs]; auto with wf.
    + apply eq_None_not_Some. intros [v Hv]. destruct (sw_pending _ _ _ _ _ Hs _ _ Hv) as (_&_&_&?).
      congruence.
  - unfold progress_ongoing_send in Hp. rewrite Hrec in Hp. inv_return. by apply wf_skip.
Qed.

Lemma pending_send_accepted_wf n now id s r s' :
  (n < MAX_OPS)%N → wf n s → pending_send_accepted now id s = Return (r, s') → wf (n + 1) s'.
Proof.
  intros Hn [Hs Hr]. unfold pending_send_accepted.
  destruct (pending_send s !! id) as [v|] eqn:Hv; simpl.
  - intros H. inv_return. destruct (sw_pending _ _ _ _ _ Hs _ _ Hv) as (Hid&?&?&Hos).
    rewrite Hid in *.
    eapply progress_ongoing_send_wf; [done|..|done]; simpl; try done.
    { rewrite delete_insert_id by done. eapply send_wf_sub; [| |exact Hs]; auto with wf. }
    { by rewrite lookup_insert_eq. }
    all: rewrite ?lookup_delete_eq; simpl; first [done|lia].
  - destruct (ongoing_send s !! id); [done|]. intros H. inv_return. by apply wf_skip.
Qed.

Lemma progress_ongoing_recv_wf n fuel now id content s s' :
  wf n s → progress_ongoing_recv fuel now id content s = Return s' → wf n s'.
Proof.
  intros [Hs Hr]. unfold progress_ongoing_recv.
  destruct (ongoing_recv s !! id) as [r|] eqn:Hrec; [|intros; inv_return; by split].
  assert (Hdel : recv_wf n (recv_counter s) (pending_recv s) (delete id (ongoing_recv s))).
  { eapply recv_wf_sub; [| |exact Hr]; auto with wf. }
  destruct (Nat.eqb _ 0).
  - destruct (negb _); intros; inv_return; by split.
  - intros H. inv_return. match goal with r : result nat _ |- _ => destruct r end; inv_return.
    + split; simpl; [done|]. eapply recv_wf_update; done.
    + by split.
Qed.

Lemma on_new_pending_recv_wf n now from name id total s s' :
  (n < MAX_OPS)%N → wf n s → on_new_pending_recv now from name id total s = Return s' → wf (n + 1) s'.
Proof.
  intros Hn [Hs Hr]. unfold on_new_pending_recv, next_recv_id.
  rewrite u64_add_small.
  2: { pose proof (rw_counter _ _ _ _ Hr). rewrite MAX_OPS_eq in Hn. rewrite U64_eq. lia. }
  intros. inv_return. split; simpl; [eapply send_wf_mono; [|done]; lia|]. by apply recv_wf_insert.
Qed.

Lemma send_file_wf n now file path to cb s s' l :
  (n < MAX_OPS)%N → wf n s → send_file now file path to cb s = Return (s', l) → wf (n + 1) s'.
Proof.
  intros Hn [Hs Hr]. unfold send_file, next_send_id.
  rewrite u64_add_small.
  2: { pose proof (sw_counter _ _ _ _ _ Hs). rewrite MAX_OPS_eq in Hn. rewrite U64_eq. lia. }
  simpl. apply recv_wf_skip in Hr. destruct (decide _) as [Hin|Hin].
  - destruct (File.metadata_len file); intros; inv_return; (split; simpl; [|done]).
    + by apply send_wf_insert.
    + by apply send_wf_skip.
  - intros. inv_return. split; simpl; [|done]. by apply send_wf_skip.
Qed.

Lemma accept_pending_recv_wf n now file path id cb s :
  wf n s → wf n (accept_pending_recv now file path id cb s).1.
Proof.
  intros [Hs Hr]. unfold accept_pending_recv.
  destruct (pending_recv s !! id) as [v|] eqn:Hv; [|by split]. split; simpl; [done|].
  by eapply recv_wf_accept.
Qed.

Lemma push_event_wf n now ev s s' l :
  (n < MAX_OPS)%N → wf n s → push_event now ev s = Return (s', l) → wf (n + 1) s'.
Proof.
  intros Hn Hwf. destruct ev; simpl; intros H.
  - by eapply send_file_wf.
  - injection H as H. apply wf_skip.
    pose proof (accept_pending_recv_wf n now file path recv_id callback s Hwf) as Hw.
    revert Hw. by rewrite H.
  - inv_return. by apply wf_skip.
  - inv_return. by apply wf_skip.
  - inv_return. by apply wf_skip.
  - apply wf_skip. apply (cancel_recv_wf n local_recv_id) in Hwf.
    destruct (cancel_recv_by_local_recv_id _ _) as [b s1]. by inv_return.
  - apply wf_skip. apply (cancel_send_wf n local_send_id) in Hwf.
    destruct (cancel_send_by_local_send_id _ _) as [b s1]. by inv_return.
Qed.

Lemma on_connection_handler_event_wf n fuel now peer ev s s' :
  (n < MAX_OPS)%N → wf n s →
  on_connection_handler_event fuel now peer ev s = Return s' → wf (n + 1) s'.
Proof.
  intros Hn Hwf. destruct ev; simpl; intros H.
  - eapply wf_skip, progress_ongoing_recv_wf; done.
  - eapply progress_ongoing_send_wf'; [done| |exact H]. by destruct (ongoing_send s !! _).
  - by eapply on_new_pending_recv_wf.
  - destruct (pending_send_accepted now local_send_id s) as [[r s1]| |] eqn:E; [|done..].
    apply pending_send_accepted_wf with (n := n) in E; [|done..]. simpl in H.
    by destruct r; inv_return.
  - inv_return. by apply wf_skip.
  - inv_return. apply wf_skip. destruct Hwf as [Hs Hr]. unfold remove_send_record. simpl.
    destruct (pending_send s !! _); [|destruct (ongoing_send s !! _); [|by split]];
      (split; [|done]); simpl; (eapply send_wf_sub; [| |exact Hs]); auto with wf.
  - apply wf_skip. destruct Hwf as [Hs Hr]. unfold remove_recv_by_remote_send_id in H.
    destruct (ongoing_recv s !! _).
    { inv_return. split; [done|]. simpl. eapply recv_wf_sub; [| |exact Hr]; auto with wf. }
    destruct (list_find _ _) as [[? [? ?]]|]; inv_return; [|by split].
    split; [done|]. simpl. eapply recv_wf_sub; [| |exact Hr]; auto with wf.
  - inv_return. by apply wf_skip.
  - inv_return. by apply wf_skip.
  - inv_return. apply wf_skip. destruct Hwf as [Hs Hr]. split; [|done]. simpl.
    eapply send_wf_conn; [|done]. apply union_subseteq_r.
  - inv_return. by apply wf_skip.
Qed.

Lemma pop_event_wf n s : wf n s → wf n (pop_event s).1.
Proof.
  unfold pop_event. by destruct (out_events s); [destruct (pending_handler_event s)|].
Qed.

Lemma poll_wf n cx now s s' p : wf n s → poll cx now s = Return (s', p) → wf n s'.
Proof.
  intros Hwf. unfold poll. destruct (delay_poll cx _) as [ready d]. intros H.
  apply bind_return in H as (s1 & H1 & H2). injection H2 as H2.
  assert (wf n s1).
  { destruct ready; [|by inv_return]. apply bind_return in H1 as (s2 & H1 & H3). inv_return.
    eapply check_expiry_wf in H1; [|done]. done. }
  pose proof (pop_event_wf n s1) as Hp. rewrite H2 in Hp. auto.
Qed.

Lemma step_wf n fuel op s s' l :
  (n < MAX_OPS)%N → wf n s → step fuel op s = Return (s', l) → wf (n + 1) s'.
Proof.
  intros Hn Hwf. destruct op; simpl; intros H; inv_return.
  - by eapply push_event_wf.
  - by eapply on_connection_handler_event_wf.
  - destruct ev; simpl; apply wf_skip; [by apply on_disconnect_wf|done].
  - by eapply wf_skip, poll_wf.
Qed.

Lemma run_wf n fuel ops s s' l :
  (n + N.of_nat (length ops) ≤ MAX_OPS)%N → wf n s → run fuel ops s = Return (s', l) →
  wf (n + N.of_nat (length ops)) s'.
Proof.
  revert n s s' l. induction ops as [|op ops IH]; intros n s s' l Hn Hwf H; simpl in *.
  - inv_return. by rewrite N.add_0_r.
  - inv_return. replace (n + N.of_nat (S (length ops)))%N with (n + 1 + N.of_nat (length ops))%N by lia.
    eapply IH; [lia| |eassumption]. eapply step_wf; [lia|done..].
Qed.

(** C8: the tables of the behaviour are consistent in every reachable state.
    Whatever requests, handler events, swarm events and polls a behaviour has
    seen (fewer than [2^45]): every record is stored under its own ID, IDs come
    from the counters, no send is both pending and ongoing, every send goes to a
    connected peer, an ongoing send has sent at least one byte, and no two
    receives share a local ID. *)
Theorem run_tables_consistent fuel cfg ops s outs :
  (N.of_nat (length ops) ≤ MAX_OPS)%N →
  run fuel ops (new cfg) = Return (s, outs) →
  wf (N.of_nat (length ops)) s.
Proof.
  intros Hlen Hrun. rewrite <-(N.add_0_l (N.of_nat (length ops))).
  eapply run_wf; [by rewrite N.add_0_l|apply wf_new|exact Hrun].
Qed.

End ops.

(** ** Witness, and the demonstration states *)
Lemma demo_run_send : run 10 ops_send (new Config_default) = Return (s_send, []).
Proof. vm_compute. reflexivity. Qed.

Lemma run_tables_consistent_witness :
  (N.of_nat (length ops_send) ≤ MAX_OPS)%N ∧
  run 10 ops_send (new Config_default) = Return (s_send, []) ∧ wf 3 s_send.
Proof.
  assert (Hlen : (N.of_nat (length ops_send) ≤ MAX_OPS)%N) by done.
  split; [exact Hlen|]. split; [exact demo_run_send|].
  exact (run_tables_consistent 10 Config_default ops_send s_send [] Hlen demo_run_send).
Defined.

Lemma wf_run_new fuel ops s outs :
  (N.of_nat (length ops) ≤ MAX_OPS)%N → run fuel ops (new Config_default) = Return (s, outs) →
  wf (N.of_nat (length ops)) s.
Proof. intros Hlen Hrun. by eapply (run_wf 0) in Hrun; [|by rewrite N.add_0_l|apply wf_new]. Qed.

Lemma wf_s_offer : wf 2 s_offer.
Proof. apply (wf_run_new 10 ops_offer s_offer []); [done|]. vm_compute; reflexivity. Qed.
Lemma wf_s_send : wf 3 s_send.
Proof. by apply (wf_run_new 10 ops_send s_send []), demo_run_send. Qed.
Lemma wf_s_recv : wf 2 s_recv.
Proof. apply (wf_run_new 10 ops_recv s_recv []); [done|]. vm_compute; reflexivity. Qed.
