(* ===== verification/BlobQueues.v ===== *)
(** * The blob behaviour: its two event queues

    Events leave in the order they were queued and none is lost; once a send
    is cancelled no further chunk of it is ever queued. *)

From stdpp Require Import base gmap sets list strings fin_maps.
From Stdlib Require Import Lia NArith.
From S2P Require Import Prelude Std Core BlobTypes BlobBehaviour BlobDemo BlobBehaviourProps.

Section queues.
Context {P : Platform}.

(** A send that is pending or ongoing. *)
Definition active (s : Behaviour) (id : N) : Prop :=
  is_Some (pending_send s !! id) ∨ is_Some (ongoing_send s !! id).

(** The ID of a queued chunk. *)
Definition chunk_id (ev : ToSwarm OutEvent FromBehaviourEvent) : option N :=
  match ev with
  | NotifyHandler _ _ (FileChunk id _) => Some id
  | _ => None
  end.

Definition is_notify (ev : ToSwarm OutEvent FromBehaviourEvent) : bool :=
  match ev with NotifyHandler _ _ _ => true | _ => false end.

Definition allowed (s : Behaviour) (id : N) : Prop := active s id ∨ (send_counter s ≤ id)%N.

(** What an operation other than a poll may do to the queues: append, chunks
    only for sends that were active or did not exist yet; and an ID that was
    used and is no longer active stays so. *)
Record evolves (s s' : Behaviour) : Prop := {
  ev_handler : ∃ added, pending_handler_event s' = pending_handler_event s ++ added ∧
    ∀ ev, ev ∈ added → is_notify ev = true ∧ ∀ id, chunk_id ev = Some id → allowed s id;
  ev_out : ∃ added, out_events s' = out_events s ++ added;
  ev_allowed id : allowed s' id → allowed s id;
  ev_counter : (send_counter s ≤ send_counter s')%N;
}.

#[export] Instance evolves_preorder : PreOrder evolves.
Proof.
  split.
  - intros s. split; [| |done|done]; exists []; rewrite app_nil_r; [|done].
    split; [done|]. intros ev Hin. by apply not_elem_of_nil in Hin.
  - intros s1 s2 s3 [(a1 & E1 & C1) (o1 & O1) A1 L1] [(a2 & E2 & C2) (o2 & O2) A2 L2]. split.
    + exists (a1 ++ a2). split; [by rewrite E2, E1, app_assoc|].
      intros ev [Hin|Hin]%elem_of_app; [by apply C1|]. destruct (C2 ev Hin). auto.
    + exists (o1 ++ o2). by rewrite O2, O1, app_assoc.
    + auto.
    + lia.
Qed.

(** Operations that queue nothing for the handlers. *)
Lemma evolves_tables s s' :
  pending_handler_event s' = pending_handler_event s →
  (∃ added, out_events s' = out_events s ++ added) →
  send_counter s' = send_counter s → (∀ id, active s' id → allowed s id) → evolves s s'.
Proof.
  intros E1 E2 E3 Ha. split; [|done| |by rewrite E3].
  - exists []. rewrite app_nil_r. split; [done|]. intros ? Hin. by apply not_elem_of_nil in Hin.
  - intros id [?|?]; [by apply Ha|right]. by rewrite <-E3.
Qed.

Lemma evolves_sub s s' :
  pending_handler_event s' = pending_handler_event s →
  (∃ added, out_events s' = out_events s ++ added) →
  send_counter s' = send_counter s →
  pending_send s' ⊆ pending_send s → ongoing_send s' ⊆ ongoing_send s → evolves s s'.
Proof.
  intros E1 E2 E3 Hps Hos. apply evolves_tables; [done..|].
  intros id [[v Hv]|[v Hv]]; left; [left|right]; exists v; by eapply lookup_weaken.
Qed.

Ltac no_out := first [by eexists | exists []; by rewrite app_nil_r].

Lemma evolves_push_out ev s : evolves s (push_out ev s).
Proof. apply evolves_sub; first [no_out|simpl; auto with wf]. Qed.

Lemma evolves_notify p ev s :
  (∀ id, chunk_id (NotifyHandler p Any ev) = Some id → allowed s id) →
  evolves s (notify_any p ev s).
Proof.
  intros Hev. split; [|no_out|done|done]. eexists. split; [done|].
  intros ev' ->%list_elem_of_singleton. done.
Qed.

Lemma remove_send_record_evolves id s : evolves s (remove_send_record id s).2.
Proof.
  unfold remove_send_record. destruct (_ !! id); [|destruct (_ !! id)];
    apply evolves_sub; first [no_out|simpl; auto with wf].
Qed.

Lemma cancel_send_evolves id s : evolves s (cancel_send_by_local_send_id id s).2.
Proof.
  unfold cancel_send_by_local_send_id. pose proof (remove_send_record_evolves id s) as H.
  destruct (remove_send_record id s) as [[remote|] s']; simpl in *; [|done].
  etransitivity; [exact H|]. by apply evolves_notify.
Qed.

Lemma remove_recv_record_evolves id s : evolves s (remove_recv_record id s).2.
Proof.
  unfold remove_recv_record. destruct (_ !! id); [|destruct (_ !! id)];
    apply evolves_sub; first [no_out|simpl; auto with wf].
Qed.

Lemma cancel_recv_evolves id s : evolves s (cancel_recv_by_local_recv_id id s).2.
Proof.
  unfold cancel_recv_by_local_recv_id. pose proof (remove_recv_record_evolves id s) as H.
  destruct (remove_recv_record id s) as [[[remote rid]|] s']; simpl in *; [|done].
  etransitivity; [exact H|]. etransitivity; [|apply evolves_push_out]. by apply evolves_notify.
Qed.

Lemma foldl_evolves {A} (f : Behaviour → A → Behaviour) l s :
  (∀ s a, evolves s (f s a)) → evolves s (foldl f s l).
Proof. intros Hf. apply foldl_inv; [|done]. intros s' a H. by etransitivity. Qed.

Lemma cancel_sends_evolves ids s : evolves s (cancel_sends ids s).
Proof. apply foldl_evolves. intros. apply cancel_send_evolves. Qed.
Lemma cancel_recvs_evolves ids s : evolves s (cancel_recvs ids s).
Proof. apply foldl_evolves. intros. apply cancel_recv_evolves. Qed.

Ltac check_evolves :=
  intros H; repeat case_match; inv_return;
  first [apply cancel_sends_evolves | apply cancel_recvs_evolves | reflexivity].

Lemma check_pending_send_evolves now s s' : check_pending_send now s = Return s' → evolves s s'.
Proof. unfold check_pending_send. check_evolves. Qed.
Lemma check_pending_recv_evolves now s s' : check_pending_recv now s = Return s' → evolves s s'.
Proof. unfold check_pending_recv. check_evolves. Qed.
Lemma check_ongoing_send_evolves now s s' : check_ongoing_send now s = Return s' → evolves s s'.
Proof. unfold check_ongoing_send. check_evolves. Qed.
Lemma check_ongoing_recv_evolves now s s' : check_ongoing_recv now s = Return s' → evolves s s'.
Proof. unfold check_ongoing_recv. check_evolves. Qed.

Lemma check_expiry_evolves now s s' : check_expiry now s = Return s' → evolves s s'.
Proof.
  unfold check_expiry. intros (s1 & H1 & (s2 & H2 & (s3 & H3 & H4)%bind_return)%bind_return)%bind_return.
  transitivity s1; [by eapply check_pending_send_evolves|].
  transitivity s2; [by eapply check_pending_recv_evolves|].
  transitivity s3; [by eapply check_ongoing_send_evolves|by eapply check_ongoing_recv_evolves].
Qed.

Lemma on_disconnect_evolves info s : evolves s (on_disconnect info s).
Proof.
  unfold on_disconnect. destruct (_ <? 1)%N; [|done].
  apply evolves_sub; first [no_out|simpl; auto with wf].
Qed.

Lemma next_send_id_evolves n s id s' :
  (n < MAX_OPS)%N → wf n s → next_send_id s = Return (id, s') →
  evolves s s' ∧ id = send_counter s ∧ s' = set_send_counter (send_counter s + 1) s.
Proof.
  intros Hn [Hs _]. unfold next_send_id. rewrite u64_add_small.
  2: { pose proof (sw_counter _ _ _ _ _ Hs). rewrite MAX_OPS_eq in Hn. rewrite U64_eq. lia. }
  intros H. inv_return. split; [|done]. split; [|no_out| |simpl; lia].
  - exists []. rewrite app_nil_r. split; [done|]. intros ? Hin. by apply not_elem_of_nil in Hin.
  - intros id [Ha|Hc]; [by left|right; simpl in Hc; lia].
Qed.

Lemma progress_ongoing_send_evolves now id s s' :
  (∀ r, ongoing_send s !! id = Some r → OngoingFileSend.local_send_id r = id) →
  progress_ongoing_send now id s = Return s' → evolves s s'.
Proof.
  intros Hid. unfold progress_ongoing_send.
  destruct (ongoing_send s !! id) as [r|] eqn:Hr; [|intros; by inv_return].
  specialize (Hid r eq_refl). subst id.
  destruct (File.read _ _) as [[buf|e] file].
  2: { intros H. inv_return. apply evolves_sub; first [no_out|simpl; auto with wf]. }
  intros H. inv_return.
  set (id := OngoingFileSend.local_send_id r) in *.
  set (s1 := set_ongoing_send (<[id := _]> _) s) in *.
  assert (Hins : evolves s s1).
  { apply evolves_tables; try done; [no_out|]. intros k [?|Hk]; left; [by left|right].
    destruct (decide (k = id)) as [->|]; [by eexists|].
    revert Hk. simpl. by rewrite lookup_insert_ne. }
  assert (Hall : evolves s1 (notify_any (OngoingFileSend.remote r) (FileChunk id buf) s1)).
  { apply evolves_notify. intros k [= <-]. left. right. simpl. rewrite lookup_insert_eq. by eexists. }
  destruct (Nat.eqb _ 0); inv_return; [|by transitivity s1].
  transitivity s1; [done|]. etransitivity; [exact Hall|].
  apply evolves_sub; first [no_out|simpl; auto with wf].
Qed.

Lemma pending_send_accepted_evolves now id s r s' :
  (∀ v, pending_send s !! id = Some v → PendingSend.local_send_id v = id) →
  pending_send_accepted now id s = Return (r, s') → evolves s s'.
Proof.
  intros Hid. unfold pending_send_accepted.
  destruct (pending_send s !! id) as [v|] eqn:Hv; simpl.
  2: { destruct (ongoing_send s !! id); [done|]. intros. by inv_return. }
  specialize (Hid v eq_refl). intros H. rewrite Hid in H. inv_return.
  set (id := PendingSend.local_send_id v) in *.
  etransitivity; [|eapply progress_ongoing_send_evolves; [|eassumption]].
  - apply evolves_tables; try done; [no_out|]. simpl. intros k [[y Hk]|Hk]; left.
    + left. exists y. simpl in Hk. by apply lookup_delete_Some in Hk as [_ ?].
    + destruct (decide (k = id)) as [->|]; [left; by eexists|right].
      revert Hk. simpl. by rewrite lookup_insert_ne.
  - intros r Hr. simpl in Hr. rewrite lookup_insert_eq in Hr. by injection Hr as <-.
Qed.

Lemma progress_ongoing_recv_evolves fuel now id content s s' :
  progress_ongoing_recv fuel now id content s = Return s' → evolves s s'.
Proof.
  unfold progress_ongoing_recv. intros H.
  repeat (case_match; inv_return); apply evolves_sub; first [no_out|simpl; auto with wf].
Qed.

Lemma on_new_pending_recv_evolves now from name id total s s' :
  on_new_pending_recv now from name id total s = Return s' → evolves s s'.
Proof.
  unfold on_new_pending_recv, next_recv_id. intros H. inv_return.
  apply evolves_sub; first [no_out|simpl; auto with wf].
Qed.

Lemma accept_pending_recv_evolves now file path id cb s :
  evolves s (accept_pending_recv now file path id cb s).1.
Proof.
  unfold accept_pending_recv. case_match; [|done]. simpl.
  etransitivity; [|by apply evolves_notify].
  apply evolves_sub; first [no_out|simpl; auto with wf].
Qed.

Lemma send_file_evolves n now file path to cb s s' l :
  (n < MAX_OPS)%N → wf n s → send_file now file path to cb s = Return (s', l) → evolves s s'.
Proof.
  intros Hn Hwf. unfold send_file. intros ([id s1] & H1 & H)%bind_return.
  eapply next_send_id_evolves in H1 as (Hev & -> & ->); [|done..].
  destruct (decide _); [|by inv_return].
  destruct (File.metadata_len file); [|by inv_return]. inv_return.
  etransitivity; [|by apply evolves_notify].
  split; [|no_out| |simpl; lia].
  - exists []. rewrite app_nil_r. split; [done|]. intros ? Hin. by apply not_elem_of_nil in Hin.
  - intros k [[[y Hk]|Hk]|Hk]; [|left; by right|right; simpl in Hk; lia]. simpl in *.
    destruct (decide (k = send_counter s)) as [->|]; [right; lia|].
    left; left; exists y. by rewrite lookup_insert_ne in Hk.
Qed.

Lemma push_event_evolves n now ev s s' l :
  (n < MAX_OPS)%N → wf n s → push_event now ev s = Return (s', l) → evolves s s'.
Proof.
  intros Hn Hwf. destruct ev; simpl; intros H; inv_return; try reflexivity.
  - by eapply send_file_evolves.
  - pose proof (accept_pending_recv_evolves now file path recv_id callback s) as Ha.
    by rewrite H in Ha.
  - pose proof (cancel_recv_evolves local_recv_id s) as Hc.
    destruct (cancel_recv_by_local_recv_id local_recv_id s). by inv_return.
  - pose proof (cancel_send_evolves local_send_id s) as Hc.
    destruct (cancel_send_by_local_send_id local_send_id s). by inv_return.
Qed.

Lemma remove_recv_by_remote_evolves id s : evolves s (remove_recv_by_remote_send_id id s).2.
Proof.
  unfold remove_recv_by_remote_send_id.
  destruct (ongoing_recv s !! id); [|destruct (list_find _ _) as [[? [? ?]]|]]; [..|done];
    apply evolves_sub; first [no_out|simpl; auto with wf].
Qed.

Lemma on_connection_handler_event_evolves n fuel now peer ev s s' :
  wf n s → on_connection_handler_event fuel now peer ev s = Return s' → evolves s s'.
Proof.
  intros [Hs _]. destruct ev; simpl; intros H.
  - by eapply progress_ongoing_recv_evolves.
  - etransitivity; [|eapply progress_ongoing_send_evolves; [|exact H]].
    + destruct (ongoing_send s !! _); [apply evolves_push_out|done].
    + intros r Hr. apply (sw_ongoing _ _ _ _ _ Hs). case_match; simpl in Hr; congruence.
  - by eapply on_new_pending_recv_evolves.
  - destruct (pending_send_accepted now local_send_id s) as [[r s1]| |] eqn:E; [|done..].
    apply pending_send_accepted_evolves in E.
    2: { intros v Hv. by apply (sw_pending _ _ _ _ _ Hs). }
    simpl in H. etransitivity; [exact E|]. destruct r; inv_return; [apply evolves_push_out|done].
  - by inv_return.
  - inv_return. etransitivity; [apply evolves_push_out|]. apply remove_send_record_evolves.
  - pose proof (remove_recv_by_remote_evolves remote_send_id s) as Hr.
    destruct (remove_recv_by_remote_send_id remote_send_id s) as [[[? ?]|] s1]; inv_return; [|done].
    etransitivity; [exact Hr|]. apply evolves_push_out.
  - inv_return. apply evolves_push_out.
  - inv_return. apply evolves_push_out.
  - inv_return. apply evolves_sub; first [no_out|simpl; auto with wf].
  - inv_return. apply evolves_push_out.
Qed.

(** ** Steps and runs *)
Definition emitted_out (outs : list Output) : list OutEvent :=
  omap (λ o, match o with Emitted (GenerateEvent ev) => Some ev | _ => None end) outs.
Definition emitted_handler (outs : list Output) : list (ToSwarm OutEvent FromBehaviourEvent) :=
  omap (λ o, match o with
             | Emitted ev => if is_notify ev then Some ev else None
             | Replied _ => None end) outs.

(** Only [NotifyHandler] events are queued for the handlers. *)
Definition notify_only (s : Behaviour) : Prop :=
  ∀ ev, ev ∈ pending_handler_event s → is_notify ev = true.

(** What a step, or a run, with the outputs [outs] does to the queues. *)
Record conserves (s s' : Behaviour) (outs : list Output) : Prop := {
  co_handler : ∃ added, emitted_handler outs ++ pending_handler_event s' = pending_handler_event s ++ added ∧
    ∀ ev id, ev ∈ added → chunk_id ev = Some id → allowed s id;
  co_out : ∃ added, emitted_out outs ++ out_events s' = out_events s ++ added;
  co_notify : notify_only s → notify_only s';
  co_allowed id : allowed s' id → allowed s id;
  co_counter : (send_counter s ≤ send_counter s')%N;
}.

Lemma evolves_conserves s s' (l : list (Sent Answer)) :
  evolves s s' → conserves s s' (Replied <$> l).
Proof.
  intros [(a & Ea & Ca) Ho Hal Hc].
  assert (emitted_handler (Replied <$> l) = []) as E1 by (by induction l as [|? ? IH]; [|exact IH]).
  assert (emitted_out (Replied <$> l) = []) as E2 by (clear E1; by induction l as [|? ? IH]; [|exact IH]).
  split; [|by rewrite E2| |done|done].
  - rewrite E1. exists a. split; [done|]. intros ev id Hin. by apply Ca.
  - intros Hn ev. rewrite Ea. intros [Hin|Hin]%elem_of_app; [by apply Hn|by apply Ca].
Qed.

Lemma pop_event_conserves s :
  notify_only s →
  conserves s (pop_event s).1 (match (pop_event s).2 with Ready ev => [Emitted ev] | Pending => [] end).
Proof.
  intros Hn. unfold pop_event.
  destruct (out_events s) as [|o os] eqn:Eo; [destruct (pending_handler_event s) as [|h hs] eqn:Eh|];
    simpl.
  - split; try done; exists []; rewrite ?Eh, ?Eo; [|done].
    split; [done|]. intros ? ? Hin. by apply not_elem_of_nil in Hin.
  - assert (is_notify h = true) as Hh by (apply Hn; rewrite Eh; by left).
    split; try done; [exists []|exists []|].
    + unfold emitted_handler. simpl. rewrite Hh. simpl. rewrite app_nil_r, Eh. split; [done|].
      intros ? ? Hin. by apply not_elem_of_nil in Hin.
    + unfold emitted_out. simpl. rewrite Eo. by destruct h.
    + intros _ ev. simpl. intros Hin. apply Hn. rewrite Eh. by right.
  - split; try done; [exists []|exists []]; simpl; rewrite ?app_nil_r; [|by rewrite Eo].
    split; [done|]. intros ? ? Hin. by apply not_elem_of_nil in Hin.
Qed.

Lemma conserves_trans s1 s2 s3 o1 o2 :
  conserves s1 s2 o1 → conserves s2 s3 o2 → conserves s1 s3 (o1 ++ o2).
Proof.
  intros [(a1 & E1 & C1) (b1 & F1) N1 A1 L1] [(a2 & E2 & C2) (b2 & F2) N2 A2 L2].
  split; [| |auto|auto|lia].
  - exists (a1 ++ a2). unfold emitted_handler in *. rewrite omap_app, <-app_assoc, E2, app_assoc, E1, app_assoc.
    split; [done|]. intros ev id [Hin|Hin]%elem_of_app Hid; [by eapply C1|]. apply A1. by eapply C2.
  - exists (b1 ++ b2). unfold emitted_out in *.
    by rewrite omap_app, <-app_assoc, F2, app_assoc, F1, app_assoc.
Qed.

Lemma poll_conserves n cx now s s' p :
  wf n s → notify_only s → poll cx now s = Return (s', p) →
  conserves s s' (match p with Ready ev => [Emitted ev] | Pending => [] end).
Proof.
  intros Hwf Hn. unfold poll. destruct (delay_poll cx _) as [ready d].
  intros (s1 & H1 & H2)%bind_return. injection H2 as H2.
  assert (Hev : evolves s s1).
  { destruct ready.
    - apply bind_return in H1 as (s2 & H1 & H3). injection H3 as <-.
      apply check_expiry_evolves in H1. etransitivity; [|etransitivity; [exact H1|]];
        (apply evolves_sub; first [no_out|simpl; auto with wf]).
    - injection H1 as <-. apply evolves_sub; first [no_out|simpl; auto with wf]. }
  apply (evolves_conserves _ _ []) in Hev. simpl in Hev.
  assert (Hp := pop_event_conserves s1 (co_notify _ _ _ Hev Hn)). rewrite H2 in Hp.
  by eapply (conserves_trans _ _ _ []).
Qed.

Lemma step_conserves n fuel op s s' l :
  (n < MAX_OPS)%N → wf n s → notify_only s → step fuel op s = Return (s', l) → conserves s s' l.
Proof.
  intros Hn Hwf Hno. destruct op; simpl; intros H; inv_return.
  - eapply evolves_conserves, push_event_evolves; done.
  - eapply (evolves_conserves _ _ []), on_connection_handler_event_evolves; done.
  - apply (evolves_conserves _ _ []). destruct ev; [apply on_disconnect_evolves|done].
  - by eapply poll_conserves.
Qed.

Lemma run_conserves n fuel ops s s' l :
  (n + N.of_nat (length ops) ≤ MAX_OPS)%N → wf n s → notify_only s →
  run fuel ops s = Return (s', l) → conserves s s' l.
Proof.
  revert n s s' l. induction ops as [|op ops IH]; intros n s s' l Hn Hwf Hno H; simpl in *.
  - inv_return. by apply (evolves_conserves _ _ []).
  - inv_return. pose proof H as Hstep. eapply (step_conserves n) in H; [|lia|done..].
    eapply conserves_trans; [exact H|]. eapply (IH (n + 1)%N); [lia| |by apply H|eassumption].
    eapply step_wf; [lia|done..].
Qed.

(** ** A cancelled send stays cancelled *)
Definition chunks (id : N) (evs : list (ToSwarm OutEvent FromBehaviourEvent)) :
    list (ToSwarm OutEvent FromBehaviourEvent) :=
  filter (λ ev, chunk_id ev = Some id) evs.

Lemma cancel_send_found n id s s' :
  wf n s → cancel_send_by_local_send_id id s = (true, s') →
  ¬ allowed s' id ∧
  ∃ peer, pending_handler_event s' = pending_handler_event s ++ [NotifyHandler peer Any (LocalCancelSend id)].
Proof.
  intros [Hs _]. unfold cancel_send_by_local_send_id, remove_send_record.
  destruct (pending_send s !! id) as [v|] eqn:Hv; [|destruct (ongoing_send s !! id) as [v|] eqn:Hv'; [|done]].
  - destruct (sw_pending _ _ _ _ _ Hs _ _ Hv) as (_&?&_&Ho). intros [= <-]. split; [|by eexists].
    intros [[[? E]|[? E]]|Hc]; simpl in *; [by rewrite lookup_delete_eq in E|congruence|lia].
  - destruct (sw_ongoing _ _ _ _ _ Hs _ _ Hv') as (_&?&_). intros [= <-]. split; [|by eexists].
    intros [[[? E]|[? E]]|Hc]; simpl in *; [congruence|by rewrite lookup_delete_eq in E|lia].
Qed.

Lemma notify_only_new cfg : notify_only (new cfg).
Proof. intros ev Hin. by apply not_elem_of_nil in Hin. Qed.

Lemma chunks_none id l : (∀ ev, ev ∈ l → chunk_id ev ≠ Some id) → chunks id l = [].
Proof.
  intros H. induction l as [|ev l IH]; [done|]. unfold chunks. rewrite filter_cons_False.
  - apply IH. intros. apply H. by right.
  - apply H. by left.
Qed.

(** C14: once a send is cancelled locally, no further chunk of it is read or
    queued.  If [CancelSend] succeeds in a reachable state, then after any
    further run the ID is neither pending nor ongoing, and the chunks of it
    handed to a handler, together with those still queued, are exactly the ones
    that were already queued at the cancellation. *)
Theorem cancelled_send_is_silent fuel ops0 cfg s0 outs0 now id cb s1 outs1 ops s2 outs :
  (N.of_nat (length ops0) + 1 + N.of_nat (length ops) ≤ MAX_OPS)%N →
  run fuel ops0 (new cfg) = Return (s0, outs0) →
  step fuel (OpPush now (CancelSend id cb)) s0 = Return (s1, outs1) →
  outs1 = [Replied (Answered cb (AnsCancel (Ok ())))] →
  run fuel ops s1 = Return (s2, outs) →
  chunks id (emitted_handler outs ++ pending_handler_event s2) = chunks id (pending_handler_event s0) ∧
  pending_send s2 !! id = None ∧ ongoing_send s2 !! id = None.
Proof.
  intros Hlen Hrun0 Hstep Hok Hrun.
  pose proof (run_wf 0 fuel ops0 _ _ _ ltac:(lia) (wf_new 0 cfg) Hrun0) as Hwf0. rewrite N.add_0_l in Hwf0.
  pose proof (run_conserves 0 fuel ops0 _ _ _ ltac:(lia) (wf_new 0 cfg) (notify_only_new cfg) Hrun0) as Hc0.
  pose proof (co_notify _ _ _ Hc0 (notify_only_new cfg)) as Hn0.
  pose proof (step_wf (N.of_nat (length ops0)) _ _ _ _ _ ltac:(lia) Hwf0 Hstep) as Hwf1.
  pose proof (step_conserves (N.of_nat (length ops0)) _ _ _ _ _ ltac:(lia) Hwf0 Hn0 Hstep) as Hc1.
  pose proof (run_conserves (N.of_nat (length ops0) + 1) fuel ops _ _ _ ltac:(lia) Hwf1 (co_notify _ _ _ Hc1 Hn0) Hrun) as Hc2.
  simpl in Hstep. destruct (cancel_send_by_local_send_id id s0) as [found s1'] eqn:Hcancel.
  inv_return. destruct found; [|done].
  apply (cancel_send_found _ _ _ _ Hwf0) in Hcancel as [Hnot [peer Hq]].
  assert (Hnot2 : ¬ allowed s2 id) by (intros Hal; apply Hnot, (co_allowed _ _ _ Hc2), Hal).
  split; [|split; apply eq_None_not_Some; intros Hsome; apply Hnot2; left; [by left|by right]].
  destruct (co_handler _ _ _ Hc2) as (added & -> & Hadd). rewrite Hq. unfold chunks.
  rewrite !filter_app, filter_cons_False by done. simpl. rewrite app_nil_r.
  fold (chunks id added). rewrite (chunks_none id added), app_nil_r; [done|].
  intros ev Hin Hev. by apply Hnot, (Hadd ev).
Qed.

(** ** Polling drains the queues *)

(** The throttle is not due in any of these polls. *)
Fixpoint quiet (cxs : list PollCx) (d : Delay) : Prop :=
  match cxs with
  | [] => True
  | cx :: cxs => (delay_poll cx d).1 = false ∧ quiet cxs (delay_poll cx d).2
  end.

Definition backlog (s : Behaviour) : list (ToSwarm OutEvent FromBehaviourEvent) :=
  (GenerateEvent <$> out_events s) ++ pending_handler_event s.

Lemma pop_event_backlog s :
  match backlog s with
  | [] => pop_event s = (s, Pending)
  | ev :: l => ∃ s', pop_event s = (s', Ready ev) ∧ backlog s' = l ∧
                     expiry_check_throttle s' = expiry_check_throttle s
  end.
Proof.
  unfold backlog, pop_event. destruct (out_events s) as [|o os] eqn:Eo; simpl.
  - destruct (pending_handler_event s); [done|]. eexists. split; [done|]. simpl. by rewrite Eo.
  - eexists. by split.
Qed.

(** Nothing that is queued is lost, and it leaves in order: with the expiry
    timer idle, [k] polls hand out the first [k] events of the backlog, the
    events to the swarm before the commands to the handlers, and leave the
    rest; enough polls empty both queues. *)
Theorem polls_drain_in_order fuel now cxs s :
  quiet cxs (expiry_check_throttle s) →
  ∃ s', run fuel (map (λ cx, OpPoll cx now) cxs) s =
          Return (s', map Emitted (take (length cxs) (backlog s))) ∧
        backlog s' = drop (length cxs) (backlog s).
Proof.
  revert s. induction cxs as [|cx cxs IH]; intros s Hq; simpl.
  { exists s. by rewrite drop_0. }
  destruct Hq as [Hready Hq]. unfold poll.
  destruct (delay_poll cx (expiry_check_throttle s)) as [ready d]. simpl in Hready, Hq. subst ready. simpl.
  set (s0 := set_expiry_check_throttle d s). pose proof (pop_event_backlog s0) as Hpop.
  change (backlog s0) with (backlog s) in Hpop.
  destruct (backlog s) as [|ev l] eqn:Hb.
  - rewrite Hpop. simpl. destruct (IH s0 Hq) as (s' & Hrun & Hb'). rewrite Hrun. simpl.
    exists s'. change (backlog s0) with (backlog s) in *. rewrite Hb in *.
    by rewrite take_nil, drop_nil in *.
  - destruct Hpop as (s1 & -> & Hb1 & Hthr). simpl.
    destruct (IH s1) as (s' & Hrun & Hb'); [by rewrite Hthr|]. rewrite Hrun. simpl.
    exists s'. by rewrite Hb1 in *.
Qed.
End queues.

(** ** Witnesses *)
Definition op_cancel : Op := OpPush 1 (CancelSend 0 (demo_cb 1)).
Definition s_cancel : Behaviour := final (step 10 op_cancel s_send).
Definition ops_later : list Op := [OpHandler 1 7%N (HSendProgressed 0 5); OpPoll 1%N 1].
Definition s_later : Behaviour := final (run 10 ops_later s_cancel).
Definition outs_later : list Output := outputs (run 10 ops_later s_cancel).

Lemma demo_step_cancel :
  step 10 op_cancel s_send = Return (s_cancel, [Replied (Answered (demo_cb 1) (AnsCancel (Ok ())))]).
Proof. vm_compute. reflexivity. Qed.
Lemma demo_run_later : run 10 ops_later s_cancel = Return (s_later, outs_later).
Proof. vm_compute. reflexivity. Qed.

Lemma cancelled_send_is_silent_witness :
  step 10 op_cancel s_send = Return (s_cancel, [Replied (Answered (demo_cb 1) (AnsCancel (Ok ())))]) ∧
  (chunks 0 (emitted_handler outs_later ++ pending_handler_event s_later) =
     chunks 0 (pending_handler_event s_send) ∧
   pending_send s_later !! 0%N = None ∧ ongoing_send s_later !! 0%N = None).
Proof.
  split; [exact demo_step_cancel|].
  exact (cancelled_send_is_silent 10 ops_send Config_default s_send [] 1 0 (demo_cb 1) s_cancel _
           ops_later s_later outs_later ltac:(done) demo_run_send demo_step_cancel eq_refl demo_run_later).
Defined.

Lemma polls_drain_in_order_witness :
  quiet [1%N; 1%N; 1%N; 1%N] (expiry_check_throttle s_send) ∧
  ∃ s', run 0 (map (λ cx : N, OpPoll (P := demo_platform) cx 0) [1%N; 1%N; 1%N; 1%N]) s_send =
          Return (s', map Emitted (take 4 (backlog s_send))) ∧
        backlog s' = drop 4 (backlog s_send).
Proof.
  assert (Hq : quiet [1%N; 1%N; 1%N; 1%N] (expiry_check_throttle s_send))
    by (vm_compute; repeat split; reflexivity).
  split; [exact Hq|]. exact (polls_drain_in_order 0 0 [1%N; 1%N; 1%N; 1%N] s_send Hq).
Defined.
