(* ===== verification/BlobReceive.v ===== *)
(** * The blob behaviour: receiving

    Writing a chunk to the file, the branches of [progress_ongoing_recv], and
    which receive a cancellation finds. *)

From stdpp Require Import base gmap sets list strings fin_maps.
From Stdlib Require Import Lia NArith.
From S2P Require Import Prelude Std Core BlobTypes BlobBehaviour BlobDemo BlobBehaviourProps.

Section receive.
Context {P : Platform}.

(** ** The loop that writes a chunk *)

(** What the loop guarantees when it stops: an error comes from the operating
    system; without one every byte was written, and a file that was only
    appended to is extended by the chunk. *)
Definition chunk_written (content : bytes) (f : File) (res : File * result nat ErrorKind) : Prop :=
  let '(f', r) := res in
  f_os f' = f_os f ∧
  match r with
  | Ok n => n = length content ∧
      (File.at_end f → File.at_end f' ∧ f_bytes f' = f_bytes f ++ content)
  | Err e => (∃ i, f_os f i = OsFail e) ∧
      (File.at_end f → ∃ k, f_bytes f' = f_bytes f ++ take k content)
  end.

Lemma write_os buf f r f' : File.write buf f = (r, f') → f_os f' = f_os f.
Proof. unfold File.write. destruct (f_os f _); by intros [= <- <-]. Qed.

Lemma write_chunk_spec fuel content f :
  content ≠ [] → File.os_progress f → length content < fuel →
  ∃ res, write_chunk fuel content f = Return res ∧ chunk_written content f res.
Proof.
  intros Hne Hos Hfuel.
  apply (loop_returns (write_chunk_body content)
    (λ '(c, f1), c < length content ∧ f_os f1 = f_os f ∧
       (File.at_end f → File.at_end f1 ∧ f_bytes f1 = f_bytes f ++ take c content))
    (λ '(c, _), length content - c)); [|split; [destruct content; simpl; [done|lia]|]|lia].
  2: { split; [done|]. intros. by rewrite take_0, app_nil_r. }
  intros [c f1] (Hc & Hos1 & Hend). simpl.
  destruct (File.write (drop c content) f1) as [[n|e] f2] eqn:Hw.
  - assert (Hn : 0 < n ≤ length content - c).
    { unfold File.write in Hw. rewrite Hos1 in Hw.
      destruct (Hos (f_calls f1)) as [[k E]|[k E]]; rewrite E in Hw; [done|].
      injection Hw as <- <-. rewrite length_drop. lia. }
    assert (Hend2 : File.at_end f → File.at_end f2 ∧ f_bytes f2 = f_bytes f ++ take (c + n) content).
    { intros He. destruct (Hend He) as [He1 Hb]. eapply File.write_ok_at_end in Hw as (_ & Hw & ? & _); [|done].
      split; [done|]. by rewrite Hw, Hb, <-app_assoc, take_take_drop. }
    apply write_os in Hw.
    destruct (Nat.leb_spec (length content) (c + n)) as [Hle|Hlt].
    + right. eexists. split; [done|]. simpl. split; [congruence|]. split; [lia|].
      intros He. destruct (Hend2 He) as [? Hb]. split; [done|]. by rewrite Hb, take_ge by lia.
    + left. eexists. split; [done|]. split; [|lia]. split; [lia|]. split; [congruence|done].
  - right. eexists. split; [done|]. simpl. pose proof (write_os _ _ _ _ Hw) as Hos2.
    split; [congruence|]. split.
    + unfold File.write in Hw. rewrite Hos1 in Hw. exists (f_calls f1).
      destruct (f_os f (f_calls f1)); [|done]. congruence.
    + intros He. destruct (Hend He) as [_ Hb]. apply File.write_err in Hw as (Hw & _).
      exists c. congruence.
Qed.

(** Whatever the operating system does and however much fuel there is. *)
Lemma write_chunk_ok fuel content f f' n :
  File.at_end f → write_chunk fuel content f = Return (f', Ok n) → content ≠ [] →
  n = length content ∧ File.at_end f' ∧ f_bytes f' = f_bytes f ++ content.
Proof.
  intros Hend Hw Hne.
  refine (loop_inv (write_chunk_body content)
    (λ '(c, f1), c < length content ∧ File.at_end f1 ∧ f_bytes f1 = f_bytes f ++ take c content)
    (λ '(f1, r), ∀ n, r = Ok n → n = length content ∧ File.at_end f1 ∧ f_bytes f1 = f_bytes f ++ content)
    _ _ fuel (0, f) (f', Ok n) _ Hw n eq_refl).
  - intros [c f1] [c' f2] (Hc & He1 & Hb). simpl. destruct (File.write (drop c content) f1) as [[k|e] f3] eqn:Hk; [|done].
    destruct (Nat.leb_spec (length content) (c + k)); [done|]. intros [= <- <-].
    eapply File.write_ok_at_end in Hk as (_ & Hk & ? & _); [|done]. split_and!; try done.
    by rewrite Hk, Hb, <-app_assoc, take_take_drop.
  - intros [c f1] [f2 r] (Hc & He1 & Hb). simpl. destruct (File.write (drop c content) f1) as [[k|e] f3] eqn:Hk; [|by intros [= _ <-] ?].
    destruct (Nat.leb_spec (length content) (c + k)) as [Hle|]; [|done]. intros [= <- <-] m [= <-].
    assert (k ≤ length content - c).
    { unfold File.write in Hk. destruct (f_os f1 (f_calls f1)); [done|]. injection Hk as <- _. rewrite length_drop. lia. }
    eapply File.write_ok_at_end in Hk as (_ & Hk & ? & _); [|done]. split_and!; [lia|done|].
    by rewrite Hk, Hb, <-app_assoc, take_take_drop, take_ge by lia.
  - split; [destruct content; simpl; [done|lia]|]. split; [done|]. by rewrite take_0, app_nil_r.
Qed.

Lemma write_chunk_os fuel content f f' r : write_chunk fuel content f = Return (f', r) → f_os f' = f_os f.
Proof.
  intros Hw.
  refine (loop_inv (write_chunk_body content) (λ '(_, f1), f_os f1 = f_os f) (λ '(f1, _), f_os f1 = f_os f)
    _ _ fuel (0, f) (f', r) eq_refl Hw).
  - intros [c f1] [c' f2] H1. simpl. destruct (File.write _ f1) as [[k|e] f3] eqn:Hk; [|done]. apply write_os in Hk.
    destruct (Nat.leb _ _); [done|]. intros [= _ <-]. congruence.
  - intros [c f1] [f2 r2] H1. simpl. destruct (File.write _ f1) as [[k|e] f3] eqn:Hk; apply write_os in Hk.
    + destruct (Nat.leb _ _); [|done]. intros [= <- _]. congruence.
    + intros [= <- _]. congruence.
Qed.

(** An operating system whose [write] accepts no byte makes the receiving
    behaviour spin for ever: no amount of fuel ends the loop.  (The code does
    not treat [Ok(0)] as [WriteZero].) *)
Theorem write_zero_never_ends content f :
  content ≠ [] → (∀ i, f_os f i = OsUpTo 0) → ∀ fuel, write_chunk fuel content f = OutOfFuel.
Proof.
  intros Hne Hos fuel.
  apply (loop_diverges (write_chunk_body content)
           (λ '(c, f1), c = 0 ∧ f_os f1 = f_os f)); [|done].
  intros [c f1] [-> Hos1]. simpl. unfold File.write. rewrite Hos1, Hos. rewrite Nat.min_0_r. simpl.
  destruct content; [done|]. simpl. eexists. split; [done|]. done.
Qed.

(** ** A chunk arrives *)

(** Every field the transfer does not change. *)
Definition same_transfer (r r' : OngoingFileRecv.t) : Prop :=
  OngoingFileRecv.remote_send_id r' = OngoingFileRecv.remote_send_id r ∧
  OngoingFileRecv.local_recv_id r' = OngoingFileRecv.local_recv_id r ∧
  OngoingFileRecv.remote r' = OngoingFileRecv.remote r ∧
  OngoingFileRecv.bytes_total r' = OngoingFileRecv.bytes_total r ∧
  OngoingFileRecv.file_path r' = OngoingFileRecv.file_path r.

(** C33: a non-empty chunk of an ongoing receive is written completely, or the
    receive ends.  With enough fuel and a file system that makes progress, the
    call returns; either all bytes were appended, the record counts them and is
    back in the table, or the operating system reported an error [e], the record
    is gone and one [OngoingRecvError] is queued.  Nothing else changes. *)
Theorem chunk_is_written_or_reported fuel now id content s r :
  ongoing_recv s !! id = Some r → content ≠ [] →
  File.os_progress (OngoingFileRecv.file_handle r) → File.at_end (OngoingFileRecv.file_handle r) →
  length content < fuel →
  (OngoingFileRecv.bytes_received r + N.of_nat (length content) < U64)%N →
  (∃ r', progress_ongoing_recv fuel now id content s =
           Return (set_ongoing_recv (<[id := r']> (ongoing_recv s)) s) ∧
         same_transfer r r' ∧ OngoingFileRecv.last_active r' = now ∧
         OngoingFileRecv.bytes_received r' =
           (OngoingFileRecv.bytes_received r + N.of_nat (length content))%N ∧
         f_bytes (OngoingFileRecv.file_handle r') =
           f_bytes (OngoingFileRecv.file_handle r) ++ content ∧
         File.at_end (OngoingFileRecv.file_handle r') ∧
         f_os (OngoingFileRecv.file_handle r') = f_os (OngoingFileRecv.file_handle r)) ∨
  (∃ e i, f_os (OngoingFileRecv.file_handle r) i = OsFail e ∧
     progress_ongoing_recv fuel now id content s =
       Return (push_out (OngoingRecvError (OngoingFileRecv.local_recv_id r) (io_debug (os_error e)))
                 (set_ongoing_recv (delete id (ongoing_recv s)) s))).
Proof.
  intros Hr Hne Hos Hend Hfuel Hsum. unfold progress_ongoing_recv. rewrite Hr.
  destruct (Nat.eqb_spec (length content) 0) as [E|_]; [by apply nil_length_inv in E|].
  destruct (write_chunk_spec fuel content _ Hne Hos Hfuel) as ([f [n|e]] & -> & Hos' & Hw); simpl.
  - left. destruct Hw as [-> Hw]. destruct (Hw Hend) as [Hend' Hb].
    rewrite u64_add_small by done. simpl. rewrite insert_delete_eq.
    eexists. split; [done|]. by repeat split.
  - right. destruct Hw as [[i Hi] _]. by eexists _, _.
Qed.

(** The empty chunk ends a receive, and success is reported exactly when
    the bytes received are the bytes announced; otherwise [UnexpectedEOF] is.
    In both cases the record is removed. *)
Theorem empty_chunk_ends_receive fuel now id s r :
  ongoing_recv s !! id = Some r →
  progress_ongoing_recv fuel now id [] s =
    Return (push_out
      (if decide (OngoingFileRecv.bytes_received r = OngoingFileRecv.bytes_total r)
       then RecvProgressed (OngoingFileRecv.local_recv_id r)
              (OngoingFileRecv.bytes_total r) (OngoingFileRecv.bytes_total r)
       else OutError (UnexpectedEOF (OngoingFileRecv.local_recv_id r)))
      (set_ongoing_recv (delete id (ongoing_recv s)) s)).
Proof.
  intros Hr. unfold progress_ongoing_recv. rewrite Hr. simpl.
  destruct (N.eqb_spec (OngoingFileRecv.bytes_received r) (OngoingFileRecv.bytes_total r)); simpl;
    [rewrite decide_True by done|rewrite decide_False by done]; done.
Qed.

(** ** Cancelling a receive *)

(** A local [CancelRecv] finds a pending receive, but looks for an ongoing
    one under the wrong key.  The ongoing table is indexed by the remote's send
    ID; a receive whose two IDs differ stays in the table, and the caller is
    told [Ok] exactly when some other receive happens to have the local ID as
    its remote ID (that one is removed instead). *)
Theorem cancel_recv_misses_ongoing n now cb s k r :
  wf n s → ongoing_recv s !! k = Some r → k ≠ OngoingFileRecv.local_recv_id r →
  ∃ s' found,
    push_event now (CancelRecv (OngoingFileRecv.local_recv_id r) cb) s =
      Return (s', [Answered cb (AnsCancel (if found : bool then Ok () else Err IdNotFound))]) ∧
    ongoing_recv s' !! k = Some r ∧ pending_recv s' = pending_recv s ∧
    (found = true ↔ is_Some (ongoing_recv s !! OngoingFileRecv.local_recv_id r)) ∧
    (found = false → s' = s).
Proof.
  intros [_ Hr] Hk Hne. destruct (rw_ongoing _ _ _ _ Hr _ _ Hk) as (_ & _ & Hnone). simpl.
  unfold cancel_recv_by_local_recv_id, remove_recv_record. rewrite Hnone.
  destruct (ongoing_recv s !! OngoingFileRecv.local_recv_id r) as [r'|] eqn:E; simpl.
  - eexists _, true. split; [done|]. simpl. rewrite lookup_delete_ne by done. by split_and!.
  - exists s, false. split; [done|]. split_and!; [done..| |done].
    split; [done|]. by intros [? ?].
Qed.

(** A pending receive is cancelled exactly: it alone leaves the tables,
    the peer that offered it is told under its own ID, [CancelledRecv] is
    queued and the caller is answered [Ok]. *)
Theorem cancel_recv_pending now cb s id v :
  pending_recv s !! id = Some v →
  ∃ s', push_event now (CancelRecv id cb) s = Return (s', [Answered cb (AnsCancel (Ok ()))]) ∧
    pending_recv s' = delete id (pending_recv s) ∧ ongoing_recv s' = ongoing_recv s ∧
    pending_send s' = pending_send s ∧ ongoing_send s' = ongoing_send s ∧
    out_events s' = out_events s ++ [CancelledRecv id] ∧
    pending_handler_event s' = pending_handler_event s ++
      [NotifyHandler (PendingRecv.remote v) Any (LocalCancelRecv (PendingRecv.remote_send_id v))].
Proof.
  intros Hv. simpl. unfold cancel_recv_by_local_recv_id, remove_recv_record. rewrite Hv. simpl.
  eexists. split; [done|]. by split_and!.
Qed.

(** The first match of a search that succeeds. *)
Lemma list_find_pending s id :
  (∃ k v i, list_find (λ '(_, v), PendingRecv.remote_send_id v = id) (hm_iter (pending_recv s)) =
            Some (i, (k, v)) ∧ pending_recv s !! k = Some v ∧ PendingRecv.remote_send_id v = id) ∨
  (list_find (λ '(_, v), PendingRecv.remote_send_id v = id) (hm_iter (pending_recv s)) = None ∧
   ∀ k v, pending_recv s !! k = Some v → PendingRecv.remote_send_id v ≠ id).
Proof.
  destruct (list_find _ _) as [[i [k v]]|] eqn:E.
  - left. apply list_find_Some in E as (Hi & Hv & _). exists k, v, i. split; [done|].
    split; [|done]. by apply elem_of_hm_iter, list_elem_of_lookup_2 with i.
  - right. split; [done|]. intros k v Hv Hid. apply list_find_None in E.
    rewrite Forall_forall in E. apply (E (k, v)); [by apply elem_of_hm_iter|done].
Qed.

(** What a remote's cancellation of its send does.  An ongoing receive is
    removed and reported under its local ID; otherwise exactly one pending
    receive with that remote ID is removed, and it is reported under the
    remote's ID, not the local one; otherwise nothing changes. *)
Theorem remote_cancel_recv_cases fuel now peer id s :
  ∃ s', on_connection_handler_event fuel now peer (RemoteCancelRecv id) s = Return s' ∧
    pending_send s' = pending_send s ∧ ongoing_send s' = ongoing_send s ∧
    pending_handler_event s' = pending_handler_event s ∧
    match ongoing_recv s !! id with
    | Some r => ongoing_recv s' = delete id (ongoing_recv s) ∧ pending_recv s' = pending_recv s ∧
        out_events s' = out_events s ++ [CancelledRecv (OngoingFileRecv.local_recv_id r)]
    | None => ongoing_recv s' = ongoing_recv s ∧
        ((∃ k v, pending_recv s !! k = Some v ∧ PendingRecv.remote_send_id v = id ∧
            pending_recv s' = delete k (pending_recv s) ∧
            out_events s' = out_events s ++ [CancelledRecv id]) ∨
         ((∀ k v, pending_recv s !! k = Some v → PendingRecv.remote_send_id v ≠ id) ∧ s' = s))
    end.
Proof.
  simpl. unfold remove_recv_by_remote_send_id.
  destruct (ongoing_recv s !! id) as [r|] eqn:Hr; simpl.
  { eexists. split; [done|]. by split_and!. }
  destruct (list_find_pending s id) as [(k & v & i & -> & Hv & <-)|[-> Hnone]]; simpl.
  - eexists. split; [done|]. split_and!; try done. left. by exists k, v.
  - eexists. split; [done|]. split_and!; try done. by right.
Qed.
End receive.

(** ** Witnesses *)
Definition demo_stuck : File := MkFile [] 0 (Ok ()) (λ _, OsUpTo 0) 0.

Lemma write_zero_never_ends_witness :
  [Byte.x41] ≠ [] ∧ write_chunk 100 [Byte.x41] demo_stuck = OutOfFuel.
Proof.
  split; [done|]. exact (write_zero_never_ends [Byte.x41] demo_stuck ltac:(done) (λ _, eq_refl) 100).
Defined.

Lemma recv_found : ongoing_recv s_recv !! 5%N = Some r_recv.
Proof. vm_compute; reflexivity. Qed.

Lemma r_recv_file : OngoingFileRecv.file_handle r_recv = demo_empty.
Proof. vm_compute; reflexivity. Qed.

Lemma demo_empty_progress : File.os_progress demo_empty.
Proof. intros i. right. by exists 1. Qed.

Lemma chunk_is_written_or_reported_witness :
  ongoing_recv s_recv !! 5%N = Some r_recv ∧
  ((∃ r', progress_ongoing_recv 10 1 5 [Byte.x41; Byte.x42; Byte.x43] s_recv =
           Return (set_ongoing_recv (<[5%N := r']> (ongoing_recv s_recv)) s_recv) ∧
         same_transfer r_recv r' ∧ OngoingFileRecv.last_active r' = 1%N ∧
         OngoingFileRecv.bytes_received r' = (OngoingFileRecv.bytes_received r_recv + 3)%N ∧
         f_bytes (OngoingFileRecv.file_handle r') =
           f_bytes (OngoingFileRecv.file_handle r_recv) ++ [Byte.x41; Byte.x42; Byte.x43] ∧
         File.at_end (OngoingFileRecv.file_handle r') ∧
         f_os (OngoingFileRecv.file_handle r') = f_os (OngoingFileRecv.file_handle r_recv)) ∨
   (∃ e i, f_os (OngoingFileRecv.file_handle r_recv) i = OsFail e ∧
     progress_ongoing_recv 10 1 5 [Byte.x41; Byte.x42; Byte.x43] s_recv =
       Return (push_out (OngoingRecvError (OngoingFileRecv.local_recv_id r_recv) (io_debug (os_error e)))
                 (set_ongoing_recv (delete 5%N (ongoing_recv s_recv)) s_recv)))).
Proof.
  split; [exact recv_found|].
  assert (Hos : File.os_progress (OngoingFileRecv.file_handle r_recv))
    by (rewrite r_recv_file; exact demo_empty_progress).
  assert (Hend : File.at_end (OngoingFileRecv.file_handle r_recv)) by (rewrite r_recv_file; done).
  assert (Hsum : (OngoingFileRecv.bytes_received r_recv + N.of_nat 3 < U64)%N) by (vm_compute; reflexivity).
  exact (chunk_is_written_or_reported 10 1 5 [Byte.x41; Byte.x42; Byte.x43] s_recv r_recv
           recv_found ltac:(done) Hos Hend ltac:(simpl; lia) Hsum).
Defined.

Lemma empty_chunk_ends_receive_witness :
  progress_ongoing_recv 10 1 5 [] s_recv =
    Return (push_out
      (if decide (OngoingFileRecv.bytes_received r_recv = OngoingFileRecv.bytes_total r_recv)
       then RecvProgressed (OngoingFileRecv.local_recv_id r_recv)
              (OngoingFileRecv.bytes_total r_recv) (OngoingFileRecv.bytes_total r_recv)
       else OutError (UnexpectedEOF (OngoingFileRecv.local_recv_id r_recv)))
      (set_ongoing_recv (delete 5%N (ongoing_recv s_recv)) s_recv)).
Proof. exact (empty_chunk_ends_receive 10 1 5 s_recv r_recv recv_found). Defined.

(** The receive of the demonstration has the local ID 0 and the remote ID 5. *)
Lemma cancel_recv_misses_ongoing_witness :
  ∃ s' found,
    push_event 1 (CancelRecv (OngoingFileRecv.local_recv_id r_recv) (demo_cb 3)) s_recv =
      Return (s', [Answered (demo_cb 3) (AnsCancel (if found : bool then Ok () else Err IdNotFound))]) ∧
    ongoing_recv s' !! 5%N = Some r_recv ∧ pending_recv s' = pending_recv s_recv ∧
    (found = true ↔ is_Some (ongoing_recv s_recv !! OngoingFileRecv.local_recv_id r_recv)) ∧
    (found = false → s' = s_recv).
Proof.
  assert (Hne : 5%N ≠ OngoingFileRecv.local_recv_id r_recv) by (vm_compute; discriminate).
  exact (cancel_recv_misses_ongoing 2 1 (demo_cb 3) s_recv 5 r_recv wf_s_recv recv_found Hne).
Defined.

Definition v_offered : PendingRecv.t :=
  {| PendingRecv.local_recv_id := 0; PendingRecv.remote_send_id := 5; PendingRecv.bytes_total := 3;
     PendingRecv.file_name := "b.txt"; PendingRecv.remote := 7%N; PendingRecv.timestamp := 0 |}.

Lemma cancel_recv_pending_witness :
  pending_recv s_offered !! 0%N = Some v_offered ∧
  ∃ s', push_event 1 (CancelRecv 0 (demo_cb 3)) s_offered =
          Return (s', [Answered (demo_cb 3) (AnsCancel (Ok ()))]) ∧
    pending_recv s' = delete 0%N (pending_recv s_offered) ∧ ongoing_recv s' = ongoing_recv s_offered ∧
    pending_send s' = pending_send s_offered ∧ ongoing_send s' = ongoing_send s_offered ∧
    out_events s' = out_events s_offered ++ [CancelledRecv 0] ∧
    pending_handler_event s' = pending_handler_event s_offered ++
      [NotifyHandler (PendingRecv.remote v_offered) Any
         (LocalCancelRecv (PendingRecv.remote_send_id v_offered))].
Proof.
  assert (Hv : pending_recv s_offered !! 0%N = Some v_offered) by (vm_compute; reflexivity).
  split; [exact Hv|]. exact (cancel_recv_pending 1 (demo_cb 3) s_offered 0 v_offered Hv).
Defined.
