(* ===== verification/BlobSafety.v ===== *)
(** * The blob behaviour: sending, expiry, and which steps can panic

    What an acceptance starts, exactly which records an expiry check removes,
    and the conditions under which every step returns. *)

From stdpp Require Import base gmap sets list strings fin_maps.
From Stdlib Require Import Lia NArith.
From S2P Require Import Prelude Std Core BlobTypes BlobBehaviour BlobDemo BlobBehaviourProps BlobReceive.

Section safety.
Context {P : Platform}.

(** ** Accepted sends *)

(** An acceptance of a pending send starts it.  The record moves from the
    pending to the ongoing table, the first chunk of the file (at most 256 KiB)
    is queued for the peer the file was offered to, and [SendProgressed] with
    no byte sent is queued; an empty or unreadable file leaves no record. *)
Theorem accepted_send_starts n fuel now peer id s v :
  (n < MAX_OPS)%N → wf n s → pending_send s !! id = Some v →
  ∃ s', on_connection_handler_event fuel now peer (FileSendAccepted id) s = Return s' ∧
    pending_send s' = delete id (pending_send s) ∧
    out_events s' = out_events s ++ [SendProgressed id 0 (PendingSend.bytes_total v)] ∧
    match File.read FILE_CHUNK_SIZE (PendingSend.file v) with
    | (Ok buf, f) =>
        pending_handler_event s' = pending_handler_event s ++
          [NotifyHandler (PendingSend.remote v) Any (FileChunk id buf)] ∧
        ongoing_send s' !! id =
          (if decide (buf = []) then None
           else Some {| OngoingFileSend.local_send_id := id;
                        OngoingFileSend.remote := PendingSend.remote v;
                        OngoingFileSend.bytes_sent := N.of_nat (length buf);
                        OngoingFileSend.bytes_total := PendingSend.bytes_total v;
                        OngoingFileSend.file_handle := f;
                        OngoingFileSend.file_path := PendingSend.file_path v;
                        OngoingFileSend.last_active := now |})
    | (Err _, _) => pending_handler_event s' = pending_handler_event s ∧ ongoing_send s' !! id = None
    end.
Proof.
  intros Hn [Hs _] Hv. destruct (sw_pending _ _ _ _ _ Hs _ _ Hv) as (Hid & _ & _ & Hos).
  simpl. unfold pending_send_accepted. rewrite Hv. simpl. rewrite Hid.
  unfold progress_ongoing_send. simpl. rewrite lookup_insert_eq. simpl.
  destruct (File.read FILE_CHUNK_SIZE (PendingSend.file v)) as [[buf|e] f] eqn:Hread; simpl.
  2: { eexists. split; [done|]. split_and!; try done. simpl. by rewrite lookup_delete_eq. }
  apply File.read_ok in Hread as (_ & Hlen & _). rewrite FILE_CHUNK_SIZE_eq, CHUNK_eq in Hlen.
  rewrite u64_add_small by (rewrite U64_eq; lia). simpl.
  destruct (Nat.eqb_spec (length buf) 0) as [E|E]; simpl.
  - apply nil_length_inv in E as ->. rewrite decide_True by done.
    eexists. split; [done|]. split_and!; try done. simpl. by rewrite lookup_delete_eq.
  - rewrite decide_False by (intros ->; done).
    eexists. split; [done|]. split_and!; try done. simpl. by rewrite lookup_insert_eq.
Qed.

(** C39: a second acceptance of the same transfer panics.  Whatever peer it
    comes from, an [AcceptFile] message naming a send that is under way hits
    [expect("Already handled")]. *)
Theorem second_acceptance_panics n fuel now peer id s r :
  wf n s → ongoing_send s !! id = Some r →
  on_connection_handler_event fuel now peer (FileSendAccepted id) s = Panic "Already handled".
Proof.
  intros [Hs _] Hr. simpl. unfold pending_send_accepted. rewrite Hr.
  destruct (pending_send s !! id) as [v|] eqn:Hv; [|done].
  destruct (sw_pending _ _ _ _ _ Hs _ _ Hv) as (_&_&_&?). congruence.
Qed.

(** ** Expiry *)

Definition clock_ok (now : N) (s : Behaviour) : Prop :=
  map_Forall (λ _ v, (PendingSend.timestamp v ≤ now)%N) (pending_send s) ∧
  map_Forall (λ _ v, (PendingRecv.timestamp v ≤ now)%N) (pending_recv s) ∧
  map_Forall (λ _ v, (OngoingFileSend.last_active v ≤ now)%N) (ongoing_send s) ∧
  map_Forall (λ _ v, (OngoingFileRecv.last_active v ≤ now)%N) (ongoing_recv s).
#[export] Instance clock_ok_dec now s : Decision (clock_ok now s).
Proof. unfold clock_ok. apply _. Defined.

(** The timeout applies and the record is older than it. *)
Definition overdue (timeout now timestamp : N) : Prop :=
  (0 < timeout ∧ timeout < now - timestamp)%N.
#[export] Instance overdue_dec timeout now ts : Decision (overdue timeout now ts).
Proof. unfold overdue. apply _. Defined.
Arguments overdue_dec : simpl never.

Lemma expired_ids_spec {A} now ts timeout (id : N * A → N) (m : gmap N A) :
  (0 < timeout)%N → (∀ k v, m !! k = Some v → (ts v ≤ now)%N) →
  ∃ ids, expired_ids now ts timeout id m = Return ids ∧
    (∀ i, i ∈ ids ↔ ∃ k v, m !! k = Some v ∧ overdue timeout now (ts v) ∧ i = id (k, v)).
Proof.
  intros H0 Hts. unfold expired_ids.
  rewrite (filter_outcome_total _ (λ '(_, v), (timeout <? now - ts v)%N)).
  - simpl. eexists. split; [done|]. intros i. rewrite list_elem_of_fmap. split.
    + intros ([k v] & -> & Hin). apply list_elem_of_filter in Hin as [Hlt Hin].
      apply elem_of_hm_iter in Hin. apply N.ltb_lt in Hlt. by exists k, v.
    + intros (k & v & Hk & [_ Hlt] & ->). exists (k, v). split; [done|].
      apply list_elem_of_filter. split; [by apply N.ltb_lt|]. by apply elem_of_hm_iter.
  - intros [k v] Hin. apply elem_of_hm_iter in Hin. unfold expired.
    by rewrite u64_sub_small by eauto.
Qed.

(** Cancelling a list of sends that are stored in one table only. *)
Lemma cancel_sends_tables ids s :
  (∀ k v, pending_send s !! k = Some v → ongoing_send s !! k = None) →
  (∀ k, pending_send (cancel_sends ids s) !! k =
        if decide (k ∈ ids) then None else pending_send s !! k) ∧
  (∀ k, ongoing_send (cancel_sends ids s) !! k =
        if decide (k ∈ ids) then None else ongoing_send s !! k) ∧
  pending_recv (cancel_sends ids s) = pending_recv s ∧
  ongoing_recv (cancel_sends ids s) = ongoing_recv s ∧ config (cancel_sends ids s) = config s.
Proof.
  revert s. induction ids as [|id ids IH]; intros s Hdis.
  { split_and!; try done; intros k; by rewrite decide_False by apply not_elem_of_nil. }
  set (s1 := (cancel_send_by_local_send_id id s).2).
  assert (H1 : (∀ k, pending_send s1 !! k = if decide (k = id) then None else pending_send s !! k) ∧
          (∀ k, ongoing_send s1 !! k = if decide (k = id) then None else ongoing_send s !! k) ∧
          pending_recv s1 = pending_recv s ∧ ongoing_recv s1 = ongoing_recv s ∧ config s1 = config s).
  { unfold s1, cancel_send_by_local_send_id, remove_send_record.
    destruct (pending_send s !! id) as [v|] eqn:Hv; [|destruct (ongoing_send s !! id) as [v|] eqn:Hv'];
      simpl; split_and!; try done; intros k; case_decide as E; subst;
      rewrite ?lookup_delete_eq, ?lookup_delete_ne by done; eauto. }
  destruct H1 as (Hp1 & Ho1 & Hpr1 & Hor1 & Hc1).
  destruct (IH s1) as (Hp & Ho & Hpr & Hor & Hc).
  { intros k v. rewrite Hp1, Ho1. case_decide; [done|]. apply Hdis. }
  change (cancel_sends (id :: ids) s) with (cancel_sends ids s1).
  split_and!; [| |congruence..]; intros k; rewrite ?Hp, ?Ho, ?Hp1, ?Ho1;
    destruct (decide (k ∈ ids)) as [Hin|Hin];
    [by rewrite decide_True by (by right)| |by rewrite decide_True by (by right)|];
    (destruct (decide (k = id)) as [->|Hne];
      [by rewrite decide_True by (by left)|
       rewrite decide_False; [done|by intros [->|?]%elem_of_cons]]).
Qed.

(** The two uses of the cancellation of receives by expiry. *)
Lemma cancel_recv_pending_tables id s v :
  pending_recv s !! id = Some v →
  pending_recv (cancel_recv_by_local_recv_id id s).2 = delete id (pending_recv s) ∧
  ongoing_recv (cancel_recv_by_local_recv_id id s).2 = ongoing_recv s.
Proof. intros Hv. unfold cancel_recv_by_local_recv_id, remove_recv_record. by rewrite Hv. Qed.

Lemma cancel_recv_ongoing_tables id s :
  pending_recv s !! id = None →
  pending_recv (cancel_recv_by_local_recv_id id s).2 = pending_recv s ∧
  ongoing_recv (cancel_recv_by_local_recv_id id s).2 = delete id (ongoing_recv s).
Proof.
  intros Hv. unfold cancel_recv_by_local_recv_id, remove_recv_record. rewrite Hv.
  destruct (ongoing_recv s !! id) eqn:E; [done|]. simpl. by rewrite delete_id.
Qed.

Lemma cancel_recv_send_tables id s :
  pending_send (cancel_recv_by_local_recv_id id s).2 = pending_send s ∧
  ongoing_send (cancel_recv_by_local_recv_id id s).2 = ongoing_send s ∧
  config (cancel_recv_by_local_recv_id id s).2 = config s.
Proof.
  unfold cancel_recv_by_local_recv_id, remove_recv_record.
  by destruct (pending_recv s !! id); [|destruct (ongoing_recv s !! id)].
Qed.

Lemma cancel_recvs_send_tables ids s :
  pending_send (cancel_recvs ids s) = pending_send s ∧
  ongoing_send (cancel_recvs ids s) = ongoing_send s ∧ config (cancel_recvs ids s) = config s.
Proof.
  revert s. induction ids as [|id ids IH]; intros s; [done|].
  destruct (cancel_recv_send_tables id s) as (E1 & E2 & E3).
  destruct (IH (cancel_recv_by_local_recv_id id s).2) as (? & ? & ?).
  change (cancel_recvs (id :: ids) s) with (cancel_recvs ids (cancel_recv_by_local_recv_id id s).2).
  split_and!; congruence.
Qed.

Lemma cancel_recvs_pending_tables ids s :
  NoDup ids → (∀ id, id ∈ ids → is_Some (pending_recv s !! id)) →
  (∀ k, pending_recv (cancel_recvs ids s) !! k =
        if decide (k ∈ ids) then None else pending_recv s !! k) ∧
  ongoing_recv (cancel_recvs ids s) = ongoing_recv s.
Proof.
  revert s. induction ids as [|id ids IH]; intros s Hnd Hin.
  { split; [|done]. intros k. by rewrite decide_False by apply not_elem_of_nil. }
  apply NoDup_cons in Hnd as [Hid Hnd]. destruct (Hin id) as [v Hv]; [by left|].
  destruct (cancel_recv_pending_tables id s v Hv) as [E1 E2].
  destruct (IH (cancel_recv_by_local_recv_id id s).2) as [Hp Ho]; [done| |].
  { intros k Hk. rewrite E1, lookup_delete_ne by congruence. apply Hin. by right. }
  change (cancel_recvs (id :: ids) s) with (cancel_recvs ids (cancel_recv_by_local_recv_id id s).2).
  split; [|congruence]. intros k. rewrite Hp, E1. destruct (decide (k ∈ ids)) as [Hk|Hk].
  - by rewrite decide_True by (by right).
  - destruct (decide (k = id)) as [->|Hne].
    + by rewrite decide_True, lookup_delete_eq by (by left).
    + rewrite decide_False, lookup_delete_ne; [done..|]. by intros [->|?]%elem_of_cons.
Qed.

Lemma cancel_recvs_ongoing_tables ids s :
  (∀ id, id ∈ ids → pending_recv s !! id = None) →
  pending_recv (cancel_recvs ids s) = pending_recv s ∧
  (∀ k, ongoing_recv (cancel_recvs ids s) !! k =
        if decide (k ∈ ids) then None else ongoing_recv s !! k).
Proof.
  revert s. induction ids as [|id ids IH]; intros s Hin.
  { split; [done|]. intros k. by rewrite decide_False by apply not_elem_of_nil. }
  destruct (cancel_recv_ongoing_tables id s) as [E1 E2]; [apply Hin; by left|].
  destruct (IH (cancel_recv_by_local_recv_id id s).2) as [Hp Ho].
  { intros k Hk. rewrite E1. apply Hin. by right. }
  change (cancel_recvs (id :: ids) s) with (cancel_recvs ids (cancel_recv_by_local_recv_id id s).2).
  split; [congruence|]. intros k. rewrite Ho, E2. destruct (decide (k ∈ ids)) as [Hk|Hk].
  - by rewrite decide_True by (by right).
  - destruct (decide (k = id)) as [->|Hne].
    + by rewrite decide_True, lookup_delete_eq by (by left).
    + rewrite decide_False, lookup_delete_ne; [done..|]. by intros [->|?]%elem_of_cons.
Qed.

(** What expiry leaves of a table, entry by entry. *)
Definition survives {A} (timeout now : N) (ts : A → N) (o : option A) : option A :=
  match o with
  | Some v => if decide (overdue timeout now (ts v)) then None else Some v
  | None => None
  end.

Lemma survives_off {A} now (ts : A → N) o : survives 0 now ts o = o.
Proof. destruct o; [|done]. unfold survives. case_decide as H; [destruct H; lia|done]. Qed.

(** Removing the keys of the overdue entries. *)
Lemma survives_keys {A} timeout now (ts : A → N) (m : gmap N A) (ids : list N) k :
  (∀ i, i ∈ ids ↔ ∃ k v, m !! k = Some v ∧ overdue timeout now (ts v) ∧ i = k) →
  (if decide (k ∈ ids) then None else m !! k) = survives timeout now ts (m !! k).
Proof.
  intros Hids. destruct (decide (k ∈ ids)) as [Hin|Hin]; rewrite Hids in Hin.
  - destruct Hin as (k' & v & Hk & Hov & ->). rewrite Hk. simpl. by rewrite decide_True.
  - destruct (m !! k) as [v|] eqn:Hk; [|done]. simpl. rewrite decide_False; [done|].
    intros Hov. apply Hin. by exists k, v.
Qed.

Lemma expired_ids_keys_NoDup {A} now (ts : A → N) timeout m ids :
  expired_ids now ts timeout fst m = Return ids →
  (∀ k v, m !! k = Some v → (ts v ≤ now)%N) → NoDup ids.
Proof.
  unfold expired_ids. intros H Hts.
  rewrite (filter_outcome_total _ (λ '(_, v), (timeout <? now - ts v)%N)) in H.
  - injection H as <-. eapply sublist_NoDup; [|apply fmap_sublist, sublist_filter].
    rewrite hm_iter_perm. apply NoDup_fst_map_to_list.
  - intros [k v] Hin. apply elem_of_hm_iter in Hin. unfold expired.
    by rewrite u64_sub_small by eauto.
Qed.

Lemma check_pending_send_exact n now s :
  wf n s → clock_ok now s →
  ∃ s', check_pending_send now s = Return s' ∧
    (∀ k, pending_send s' !! k =
      survives (pending_send_timeout_sec (config s)) now PendingSend.timestamp (pending_send s !! k)) ∧
    ongoing_send s' = ongoing_send s ∧ pending_recv s' = pending_recv s ∧
    ongoing_recv s' = ongoing_recv s ∧ config s' = config s.
Proof.
  intros [Hs _] (Hclock & _). unfold check_pending_send.
  set (t := pending_send_timeout_sec (config s)).
  destruct (N.ltb_spec 0 t) as [H0|H0].
  2: { exists s. split_and!; try done. intros k. replace t with 0%N by lia. by rewrite survives_off. }
  destruct (expired_ids_spec now PendingSend.timestamp t fst (pending_send s) H0 Hclock) as (ids & -> & Hids).
  simpl. eexists. split; [done|].
  destruct (cancel_sends_tables ids s) as (Hp & Ho & ? & ? & ?).
  { intros k v Hv. by apply (sw_pending _ _ _ _ _ Hs _ _ Hv). }
  split_and!; try done.
  - intros k. rewrite Hp. by apply survives_keys.
  - apply map_eq. intros k. rewrite Ho. case_decide as Hk; [|done].
    apply Hids in Hk as (k' & v & Hv & _ & ->). symmetry. by apply (sw_pending _ _ _ _ _ Hs _ _ Hv).
Qed.

Lemma check_pending_recv_exact now s :
  clock_ok now s →
  ∃ s', check_pending_recv now s = Return s' ∧
    (∀ k, pending_recv s' !! k =
      survives (pending_recv_timeout_sec (config s)) now PendingRecv.timestamp (pending_recv s !! k)) ∧
    pending_send s' = pending_send s ∧ ongoing_send s' = ongoing_send s ∧
    ongoing_recv s' = ongoing_recv s ∧ config s' = config s.
Proof.
  intros (_ & Hclock & _). unfold check_pending_recv.
  set (t := pending_recv_timeout_sec (config s)).
  destruct (N.ltb_spec 0 t) as [H0|H0].
  2: { exists s. split_and!; try done. intros k. replace t with 0%N by lia. by rewrite survives_off. }
  destruct (expired_ids_spec now PendingRecv.timestamp t fst (pending_recv s) H0 Hclock) as (ids & Heq & Hids).
  rewrite Heq. simpl. eexists. split; [done|].
  apply expired_ids_keys_NoDup in Heq; [|done].
  destruct (cancel_recvs_pending_tables ids s Heq) as [Hp Ho].
  { intros k (k' & v & Hv & _ & ->)%Hids. by eexists. }
  destruct (cancel_recvs_send_tables ids s) as (? & ? & ?).
  split_and!; try done. intros k. rewrite Hp. by apply survives_keys.
Qed.

Lemma check_ongoing_send_exact n now s :
  wf n s → clock_ok now s →
  ∃ s', check_ongoing_send now s = Return s' ∧
    (∀ k, ongoing_send s' !! k =
      survives (ongoing_send_timeout_sec (config s)) now OngoingFileSend.last_active (ongoing_send s !! k)) ∧
    pending_send s' = pending_send s ∧ pending_recv s' = pending_recv s ∧
    ongoing_recv s' = ongoing_recv s ∧ config s' = config s.
Proof.
  intros [Hs _] (_ & _ & Hclock & _). unfold check_ongoing_send.
  set (t := ongoing_send_timeout_sec (config s)).
  destruct (N.ltb_spec 0 t) as [H0|H0].
  2: { exists s. split_and!; try done. intros k. replace t with 0%N by lia. by rewrite survives_off. }
  destruct (expired_ids_spec now OngoingFileSend.last_active t fst (ongoing_send s) H0 Hclock)
    as (ids & -> & Hids).
  assert (Hdis : ∀ k v, pending_send s !! k = Some v → ongoing_send s !! k = None).
  { intros k v Hv. by apply (sw_pending _ _ _ _ _ Hs _ _ Hv). }
  simpl. eexists. split; [done|].
  destruct (cancel_sends_tables ids s Hdis) as (Hp & Ho & ? & ? & ?).
  split_and!; try done.
  - intros k. rewrite Ho. by apply survives_keys.
  - apply map_eq. intros k. rewrite Hp. case_decide as Hk; [|done].
    apply Hids in Hk as (k' & v & Hv & _ & ->). simpl.
    destruct (pending_send s !! k') eqn:E; [|done]. apply Hdis in E. congruence.
Qed.

(** Some overdue ongoing receive has this local ID. *)
Definition overdue_local (t now : N) (m : gmap N OngoingFileRecv.t) (k : N) : Prop :=
  ∃ k' r, m !! k' = Some r ∧ overdue t now (OngoingFileRecv.last_active r) ∧
          OngoingFileRecv.local_recv_id r = k.

Lemma check_ongoing_recv_exact n now s :
  wf n s → clock_ok now s →
  let t := ongoing_recv_timeout_sec (config s) in
  ∃ s', check_ongoing_recv now s = Return s' ∧
    (∀ k, (overdue_local t now (ongoing_recv s) k → ongoing_recv s' !! k = None) ∧
          (¬ overdue_local t now (ongoing_recv s) k → ongoing_recv s' !! k = ongoing_recv s !! k)) ∧
    pending_send s' = pending_send s ∧ ongoing_send s' = ongoing_send s ∧
    pending_recv s' = pending_recv s.
Proof.
  intros [_ Hr] (_ & _ & _ & Hclock) t. unfold check_ongoing_recv. fold t.
  destruct (N.ltb_spec 0 t) as [H0|H0].
  2: { exists s. split_and!; try done. intros k. split; [|done].
       intros (k' & r & _ & [? _] & _). lia. }
  destruct (expired_ids_spec now OngoingFileRecv.last_active t
    (λ '(_, v), OngoingFileRecv.local_recv_id v) (ongoing_recv s) H0 Hclock) as (ids & -> & Hids).
  simpl. eexists. split; [done|].
  destruct (cancel_recvs_ongoing_tables ids s) as [Hp Ho].
  { intros k (k' & r & Hk & _ & ->)%Hids. by apply (rw_ongoing _ _ _ _ Hr _ _ Hk). }
  destruct (cancel_recvs_send_tables ids s) as (? & ? & ?).
  split_and!; try done. intros k. rewrite Ho.
  assert (Hiff : k ∈ ids ↔ overdue_local t now (ongoing_recv s) k).
  { rewrite Hids. unfold overdue_local. naive_solver. }
  split; intros H'; [by rewrite decide_True by (by apply Hiff)|].
  rewrite decide_False; [done|]. by rewrite Hiff.
Qed.

(** C37: what an expiry check removes.  With a clock that has not gone back it
    returns, and exactly the overdue entries of three tables go (a timeout of
    zero disables the check of that table).  The ongoing receives are the
    exception: the entries that go are those whose key, the remote's ID, equals
    the local ID of an overdue receive. *)
Theorem expiry_removes_exactly n now s :
  wf n s → clock_ok now s →
  ∃ s', check_expiry now s = Return s' ∧
    (∀ k, pending_send s' !! k =
      survives (pending_send_timeout_sec (config s)) now PendingSend.timestamp (pending_send s !! k)) ∧
    (∀ k, pending_recv s' !! k =
      survives (pending_recv_timeout_sec (config s)) now PendingRecv.timestamp (pending_recv s !! k)) ∧
    (∀ k, ongoing_send s' !! k =
      survives (ongoing_send_timeout_sec (config s)) now OngoingFileSend.last_active (ongoing_send s !! k)) ∧
    (∀ k, let t := ongoing_recv_timeout_sec (config s) in
      (overdue_local t now (ongoing_recv s) k → ongoing_recv s' !! k = None) ∧
      (¬ overdue_local t now (ongoing_recv s) k → ongoing_recv s' !! k = ongoing_recv s !! k)).
Proof.
  intros Hwf Hc. unfold check_expiry.
  destruct (check_pending_send_exact n now s Hwf Hc) as (s1 & H1 & A1 & B1 & C1 & D1 & E1).
  assert (Hwf1 : wf n s1).
  { revert H1. unfold check_pending_send. intros H. case_match; inv_return; [|done].
    by apply cancel_sends_wf. }
  assert (Hc1 : clock_ok now s1).
  { destruct Hc as (? & ? & ? & ?). unfold clock_ok. rewrite B1, C1, D1. split_and!; try done.
    intros k v. rewrite A1. destruct (pending_send s !! k) eqn:E; simpl; [|done].
    case_decide; [done|]. intros [= ->]. eauto. }
  rewrite H1. simpl. destruct (check_pending_recv_exact now s1 Hc1) as (s2 & H2 & A2 & B2 & C2 & D2 & E2).
  assert (Hwf2 : wf n s2).
  { revert H2. unfold check_pending_recv. intros H. case_match; inv_return; [|done].
    by apply cancel_recvs_wf. }
  assert (Hc2 : clock_ok now s2).
  { destruct Hc1 as (? & ? & ? & ?). unfold clock_ok. rewrite B2, C2, D2. split_and!; try done.
    intros k v. rewrite A2. destruct (pending_recv s1 !! k) eqn:E; simpl; [|done].
    case_decide; [done|]. intros [= ->]. eauto. }
  rewrite H2. simpl. destruct (check_ongoing_send_exact n now s2 Hwf2 Hc2) as (s3 & H3 & A3 & B3 & C3 & D3 & E3).
  assert (Hwf3 : wf n s3).
  { revert H3. unfold check_ongoing_send. intros H. case_match; inv_return; [|done].
    by apply cancel_sends_wf. }
  assert (Hc3 : clock_ok now s3).
  { destruct Hc2 as (? & ? & ? & ?). unfold clock_ok. rewrite B3, C3, D3. split_and!; try done.
    intros k v. rewrite A3. destruct (ongoing_send s2 !! k) eqn:E; simpl; [|done].
    case_decide; [done|]. intros [= ->]. eauto. }
  rewrite H3. simpl. destruct (check_ongoing_recv_exact n now s3 Hwf3 Hc3) as (s4 & H4 & A4 & B4 & C4 & D4).
  exists s4. split; [done|]. split_and!.
  - intros k. by rewrite B4, B3, B2, A1.
  - intros k. by rewrite D4, C3, A2, C1, E1.
  - intros k. by rewrite C4, A3, C2, B1, E2, E1.
  - intros k. revert A4. rewrite D3, D2, D1, E3, E2, E1. intros A4. apply A4.
Qed.

(** ** Which steps return *)

(** The conditions under which a step neither panics nor spins. *)
Definition safe (fuel : nat) (op : Op) (s : Behaviour) : Prop :=
  match op with
  | OpPush _ (SendFile file path to cb) =>
      if decide (to ∈ connected_peers s)
      then is_Some (file_name path) ∨ ∃ e, File.metadata_len file = Err e
      else cb_open cb = true
  | OpPush _ (ListRecv _) =>
      ∀ k r, ongoing_recv s !! k = Some r → is_Some (file_name (OngoingFileRecv.file_path r))
  | OpPush _ _ => True
  | OpHandler _ _ (FileSendAccepted id) => ongoing_send s !! id = None
  | OpHandler _ _ (HRecvProgressed id content) =>
      ∀ r, ongoing_recv s !! id = Some r →
        File.os_progress (OngoingFileRecv.file_handle r) ∧ length content < fuel ∧
        (OngoingFileRecv.bytes_received r + N.of_nat (length content) < U64)%N
  | OpHandler _ _ _ => True
  | OpSwarm _ => True
  | OpPoll _ now => clock_ok now s
  end.

Lemma counter_small n c : (c ≤ n)%N → (n < MAX_OPS)%N → u64_add c 1 = Return (c + 1)%N.
Proof. intros. apply u64_add_small. rewrite U64_eq. rewrite MAX_OPS_eq in *. lia. Qed.

Lemma progress_ongoing_send_returns n now id s :
  (n < MAX_OPS)%N →
  (∀ r, ongoing_send s !! id = Some r → (OngoingFileSend.bytes_sent r ≤ n * CHUNK)%N) →
  is_return (progress_ongoing_send now id s).
Proof.
  intros Hn Hle. unfold progress_ongoing_send. destruct (ongoing_send s !! id) as [r|] eqn:Hr; [|by eexists].
  specialize (Hle r eq_refl).
  destruct (File.read FILE_CHUNK_SIZE _) as [[buf|e] f] eqn:Hread; [|by eexists].
  apply File.read_ok in Hread as (_ & Hlen & _). rewrite FILE_CHUNK_SIZE_eq in Hlen.
  rewrite u64_add_small.
  2: { rewrite U64_eq. rewrite MAX_OPS_eq in Hn. rewrite CHUNK_eq in *. nia. }
  simpl. case_match; by eexists.
Qed.

Lemma push_event_returns n fuel now ev s :
  (n < MAX_OPS)%N → wf n s → safe fuel (OpPush now ev) s → is_return (push_event now ev s).
Proof.
  intros Hn [Hs Hr] Hsafe. destruct ev; simpl in *; try by eexists.
  - unfold send_file, next_send_id.
    rewrite (counter_small n) by (apply Hs || done). simpl.
    case_decide; [|unfold send_expect; rewrite Hsafe; by eexists].
    destruct (File.metadata_len file); [|by eexists].
    destruct Hsafe as [[name ->]|[e [=]]]. by eexists.
  - unfold list_recv. rewrite (map_outcome_total _
      (λ '(_, v), {| RecvInfo.local_recv_id := OngoingFileRecv.local_recv_id v;
                     RecvInfo.bytes_total := OngoingFileRecv.bytes_total v;
                     RecvInfo.bytes_received := OngoingFileRecv.bytes_received v;
                     RecvInfo.file_name := default "" (file_name (OngoingFileRecv.file_path v));
                     RecvInfo.remote := OngoingFileRecv.remote v;
                     RecvInfo.timestamp := OngoingFileRecv.last_active v |})); [by eexists|].
    intros [k v] Hin. apply elem_of_hm_iter in Hin. destruct (Hsafe _ _ Hin) as [name E].
    unfold RecvInfo_from_ongoing. by rewrite E.
  - destruct (cancel_recv_by_local_recv_id _ _). by eexists.
  - destruct (cancel_send_by_local_send_id _ _). by eexists.
Qed.

Lemma handler_event_returns n fuel now peer ev s :
  (n < MAX_OPS)%N → wf n s → safe fuel (OpHandler now peer ev) s →
  is_return (on_connection_handler_event fuel now peer ev s).
Proof.
  intros Hn [Hs Hr] Hsafe. destruct ev; simpl in *; try by eexists.
  - unfold progress_ongoing_recv. destruct (ongoing_recv s !! _) as [r|] eqn:E; [|by eexists].
    destruct (Hsafe r eq_refl) as (Hos & Hfuel & Hsum).
    destruct (Nat.eqb_spec (length content) 0) as [E0|E0]; [case_match; by eexists|].
    destruct (write_chunk_spec fuel content _ ltac:(by intros ->) Hos Hfuel) as ([f [k|e]] & -> & _ & Hw);
      simpl; [|by eexists].
    destruct Hw as [-> _]. rewrite u64_add_small by done. by eexists.
  - apply (progress_ongoing_send_returns n); [done|]. intros r Hrec.
    apply (sw_ongoing _ _ _ _ _ Hs local_send_id). case_match; simpl in Hrec; congruence.
  - unfold on_new_pending_recv, next_recv_id. rewrite (counter_small n) by (apply Hr || done). by eexists.
  - unfold pending_send_accepted. rewrite Hsafe.
    destruct (pending_send s !! local_send_id) as [v|] eqn:Hv; simpl; [|by eexists].
    edestruct (progress_ongoing_send_returns n now) as [s' ->]; [done| |by eexists].
    intros r. simpl. rewrite lookup_insert_eq. intros [= <-]. simpl. lia.
  - destruct (remove_recv_by_remote_send_id _ _) as [[[? ?]|] ?]; by eexists.
Qed.

Lemma safe_poll_returns n cx now s : wf n s → clock_ok now s → is_return (poll cx now s).
Proof.
  intros Hwf Hclock. unfold poll. destruct (delay_poll cx _) as [[] d]; simpl.
  - destruct (expiry_removes_exactly n now (set_expiry_check_throttle d s) Hwf Hclock) as (s1 & -> & _).
    simpl. destruct (pop_event _). by eexists.
  - destruct (pop_event _). by eexists.
Qed.

(** C16: no step of a consistent state panics or hangs, outside the listed
    cases.  In a well-formed state a step returns, in a well-formed state,
    whenever [safe] holds: sending needs a live caller for an unknown peer and
    a path with a file name, an acceptance must not be repeated, a chunk needs
    a file system that makes progress, and a poll a clock that has not gone
    back. *)
Theorem safe_steps_return n fuel op s :
  (n < MAX_OPS)%N → wf n s → safe fuel op s →
  ∃ s' outs, step fuel op s = Return (s', outs) ∧ wf (n + 1) s'.
Proof.
  intros Hn Hwf Hsafe.
  assert (is_return (step fuel op s)) as [[s' outs] E].
  { destruct op; simpl.
    - destruct (push_event_returns n fuel now ev s Hn Hwf Hsafe) as [[? ?] ->]. by eexists.
    - destruct (handler_event_returns n fuel now peer_id ev s Hn Hwf Hsafe) as [? ->]. by eexists.
    - by eexists.
    - destruct (safe_poll_returns n cx now s Hwf Hsafe) as [[? ?] ->]. by eexists. }
  exists s', outs. split; [done|]. by eapply step_wf.
Qed.
End safety.

(** ** Witnesses *)
Definition v_offer : PendingSend.t :=
  {| PendingSend.local_send_id := 0; PendingSend.remote := 7%N; PendingSend.file_path := "dir/a.txt";
     PendingSend.bytes_total := 3; PendingSend.file := demo_file; PendingSend.timestamp := 0 |}.

Lemma accepted_send_starts_witness :
  pending_send s_offer !! 0%N = Some v_offer ∧
  ∃ s', on_connection_handler_event (P := demo_platform) 10 1 7%N (FileSendAccepted 0) s_offer = Return s' ∧
    out_events s' = out_events s_offer ++ [SendProgressed 0 0 3].
Proof.
  assert (Hv : pending_send s_offer !! 0%N = Some v_offer) by (vm_compute; reflexivity).
  split; [exact Hv|].
  destruct (accepted_send_starts (P := demo_platform) 2 10 1 7%N 0 s_offer v_offer ltac:(done) wf_s_offer Hv)
    as (s' & H1 & _ & H2 & _).
  exists s'. split; [exact H1|exact H2].
Defined.

Lemma second_acceptance_panics_witness :
  is_Some (ongoing_send s_send !! 0%N) ∧
  on_connection_handler_event (P := demo_platform) 10 1 9%N (FileSendAccepted 0) s_send = Panic "Already handled".
Proof.
  assert (Hr : is_Some (ongoing_send s_send !! 0%N)) by (vm_compute; eexists; reflexivity).
  split; [exact Hr|]. destruct Hr as [r Hr].
  exact (second_acceptance_panics (P := demo_platform) 3 10 1 9%N 0 s_send r wf_s_send Hr).
Defined.

Lemma clock_ok_s_send : clock_ok 1000 s_send.
Proof. apply (bool_decide_unpack _). vm_compute. exact I. Qed.

(** The ongoing send was last active at 0; its timeout is three minutes. *)
Lemma expiry_removes_exactly_witness :
  clock_ok 1000 s_send ∧
  ∃ s', check_expiry 1000 s_send = Return s' ∧ ongoing_send s' !! 0%N = None.
Proof.
  split; [exact clock_ok_s_send|].
  destruct (expiry_removes_exactly 3 1000 s_send wf_s_send clock_ok_s_send) as (s' & H & _ & _ & Ho & _).
  exists s'. split; [exact H|]. rewrite Ho. vm_compute. reflexivity.
Defined.

Lemma safe_steps_return_witness :
  safe 10 (OpPoll (P := demo_platform) 6000%N 1000) s_send ∧
  ∃ s' outs, step 10 (OpPoll (P := demo_platform) 6000%N 1000) s_send = Return (s', outs) ∧ wf (3 + 1) s'.
Proof.
  split; [exact clock_ok_s_send|].
  exact (safe_steps_return 3 10 (OpPoll (P := demo_platform) 6000%N 1000) s_send ltac:(done) wf_s_send
           clock_ok_s_send).
Defined.
