(* ===== verification/BlobHandler.v ===== *)
(** * The connection handler of blob transfers ([owlnest-blob/src/handler.rs])

    The futures of the handler are the calls of [protocol::recv] and
    [protocol::send] it has started; what polling them answers is given by the
    poll context.  Protobuf's generated [encode]/[decode] are a parameter. *)

From stdpp Require Import base gmap list strings pretty.
From Stdlib Require Import Lia NArith.
From S2P Require Import Prelude Std Core Stream BlobProtocol BlobTypes.

(** The code prost generates from [messages.proto]: decoding inverts encoding,
    and a chunk costs at most fifteen bytes more than its content (two tags, a
    64-bit varint and a varint for a length of at most [2^18]). *)
Class Codec := {
  DecodeError : Type;
  decode_error_display : DecodeError → string;
  encode_IncomingFile : messages.IncomingFile → bytes;
  decode_IncomingFile : bytes → result messages.IncomingFile DecodeError;
  encode_AcceptFile : messages.AcceptFile → bytes;
  decode_AcceptFile : bytes → result messages.AcceptFile DecodeError;
  encode_CancelSend : messages.CancelSend → bytes;
  decode_CancelSend : bytes → result messages.CancelSend DecodeError;
  encode_CancelRecv : messages.CancelRecv → bytes;
  decode_CancelRecv : bytes → result messages.CancelRecv DecodeError;
  encode_FileChunk : messages.FileChunk → bytes;
  decode_FileChunk : bytes → result messages.FileChunk DecodeError;
}.

Class CodecLaws {codec : Codec} := {
  IncomingFile_roundtrip m :
    (messages.if_remote_send_id m < 2 ^ 64)%N → (messages.if_bytes_total m < 2 ^ 64)%N →
    decode_IncomingFile (encode_IncomingFile m) = Ok m;
  AcceptFile_roundtrip m : (messages.af_local_send_id m < 2 ^ 64)%N →
    decode_AcceptFile (encode_AcceptFile m) = Ok m;
  CancelSend_roundtrip m : (messages.cs_remote_send_id m < 2 ^ 64)%N →
    decode_CancelSend (encode_CancelSend m) = Ok m;
  CancelRecv_roundtrip m : (messages.cr_local_send_id m < 2 ^ 64)%N →
    decode_CancelRecv (encode_CancelRecv m) = Ok m;
  FileChunk_roundtrip m : (messages.fc_remote_send_id m < 2 ^ 64)%N →
    decode_FileChunk (encode_FileChunk m) = Ok m;
  FileChunk_size m : (messages.fc_remote_send_id m < 2 ^ 64)%N →
    length (messages.fc_content m) ≤ N.to_nat FILE_CHUNK_SIZE →
    length (encode_FileChunk m) ≤ length (messages.fc_content m) + 15;
}.

Section handler.
Context {P : Platform} {codec : Codec} {St : Type}.

Inductive State := Inactive (reported : bool) | Active.

(** The calls in flight. *)
Record RecvTask := { rt_stream : St }.
Record SendTask := { st_stream : St; st_buf : bytes; st_message_type : byte }.

Inductive SendType :=
| ControlSend (callback : option Callback) (local_send_id : N)
| ControlRecv (callback : option Callback)
| Cancel
| FileSend (id : N).

Inductive OutboundState :=
| OpenStream
| Idle (stream : St)
| Busy (task : SendTask) (send_type : SendType) (timer : Delay).

Record Handler := {
  state : State;
  pending_in_events : list FromBehaviourEvent;
  pending_out_events : list ToBehaviourEvent;
  timeout : N;
  inbound : option RecvTask;
  outbound : option OutboundState;
}.

Definition Handler_new (config : Config) : Handler := {|
  state := Active;
  pending_in_events := [];
  pending_out_events := [];
  timeout := timeout_ms config;
  inbound := None;
  outbound := None;
|}.

(** [handle_established_{in,out}bound_connection] of the behaviour. *)
Definition handle_established_connection (config : Config) : result Handler unit :=
  Ok (Handler_new config).

Definition set_state (v : State) (h : Handler) : Handler :=
  {| state := v; pending_in_events := pending_in_events h; pending_out_events := pending_out_events h;
     timeout := timeout h; inbound := inbound h; outbound := outbound h |}.
Definition set_in (v : list FromBehaviourEvent) (h : Handler) : Handler :=
  {| state := state h; pending_in_events := v; pending_out_events := pending_out_events h;
     timeout := timeout h; inbound := inbound h; outbound := outbound h |}.
Definition push_out (ev : ToBehaviourEvent) (h : Handler) : Handler :=
  {| state := state h; pending_in_events := pending_in_events h;
     pending_out_events := pending_out_events h ++ [ev];
     timeout := timeout h; inbound := inbound h; outbound := outbound h |}.
Definition set_out (v : list ToBehaviourEvent) (h : Handler) : Handler :=
  {| state := state h; pending_in_events := pending_in_events h; pending_out_events := v;
     timeout := timeout h; inbound := inbound h; outbound := outbound h |}.
Definition set_inbound (v : option RecvTask) (h : Handler) : Handler :=
  {| state := state h; pending_in_events := pending_in_events h; pending_out_events := pending_out_events h;
     timeout := timeout h; inbound := v; outbound := outbound h |}.
Definition set_outbound (v : option OutboundState) (h : Handler) : Handler :=
  {| state := state h; pending_in_events := pending_in_events h; pending_out_events := pending_out_events h;
     timeout := timeout h; inbound := inbound h; outbound := v |}.

Definition listen_protocol : string := PROTOCOL_NAME.
Definition connection_keep_alive (h : Handler) : bool := true.

Definition on_behaviour_event (event : FromBehaviourEvent) (h : Handler) : Handler :=
  set_in (pending_in_events h ++ [event]) h.

(** What polling the futures answers: the inbound one is polled once in a call
    of [poll], the outbound ones several times, numbered in order. *)
Record HandlerCx := {
  cx_timer : PollCx;
  cx_recv : RecvTask → Poll (result (St * bytes * byte) IoError);
  cx_send : nat → SendTask → Poll (result (St * N) IoError);
}.

Definition PollResult : Type := ConnectionHandlerEvent ToBehaviourEvent.

(** ** Inbound *)
Definition on_message (bs : bytes) (message_type : byte) (h : Handler)
    : result Handler DecodeError :=
  let push {M} (from : M → ToBehaviourEvent) (r : result M DecodeError) :=
    match r with Ok m => Ok (push_out (from m) h) | Err e => Err e end in
  match message_type with
  | Byte.x00 => push from_IncomingFile (decode_IncomingFile bs)
  | Byte.x01 => push from_AcceptFile (decode_AcceptFile bs)
  | Byte.x02 => push from_CancelSend (decode_CancelSend bs)
  | Byte.x03 => push from_CancelRecv (decode_CancelRecv bs)
  | Byte.x04 => push from_FileChunk (decode_FileChunk bs)
  | _ => Ok (push_out (HError (IO "Unexpected header value")) h)
  end.

(** [&bytes[..20]] *)
Definition first_20 (bs : bytes) : outcome bytes :=
  if Nat.ltb (length bs) 20 then Panic "range end index 20 out of range for slice"
  else Return (take 20 bs).

Definition poll_inbound (cx : HandlerCx) (h : Handler) : outcome (option PollResult * Handler) :=
  match inbound h with
  | None => Return (None, h)
  | Some fut =>
      match cx_recv cx fut with
      | Pending => Return (None, h)
      | Ready (Err e) =>
          Return (Some (NotifyBehaviour (HError (IO ("IO Error: " +:+ io_debug e)))),
                  set_inbound None h)
      | Ready (Ok (stream, bs, message_type)) =>
          let h := set_inbound (Some {| rt_stream := stream |}) h in
          match on_message bs message_type h with
          | Ok h => Return (None, h)
          | Err e =>
              shown ← first_20 bs;
              Return (None, push_out (HError (UnrecognizedMessage
                ("Unrecognized message(" +:+ pretty (byte_to_N message_type) +:+ "): " +:+
                 decode_error_display e +:+ ", " +:+ utf8_lossy shown))) h)
          end
      end
  end.

(** ** Outbound *)

(** The message, its type and what to do once it is sent. *)
Definition outgoing (ev : FromBehaviourEvent) : SendType * bytes * byte :=
  match ev with
  | NewFileSend file_name local_send_id callback bytes_total =>
      (ControlSend (Some callback) local_send_id,
       encode_IncomingFile {| messages.if_remote_send_id := local_send_id;
                              messages.if_bytes_total := bytes_total;
                              messages.if_file_name := file_name |}, Byte.x00)
  | HAcceptFile remote_send_id callback =>
      (ControlRecv (Some callback),
       encode_AcceptFile {| messages.af_local_send_id := remote_send_id |}, Byte.x01)
  | LocalCancelSend local_send_id =>
      (Cancel, encode_CancelSend {| messages.cs_remote_send_id := local_send_id |}, Byte.x02)
  | LocalCancelRecv remote_send_id =>
      (Cancel, encode_CancelRecv {| messages.cr_local_send_id := remote_send_id |}, Byte.x03)
  | FileChunk local_send_id bytes_to_send =>
      (FileSend local_send_id,
       encode_FileChunk {| messages.fc_remote_send_id := local_send_id;
                           messages.fc_content := bytes_to_send |}, Byte.x04)
  end.

Definition progress_outbound (ev : FromBehaviourEvent) (stream : St) (h : Handler) : Handler :=
  let '(send_type, bs, message_type) := outgoing ev in
  set_outbound (Some (Busy {| st_stream := stream; st_buf := bs; st_message_type := message_type |}
                           send_type (delay_new (timeout h)))) h.

(** Dropping an outbound state drops the callback it holds. *)
Definition drop_send_type (t : SendType) : list (Sent Answer) :=
  match t with
  | ControlSend (Some cb) _ | ControlRecv (Some cb) => [Dropped cb]
  | _ => []
  end.
Definition drop_outbound (o : option OutboundState) : list (Sent Answer) :=
  match o with Some (Busy _ t _) => drop_send_type t | _ => [] end.

(** The task has been sent. *)
Definition on_sent (send_type : SendType) (rtt : N) (h : Handler)
    : outcome (Handler * list (Sent Answer)) :=
  match send_type with
  | ControlSend callback local_send_id =>
      let h := push_out (FileSendPending local_send_id) h in
      cb ← expect callback "called `Option::unwrap()` on a `None` value";
      Return (h, handle_callback_sender (AnsSendFile (Ok local_send_id)) cb)
  | ControlRecv callback =>
      cb ← expect callback "called `Option::unwrap()` on a `None` value";
      Return (h, handle_callback_sender (AnsAcceptFile (Ok rtt)) cb)
  | FileSend id => Return (push_out (HSendProgressed id rtt) h, [])
  | Cancel => Return (h, [])
  end.

Definition OutLoop : Type := nat * Handler * list (Sent Answer).

(** One turn of the loop of [poll_outbound]; the first component counts the
    polls of send tasks.  [self.outbound.take()] leaves [None] behind. *)
Definition poll_outbound_body (cx : HandlerCx) (st : OutLoop)
    : outcome (OutLoop + (option PollResult * Handler * list (Sent Answer))) :=
  let '(k, h, sent) := st in
  let taken := outbound h in
  let h := set_outbound None h in
  match taken with
  | Some (Busy task send_type timer) =>
      match cx_send cx k task with
      | Pending =>
          let '(ready, timer) := delay_poll (cx_timer cx) timer in
          if ready : bool then
            Return (inr (Some (NotifyBehaviour (HError (IO "Timeout"))), h,
                         sent ++ drop_send_type send_type))
          else Return (inr (None, set_outbound (Some (Busy task send_type timer)) h, sent))
      | Ready (Err e) =>
          Return (inr (Some (NotifyBehaviour (HError (IO (io_display e)))), h,
                       sent ++ drop_send_type send_type))
      | Ready (Ok (stream, rtt)) =>
          '(h, l) ← on_sent send_type rtt h;
          Return (inl (S k, set_outbound (Some (Idle stream)) h, sent ++ l))
      end
  | Some (Idle stream) =>
      match pending_in_events h with
      | [] => Return (inr (None, set_outbound (Some (Idle stream)) h, sent))
      | ev :: evs => Return (inl (k, progress_outbound ev stream (set_in evs h), sent))
      end
  | Some OpenStream => Return (inr (None, set_outbound (Some OpenStream) h, sent))
  | None => Return (inr (Some (OutboundSubstreamRequest PROTOCOL_NAME),
                         set_outbound (Some OpenStream) h, sent))
  end.

(** Every event takes two turns: to start it and to finish it. *)
Definition outbound_fuel (h : Handler) : nat := 3 + 2 * length (pending_in_events h).

Definition poll_outbound (cx : HandlerCx) (h : Handler)
    : outcome (option PollResult * Handler * list (Sent Answer)) :=
  loop (poll_outbound_body cx) (outbound_fuel h) (0, h, []).

(** ** poll *)
Definition poll_active (cx : HandlerCx) (h : Handler)
    : outcome (Poll PollResult * Handler * list (Sent Answer)) :=
  '(r, h) ← poll_inbound cx h;
  match r with
  | Some ev => Return (Ready ev, h, [])
  | None =>
      '(r, h, sent) ← poll_outbound cx h;
      match r with
      | Some ev => Return (Ready ev, h, sent)
      | None =>
          match pending_out_events h with
          | ev :: evs => Return (Ready (NotifyBehaviour ev), set_out evs h, sent)
          | [] => Return (Pending, h, sent)
          end
      end
  end.

Definition poll (cx : HandlerCx) (h : Handler)
    : outcome (Poll PollResult * Handler * list (Sent Answer)) :=
  match state h with
  | Inactive true => Return (Pending, h, [])
  | Inactive false =>
      Return (Ready (NotifyBehaviour HUnsupported), set_state (Inactive true) h, [])
  | Active => poll_active cx h
  end.

(** ** Connection events *)
Definition on_dial_upgrade_error (error : StreamUpgradeError) (h : Handler)
    : Handler * list (Sent Answer) :=
  let dropped := drop_outbound (outbound h) in
  let h := set_outbound None h in
  match error with
  | NegotiationFailed => (set_state (Inactive false) h, dropped)
  | _ => (h, dropped)
  end.

Definition on_connection_event (event : ConnectionEvent St) (h : Handler)
    : outcome (Handler * list (Sent Answer)) :=
  match event with
  | FullyNegotiatedInbound stream =>
      Return (push_out HInboundNegotiated (set_inbound (Some {| rt_stream := stream |}) h), [])
  | FullyNegotiatedOutbound stream =>
      Return (push_out HOutboundNegotiated (set_outbound (Some (Idle stream)) h),
              drop_outbound (outbound h))
  | DialUpgradeError e => Return (on_dial_upgrade_error e h)
  | LocalProtocolsChange | RemoteProtocolsChange => Return (h, [])
  | AddressChange _ | ListenUpgradeError | UncoveredConnectionEvent =>
      Panic "not implemented: New branch not covered"
  end.

End handler.
Arguments Handler {P} St.
Arguments OutboundState {P} St.
Arguments HandlerCx {P} St.
Arguments RecvTask St : assert.
Arguments SendTask St : assert.
