(* ===== verification/BlobHandlerProps.v ===== *)
(** * The connection handler of blob transfers: correctness

    Polling always returns, commands go out one at a time and in order, every
    callback is answered or accounted for, and what one handler encodes the
    other one decodes to the dual event. *)

From stdpp Require Import base gmap list strings pretty.
From Stdlib Require Import Lia NArith.
From S2P Require Import Prelude Std Core Stream BlobProtocol BlobTypes BlobHandler.

Section handler.
Context {P : Platform} {codec : Codec} {St : Type}.

(** ** Jobs: what is being sent and what waits *)
Definition busy_job (o : option (OutboundState St)) : list SendType :=
  match o with Some (Busy _ t _) => [t] | _ => [] end.
Definition event_job (ev : FromBehaviourEvent) : SendType := (outgoing ev).1.1.
Definition jobs (h : Handler St) : list SendType :=
  busy_job (outbound h) ++ (event_job <$> pending_in_events h).

(** The callback of a job in flight is there. *)
Definition has_callback (t : SendType) : Prop :=
  match t with ControlSend None _ | ControlRecv None => False | _ => True end.
Definition armed (h : Handler St) : Prop := ∀ t, t ∈ busy_job (outbound h) → has_callback t.

(** What a finished job tells the behaviour and the caller. *)
Definition ack_event (job : SendType * N) : option ToBehaviourEvent :=
  match job with
  | (ControlSend _ id, _) => Some (FileSendPending id)
  | (FileSend id, rtt) => Some (HSendProgressed id rtt)
  | _ => None
  end.
Arguments ack_event : simpl never.
Definition ack_answer (job : SendType * N) : list (Sent Answer) :=
  match job with
  | (ControlSend (Some cb) id, _) => [Answered cb (AnsSendFile (Ok id))]
  | (ControlRecv (Some cb), rtt) => [Answered cb (AnsAcceptFile (Ok rtt))]
  | _ => []
  end.

Arguments ack_answer : simpl never.

Lemma on_sent_ack t rtt (h : Handler St) :
  has_callback t →
  on_sent t rtt h = Return
    (match ack_event (t, rtt) with Some ev => push_out ev h | None => h end, ack_answer (t, rtt)).
Proof. by destruct t as [[cb|] id|[cb|]| |id]. Qed.

Lemma has_callback_event ev : has_callback (event_job ev).
Proof. by destruct ev. Qed.

(** Starting the next command keeps the list of jobs. *)
Lemma progress_outbound_jobs ev evs stream (h : Handler St) :
  outbound h = Some (Idle stream) → pending_in_events h = ev :: evs →
  let h' := progress_outbound ev stream (set_in evs (set_outbound None h)) in
  jobs h' = jobs h ∧ armed h' ∧ pending_out_events h' = pending_out_events h ∧
  state h' = state h ∧ inbound h' = inbound h ∧ timeout h' = timeout h.
Proof.
  intros Ho He. pose proof (has_callback_event ev) as Hcb.
  unfold jobs, armed, progress_outbound. rewrite Ho, He. simpl. unfold event_job in *.
  destruct (outgoing ev) as [[t bs] m]. simpl in *. split_and!; try done.
  by intros t' ->%list_elem_of_singleton.
Qed.

(** What [poll_outbound] has done when it stops: [done] are the jobs that were
    sent, in order, [failed] the one that timed out or failed. *)
Definition outbound_progress (h : Handler St) (done : list (SendType * N)) (failed : list SendType)
    (h' : Handler St) (sent : list (Sent Answer)) : Prop :=
  jobs h = (fst <$> done) ++ failed ++ jobs h' ∧
  pending_out_events h' = pending_out_events h ++ omap ack_event done ∧
  sent = concat (ack_answer <$> done) ++ concat (drop_send_type <$> failed) ∧
  state h' = state h ∧ inbound h' = inbound h ∧ timeout h' = timeout h ∧ armed h'.

Definition is_io_error (r : option PollResult) : Prop :=
  ∃ m, r = Some (NotifyBehaviour (HError (IO m))).

Lemma concat_fmap_app {A B} (f : A → list B) l1 l2 :
  concat (f <$> l1 ++ l2) = concat (f <$> l1) ++ concat (f <$> l2).
Proof. by rewrite fmap_app, concat_app. Qed.

Lemma armed_not_busy (h : Handler St) o :
  busy_job o = [] → armed (set_outbound o h).
Proof. intros E t. unfold armed. simpl. rewrite E. intros Hin. by apply not_elem_of_nil in Hin. Qed.

(** One finished job more. *)
Lemma outbound_progress_done h done h1 sent task t timer stream rtt :
  outbound_progress h done [] h1 sent → outbound h1 = Some (Busy task t timer) → has_callback t →
  outbound_progress h (done ++ [(t, rtt)]) []
    (set_outbound (Some (Idle stream))
       (match ack_event (t, rtt) with
        | Some ev => push_out ev (set_outbound None h1)
        | None => set_outbound None h1
        end))
    (sent ++ ack_answer (t, rtt)).
Proof.
  intros (Hj & Ho & Hs & Hst & Hin & Ht & Ha) Hout Hcb. unfold outbound_progress.
  rewrite concat_fmap_app, omap_app, fmap_app, Hs. simpl. rewrite !app_nil_r.
  split_and!.
  - rewrite Hj. unfold jobs. rewrite Hout. destruct (ack_event (t, rtt)); simpl; by rewrite <-app_assoc.
  - destruct (ack_event (t, rtt)) as [ev|]; simpl; rewrite Ho; [by rewrite app_assoc|by rewrite app_nil_r].
  - done.
  - by destruct (ack_event (t, rtt)).
  - by destruct (ack_event (t, rtt)).
  - by destruct (ack_event (t, rtt)).
  - by apply armed_not_busy.
Qed.

(** Polling the outbound side always returns: the jobs lose a prefix, the ones
    that were sent and possibly one that failed. *)
Lemma poll_outbound_spec cx (h : Handler St) :
  armed h →
  ∃ r h' sent done failed, poll_outbound cx h = Return (r, h', sent) ∧
    outbound_progress h done failed h' sent ∧ length failed ≤ 1 ∧ (failed ≠ [] → is_io_error r).
Proof.
  intros Harmed.
  destruct (loop_returns (poll_outbound_body cx)
    (λ '(k, h1, sent), ∃ done, outbound_progress h done [] h1 sent)
    (λ '(k, h1, _), 2 * length (pending_in_events h1) + length (busy_job (outbound h1)))
    (λ '(r, h', sent), ∃ done failed, outbound_progress h done failed h' sent ∧
        length failed ≤ 1 ∧ (failed ≠ [] → is_io_error r)))
    with (fuel := outbound_fuel h) (s := (0, h, [] : list (Sent Answer)))
    as ([[r h'] sent] & Hloop & done & failed & H).
  - intros [[k h1] sent] [done Hp]. pose proof Hp as (Hj & Ho & Hs & Hst & Hin & Ht & Ha).
    unfold poll_outbound_body. destruct (outbound h1) as [[|stream|task t timer]|] eqn:Hout.
    + right. eexists. split; [done|]. exists done, []. split_and!; [|simpl; lia|done].
      unfold outbound_progress, jobs in *. rewrite Hout in Hj. split_and!; try done. by apply armed_not_busy.
    + destruct (pending_in_events h1) as [|ev evs] eqn:Hev; simpl; rewrite Hev.
      * right. eexists. split; [done|]. exists done, []. split_and!; [|simpl; lia|done].
        unfold outbound_progress, jobs in *. rewrite Hout, Hev in Hj. simpl. rewrite Hev.
        split_and!; try done. by apply armed_not_busy.
      * left. eexists. split; [done|]. split.
        { exists done. destruct (progress_outbound_jobs ev evs stream h1 Hout Hev) as (Ej & Ea & E1 & E2 & E3 & E4).
          unfold outbound_progress. rewrite Ej, E1, E2, E3, E4. by split_and!. }
        { simpl. unfold progress_outbound. destruct (outgoing ev) as [[? ?] ?]. simpl. lia. }
    + assert (Hcb : has_callback t) by (apply Ha; rewrite Hout; by left).
      destruct (cx_send cx k task) as [[[stream rtt]|e]|].
      * left. rewrite on_sent_ack by done. simpl. eexists. split; [done|]. split.
        { exists (done ++ [(t, rtt)]). by eapply outbound_progress_done. }
        { destruct (ack_event (t, rtt)); simpl; lia. }
      * right. eexists. split; [done|]. exists done, [t]. split_and!; [|simpl; lia|intros _; by eexists].
        unfold outbound_progress, jobs in *. rewrite Hout in Hj. simpl in *. rewrite Hs, !app_nil_r.
        split_and!; try done. by apply armed_not_busy.
      * destruct (delay_poll (cx_timer cx) timer) as [[] timer']; right; eexists; (split; [done|]).
        { exists done, [t]. split_and!; [|simpl; lia|intros _; by eexists].
          unfold outbound_progress, jobs in *. rewrite Hout in Hj. simpl in *. rewrite Hs, !app_nil_r.
          split_and!; try done. by apply armed_not_busy. }
        { exists done, []. split_and!; [|simpl; lia|done].
          unfold outbound_progress, jobs, armed in *. rewrite Hout in Hj, Ha. simpl in *. by split_and!. }
    + right. eexists. split; [done|]. exists done, []. split_and!; [|simpl; lia|done].
      unfold outbound_progress, jobs in *. rewrite Hout in Hj. split_and!; try done. by apply armed_not_busy.
  - exists []. unfold outbound_progress. simpl. rewrite app_nil_r. by split_and!.
  - unfold outbound_fuel. destruct (outbound h) as [[]|]; simpl; lia.
  - exists r, h', sent, done, failed. split; [exact Hloop|exact H].
Qed.

(** ** Inbound messages *)

(** What the remote's handler makes of a command. *)
Definition dual (ev : FromBehaviourEvent) : ToBehaviourEvent :=
  match ev with
  | NewFileSend file_name id _ bytes_total => HIncomingFile file_name id bytes_total
  | FileChunk id content => HRecvProgressed id content
  | HAcceptFile id _ => FileSendAccepted id
  | LocalCancelSend id => RemoteCancelRecv id
  | LocalCancelRecv id => RemoteCancelSend id
  end.

(** The integers of a command are 64-bit. *)
Definition event_u64 (ev : FromBehaviourEvent) : Prop :=
  match ev with
  | NewFileSend _ id _ total => (id < 2 ^ 64 ∧ total < 2 ^ 64)%N
  | FileChunk id _ | HAcceptFile id _ | LocalCancelSend id | LocalCancelRecv id => (id < 2 ^ 64)%N
  end.

Lemma outgoing_decoded {laws : CodecLaws} ev (h : Handler St) :
  event_u64 ev →
  on_message (outgoing ev).1.2 (outgoing ev).2 h = Ok (push_out (dual ev) h).
Proof.
  destruct ev; simpl; intros H.
  - by rewrite IncomingFile_roundtrip by apply H.
  - by rewrite FileChunk_roundtrip.
  - by rewrite AcceptFile_roundtrip.
  - by rewrite CancelSend_roundtrip.
  - by rewrite CancelRecv_roundtrip.
Qed.

(** C34: handlers understand each other.  The body and the type a handler sends
    for a command are decoded by the other handler to the dual event. *)
Theorem message_roundtrip {laws : CodecLaws} ev (h : Handler St) :
  event_u64 ev →
  on_message (outgoing ev).1.2 (outgoing ev).2 h = Ok (push_out (dual ev) h).
Proof. apply outgoing_decoded. Qed.

(** A chunk of a file always fits in a frame: the behaviour reads at most
    [FILE_CHUNK_SIZE] bytes, and the encoded message is below the limit at
    which the receiver drops the connection. *)
Theorem chunk_fits_in_frame {laws : CodecLaws} id content :
  (id < 2 ^ 64)%N → (N.of_nat (length content) ≤ FILE_CHUNK_SIZE)%N →
  (N.of_nat (length (outgoing (FileChunk id content)).1.2) ≤ MAX_BODY)%N.
Proof.
  intros Hid Hlen. simpl.
  assert (Hs := FileChunk_size {| messages.fc_remote_send_id := id; messages.fc_content := content |} Hid).
  simpl in Hs. unfold MAX_BODY. unfold FILE_CHUNK_SIZE in *. lia.
Qed.

Definition decodable (bs : bytes) (message_type : byte) (h : Handler St) : Prop :=
  ∃ h', on_message bs message_type h = Ok h'.

Lemma on_message_outbound bs t (h h' : Handler St) :
  on_message bs t h = Ok h' →
  outbound h' = outbound h ∧ state h' = state h ∧ pending_in_events h' = pending_in_events h.
Proof.
  unfold on_message. intros H. repeat case_match; by simplify_eq/=.
Qed.

(** The body an undecodable message would need for [&bytes[..20]]. *)
Definition frame_long_enough (cx : HandlerCx St) (h : Handler St) : Prop :=
  ∀ fut stream bs t, inbound h = Some fut → cx_recv cx fut = Ready (Ok (stream, bs, t)) →
    decodable bs t (set_inbound (Some {| rt_stream := stream |}) h) ∨ 20 ≤ length bs.

Lemma poll_inbound_returns cx (h : Handler St) :
  frame_long_enough cx h →
  ∃ r h', poll_inbound cx h = Return (r, h') ∧ outbound h' = outbound h ∧ state h' = state h ∧
          pending_in_events h' = pending_in_events h.
Proof.
  intros Hok. unfold poll_inbound. destruct (inbound h) as [fut|] eqn:Hin; [|by eexists _, _].
  destruct (cx_recv cx fut) as [[[[stream bs] t]|e]|] eqn:Hr; [|by eexists _, _|by eexists _, _].
  destruct (on_message bs t _) as [h'|e] eqn:Hm.
  - apply on_message_outbound in Hm as (? & ? & ?). by exists None, h'.
  - destruct (Hok fut stream bs t Hin Hr) as [[h' E]|Hlen]; [congruence|].
    unfold first_20. destruct (Nat.ltb_spec (length bs) 20); [lia|]. simpl. by eexists _, _.
Qed.

(** C17: a poll of an active handler returns, and sends the commands one at a
    time and in order.  As long as no undecodable message of fewer than twenty
    bytes has arrived there is no panic; the jobs (the one in flight and the
    queue) lose a prefix: the jobs that were sent, each answered to its caller
    and acknowledged to the behaviour, then possibly one that failed, whose
    callback is dropped unanswered and for which the poll reports an error.  No
    other callback is touched, and no job is lost. *)
Theorem poll_sends_in_order cx (h : Handler St) :
  armed h → state h = Active → frame_long_enough cx h →
  ∃ r h' sent done failed, poll cx h = Return (r, h', sent) ∧
    jobs h = (fst <$> done) ++ failed ++ jobs h' ∧
    sent = concat (ack_answer <$> done) ++ concat (drop_send_type <$> failed) ∧
    (∀ ev, ev ∈ omap ack_event done →
       ev ∈ pending_out_events h' ∨ r = Ready (NotifyBehaviour ev)) ∧
    length failed ≤ 1 ∧ (failed ≠ [] → ∃ m, r = Ready (NotifyBehaviour (HError (IO m)))) ∧
    armed h' ∧ state h' = Active.
Proof.
  intros Ha Hst Hok. unfold poll. rewrite Hst. unfold poll_active.
  destruct (poll_inbound_returns cx h Hok) as (r & h1 & -> & Ho & Hs1 & Hi1). simpl.
  assert (Ha1 : armed h1) by (unfold armed; by rewrite Ho).
  assert (Hj1 : jobs h1 = jobs h) by (unfold jobs; by rewrite Ho, Hi1).
  destruct r as [ev|].
  { exists (Ready ev), h1, [], [], []. split_and!; try done; [by intros ? Hin%not_elem_of_nil|simpl; lia|congruence]. }
  destruct (poll_outbound_spec cx h1 Ha1) as (r & h2 & sent & done & failed & -> & Hp & Hf & He). simpl.
  destruct Hp as (Hj & Hout & Hsent & Hs2 & _ & _ & Ha2). rewrite Hj1 in Hj.
  assert (Hacks : ∀ ev, ev ∈ omap ack_event done → ev ∈ pending_out_events h2)
    by (intros ev Hev; rewrite Hout; apply elem_of_app; by right).
  destruct r as [ev|].
  - exists (Ready ev), h2, sent, done, failed. split_and!; try done; [by left; apply Hacks| |congruence].
    intros Hne. destruct (He Hne) as [m [= ->]]. by exists m.
  - assert (failed = []) as -> by (destruct failed; [done|by destruct (He ltac:(done))]).
    destruct (pending_out_events h2) as [|ev evs] eqn:Hev.
    + exists Pending, h2, sent, done, []. split_and!; try done; [intros ev Hin; left; rewrite Hev; by apply Hacks|congruence].
    + exists (Ready (NotifyBehaviour ev)), (set_out evs h2), sent, done, [].
      split_and!; try done; [|simpl; congruence].
      intros ev' [->|Hin]%Hacks%elem_of_cons; [by right|by left].
Qed.

(** The invariant holds of a new handler and is kept by everything else. *)
Lemma armed_new config : armed (Handler_new config).
Proof. intros t Hin. by apply not_elem_of_nil in Hin. Qed.

Lemma armed_connection_event ev (h h' : Handler St) sent :
  armed h → on_connection_event ev h = Return (h', sent) → armed h'.
Proof.
  intros Ha. destruct ev as [| | | error | | | |]; simpl; intros H; simplify_eq/=; try done.
  - by apply (armed_not_busy (push_out HOutboundNegotiated h)).
  - unfold on_dial_upgrade_error in H. destruct error; simplify_eq/=; intros t Hin;
      by apply not_elem_of_nil in Hin.
Qed.

(** An undecodable message of fewer than twenty bytes makes the handler
    panic: the error report slices the first twenty bytes of the body. *)
Theorem short_garbage_panics cx (h : Handler St) fut stream bs t :
  state h = Active → inbound h = Some fut → cx_recv cx fut = Ready (Ok (stream, bs, t)) →
  ¬ decodable bs t (set_inbound (Some {| rt_stream := stream |}) h) → length bs < 20 →
  poll cx h = Panic "range end index 20 out of range for slice".
Proof.
  intros Hs Hin Hr Hun Hlen. unfold poll, poll_active, poll_inbound. rewrite Hs, Hin, Hr.
  destruct (on_message bs t _) as [h'|e] eqn:Hm; [by destruct Hun; exists h'|].
  unfold first_20. by destruct (Nat.ltb_spec (length bs) 20); [|lia].
Qed.

(** ** Peers that do not speak the protocol *)
Definition is_pending (m : outcome (Poll PollResult * Handler St * list (Sent Answer))) (h : Handler St) : Prop :=
  m = Return (Pending, h, []).

(** A peer that does not support the protocol is reported exactly once.
    After a failed negotiation the next poll reports [Unsupported]; from then
    on every poll is pending and changes nothing, whatever the behaviour queues
    and whatever the futures answer. *)
Theorem unsupported_reported_once error (h : Handler St) cx evs cx' :
  error = NegotiationFailed →
  let h1 := (on_dial_upgrade_error error h).1 in
  ∃ h2, poll cx h1 = Return (Ready (NotifyBehaviour HUnsupported), h2, []) ∧
    let h3 := foldl (λ h ev, on_behaviour_event ev h) h2 evs in
    poll cx' h3 = Return (Pending, h3, []) ∧ pending_in_events h3 = pending_in_events h ++ evs.
Proof.
  intros -> h1. exists (set_state (Inactive true) h1). split; [done|]. intros h3.
  assert (H : state h3 = Inactive true ∧ pending_in_events h3 = pending_in_events h ++ evs).
  { unfold h3. change (pending_in_events h) with (pending_in_events (set_state (Inactive true) h1)).
    assert (Hs : state (set_state (Inactive true) h1) = Inactive true) by done. revert Hs.
    generalize (set_state (Inactive true) h1). induction evs as [|ev evs IH]; intros h' Hs; simpl.
    - by rewrite app_nil_r.
    - destruct (IH (on_behaviour_event ev h') Hs) as [? E]. split; [done|]. rewrite E. simpl.
      by rewrite <-app_assoc. }
  destruct H as [Hs Hp]. split; [|done]. unfold poll. by rewrite Hs.
Qed.
End handler.

(** ** Witnesses *)
Section witnesses.
#[local] Existing Instance demo_platform.

(** A codec that is not protobuf, but satisfies the laws. *)
Definition demo_decode {M} (len : nat) (make : N → bytes → M) (bs : bytes) : result M () :=
  if Nat.ltb (length bs) len then Err () else Ok (make (from_be (take 8 bs)) (drop 8 bs)).

#[local] Instance demo_codec : Codec := {|
  DecodeError := ();
  decode_error_display := λ _, "failed to decode Protobuf message";
  encode_IncomingFile := λ m, u64_to_be_bytes (messages.if_remote_send_id m) ++
    u64_to_be_bytes (messages.if_bytes_total m) ++ String.list_byte_of_string (messages.if_file_name m);
  decode_IncomingFile := demo_decode 16 (λ id rest,
    {| messages.if_remote_send_id := id; messages.if_bytes_total := from_be (take 8 rest);
       messages.if_file_name := String.string_of_list_byte (drop 8 rest) |});
  encode_AcceptFile := λ m, u64_to_be_bytes (messages.af_local_send_id m);
  decode_AcceptFile := demo_decode 8 (λ id _, {| messages.af_local_send_id := id |});
  encode_CancelSend := λ m, u64_to_be_bytes (messages.cs_remote_send_id m);
  decode_CancelSend := demo_decode 8 (λ id _, {| messages.cs_remote_send_id := id |});
  encode_CancelRecv := λ m, u64_to_be_bytes (messages.cr_local_send_id m);
  decode_CancelRecv := demo_decode 8 (λ id _, {| messages.cr_local_send_id := id |});
  encode_FileChunk := λ m, u64_to_be_bytes (messages.fc_remote_send_id m) ++ messages.fc_content m;
  decode_FileChunk := demo_decode 8 (λ id rest,
    {| messages.fc_remote_send_id := id; messages.fc_content := rest |});
|}.

Lemma u64_bytes_decode n rest :
  (n < 2 ^ 64)%N → from_be (take 8 (u64_to_be_bytes n ++ rest)) = n ∧ drop 8 (u64_to_be_bytes n ++ rest) = rest.
Proof.
  intros Hn. assert (H8 : length (u64_to_be_bytes n) = 8) by apply length_to_be.
  rewrite <-H8. rewrite take_app_length, drop_app_length. split; [|done].
  apply from_to_be_small. exact Hn.
Qed.

Lemma demo_decode_encode {M} len (make : N → bytes → M) n rest :
  (n < 2 ^ 64)%N → len ≤ 8 + length rest →
  demo_decode len make (u64_to_be_bytes n ++ rest) = Ok (make n rest).
Proof.
  intros Hn Hlen. unfold demo_decode. destruct (u64_bytes_decode n rest Hn) as [-> ->].
  assert (H8 : length (u64_to_be_bytes n) = 8) by apply length_to_be.
  destruct (Nat.ltb_spec (length (u64_to_be_bytes n ++ rest)) len) as [H|]; [|done].
  rewrite length_app, H8 in H. lia.
Qed.

Lemma demo_decode_encode_0 {M} (make : N → bytes → M) n :
  (n < 2 ^ 64)%N → demo_decode 8 make (u64_to_be_bytes n) = Ok (make n []).
Proof. intros Hn. rewrite <-(app_nil_r (u64_to_be_bytes n)). apply demo_decode_encode; simpl; done || lia. Qed.

Arguments demo_decode : simpl never.
Arguments u64_to_be_bytes : simpl never.

Ltac open_codec :=
  cbv [encode_IncomingFile decode_IncomingFile encode_AcceptFile decode_AcceptFile encode_CancelSend
    decode_CancelSend encode_CancelRecv decode_CancelRecv encode_FileChunk decode_FileChunk
    demo_codec messages.if_remote_send_id messages.if_bytes_total messages.if_file_name messages.af_local_send_id
    messages.cs_remote_send_id messages.cr_local_send_id messages.fc_remote_send_id messages.fc_content] in *.

#[local] Instance demo_codec_laws : CodecLaws.
Proof.
  split.
  - intros [id total name] Hid Ht. open_codec. rewrite demo_decode_encode; [|done|].
    + cbn beta. destruct (u64_bytes_decode total (String.list_byte_of_string name) Ht) as [-> ->].
      by rewrite String.string_of_list_byte_of_string.
    + rewrite length_app. unfold u64_to_be_bytes. rewrite length_to_be. lia.
  - intros [id] Hid. open_codec. by rewrite demo_decode_encode_0.
  - intros [id] Hid. open_codec. by rewrite demo_decode_encode_0.
  - intros [id] Hid. open_codec. by rewrite demo_decode_encode_0.
  - intros [id content] Hid. open_codec. rewrite demo_decode_encode; [done|done|lia].
  - intros [id content] Hid Hlen. open_codec. rewrite length_app. unfold u64_to_be_bytes.
    rewrite length_to_be. lia.
Qed.

Definition demo_handler : Handler N := {|
  state := Active;
  pending_in_events := [LocalCancelSend 3; NewFileSend "a" 4 {| cb_id := 1; cb_open := true |} 9];
  pending_out_events := []; timeout := 1000; inbound := Some {| rt_stream := 7%N |};
  outbound := Some (Idle 8%N);
|}.

(** The inbound side is quiet; the first send succeeds, the second is pending. *)
Definition demo_cx : HandlerCx N := {|
  cx_timer := (0%N : @PollCx demo_platform);
  cx_recv := λ _, Pending;
  cx_send := λ k _, match k with O => Ready (Ok (8%N, 5%N)) | S _ => Pending end;
|}.

Lemma poll_sends_in_order_witness :
  armed demo_handler ∧
  ∃ r h' sent done failed, poll demo_cx demo_handler = Return (r, h', sent) ∧
    jobs demo_handler = (fst <$> done) ++ failed ++ jobs h' ∧
    sent = concat (ack_answer <$> done) ++ concat (drop_send_type <$> failed) ∧
    (∀ ev, ev ∈ omap ack_event done →
       ev ∈ pending_out_events h' ∨ r = Ready (NotifyBehaviour ev)) ∧
    length failed ≤ 1 ∧ (failed ≠ [] → ∃ m, r = Ready (NotifyBehaviour (HError (IO m)))) ∧
    armed h' ∧ state h' = Active.
Proof.
  assert (Ha : armed demo_handler) by (intros t Hin; by apply not_elem_of_nil in Hin).
  assert (Hok : frame_long_enough demo_cx demo_handler) by (intros fut stream bs t _ H; discriminate H).
  split; [exact Ha|]. exact (poll_sends_in_order demo_cx demo_handler Ha eq_refl Hok).
Defined.

Lemma message_roundtrip_witness :
  event_u64 (FileChunk 3 [Byte.x41]) ∧
  on_message (outgoing (FileChunk 3 [Byte.x41])).1.2 (outgoing (FileChunk 3 [Byte.x41])).2 demo_handler =
    Ok (push_out (HRecvProgressed 3 [Byte.x41]) demo_handler).
Proof.
  assert (H : event_u64 (FileChunk 3 [Byte.x41])) by (vm_compute; reflexivity).
  split; [exact H|]. exact (message_roundtrip (FileChunk 3 [Byte.x41]) demo_handler H).
Defined.

Lemma chunk_fits_in_frame_witness :
  (N.of_nat (length (outgoing (FileChunk 3 [Byte.x41])).1.2) ≤ MAX_BODY)%N.
Proof. exact (chunk_fits_in_frame 3 [Byte.x41] ltac:(done) ltac:(done)). Defined.

(** A message of type 4 with a body of three bytes. *)
Definition garbage_cx : HandlerCx N := {|
  cx_timer := (0%N : @PollCx demo_platform);
  cx_recv := λ _, Ready (Ok (7%N, demo_body, Byte.x04));
  cx_send := λ _ _, Pending;
|}.

Lemma short_garbage_panics_witness :
  poll garbage_cx demo_handler = Panic "range end index 20 out of range for slice".
Proof.
  assert (Hun : ¬ decodable demo_body Byte.x04 (set_inbound (Some {| rt_stream := 7%N |}) demo_handler))
    by (intros [h' H]; discriminate H).
  exact (short_garbage_panics garbage_cx demo_handler {| rt_stream := 7%N |} 7%N demo_body Byte.x04
           eq_refl eq_refl eq_refl Hun ltac:(simpl; lia)).
Defined.

Lemma unsupported_reported_once_witness :
  let h1 := (on_dial_upgrade_error NegotiationFailed demo_handler).1 in
  ∃ h2, poll demo_cx h1 = Return (Ready (NotifyBehaviour HUnsupported), h2, []) ∧
    let h3 := foldl (λ h ev, on_behaviour_event ev h) h2 [LocalCancelSend 9] in
    poll garbage_cx h3 = Return (Pending, h3, []) ∧
    pending_in_events h3 = pending_in_events demo_handler ++ [LocalCancelSend 9].
Proof.
  exact (unsupported_reported_once NegotiationFailed demo_handler demo_cx [LocalCancelSend 9] garbage_cx eq_refl).
Defined.
End witnesses.
