(* ===== verification/BlobTransfer.v ===== *)
(** * A transfer, end to end

    The sender's behaviour and the receiver's behaviour, connected by their
    handlers: each command the sender queues reaches the receiver as the dual
    event ([BlobHandlerProps.message_roundtrip], [BlobProtocol.recv_reads_frame]),
    and the acknowledgement of a chunk lets the sender read the next one. *)

From stdpp Require Import base gmap sets list strings fin_maps.
From Stdlib Require Import Lia NArith.
From S2P Require Import Prelude Std Core Stream BlobProtocol BlobTypes BlobHandler BlobHandlerProps.
From S2P Require Import BlobBehaviour BlobDemo BlobBehaviourProps BlobReceive.

Section transfer.
Context {P : Platform}.

(** The one command queued between two states of the sender. *)
Definition sent_chunk (a a' : Behaviour) : option FromBehaviourEvent :=
  match drop (length (pending_handler_event a)) (pending_handler_event a') with
  | [NotifyHandler _ _ ev] => Some ev
  | _ => None
  end.

(** The sender handles an event, the command it queues reaches the receiver:
    the new states, and whether the sender still has the transfer. *)
Definition exchange (fuel : nat) (now : N) (peer_a peer_b : PeerId) (id : N) (ev : ToBehaviourEvent)
    (a b : Behaviour) : outcome (Behaviour * Behaviour * bool) :=
  a' ← on_connection_handler_event fuel now peer_b ev a;
  chunk ← expect (sent_chunk a a') "no command queued";
  b' ← on_connection_handler_event fuel now peer_a (dual chunk) b;
  Return (a', b', bool_decide (is_Some (ongoing_send a' !! id))).

(** The transfer after its first chunk; it ends with the receiver before and
    after the last chunk. *)
Definition transfer_body (fuel : nat) (now : N) (peer_a peer_b : PeerId) (id rtt : N)
    (st : Behaviour * Behaviour) : outcome ((Behaviour * Behaviour) + (Behaviour * Behaviour * Behaviour)) :=
  let '(a, b) := st in
  '(a', b', more) ← exchange fuel now peer_a peer_b id (HSendProgressed id rtt) a b;
  Return (if more : bool then inl (a', b') else inr (a', b, b')).

Definition transfer (fuel rounds : nat) (now : N) (peer_a peer_b : PeerId) (id rtt : N)
    (a b : Behaviour) : outcome (Behaviour * Behaviour * Behaviour) :=
  '(a', b', more) ← exchange fuel now peer_a peer_b id (FileSendAccepted id) a b;
  if more : bool then loop (transfer_body fuel now peer_a peer_b id rtt) rounds (a', b')
  else Return (a', b, b').

(** A file the operating system always writes to. *)
Definition os_writes (f : File) : Prop := ∀ i, ∃ n, f_os f i = OsUpTo (S n).

(** The sender has [left] still to read of [size] bytes; it announced [total]
    to [peer]. *)
Definition sending_to (a : Behaviour) (id : N) (peer : PeerId) (total size : N) (left : bytes) : Prop :=
  ∃ r, ongoing_send a !! id = Some r ∧ OngoingFileSend.local_send_id r = id ∧
    File.os_reliable (OngoingFileSend.file_handle r) ∧
    File.rest (OngoingFileSend.file_handle r) = left ∧
    OngoingFileSend.remote r = peer ∧ OngoingFileSend.bytes_total r = total ∧
    (OngoingFileSend.bytes_sent r + N.of_nat (length left) = size)%N ∧ (size < U64)%N.
Definition sending (a : Behaviour) (id : N) (left : bytes) : Prop :=
  ∃ peer total size, sending_to a id peer total size left.

(** The receiver has written [got] to the file and expects [left] more. *)
Definition receiving (b : Behaviour) (id lid total : N) (got left : bytes) : Prop :=
  ∃ r, ongoing_recv b !! id = Some r ∧ OngoingFileRecv.local_recv_id r = lid ∧
    OngoingFileRecv.bytes_total r = total ∧
    (OngoingFileRecv.bytes_received r + N.of_nat (length left) = total)%N ∧
    f_bytes (OngoingFileRecv.file_handle r) = got ∧
    File.at_end (OngoingFileRecv.file_handle r) ∧ os_writes (OngoingFileRecv.file_handle r).

(** What is left of a behaviour when its queues and its timer are set aside, and
    one transfer besides: the other transfers of the sender, of the receiver. *)
Definition Tables : Type :=
  gset PeerId * (N * gmap N PendingSend.t * gmap N OngoingFileSend.t) * (N * gmap N PendingRecv.t * gmap N OngoingFileRecv.t).
Definition tables (s : Behaviour) : Tables :=
  (connected_peers s, (send_counter s, pending_send s, ongoing_send s), (recv_counter s, pending_recv s, ongoing_recv s)).
Definition other_sends (id : N) (s : Behaviour) : Tables := tables (set_ongoing_send (delete id (ongoing_send s)) s).
Definition other_recvs (id : N) (s : Behaviour) : Tables := tables (set_ongoing_recv (delete id (ongoing_recv s)) s).

(** One read of the sender. *)
Lemma progress_ongoing_send_to now id peer total size a left :
  sending_to a id peer total size left →
  ∃ buf left' a', progress_ongoing_send now id a = Return a' ∧ left = buf ++ left' ∧
    (N.of_nat (length buf) ≤ CHUNK)%N ∧
    pending_handler_event a' = pending_handler_event a ++ [NotifyHandler peer Any (FileChunk id buf)] ∧
    out_events a' = out_events a ∧ expiry_check_throttle a' = expiry_check_throttle a ∧
    (buf = [] → left = [] ∧ ongoing_send a' !! id = None) ∧
    (buf ≠ [] → sending_to a' id peer total size left') ∧ other_sends id a' = other_sends id a.
Proof.
  intros (r & Hr & Hid & Hos & Hrest & Hpeer & Htotal & Hsum & Hsize). unfold progress_ongoing_send. rewrite Hr.
  destruct (File.read FILE_CHUNK_SIZE (OngoingFileSend.file_handle r)) as [[buf|e] f] eqn:Hread.
  2: { unfold File.read in Hread. destruct (Hos (f_calls (OngoingFileSend.file_handle r))) as [k E].
       rewrite E in Hread. done. }
  apply File.read_ok in Hread as (Hbuf & Hlen & Hnil & _ & Hosf). rewrite Hrest in Hbuf, Hnil.
  rewrite FILE_CHUNK_SIZE_eq in Hlen.
  assert (Hsplit : length left = length buf + length (File.rest f)) by (by rewrite Hbuf at 1; rewrite length_app).
  rewrite u64_add_small by lia. simpl. rewrite Hid.
  rewrite Hpeer. exists buf, (File.rest f).
  destruct (Nat.eqb_spec (length buf) 0) as [E|E].
  - apply nil_length_inv in E as ->. eexists. split; [done|]. split_and!; try done.
    + intros _. destruct (Hnil eq_refl) as [?|?]; [done|]. split; [done|]. simpl. by rewrite lookup_delete_eq.
    + unfold other_sends. simpl. by rewrite delete_delete_eq, delete_insert_eq.
  - eexists. split; [done|]. split_and!; try done; [by intros ->|..].
    + intros _. eexists. simpl. rewrite lookup_insert_eq. split; [done|]. simpl. split_and!; try done; [|lia].
      unfold File.os_reliable. by rewrite Hosf.
    + unfold other_sends. simpl. by rewrite delete_insert_eq.
Qed.

Lemma progress_ongoing_send_step now id a left :
  sending a id left →
  ∃ peer buf left' a', progress_ongoing_send now id a = Return a' ∧ left = buf ++ left' ∧
    (N.of_nat (length buf) ≤ CHUNK)%N ∧
    pending_handler_event a' = pending_handler_event a ++ [NotifyHandler peer Any (FileChunk id buf)] ∧
    (buf = [] → left = [] ∧ ongoing_send a' !! id = None) ∧
    (buf ≠ [] → sending a' id left').
Proof.
  intros (peer & total & size & H). exists peer.
  destruct (progress_ongoing_send_to now id peer total size a left H)
    as (buf & left' & a' & ? & ? & ? & ? & _ & _ & ? & Hs & _).
  exists buf, left', a'. split_and!; try done. intros Hne. exists peer, total, size. by apply Hs.
Qed.

(** One chunk of the receiver. *)
Lemma progress_ongoing_recv_step fuel now id lid total got buf left b :
  receiving b id lid total got (buf ++ left) → buf ≠ [] → length buf < fuel → (total < U64)%N →
  ∃ b', progress_ongoing_recv fuel now id buf b = Return b' ∧
    receiving b' id lid total (got ++ buf) left ∧ out_events b' = out_events b ∧
    pending_handler_event b' = pending_handler_event b ∧ expiry_check_throttle b' = expiry_check_throttle b ∧
    other_recvs id b' = other_recvs id b.
Proof.
  intros (r & Hr & Hlid & Htot & Hsum & Hgot & Hend & Hos) Hne Hfuel Htotal.
  unfold progress_ongoing_recv. rewrite Hr.
  destruct (Nat.eqb_spec (length buf) 0) as [E|_]; [by apply nil_length_inv in E|].
  assert (Hprog : File.os_progress (OngoingFileRecv.file_handle r)) by (intros i; right; apply Hos).
  rewrite length_app in Hsum.
  destruct (write_chunk_spec fuel buf _ Hne Hprog Hfuel) as ([f [n|e]] & -> & Hos' & Hw); simpl.
  - destruct Hw as [-> Hw]. destruct (Hw Hend) as [Hend' Hb].
    rewrite u64_add_small by lia. simpl. eexists. split; [done|].
    split; [|split_and!; try done; unfold other_recvs; simpl; by rewrite delete_insert_eq, delete_delete_eq].
    eexists. simpl. rewrite lookup_insert_eq. split; [done|]. simpl.
    split_and!; try done; [lia|congruence|]. unfold os_writes. by rewrite Hos'.
  - destruct Hw as [[i Hi] _]. destruct (Hos i) as [n E]. congruence.
Qed.

Lemma progress_ongoing_recv_end fuel now id lid total got b :
  receiving b id lid total got [] →
  ∃ b', progress_ongoing_recv fuel now id [] b = Return b' ∧
    ongoing_recv b' !! id = None ∧ out_events b' = out_events b ++ [RecvProgressed lid total total] ∧
    pending_handler_event b' = pending_handler_event b ∧ expiry_check_throttle b' = expiry_check_throttle b ∧
    other_recvs id b' = other_recvs id b.
Proof.
  intros (r & Hr & <- & <- & Hsum & _). unfold progress_ongoing_recv. rewrite Hr. simpl in *.
  rewrite (proj2 (N.eqb_eq _ _)) by lia. simpl. eexists. split; [done|]. simpl.
  rewrite lookup_delete_eq. split_and!; try done. unfold other_recvs. simpl. by rewrite delete_delete_eq.
Qed.

(** What an exchange of a chunk leads to, from a sender that reads on. *)
Definition exchanged (id lid total : N) (outs : list OutEvent) (all left : bytes)
    (b : Behaviour) (res : Behaviour * Behaviour * bool) : Prop :=
  let '(a', b', more) := res in
  if more : bool then
    ∃ got' left', length left' < length left ∧ got' ++ left' = all ∧ sending a' id left' ∧
      receiving b' id lid total got' left' ∧ out_events b' = outs
  else
    left = [] ∧ ongoing_send a' !! id = None ∧ ongoing_recv b' !! id = None ∧
    out_events b' = outs ++ [RecvProgressed lid total total] ∧
    receiving b id lid total all [].

Lemma exchange_step fuel now peer_a peer_b id lid total outs all got left ev a a1 b :
  (∀ a2, progress_ongoing_send now id a1 = Return a2 →
     ∃ a', on_connection_handler_event fuel now peer_b ev a = Return a' ∧
       pending_handler_event a' = pending_handler_event a2 ∧ ongoing_send a' = ongoing_send a2) →
  pending_handler_event a1 = pending_handler_event a →
  (CHUNK < N.of_nat fuel)%N → (total < U64)%N →
  sending a1 id left → receiving b id lid total got left → got ++ left = all → out_events b = outs →
  ∃ res, exchange fuel now peer_a peer_b id ev a b = Return res ∧
         exchanged id lid total outs all left b res.
Proof.
  intros Hev Hq Hfuel Htotal Hsend Hrecv Hall Houts.
  destruct (progress_ongoing_send_step now id a1 left Hsend)
    as (peer & buf & left' & a2 & Hp & Hsplit & Hlen & Hq2 & Hnil & Hcons).
  destruct (Hev a2 Hp) as (a' & Ha' & Hq' & Hos').
  unfold exchange. rewrite Ha'. simpl.
  assert (sent_chunk a a' = Some (FileChunk id buf)) as ->.
  { unfold sent_chunk. by rewrite Hq', Hq2, Hq, drop_app_length. }
  simpl. destruct (decide (buf = [])) as [->|Hne].
  - destruct (Hnil eq_refl) as [-> Hnone]. rewrite app_nil_r in Hall. subst got.
    destruct (progress_ongoing_recv_end fuel now id lid total all b Hrecv) as (b' & -> & Hnb & Hob & _).
    simpl. eexists. split; [done|]. unfold exchanged. rewrite Hos', Hnone.
    rewrite bool_decide_eq_false_2 by (by intros [? ?]). by rewrite Hob, Houts.
  - assert (Hfuel' : length buf < fuel) by lia. rewrite Hsplit in Hrecv.
    destruct (progress_ongoing_recv_step fuel now id lid total got buf left' b Hrecv Hne Hfuel' Htotal)
      as (b' & -> & Hrecv' & Hob & _).
    simpl. eexists. split; [done|]. unfold exchanged.
    destruct (Hcons Hne) as (peer' & total' & size & r & Hr & Hrest). rewrite Hos'.
    rewrite bool_decide_eq_true_2 by (by exists r).
    exists (got ++ buf), left'. split_and!.
    + rewrite Hsplit, length_app. destruct buf; [done|]. simpl. lia.
    + by rewrite <-app_assoc, <-Hsplit.
    + exists peer', total', size, r. by rewrite Hos'.
    + done.
    + congruence.
Qed.

Lemma transfer_body_step fuel now peer_a peer_b id rtt lid total outs all got left a b :
  (CHUNK < N.of_nat fuel)%N → (total < U64)%N →
  sending a id left → receiving b id lid total got left → got ++ left = all → out_events b = outs →
  ∃ res, exchange fuel now peer_a peer_b id (HSendProgressed id rtt) a b = Return res ∧
         exchanged id lid total outs all left b res.
Proof.
  intros Hfuel Htotal Hsend. pose proof Hsend as (? & ? & ? & r & Hr & _).
  apply (exchange_step _ _ _ _ _ _ _ _ _ _ _ _ _
    (push_out (SendProgressed id (OngoingFileSend.bytes_sent r) (OngoingFileSend.bytes_total r)) a));
    [|done..].
  intros a2 Ha2. exists a2. simpl. by rewrite Hr.
Qed.

(** The rounds that are left once the first chunk is under way. *)
Lemma transfer_rounds fuel rounds now peer_a peer_b id rtt lid total outs all got left a b :
  (CHUNK < N.of_nat fuel)%N → (total < U64)%N → length left < rounds →
  sending a id left → receiving b id lid total got left → got ++ left = all → out_events b = outs →
  ∃ a' b1 b', loop (transfer_body fuel now peer_a peer_b id rtt) rounds (a, b) = Return (a', b1, b') ∧
    ongoing_send a' !! id = None ∧ ongoing_recv b' !! id = None ∧
    out_events b' = outs ++ [RecvProgressed lid total total] ∧ receiving b1 id lid total all [].
Proof.
  intros Hfuel Htotal Hrounds Hsend Hrecv Hall Hout.
  destruct (loop_returns (transfer_body fuel now peer_a peer_b id rtt)
    (λ '(a3, b3), ∃ got left, got ++ left = all ∧ sending a3 id left ∧
       receiving b3 id lid total got left ∧ out_events b3 = outs)
    (λ '(a3, b3), match ongoing_send a3 !! id with
                  | Some r3 => length (File.rest (OngoingFileSend.file_handle r3)) | None => 0 end)
    (λ '(a3, b1, b3), ongoing_send a3 !! id = None ∧ ongoing_recv b3 !! id = None ∧
       out_events b3 = outs ++ [RecvProgressed lid total total] ∧ receiving b1 id lid total all []))
    with (fuel := rounds) (s := (a, b)) as ([[a3 b1] b3] & Hloop & H).
  - intros [a3 b3] (got3 & left3 & Hall3 & Hs3 & Hr3 & Ho3).
    destruct (transfer_body_step fuel now peer_a peer_b id rtt lid total _ _ _ _ _ _
      Hfuel Htotal Hs3 Hr3 Hall3 Ho3) as ([[a4 b4] more] & Hex4 & Hres4).
    unfold transfer_body. rewrite Hex4. simpl. destruct more; simpl in Hres4.
    + left. exists (a4, b4). split; [done|]. destruct Hres4 as (got4 & left4 & Hlt4 & Hall4 & Hs4 & Hr4 & Ho4).
      split; [by exists got4, left4|].
      destruct Hs3 as (? & ? & ? & ? & -> & _ & _ & -> & _). by destruct Hs4 as (? & ? & ? & ? & -> & _ & _ & -> & _).
    + right. exists (a4, b3, b4). split; [done|]. by destruct Hres4 as (_ & ? & ? & ? & ?).
  - by exists got, left.
  - destruct Hsend as (? & ? & ? & ? & -> & _ & _ & -> & _). lia.
  - by exists a3, b1, b3.
Qed.

(** A file arrives as it was sent.  A pending send whose file can be read
    and whose receiver has accepted it, with the announced size, into a file it
    only appends to: once the acceptance reaches the sender, the exchange of
    chunks ends, whatever the sizes of the operating system's reads and writes;
    just before the last, empty, chunk the receiver's file holds exactly the
    sender's bytes after what it held before; then both sides have forgotten the
    transfer and the receiver reports [RecvProgressed] with all bytes. *)
Theorem file_arrives_as_sent fuel rounds n now peer_a peer_b id rtt a b v r data :
  wf n a → pending_send a !! id = Some v →
  File.os_reliable (PendingSend.file v) → File.rest (PendingSend.file v) = data →
  ongoing_recv b !! id = Some r → OngoingFileRecv.bytes_received r = 0%N →
  OngoingFileRecv.bytes_total r = N.of_nat (length data) →
  File.at_end (OngoingFileRecv.file_handle r) → os_writes (OngoingFileRecv.file_handle r) →
  (N.of_nat (length data) < U64)%N → (CHUNK < N.of_nat fuel)%N → length data < rounds →
  ∃ a' b1 b' r1, transfer fuel rounds now peer_a peer_b id rtt a b = Return (a', b1, b') ∧
    ongoing_recv b1 !! id = Some r1 ∧
    f_bytes (OngoingFileRecv.file_handle r1) = f_bytes (OngoingFileRecv.file_handle r) ++ data ∧
    ongoing_send a' !! id = None ∧ ongoing_recv b' !! id = None ∧
    out_events b' = out_events b ++
      [RecvProgressed (OngoingFileRecv.local_recv_id r) (N.of_nat (length data)) (N.of_nat (length data))].
Proof.
  intros [Hs _] Hv Hos Hrest Hr H0 Htot Hend Hw Hlen Hfuel Hrounds.
  destruct (sw_pending _ _ _ _ _ Hs _ _ Hv) as (Hid & _ & _ & Hnone).
  set (f0 := f_bytes (OngoingFileRecv.file_handle r)). set (total := N.of_nat (length data)) in *.
  set (lid := OngoingFileRecv.local_recv_id r).
  assert (Hrecv : receiving b id lid total f0 data) by (exists r; split_and!; try done; rewrite H0; lia).
  set (ra := {| OngoingFileSend.local_send_id := id; OngoingFileSend.remote := PendingSend.remote v;
    OngoingFileSend.bytes_total := PendingSend.bytes_total v; OngoingFileSend.file_handle := PendingSend.file v;
    OngoingFileSend.file_path := PendingSend.file_path v; OngoingFileSend.bytes_sent := 0;
    OngoingFileSend.last_active := now |}).
  set (a1 := set_ongoing_send (<[id := ra]> (ongoing_send a))
               (set_pending_send (delete id (pending_send a)) a)).
  assert (Hsend : sending a1 id data).
  { exists (PendingSend.remote v), (PendingSend.bytes_total v), total, ra. simpl. rewrite lookup_insert_eq. by split_and!. }
  destruct (exchange_step fuel now peer_a peer_b id lid total (out_events b) (f0 ++ data) f0 data
    (FileSendAccepted id) a a1 b) as ([[a2 b2] more] & Hex & Hres); try done.
  { intros a2 Ha2. simpl. unfold pending_send_accepted. rewrite Hv. simpl. rewrite Hid.
    fold ra. fold a1. rewrite Ha2. simpl. eexists. by split. }
  unfold transfer. rewrite Hex. simpl. destruct more; simpl in Hres.
  - destruct Hres as (got & left & Hlt & Hall & Hsend2 & Hrecv2 & Hout2).
    destruct (transfer_rounds fuel rounds now peer_a peer_b id rtt lid total (out_events b) (f0 ++ data) got left a2 b2)
      as (a3 & b1 & b3 & Hloop & Ha3 & Hb3 & Ho3 & (r1 & Hr1 & _ & _ & _ & Hf1 & _)); try done; [lia|].
    by exists a3, b1, b3, r1.
  - destruct Hres as (_ & Ha2 & Hb2 & Ho2 & (r1 & Hr1 & _ & _ & _ & Hf1 & _)).
    by exists a2, b, b2, r1.
Qed.
End transfer.

(** ** Witness: the demonstration file of three bytes *)
Definition ops_recv_0 : list Op := [
  OpHandler 0 7%N (HIncomingFile "b.txt" 0 3);
  OpPush 0 (AcceptFile demo_empty 0 "dl" (demo_cb 0))].
Definition s_recv_0 : Behaviour := final (run 10 ops_recv_0 (new Config_default)).
Definition r_recv_0 : OngoingFileRecv.t := default r_recv (ongoing_recv s_recv_0 !! 0%N).
Definition v_offer_0 : PendingSend.t :=
  {| PendingSend.local_send_id := 0; PendingSend.remote := 7%N; PendingSend.file_path := "dir/a.txt";
     PendingSend.bytes_total := 3; PendingSend.file := demo_file; PendingSend.timestamp := 0 |}.

Lemma file_arrives_as_sent_witness :
  ∃ a' b1 b' r1,
    transfer (N.to_nat (CHUNK + 1)) 4 1 (7%N : @PeerId demo_platform) (8%N : @PeerId demo_platform) 0 5
      s_offer s_recv_0 = Return (a', b1, b') ∧
    ongoing_recv b1 !! 0%N = Some r1 ∧
    f_bytes (OngoingFileRecv.file_handle r1) =
      f_bytes (OngoingFileRecv.file_handle r_recv_0) ++ [Byte.x41; Byte.x41; Byte.x41] ∧
    ongoing_send a' !! 0%N = None ∧ ongoing_recv b' !! 0%N = None ∧
    out_events b' = out_events s_recv_0 ++ [RecvProgressed (OngoingFileRecv.local_recv_id r_recv_0) 3 3].
Proof.
  assert (Hv : pending_send s_offer !! 0%N = Some v_offer_0) by (vm_compute; reflexivity).
  assert (Hr : ongoing_recv s_recv_0 !! 0%N = Some r_recv_0) by (vm_compute; reflexivity).
  assert (Hf : OngoingFileRecv.file_handle r_recv_0 = demo_empty) by (vm_compute; reflexivity).
  assert (Hos : File.os_reliable demo_file) by (intros i; exists 2; reflexivity).
  assert (Hend : File.at_end (OngoingFileRecv.file_handle r_recv_0)) by (rewrite Hf; reflexivity).
  assert (Hw : os_writes (OngoingFileRecv.file_handle r_recv_0)) by (rewrite Hf; intros i; exists 1; reflexivity).
  assert (H0 : OngoingFileRecv.bytes_received r_recv_0 = 0%N) by (vm_compute; reflexivity).
  assert (Htot : OngoingFileRecv.bytes_total r_recv_0 = 3%N) by (vm_compute; reflexivity).
  exact (file_arrives_as_sent (N.to_nat (CHUNK + 1)) 4 2 1 (7%N : @PeerId demo_platform)
    (8%N : @PeerId demo_platform) 0 5 s_offer s_recv_0 v_offer_0 r_recv_0 [Byte.x41; Byte.x41; Byte.x41]
    wf_s_offer Hv Hos eq_refl Hr H0 Htot Hend Hw ltac:(done) ltac:(rewrite N2Nat.id; lia) ltac:(simpl; lia)).
Defined.
