(* ===== verification/TransferSpec.v ===== *)
(** * The life of one transfer, between two nodes

    Module [TransferSpec]: what a file sent from one node to another goes
    through, whatever else the nodes do and in whatever order: it is offered,
    announced, accepted, read chunk by chunk, written chunk by chunk, and may be
    given up by either side at any moment.  [BlobAsync] proves that every run of
    two blob behaviours is, for each of their transfers, a run of this machine;
    here is what holds in each of its states. *)

From stdpp Require Import base gmap sets list relations fin_sets.
From Stdlib Require Import Lia NArith.
From S2P Require Import Prelude Std.

Module TransferSpec.

(** The sender's part: nothing, a file on offer, a file of which this is left. *)
Inductive Source := Absent | Offered (data : bytes) | Reading (rest : bytes).
(** Under way to the receiver, in order; under way to the sender. *)
Inductive Item := Announce | Chunk (content : bytes) | Cancel.
Inductive Reply := Accepted | Refused.
#[export] Instance item_eq_dec : EqDecision Item.
Proof. solve_decision. Defined.
#[export] Instance reply_eq_dec : EqDecision Reply.
Proof. solve_decision. Defined.

Record Transfer := MkTransfer {
  (** the number is used *)
  born : bool;
  (** the file that was offered, what the destination held when it was accepted *)
  data : option bytes;
  before : option bytes;
  src : Source;
  pipe : list Item;
  (** at the receiver: the announced, under their local numbers; what is written
      and how many bytes of the file it counts *)
  waiting : gset N;
  dst : option (bytes * N);
  back : list Reply;
}.

Definition unborn : Transfer := MkTransfer false None None Absent [] ∅ None [].

(** After a read: the empty one is the last. *)
Definition after_read (buf rem : bytes) : Source := match buf with [] => Absent | _ => Reading rem end.

Section spec.
(** Whether every file on offer can be read to its end. *)
Context (R : Prop).

Inductive tstep : Transfer → Transfer → Prop :=
(* the sender *)
| t_offer d d0 bf s p w o k : (N.of_nat (length d) < U64)%N →
    tstep (MkTransfer false d0 bf s p w o k) (MkTransfer true (Some d) bf (Offered d) (p ++ [Announce]) w o k)
| t_burn d bf s p w o k :
    tstep (MkTransfer false d bf s p w o k) (MkTransfer true d bf s p w o k)
| t_withdraw b d bf s p w o k : b = true →
    tstep (MkTransfer b d bf s p w o k) (MkTransfer b d bf Absent (p ++ [Cancel]) w o k)
| t_refused b d bf s p w o k :
    tstep (MkTransfer b d bf s p w o (Refused :: k)) (MkTransfer b d bf Absent p w o k)
| t_begin b d bf l p w o k :
    tstep (MkTransfer b d bf (Offered l) p w o (Accepted :: k)) (MkTransfer b d bf (Reading l) p w o k)
| t_late b d bf s p w o k : (∀ l, s ≠ Offered l) →
    tstep (MkTransfer b d bf s p w o (Accepted :: k)) (MkTransfer b d bf s p w o k)
| t_read b d bf buf rem p w o k : (buf = [] → rem = []) →
    tstep (MkTransfer b d bf (Reading (buf ++ rem)) p w o k)
          (MkTransfer b d bf (after_read buf rem) (p ++ [Chunk buf]) w o k)
| t_fail b d bf l p w o k : ¬ R →
    tstep (MkTransfer b d bf (Reading l) p w o k) (MkTransfer b d bf Absent p w o k)
(* the receiver *)
| t_announced lid b d bf s p w o k :
    tstep (MkTransfer b d bf s (Announce :: p) w o k) (MkTransfer b d bf s p ({[lid]} ∪ w) o k)
| t_forget lid b d bf s p w o k :
    tstep (MkTransfer b d bf s p w o k) (MkTransfer b d bf s p (w ∖ {[lid]}) o k)
| t_refuse lid b d bf s p w o k : lid ∈ w →
    tstep (MkTransfer b d bf s p w o k) (MkTransfer b d bf s p (w ∖ {[lid]}) o (k ++ [Refused]))
| t_accept lid f b d bf s p w o k : lid ∈ w →
    tstep (MkTransfer b d bf s p w o k) (MkTransfer b d (Some f) s p (w ∖ {[lid]}) (Some (f, 0%N)) (k ++ [Accepted]))
| t_drop b d bf s p w f k :
    tstep (MkTransfer b d bf s p w (Some f) k) (MkTransfer b d bf s p w None (k ++ [Refused]))
| t_cancelled b d bf s p w o k :
    tstep (MkTransfer b d bf s (Cancel :: p) w o k) (MkTransfer b d bf s p ∅ None k)
| t_write buf b d bf s p w f n k : buf ≠ [] →
    tstep (MkTransfer b d bf s (Chunk buf :: p) w (Some (f, n)) k)
          (MkTransfer b d bf s p w (Some (f ++ buf, n + N.of_nat (length buf))%N) k)
| t_close buf b d bf s p w o k :
    tstep (MkTransfer b d bf s (Chunk buf :: p) w o k) (MkTransfer b d bf s p w None k).

Abbreviation tsteps := (rtc tstep).

(** ** What holds in every state *)

Definition chunks (p : list Item) : list bytes := omap (λ i, match i with Chunk c => Some c | _ => None end) p.
Definition announced (p : list Item) : nat := length (filter (eq Announce) p).
Definition accepted (k : list Reply) : nat := length (filter (eq Accepted) k).

(** The file [d], of which [got] is written, [cs] are under way and the sender
    has the rest; the empty chunk is the last, and stands for the end. *)
Definition stream (d got : bytes) (cs : list bytes) (s : Source) : Prop :=
  match s with
  | Offered _ => got = [] ∧ cs = []
  | Reading rem => [] ∉ cs ∧ got ++ concat cs ++ rem = d
  | Absent => ∃ full last tail, cs = full ++ last ∧ [] ∉ full ∧ got ++ concat full ++ tail = d ∧
                (last = [] ∨ (last = [[]] ∧ tail = []))
  end.

Lemma size_minus (w : gset N) lid : size (w ∖ {[lid]}) ≤ size w.
Proof. apply subseteq_size. set_solver. Qed.
Lemma size_minus_in (w : gset N) lid : lid ∈ w → S (size (w ∖ {[lid]})) = size w.
Proof.
  intros Hin. rewrite size_difference by set_solver. rewrite size_singleton.
  assert (size w ≠ 0); [|lia]. apply size_non_empty_iff. set_solver.
Qed.
Lemma size_plus (w : gset N) lid : size ({[lid]} ∪ w) ≤ S (size w).
Proof. pose proof (size_union_alt {[lid]} w) as H. rewrite H, size_singleton. pose proof (size_minus w lid). lia. Qed.

(** The sender stops: what is under way stays a prefix. *)
Lemma stream_stops d got cs s : (∀ l, s = Offered l → l = d) → stream d got cs s → stream d got cs Absent.
Proof.
  intros Hd. destruct s as [|l|rem]; [done|..].
  - intros [-> ->]. exists [], [], d. split_and!; try done; [set_solver|by left].
  - intros [Hc Hd']. exists cs, [], rem. split_and!; try done; [by rewrite app_nil_r|by left].
Qed.
(** The sender reads. *)
Lemma stream_reads d got cs buf rem : (buf = [] → rem = []) →
  stream d got cs (Reading (buf ++ rem)) → stream d got (cs ++ [buf]) (after_read buf rem).
Proof.
  intros Hnil [Hc Hd]. destruct buf as [|x buf].
  - rewrite (Hnil eq_refl), app_nil_r in Hd. exists cs, [[]], []. split_and!; try done; [by rewrite app_nil_r|by right].
  - split; [set_solver|]. rewrite concat_app. cbn [concat app]. rewrite app_nil_r. by rewrite <-(app_assoc (concat cs)).
Qed.
Lemma stream_writes d got buf cs s : buf ≠ [] → stream d got (buf :: cs) s → stream d (got ++ buf) cs s.
Proof.
  intros Hne. destruct s as [|l|rem]; [|by intros [_ ?]|].
  - intros (full & last & tail & Hc & Hf & Hd & Hl). destruct full as [|b full].
    + destruct Hl as [->|[-> ->]]; [done|]. by injection Hc.
    + injection Hc as <- ->. exists full, last, tail. split_and!; try done; [set_solver|]. rewrite <-Hd. simpl. by rewrite <-!app_assoc.
  - intros [Hc <-]. split; [set_solver|]. simpl. by rewrite <-!app_assoc.
Qed.
Lemma stream_prefix d got cs s : (∀ l, s = Offered l → l = d) → stream d got cs s → got `prefix_of` d.
Proof.
  intros Hd Hs. apply (stream_stops _ _ _ _ Hd) in Hs as (full & last & tail & _ & _ & <- & _). by exists (concat full ++ tail).
Qed.
Lemma stream_end d got cs s : (∀ l, s = Offered l → l = d) → stream d got ([] :: cs) s → got = d.
Proof.
  intros Hd Hs. apply (stream_stops _ _ _ _ Hd) in Hs as (full & last & tail & Hc & Hf & Hs & Hl). destruct full as [|b full].
  - simpl in Hs. destruct Hl as [->|[-> ->]]; [done|]. by rewrite app_nil_r in Hs.
  - injection Hc as <- _. set_solver.
Qed.

Definition reads (s : Source) : nat := match s with Reading _ => 1 | _ => 0 end.
Definition open {A} (o : option A) : nat := match o with Some _ => 1 | None => 0 end.
(** What the receiver knows or will know of the transfer. *)
Definition known (t : Transfer) : nat := announced (pipe t) + size (waiting t) + open (dst t).

Record good (t : Transfer) : Prop := {
  (** the receiver knows a transfer once; it is accepted and begun once *)
  g_once : known t ≤ 1;
  g_turns : announced (pipe t) + size (waiting t) + accepted (back t) + reads (src t) ≤ 1;
  g_unborn : born t = false → src t = Absent ∧ pipe t = [] ∧ waiting t = ∅ ∧ dst t = None ∧ back t = [];
  g_early : announced (pipe t) + size (waiting t) ≠ 0 → chunks (pipe t) = [] ∧ is_Some (data t);
  g_offered d : src t = Offered d → data t = Some d ∧ chunks (pipe t) = [];
  g_small d : data t = Some d → (N.of_nat (length d) < U64)%N;
  g_dst f n : dst t = Some (f, n) → ∃ d b got, data t = Some d ∧ before t = Some b ∧
      f = b ++ got ∧ n = N.of_nat (length got) ∧ stream d got (chunks (pipe t)) (src t);
  (** nothing overtakes the announcement *)
  g_first : announced (tail (pipe t)) = 0;
  (** nobody is left waiting: who has refused has forgotten the transfer, the
      acceptance of what is on offer is under way, and so is the end of what is no
      longer sent *)
  g_refused : Refused ∈ back t → known t = 0;
  g_accepted f d : dst t = Some f → src t = Offered d → Accepted ∈ back t;
  g_ended : R → known t ≠ 0 → src t = Absent → Cancel ∈ pipe t ∨ Chunk [] ∈ pipe t;
}.

Lemma good_unborn : good unborn.
Proof. split; try done; vm_compute; try lia. Qed.

Lemma chunks_app p q : chunks (p ++ q) = chunks p ++ chunks q.
Proof. apply omap_app. Qed.
Lemma announced_app p q : announced (p ++ q) = announced p + announced q.
Proof. unfold announced. by rewrite filter_app, length_app. Qed.
Lemma accepted_app p q : accepted (p ++ q) = accepted p + accepted q.
Proof. unfold accepted. by rewrite filter_app, length_app. Qed.
Lemma announced_tail p : announced (tail p) ≤ announced p.
Proof. destruct p as [|i p]; [done|]. unfold announced. simpl. rewrite filter_cons. destruct (decide _); simpl; lia. Qed.
Lemma accepted_in k : Accepted ∈ k → accepted k ≠ 0.
Proof.
  intros Hin. unfold accepted. assert (Accepted ∈ filter (eq Accepted) k) as H by by apply list_elem_of_filter.
  by destruct (filter _ _); [apply not_elem_of_nil in H|].
Qed.

Lemma reads_after buf rem : reads (after_read buf rem) ≤ 1.
Proof. destruct buf; simpl; lia. Qed.

Lemma announced_cons i p : announced (i :: p) = match i with Announce => S (announced p) | _ => announced p end.
Proof. unfold announced. rewrite filter_cons. by destruct i. Qed.
Lemma accepted_cons i k : accepted (i :: k) = match i with Accepted => S (accepted k) | _ => accepted k end.
Proof. unfold accepted. rewrite filter_cons. by destruct i. Qed.
Lemma chunks_cons i p : chunks (i :: p) = match i with Chunk c => c :: chunks p | _ => chunks p end.
Proof. by destruct i. Qed.
Lemma announced_nil : announced [] = 0. Proof. done. Qed.
Lemma accepted_nil : accepted [] = 0. Proof. done. Qed.

Ltac norm := unfold known in *; cbn [born data before src pipe waiting dst back reads open tail] in *;
  rewrite ?chunks_app, ?announced_app, ?accepted_app, ?chunks_cons, ?announced_cons, ?accepted_cons,
    ?announced_nil, ?accepted_nil, ?size_empty in *; cbn [reads open] in *.
(** One clause of [good], at every step; most are arithmetic. *)
Ltac clause :=
  intros Hs Hg; pose proof Hg as [Honce Hturns Hunborn Hearly Hoff Hsmall Hdst Hfirst Href Hacc Hend];
  destruct Hs; norm;
  try match goal with
  | w : gset N, lid : N |- _ => pose proof (size_minus w lid); pose proof (size_plus w lid);
      try match goal with H : lid ∈ w |- _ => pose proof (size_minus_in w lid H) end
  end;
  try match goal with H : false = false → _ |- _ => destruct (H eq_refl) as (-> & -> & -> & -> & ->); norm end;
  try done; try lia.

Lemma once_kept t t' : tstep t t' → good t → known t' ≤ 1.
Proof. clause. Qed.
Lemma turns_kept t t' : tstep t t' → good t → announced (pipe t') + size (waiting t') + accepted (back t') + reads (src t') ≤ 1.
Proof. clause; pose proof (reads_after buf rem); lia. Qed.
Lemma unborn_kept t t' : tstep t t' → good t →
  born t' = false → src t' = Absent ∧ pipe t' = [] ∧ waiting t' = ∅ ∧ dst t' = None ∧ back t' = [].
Proof.
  clause; intros E; destruct (Hunborn E) as (? & ? & ? & ? & ?); subst; try done; try set_solver.
  all: split_and!; try done; set_solver.
Qed.
Lemma early_kept t t' : tstep t t' → good t →
  announced (pipe t') + size (waiting t') ≠ 0 → chunks (pipe t') = [] ∧ is_Some (data t').
Proof. clause; intros E; try (rewrite app_nil_r); try (apply Hearly; lia); destruct Hearly as [? ?]; try lia; done. Qed.
Lemma offered_kept t t' d : tstep t t' → good t → src t' = Offered d → data t' = Some d ∧ chunks (pipe t') = [].
Proof.
  clause; intros E; try (destruct (Hoff d E) as [? ?]; split; done); try by destruct buf.
  by injection E as ->.
Qed.
Lemma small_kept t t' d : tstep t t' → good t → data t' = Some d → (N.of_nat (length d) < U64)%N.
Proof. clause; try apply Hsmall. by intros [= ->]. Qed.
Lemma dst_kept t t' f n : tstep t t' → good t → dst t' = Some (f, n) →
  ∃ d b got, data t' = Some d ∧ before t' = Some b ∧ f = b ++ got ∧ n = N.of_nat (length got) ∧
    stream d got (chunks (pipe t')) (src t').
Proof.
  clause; intros E;
    try (destruct (Hdst f n E) as (d' & b' & got & -> & -> & -> & -> & Hst); exists d', b', got; split_and!; try done).
  - rewrite app_nil_r. eapply stream_stops; [|exact Hst]. intros l ->. by destruct (Hoff l eq_refl) as [[= ->] _].
  - eapply stream_stops; [|exact Hst]. intros l ->. by destruct (Hoff l eq_refl) as [[= ->] _].
  - destruct Hst as [-> ->]. split; [set_solver|]. by destruct (Hoff l eq_refl) as [[= ->] _].
  - by apply stream_reads.
  - eapply stream_stops; [|exact Hst]. done.
  - injection E as <- <-. destruct Hearly as [-> [d' ->]]; [lia|]. exists d', f0, [].
    split_and!; try done; [by rewrite app_nil_r|]. destruct s as [|l|rem]; [|done|simpl in *; lia].
    exists [], [], d'. split_and!; try done; [set_solver|by left].
  - injection E as <- <-. destruct (Hdst _ _ eq_refl) as (d' & b' & got & -> & -> & -> & -> & Hst).
    exists d', b', (got ++ buf). split_and!; try done; [by rewrite app_assoc|rewrite length_app; lia|]. by apply stream_writes.
Qed.
Lemma first_kept t t' : tstep t t' → good t → announced (tail (pipe t')) = 0.
Proof.
  clause; try (destruct p; simpl in *; rewrite ?announced_app, ?announced_cons, ?announced_nil in *; lia).
  all: pose proof (announced_tail p); lia.
Qed.
Lemma refused_kept t t' : tstep t t' → good t → Refused ∈ back t' → known t' = 0.
Proof.
  clause; intros Hin; try (apply elem_of_app in Hin as [Hin| ?%list_elem_of_singleton]); try done; try lia;
    try (specialize (Href ltac:(first [exact Hin|by right])); lia).
  by apply not_elem_of_nil in Hin.
Qed.
Lemma accepted_kept t t' f d : tstep t t' → good t → dst t' = Some f → src t' = Offered d → Accepted ∈ back t'.
Proof.
  clause; intros Ed Es; try (by destruct buf); try (apply elem_of_app; by right; left);
    try match goal with H : ∀ l, _ ≠ Offered l |- _ => by destruct (H d) end.
  all: first [by eapply Hacc | apply elem_of_app; left; by eapply Hacc].
Qed.
Lemma ended_kept t t' : tstep t t' → good t → R → known t' ≠ 0 → src t' = Absent → Cancel ∈ pipe t' ∨ Chunk [] ∈ pipe t'.
Proof.
  clause; intros HR Hk Es; rewrite ?elem_of_app, ?list_elem_of_singleton.
  - by left; right.
  - specialize (Href ltac:(by left)). lia.
  - destruct buf; [by right; right|done].
  - destruct (Hend HR) as [H1|H1]; [lia|done|..]; apply elem_of_cons in H1 as [?|?]; by auto.
  - apply Hend; [done|lia|done].
  - apply Hend; [done|lia|done].
  - destruct (Hend HR) as [H2|H2]; [lia|done|..]; apply elem_of_cons in H2 as [[=]|?]; auto; congruence.
  - destruct Hearly as [? _]; [lia|done].
Qed.

Lemma tstep_good t t' : tstep t t' → good t → good t'.
Proof.
  intros Hs Hg. split; intros.
  - by eapply once_kept.
  - by eapply turns_kept.
  - by eapply unborn_kept.
  - by eapply early_kept.
  - by eapply offered_kept.
  - by eapply small_kept.
  - by eapply dst_kept.
  - by eapply first_kept.
  - by eapply refused_kept.
  - by eapply accepted_kept.
  - by eapply ended_kept.
Qed.
Lemma tsteps_good t t' : tsteps t t' → good t → good t'.
Proof. induction 1; eauto using tstep_good. Qed.

(** What is in the destination is, behind what it held, a part of the file from
    its beginning; the count is right; and when the empty chunk is next, it is
    the whole file. *)
Lemma good_written t f n : good t → dst t = Some (f, n) →
  ∃ d b got, data t = Some d ∧ before t = Some b ∧ f = b ++ got ∧ n = N.of_nat (length got) ∧ got `prefix_of` d ∧
    (head (pipe t) = Some (Chunk []) → got = d).
Proof.
  intros Hg Hd. destruct (g_dst _ Hg f n Hd) as (d & b & got & Hdata & Hb & -> & -> & Hs).
  assert (Ho : ∀ l, src t = Offered l → l = d) by (intros l E; destruct (g_offered _ Hg l E); congruence).
  exists d, b, got. split_and!; try done; [by eapply stream_prefix|].
  intros Hh. destruct (pipe t) as [|i p]; [done|]. injection Hh as ->. rewrite chunks_cons in Hs. by eapply stream_end.
Qed.
End spec.
End TransferSpec.
