(* ===== verification/BlobWire.v ===== *)
(** * A file from one node to another, over the wire

    Module [BlobWire]: two nodes, each with its blob behaviour and the handler
    of their connection.  A command of one behaviour crosses: its handler sends
    the frame, the other handler decodes it and tells its behaviour, the checksum
    lets the first handler acknowledge the command to its own behaviour and
    answer the caller.  The nodes are polled as the swarm does, one event at a
    time.  The steps are those of [BlobBehaviour], [BlobHandler] and
    [BlobProtocol]. *)

From stdpp Require Import base gmap sets list strings fin_maps.
From Stdlib Require Import Lia NArith Sorted.
From S2P Require Import Prelude Std Core Stream Wire BlobProtocol BlobTypes BlobHandler BlobHandlerProps.
From S2P Require Import BlobBehaviour BlobDemo BlobBehaviourProps BlobTransfer.
Import Wire.

Module BlobWire.
Section wire.
Context {P : Platform} {codec : Codec} {laws : CodecLaws}.
Context {St : Type} {io : AsyncIO St} {rel : ReliableIO St} {net : Network St}.

#[local] Arguments ack_event : simpl never.
#[local] Arguments ack_answer : simpl never.
#[local] Arguments outgoing : simpl never.

(** ** A command crosses *)

(** The poll contexts: nothing has happened yet, the receiver's future is
    done, the sender's first future is done. *)
Definition cx_waiting (timer : PollCx) : HandlerCx St :=
  {| cx_timer := timer; cx_recv := λ _, Pending; cx_send := λ _ _, Pending |}.
Definition cx_received (timer : PollCx) (r : Poll (result (St * (bytes * byte)) IoError)) : HandlerCx St :=
  {| cx_timer := timer;
     cx_recv := λ _, match r with
                     | Ready (Ok (s, (buf, t))) => Ready (Ok (s, buf, t))
                     | Ready (Err e) => Ready (Err e)
                     | Pending => Pending
                     end;
     cx_send := λ _ _, Pending |}.
Definition cx_sent (timer : PollCx) (r : Poll (result (St * N) IoError)) : HandlerCx St :=
  {| cx_timer := timer; cx_recv := λ _, Pending; cx_send := λ k _, match k with O => r | S _ => Pending end |}.

(** What a poll of a handler has for the behaviour. *)
Definition told (p : Poll PollResult) : option ToBehaviourEvent :=
  match p with Ready (NotifyBehaviour ev) => Some ev | _ => None end.

(** The command [ev] is handed to [ha], crosses to [hb], is acknowledged: what
    both handlers tell their behaviours, and the answers to callers. *)
Definition cross (timer : PollCx) (fuel : nat) (elapsed : N) (ev : FromBehaviourEvent) (ha hb : Handler St)
    : outcome (option ToBehaviourEvent * Handler St * option ToBehaviourEvent * Handler St * list (Sent Answer)) :=
  ' (_, ha, sent) ← BlobHandler.poll (cx_waiting timer) (on_behaviour_event ev ha);
  match outbound ha, inbound hb with
  | Some (Busy task _ _), Some fut =>
      ' (ra, rb) ← blob_exchange fuel elapsed (st_buf task) (st_message_type task) (st_stream task) (rt_stream fut);
      ' (pb, hb, _) ← BlobHandler.poll (cx_received timer rb) hb;
      ' (pa, ha, sent') ← BlobHandler.poll (cx_sent timer ra) ha;
      Return (told pa, ha, told pb, hb, sent ++ sent')
  | _, _ => Return (None, ha, None, hb, sent)
  end.

(** A handler with nothing under way. *)
Definition conn_ready (h : Handler St) : Prop :=
  state h = Active ∧ pending_in_events h = [] ∧ pending_out_events h = [] ∧
  ∃ si so, inbound h = Some {| rt_stream := si |} ∧ outbound h = Some (Idle so) ∧ quiet si ∧ quiet so.

(** The time of a command does not run out at once. *)
Definition starts (timer : PollCx) (h : Handler St) : Prop :=
  (delay_poll timer (delay_new (timeout h))).1 = false.

(** A command that can be sent in one frame. *)
Definition fits (fuel : nat) (ev : FromBehaviourEvent) : Prop :=
  event_u64 ev ∧ (N.of_nat (length (outgoing ev).1.2) ≤ MAX_BODY)%N ∧ length (outgoing ev).1.2 < fuel.

Definition with_task (ev : FromBehaviourEvent) (d : Delay) (so : St) (h : Handler St) : Handler St :=
  set_outbound (Some (Busy {| st_stream := so; st_buf := (outgoing ev).1.2; st_message_type := (outgoing ev).2 |}
                           (event_job ev) d)) h.

Lemma command_posted timer ev h :
  conn_ready h → starts timer h →
  ∃ d so, outbound h = Some (Idle so) ∧ quiet so ∧
    BlobHandler.poll (cx_waiting timer) (on_behaviour_event ev h) = Return (Pending, with_task ev d so h, []).
Proof.
  destruct h as [st ins outs T inb outb]. unfold conn_ready, starts. simpl.
  intros (-> & -> & -> & si & so & -> & -> & Hqi & Hqo) Htimer.
  unfold BlobHandler.poll, poll_active. cbn -[outgoing]. unfold poll_outbound. cbn -[outgoing].
  unfold progress_outbound, with_task, event_job. destruct (outgoing ev) as [[job bs] t]. cbn.
  destruct (delay_poll timer (delay_new T)) as [ready d]. simpl in Htimer. subst ready. cbn.
  by exists d, so.
Qed.

Lemma command_received timer ev si h :
  conn_ready h → quiet si → event_u64 ev →
  ∃ h', BlobHandler.poll (cx_received timer (Ready (Ok (si, ((outgoing ev).1.2, (outgoing ev).2))))) h =
      Return (Ready (NotifyBehaviour (dual ev)), h', []) ∧
    conn_ready h' ∧ timeout h' = timeout h.
Proof.
  destruct h as [st ins outs T inb outb]. unfold conn_ready. simpl.
  intros (-> & -> & -> & si' & so & -> & -> & _ & Hqo) Hq Hev.
  unfold BlobHandler.poll, poll_active, poll_inbound. cbn -[outgoing on_message].
  rewrite outgoing_decoded by done. cbn. eexists. split; [done|]. cbn. split; [|done].
  split_and!; try done. by exists si, so.
Qed.

Lemma command_acknowledged timer ev d so so' elapsed h :
  conn_ready h → quiet so' →
  ∃ p h', BlobHandler.poll (cx_sent timer (Ready (Ok (so', elapsed)))) (with_task ev d so h) =
      Return (p, h', ack_answer (event_job ev, elapsed)) ∧
    told p = ack_event (event_job ev, elapsed) ∧ conn_ready h' ∧ timeout h' = timeout h.
Proof.
  destruct h as [st ins outs T inb outb]. unfold conn_ready. simpl.
  intros (-> & -> & -> & si & so0 & -> & -> & Hqi & _) Hq.
  unfold BlobHandler.poll, poll_active, poll_outbound, with_task. cbn -[outgoing on_sent ack_event ack_answer].
  rewrite on_sent_ack by apply has_callback_event.
  destruct (ack_event (event_job ev, elapsed)) as [ack|]; cbn -[outgoing ack_event ack_answer];
    eexists _, _; (split; [done|]); (split; [done|]); (split; [|done]); (split_and!; try done); by exists si, so'.
Qed.

(** A command that fits crosses: the other side is told the dual event, this
    side the acknowledgement, and the caller gets its answer. *)
Lemma wire_cross_ok timer fuel elapsed ev ha hb :
  conn_ready ha → conn_ready hb → starts timer ha → fits fuel ev →
  ∃ ha' hb', cross timer fuel elapsed ev ha hb =
      Return (ack_event (event_job ev, elapsed), ha', Some (dual ev), hb', ack_answer (event_job ev, elapsed)) ∧
    conn_ready ha' ∧ conn_ready hb' ∧ timeout ha' = timeout ha ∧ timeout hb' = timeout hb.
Proof.
  intros Ha Hb Htimer (Hev & Hmax & Hfuel). unfold cross.
  destruct (command_posted timer ev ha Ha Htimer) as (d & so & _ & Hqo & ->). cbn [obind].
  pose proof Hb as (_ & _ & _ & si & sob & -> & _ & Hqi & _).
  cbn [with_task outbound set_outbound st_buf st_stream st_message_type rt_stream].
  destruct (blob_exchange_ok fuel elapsed (outgoing ev).1.2 (outgoing ev).2 so si Hqo Hqi Hmax Hfuel)
    as (so' & si' & -> & Hqo' & Hqi'). cbn [obind].
  destruct (command_received timer ev si' hb Hb Hqi' Hev) as (hb' & -> & Hb' & HTb). cbn [obind].
  destruct (command_acknowledged timer ev d so so' elapsed ha Ha Hqo') as (p & ha' & -> & <- & Ha' & HTa).
  cbn [obind]. by exists ha', hb'.
Qed.

(** ** Two nodes *)

(** A node, as far as its connection with one peer goes. *)
Record Node := { n_id : PeerId; n_behav : Behaviour; n_handler : Handler St }.

Definition with_behav (s : Behaviour) (a : Node) : Node :=
  {| n_id := n_id a; n_behav := s; n_handler := n_handler a |}.

Definition tell (fuel : nat) (now : N) (from : PeerId) (ev : option ToBehaviourEvent) (s : Behaviour)
    : outcome Behaviour :=
  match ev with Some ev => on_connection_handler_event fuel now from ev s | None => Return s end.

(** The swarm polls [a]'s behaviour once: an event is handed out, a command for
    [b] crosses. *)
Definition turn (cx : PollCx) (fuel : nat) (now elapsed : N) (a b : Node)
    : outcome (Node * Node * list OutEvent * list (Sent Answer)) :=
  ' (s, p) ← BlobBehaviour.poll cx now (n_behav a);
  let a := with_behav s a in
  match p with
  | Ready (GenerateEvent e) => Return (a, b, [e], [])
  | Ready (NotifyHandler to _ ev) =>
      if decide (to = n_id b) then
        ' (ack, ha, ev, hb, sent) ← cross cx fuel elapsed ev (n_handler a) (n_handler b);
        sb ← tell fuel now (n_id a) ev (n_behav b);
        s ← tell fuel now (n_id b) ack s;
        Return ({| n_id := n_id a; n_behav := s; n_handler := ha |},
                {| n_id := n_id b; n_behav := sb; n_handler := hb |}, [], sent)
      else Return (a, b, [], [])
  | _ => Return (a, b, [], [])
  end.

(** Several polls; the last component has the behaviour of [b] after each. *)
Fixpoint pump (cx : PollCx) (fuel : nat) (now elapsed : N) (rounds : nat) (a b : Node)
    : outcome (Node * Node * list OutEvent * list (Sent Answer) * list Behaviour) :=
  match rounds with
  | O => Return (a, b, [], [], [])
  | S rounds =>
      ' (a, b, evs, sent) ← turn cx fuel now elapsed a b;
      ' (a', b', evs', sent', trace) ← pump cx fuel now elapsed rounds a b;
      Return (a', b', evs ++ evs', sent ++ sent', n_behav b :: trace)
  end.

(** What the file of a transfer holds, and what it held when it was closed. *)
Definition file_of (id : N) (s : Behaviour) : option bytes :=
  (λ r, f_bytes (OngoingFileRecv.file_handle r)) <$> ongoing_recv s !! id.
Definition closed_file (id : N) (trace : list Behaviour) : option bytes := last (omap (file_of id) trace).

(** ** Nodes at rest *)

(** However often it is polled, the check of the expired transfers is not due. *)
Definition waits (cx : PollCx) (d : Delay) : Prop :=
  ∃ Q : Delay → Prop, Q d ∧ ∀ d, Q d → (delay_poll cx d).1 = false ∧ Q (delay_poll cx d).2.

Definition calm (cx : PollCx) (a : Node) : Prop :=
  waits cx (expiry_check_throttle (n_behav a)) ∧ conn_ready (n_handler a) ∧ starts cx (n_handler a).

Lemma poll_calm cx now s : waits cx (expiry_check_throttle s) →
  ∃ d, waits cx d ∧ BlobBehaviour.poll cx now s = Return (pop_event (set_expiry_check_throttle d s)).
Proof.
  intros (Q & Hd & HQ). unfold BlobBehaviour.poll. destruct (HQ _ Hd) as [Hr Hd'].
  destruct (delay_poll cx (expiry_check_throttle s)) as [ready d]. simpl in Hr, Hd'. subst ready.
  exists d. split; [by exists Q|done].
Qed.

Lemma calm_with_behav cx a s :
  calm cx a → expiry_check_throttle s = expiry_check_throttle (n_behav a) → calm cx (with_behav s a).
Proof. intros (? & ? & ?) E. unfold calm. cbn. by rewrite E. Qed.

(** An event is handed out. *)
Lemma turn_event cx fuel now elapsed a b e evs :
  calm cx a → out_events (n_behav a) = e :: evs →
  ∃ d, turn cx fuel now elapsed a b =
      Return (with_behav (set_out_events evs (set_expiry_check_throttle d (n_behav a))) a, b, [e], []) ∧
    calm cx (with_behav (set_out_events evs (set_expiry_check_throttle d (n_behav a))) a).
Proof.
  intros (Hw & Hh & Hs) Hout. destruct (poll_calm cx now _ Hw) as (d & Hd & Hp).
  exists d. unfold turn. rewrite Hp. unfold pop_event. cbn [out_events set_expiry_check_throttle].
  rewrite Hout. cbn. split; [done|]. by split_and!.
Qed.

(** Nothing to do. *)
Lemma turn_idle cx fuel now elapsed a b :
  calm cx a → out_events (n_behav a) = [] → pending_handler_event (n_behav a) = [] →
  ∃ d, turn cx fuel now elapsed a b = Return (with_behav (set_expiry_check_throttle d (n_behav a)) a, b, [], []) ∧
    calm cx (with_behav (set_expiry_check_throttle d (n_behav a)) a).
Proof.
  intros (Hw & Hh & Hs) Hout Hq. destruct (poll_calm cx now _ Hw) as (d & Hd & Hp).
  exists d. unfold turn. rewrite Hp. unfold pop_event.
  cbn [out_events pending_handler_event set_expiry_check_throttle]. rewrite Hout, Hq. cbn.
  split; [done|]. by split_and!.
Qed.

(** A command crosses: both behaviours are told. *)
Lemma turn_command cx fuel now elapsed a b ev evs sb (Q : Behaviour → Prop) :
  calm cx a → calm cx b → out_events (n_behav a) = [] →
  pending_handler_event (n_behav a) = NotifyHandler (n_id b) Any ev :: evs → fits fuel ev →
  on_connection_handler_event fuel now (n_id a) (dual ev) (n_behav b) = Return sb →
  expiry_check_throttle sb = expiry_check_throttle (n_behav b) →
  (∀ d, ∃ sa, tell fuel now (n_id b) (ack_event (event_job ev, elapsed))
                (set_pending_handler_event evs (set_expiry_check_throttle d (n_behav a))) = Return sa ∧
              expiry_check_throttle sa = d ∧ Q sa) →
  ∃ sa ha hb, Q sa ∧
    let a' := {| n_id := n_id a; n_behav := sa; n_handler := ha |} in
    let b' := {| n_id := n_id b; n_behav := sb; n_handler := hb |} in
    turn cx fuel now elapsed a b = Return (a', b', [], ack_answer (event_job ev, elapsed)) ∧ calm cx a' ∧ calm cx b'.
Proof.
  intros (Hwa & Hha & Hsa) (Hwb & Hhb & Hsb) Hout Hq Hfits Hb HTb Ha.
  destruct (poll_calm cx now _ Hwa) as (d & Hd & Hp).
  destruct (wire_cross_ok cx fuel elapsed ev (n_handler a) (n_handler b) Hha Hhb Hsa Hfits)
    as (ha & hb & Hcross & Hha' & Hhb' & HTa & HTb').
  destruct (Ha d) as (sa & Hta & HTd & HQ). exists sa, ha, hb. split; [done|].
  unfold turn. rewrite Hp. unfold pop_event.
  cbn [out_events pending_handler_event set_expiry_check_throttle]. rewrite Hout, Hq. cbn [obind].
  rewrite decide_True by done. cbn [with_behav n_handler n_id]. rewrite Hcross. cbn [obind tell].
  rewrite Hb. cbn [obind]. rewrite Hta. cbn [obind]. split; [done|].
  unfold calm, starts. cbn [n_behav n_handler]. rewrite HTd, HTa, HTb', HTb. by split_and!.
Qed.

(** ** The chunks of a transfer *)

(** The sender has read [buf] and will read [left]; the receiver's file holds
    [got]; the other transfers of both are as [fa], [fb]. *)
Definition chunk_waits (cx : PollCx) (id lid total : N) (all buf got left : bytes) (fa fb : Tables) (a b : Node) : Prop :=
  calm cx a ∧ calm cx b ∧
  pending_handler_event (n_behav a) = [NotifyHandler (n_id b) Any (FileChunk id buf)] ∧
  (buf = [] → left = [] ∧ ongoing_send (n_behav a) !! id = None) ∧
  (buf ≠ [] → sending_to (n_behav a) id (n_id b) total total left) ∧
  (N.of_nat (length buf) ≤ CHUNK)%N ∧ got ++ buf ++ left = all ∧
  receiving (n_behav b) id lid total got (buf ++ left) ∧
  out_events (n_behav b) = [] ∧ pending_handler_event (n_behav b) = [] ∧
  other_sends id (n_behav a) = fa ∧ other_recvs id (n_behav b) = fb.

(** What the sender reports while [rest] is still on its way. *)
Definition progress (id total : N) (rest : bytes) : OutEvent :=
  SendProgressed id (total - N.of_nat (length rest)) total.

Definition transferred (cx : PollCx) (id lid total : N) (fa fb : Tables) (a b : Node) : Prop :=
  calm cx a ∧ calm cx b ∧ out_events (n_behav a) = [] ∧ pending_handler_event (n_behav a) = [] ∧
  ongoing_send (n_behav a) !! id = None ∧ ongoing_recv (n_behav b) !! id = None ∧
  out_events (n_behav b) = [RecvProgressed lid total total] ∧ pending_handler_event (n_behav b) = [] ∧
  other_sends id (n_behav a) = fa ∧ other_recvs id (n_behav b) = fb.

Lemma chunk_fits fuel id buf : (id < U64)%N → (MAX_BODY < N.of_nat fuel)%N → (N.of_nat (length buf) ≤ CHUNK)%N →
  fits fuel (FileChunk id buf).
Proof.
  intros Hid Hfuel Hlen. rewrite U64_eq in Hid.
  assert (N.of_nat (length (outgoing (FileChunk id buf)).1.2) ≤ MAX_BODY)%N
    by (apply chunk_fits_in_frame; [exact Hid|by rewrite FILE_CHUNK_SIZE_eq]).
  split_and!; [exact Hid|done|lia].
Qed.

(** The last, empty, chunk. *)
Lemma last_chunk cx fuel now elapsed id lid total all got fa fb a b :
  (id < U64)%N → (MAX_BODY < N.of_nat fuel)%N →
  chunk_waits cx id lid total all [] got [] fa fb a b → out_events (n_behav a) = [] →
  ∃ a' b', turn cx fuel now elapsed a b = Return (a', b', [], []) ∧ n_id a' = n_id a ∧ n_id b' = n_id b ∧
    transferred cx id lid total fa fb a' b'.
Proof.
  intros Hid Hfuel (Ha & Hb & Hq & Hnil & _ & Hlen & Hall & Hrecv & Hob & Hqb & Hfa & Hfb) Hoa.
  destruct (Hnil eq_refl) as [_ Hnone].
  destruct (progress_ongoing_recv_end fuel now id lid total got (n_behav b) Hrecv) as (sb & Hsb & Hgone & Hob' & Hqb' & HTb & Hfb').
  destruct (turn_command cx fuel now elapsed a b (FileChunk id []) [] sb
    (λ s, out_events s = [] ∧ pending_handler_event s = [] ∧ ongoing_send s !! id = None ∧ other_sends id s = fa))
    as (sa & ha & hb & (? & ? & ? & ?) & Hturn & Ha' & Hb'); try done.
  - by apply chunk_fits.
  - intros d. eexists. unfold tell, ack_event, event_job, outgoing. simpl. rewrite Hnone.
    unfold progress_ongoing_send. simpl. by rewrite Hnone.
  - eexists _, _. split; [exact Hturn|]. split_and!; try done.
    unfold transferred. cbn [n_behav]. by rewrite Hob', Hob, Hqb', Hfb'.
Qed.

(** Any other one: the next is read when its acknowledgement comes. *)
Lemma next_chunk cx fuel now elapsed id lid total all buf got left fa fb a b :
  (id < U64)%N → (MAX_BODY < N.of_nat fuel)%N → buf ≠ [] →
  chunk_waits cx id lid total all buf got left fa fb a b → out_events (n_behav a) = [] →
  ∃ a' b' buf' left', turn cx fuel now elapsed a b = Return (a', b', [], []) ∧ n_id a' = n_id a ∧ n_id b' = n_id b ∧
    left = buf' ++ left' ∧ chunk_waits cx id lid total all buf' (got ++ buf) left' fa fb a' b' ∧
    out_events (n_behav a') = [progress id total left].
Proof.
  intros Hid Hfuel Hne (Ha & Hb & Hq & _ & Hsend & Hlen & Hall & Hrecv & Hob & Hqb & Hfa & Hfb) Hoa.
  pose proof (Hsend Hne) as (r & Hr & Hsend'). pose proof Hsend' as (_ & _ & _ & _ & Htot & Hsum & Hsize).
  assert (Hf : length buf < fuel) by (unfold MAX_BODY in Hfuel; rewrite CHUNK_eq in Hlen; lia).
  destruct (progress_ongoing_recv_step fuel now id lid total got buf left (n_behav b) Hrecv Hne Hf Hsize)
    as (sb & Hsb & Hrecv' & Hob' & Hqb' & HTb & Hfb').
  destruct (turn_command cx fuel now elapsed a b (FileChunk id buf) [] sb
    (λ s, out_events s = [progress id total left] ∧ ∃ buf' left', left = buf' ++ left' ∧
       (N.of_nat (length buf') ≤ CHUNK)%N ∧
       pending_handler_event s = [NotifyHandler (n_id b) Any (FileChunk id buf')] ∧
       (buf' = [] → left' = [] ∧ ongoing_send s !! id = None) ∧
       (buf' ≠ [] → sending_to s id (n_id b) total total left') ∧ other_sends id s = fa))
    as (sa & ha & hb & (Hoa' & buf' & left' & -> & Hlen' & Hqa' & Hnil' & Hcons' & Hfa') & Hturn & Ha' & Hb'); try done.
  - by apply chunk_fits.
  - intros d. set (s0 := set_pending_handler_event [] (set_expiry_check_throttle d (n_behav a))).
    destruct (progress_ongoing_send_to now id (n_id b) total total (push_out (progress id total left) s0) left)
      as (buf' & left' & sa & Hsa & Hsplit & Hlen' & Hq' & Ho' & HT' & Hnil' & Hcons' & Hfa'); [by exists r|].
    exists sa. unfold tell, ack_event, event_job, outgoing. simpl. rewrite Hr, Htot.
    replace (OngoingFileSend.bytes_sent r) with (total - N.of_nat (length left))%N by lia.
    split; [exact Hsa|]. split; [by rewrite HT'|]. split; [by rewrite Ho'; simpl; rewrite Hoa|].
    exists buf', left'. split_and!; try done; [|by rewrite Hfa'].
    intros E. destruct (Hnil' E) as [-> ?]. split; [|done]. subst. by destruct left'.
  - eexists _, _, buf', left'. split; [exact Hturn|]. split_and!; try done.
    unfold chunk_waits. cbn [n_behav n_id]. split_and!; try done; first [congruence|by rewrite <-!app_assoc].
Qed.

(** Polling a node with nothing to do. *)
Lemma pump_idle cx fuel now elapsed rounds a b :
  calm cx a → out_events (n_behav a) = [] → pending_handler_event (n_behav a) = [] →
  ∃ d, pump cx fuel now elapsed rounds a b =
      Return (with_behav (set_expiry_check_throttle d (n_behav a)) a, b, [], [], replicate rounds (n_behav b)) ∧
    calm cx (with_behav (set_expiry_check_throttle d (n_behav a)) a).
Proof.
  revert a. induction rounds as [|rounds IH]; intros a Ha Hoa Hqa; cbn [pump replicate].
  - exists (expiry_check_throttle (n_behav a)).
    replace (with_behav _ a) with a by (by destruct a as [? [] ?]). by split.
  - destruct (turn_idle cx fuel now elapsed a b Ha Hoa Hqa) as (d & -> & Ha'). cbn [obind].
    destruct (IH (with_behav (set_expiry_check_throttle d (n_behav a)) a) Ha' Hoa Hqa) as (d' & -> & Ha2).
    cbn. by exists d'.
Qed.

(** What is left of a transfer, from a chunk that waits. *)
Definition completes (cx : PollCx) (fuel : nat) (now elapsed id lid total : N) (all got : bytes) (start : N)
    (rounds : nat) (fa fb : Tables) (a b : Node) : Prop :=
  ∃ a' b' ns trace,
    pump cx fuel now elapsed rounds a b = Return (a', b', (λ n, SendProgressed id n total) <$> ns, [], trace) ∧
    n_id a' = n_id a ∧ n_id b' = n_id b ∧ transferred cx id lid total fa fb a' b' ∧
    Sorted N.lt (start :: ns) ∧ last (start :: ns) = Some total ∧
    last (got :: omap (file_of id) trace) = Some all.

Lemma pump_transfer cx fuel now elapsed id lid total all fa fb rounds : ∀ buf got left a b,
  (id < U64)%N → (MAX_BODY < N.of_nat fuel)%N → 2 * length (buf ++ left) < rounds →
  chunk_waits cx id lid total all buf got left fa fb a b → out_events (n_behav a) = [] →
  completes cx fuel now elapsed id lid total all got (total - N.of_nat (length (buf ++ left))) rounds fa fb a b.
Proof.
  induction rounds as [rounds IH] using lt_wf_ind. intros buf got left a b Hid Hfuel Hrounds Hw Hoa.
  destruct rounds as [|rounds]; [lia|]. unfold completes. cbn [pump].
  destruct (decide (buf = [])) as [->|Hne].
  - pose proof Hw as (_ & _ & _ & Hnil & _ & _ & Hall & _). destruct (Hnil eq_refl) as [-> _].
    destruct (last_chunk cx fuel now elapsed id lid total all got fa fb a b Hid Hfuel Hw Hoa)
      as (a1 & b1 & -> & Hia & Hib & Ht). cbn [obind].
    pose proof Ht as (Ha1 & Hb1 & Hoa1 & Hqa1 & Hgone1 & Hrest1).
    destruct (pump_idle cx fuel now elapsed rounds a1 b1 Ha1 Hoa1 Hqa1) as (d & -> & Ha2). cbn [obind].
    eexists _, b1, [], (n_behav b1 :: replicate rounds (n_behav b1)).
    split; [reflexivity|]. split; [exact Hia|]. split; [exact Hib|]. split; [by unfold transferred|]. split_and!.
    + by repeat constructor.
    + cbn. f_equal. lia.
    + pose proof Ht as (_ & _ & _ & _ & _ & Hgone & _).
      assert (Hnone : ∀ k, omap (file_of id) (replicate k (n_behav b1)) = []).
      { intros k. induction k as [|k IHk]; [done|]. cbn. unfold file_of at 1. by rewrite Hgone. }
      change (n_behav b1 :: _) with (replicate (S rounds) (n_behav b1)). rewrite Hnone. cbn.
      rewrite !app_nil_r in Hall. by subst.
  - destruct (next_chunk cx fuel now elapsed id lid total all buf got left fa fb a b Hid Hfuel Hne Hw Hoa)
      as (a1 & b1 & buf' & left' & -> & Hia & Hib & -> & Hw1 & Hout). cbn [obind].
    assert (Hlb : 0 < length buf) by (destruct buf; [done|cbn; lia]). rewrite length_app in Hrounds.
    destruct rounds as [|rounds]; [lia|]. cbn [pump].
    pose proof Hw1 as (Ha1 & Hrest).
    destruct (turn_event cx fuel now elapsed a1 b1 _ _ Ha1 Hout) as (d & -> & Ha2). cbn [obind].
    set (a2 := with_behav _ a1) in *.
    destruct (IH rounds ltac:(lia) buf' (got ++ buf) left' a2 b1 Hid Hfuel ltac:(lia))
      as (a3 & b3 & ns & trace & -> & Hia3 & Hib3 & Ht & Hsort & Hlast & Hfile); [by split|done|]. cbn [obind].
    exists a3, b3, (total - N.of_nat (length (buf' ++ left')) :: ns)%N, (n_behav b1 :: n_behav b1 :: trace).
    split_and!; try done; [by rewrite Hia3|by rewrite Hib3| |].
    + constructor; [done|]. constructor. pose proof Hw as (_ & _ & _ & _ & _ & _ & _ & (r & _ & _ & _ & Hsum & _) & _).
      rewrite (length_app buf) in *. lia.
    + destruct Hw1 as (_ & _ & _ & _ & _ & _ & _ & (r & Hr & _ & _ & _ & Hg & _) & _).
      cbn. unfold file_of at 1 2. rewrite Hr. cbn. rewrite Hg. by destruct (omap (file_of id) trace).
Qed.

(** ** A whole transfer *)

Record Run := {
  run_sender : Node;
  run_receiver : Node;
  sender_events : list OutEvent;
  receiver_events : list OutEvent;
  answers : list (Sent Answer);
  (** the receiver's behaviour, from the acceptance to the end *)
  trace : list Behaviour;
}.

(** [b] accepts a file, [a] sends the chunks, [b] reports the end. *)
Definition accept_file (cx : PollCx) (fuel rounds : nat) (now elapsed : N) (file' : File) (lid : N) (dir : string)
    (cbb : Callback) (a b : Node) : outcome Run :=
  ' (s, sent1) ← push_event now (AcceptFile file' lid dir cbb) (n_behav b);
  ' (b, a, _, sent2) ← turn cx fuel now elapsed (with_behav s b) a;
  ' (a, b', progressed, sent3, states) ← pump cx fuel now elapsed rounds a b;
  ' (b', a, received, sent4) ← turn cx fuel now elapsed b' a;
  Return {| run_sender := a; run_receiver := b'; sender_events := progressed; receiver_events := received;
            answers := sent1 ++ sent2 ++ sent3 ++ sent4; trace := n_behav b :: states |}.

(** [a] sends a file, [b] hears of it and accepts it. *)
Definition transfer_file (cx : PollCx) (fuel rounds : nat) (now elapsed : N) (file : File) (path : string)
    (cba : Callback) (file' : File) (dir : string) (cbb : Callback) (a b : Node) : outcome Run :=
  ' (s, sent1) ← push_event now (SendFile file path (n_id b) cba) (n_behav a);
  ' (a, b, _, sent2) ← turn cx fuel now elapsed (with_behav s a) b;
  ' (b, a, offered, sent3) ← turn cx fuel now elapsed b a;
  match offered with
  | [IncomingFile _ _ lid _] =>
      r ← accept_file cx fuel rounds now elapsed file' lid dir cbb a b;
      Return {| run_sender := run_sender r; run_receiver := run_receiver r; sender_events := sender_events r;
                receiver_events := offered ++ receiver_events r;
                answers := sent1 ++ sent2 ++ sent3 ++ answers r; trace := trace r |}
  | _ => Panic "the file was not offered"
  end.

(** A node with nothing to do. *)
Definition idle (cx : PollCx) (a : Node) : Prop :=
  calm cx a ∧ out_events (n_behav a) = [] ∧ pending_handler_event (n_behav a) = [].

(** The offer: the sender keeps the file, the receiver is to report it. *)
Definition offered (cx : PollCx) (file : File) (id lid total : N) (name : string) (a b : Node) : Prop :=
  idle cx a ∧ calm cx b ∧ out_events (n_behav b) = [IncomingFile (n_id a) name lid total] ∧
  pending_handler_event (n_behav b) = [] ∧
  (∃ v, pending_send (n_behav a) !! id = Some v ∧ PendingSend.local_send_id v = id ∧
        PendingSend.remote v = n_id b ∧ PendingSend.bytes_total v = total ∧ PendingSend.file v = file) ∧
  (∃ v, pending_recv (n_behav b) !! lid = Some v ∧ PendingRecv.remote_send_id v = id ∧
        PendingRecv.remote v = n_id a ∧ PendingRecv.bytes_total v = total).

Lemma told_of_offer fuel now from name id total b :
  let lid := recv_counter b in (lid + 1 < U64)%N →
  ∃ b', on_connection_handler_event fuel now from (HIncomingFile name id total) b = Return b' ∧
    out_events b' = out_events b ++ [IncomingFile from name lid total] ∧
    pending_handler_event b' = pending_handler_event b ∧ expiry_check_throttle b' = expiry_check_throttle b ∧
    ∃ v, tables b' = tables (set_pending_recv (<[lid := v]> (pending_recv b)) (set_recv_counter (lid + 1) b)) ∧
         PendingRecv.local_recv_id v = lid ∧ PendingRecv.remote_send_id v = id ∧
         PendingRecv.remote v = from ∧ PendingRecv.bytes_total v = total.
Proof.
  intros lid Hlid. cbn [on_connection_handler_event]. unfold on_new_pending_recv, next_recv_id.
  rewrite u64_add_small by done. eexists. split; [reflexivity|]. split_and!; try done. by eexists.
Qed.

Lemma offer_crosses cx fuel now elapsed file path name cba a b total :
  let id := send_counter (n_behav a) in let lid := recv_counter (n_behav b) in
  idle cx a → idle cx b → n_id b ∈ connected_peers (n_behav a) →
  File.metadata_len file = Ok total → file_name path = Some name →
  (id + 1 < U64)%N → (lid + 1 < U64)%N → fits fuel (NewFileSend name id cba total) →
  ∃ s a' b', push_event now (SendFile file path (n_id b) cba) (n_behav a) = Return (s, []) ∧
    turn cx fuel now elapsed (with_behav s a) b = Return (a', b', [], [Answered cba (AnsSendFile (Ok id))]) ∧
    n_id a' = n_id a ∧ n_id b' = n_id b ∧ offered cx file id lid total name a' b' ∧
    ∃ v w, tables (n_behav a') = tables (set_pending_send (<[id := v]> (pending_send (n_behav a)))
                                           (set_send_counter (id + 1) (n_behav a))) ∧
      PendingSend.local_send_id v = id ∧ PendingSend.remote v = n_id b ∧
      tables (n_behav b') = tables (set_pending_recv (<[lid := w]> (pending_recv (n_behav b)))
                                      (set_recv_counter (lid + 1) (n_behav b))) ∧
      PendingRecv.local_recv_id w = lid ∧ PendingRecv.remote_send_id w = id ∧ PendingRecv.remote w = n_id a.
Proof.
  intros id lid (Ha & Hoa & Hqa) (Hb & Hob & Hqb) Hconn Hmeta Hname Hid Hlid Hfits.
  cbn [push_event]. unfold send_file, next_send_id. rewrite u64_add_small by done. cbn [obind].
  cbn [connected_peers set_send_counter]. rewrite decide_True by done. rewrite Hmeta, Hname. cbn [expect obind].
  match goal with |- context [Return (?s, [])] => set (s1 := s) end.
  destruct (told_of_offer fuel now (n_id a) name id total (n_behav b) Hlid) as (sb & Hsb & Hob' & Hqb' & HTb & w & Htb & Hwl & Hwid & Hwa & Hwt).
  destruct (turn_command cx fuel now elapsed (with_behav s1 a) b (NewFileSend name id cba total) [] sb
    (λ s, out_events s = [] ∧ pending_handler_event s = [] ∧ tables s = tables s1))
    as (sa & ha & hb & (? & ? & Hp) & Hturn & Ha' & Hb'); try done.
  - simpl. by rewrite Hqa.
  - intros d. by eexists.
  - exists s1. eexists _, _. split; [done|]. split; [exact Hturn|]. split_and!; try done.
    + unfold offered, idle. cbn [n_behav n_id]. rewrite Hob', Hob, Hqb'. split_and!; try done.
      * injection Hp as _ _ -> _ _ _ _. eexists. simpl. by rewrite lookup_insert_eq.
      * injection Htb as _ _ _ _ _ -> _. exists w. simpl. by rewrite lookup_insert_eq.
    + cbn [n_behav]. eexists _, w. by split; [exact Hp|].
Qed.

(** The acceptance: the sender announces the transfer and reads the first
    chunk. *)
Lemma told_of_acceptance fuel now peer id from total size data v a :
  pending_send a !! id = Some v → PendingSend.local_send_id v = id → PendingSend.remote v = peer →
  PendingSend.bytes_total v = total → File.os_reliable (PendingSend.file v) →
  File.rest (PendingSend.file v) = data → N.of_nat (length data) = size → (size < U64)%N →
  ∃ buf left a', on_connection_handler_event fuel now from (FileSendAccepted id) a = Return a' ∧
    data = buf ++ left ∧ (N.of_nat (length buf) ≤ CHUNK)%N ∧
    pending_handler_event a' = pending_handler_event a ++ [NotifyHandler peer Any (FileChunk id buf)] ∧
    out_events a' = out_events a ++ [SendProgressed id 0 total] ∧
    expiry_check_throttle a' = expiry_check_throttle a ∧
    (buf = [] → data = [] ∧ ongoing_send a' !! id = None) ∧
    (buf ≠ [] → sending_to a' id peer total size left) ∧
    other_sends id a' = other_sends id (set_pending_send (delete id (pending_send a)) a).
Proof.
  intros Hv Hid Hpeer Htot Hos Hrest Hlen Hsize. cbn [on_connection_handler_event].
  unfold pending_send_accepted. rewrite Hv. cbn [expect obind]. rewrite Hid.
  match goal with |- context [progress_ongoing_send now id ?s] => set (s1 := s) end.
  destruct (progress_ongoing_send_to now id peer total size s1 data)
    as (buf & left & a' & -> & Hsplit & Hle & Hq & Ho & HT & Hnil & Hcons & Hother).
  { eexists. simpl. rewrite lookup_insert_eq. split; [done|]. by split_and!. }
  cbn [obind]. rewrite Htot. exists buf, left. eexists. split; [done|]. split_and!; try done.
  - cbn [out_events push_out set_out_events]. by rewrite Ho.
  - change (other_sends id (push_out _ a')) with (other_sends id a'). rewrite Hother. unfold other_sends. simpl.
    by rewrite delete_insert_eq.
Qed.

(** The application accepts an offer. *)
Lemma asked_to_accept now file' lid dir cbb id from total w b :
  pending_recv b !! lid = Some w → PendingRecv.remote_send_id w = id → PendingRecv.remote w = from →
  PendingRecv.bytes_total w = total → File.at_end file' → os_writes file' →
  ∃ b', push_event now (AcceptFile file' lid dir cbb) b = Return (b', []) ∧ out_events b' = out_events b ∧
    pending_handler_event b' = pending_handler_event b ++ [NotifyHandler from Any (HAcceptFile id cbb)] ∧
    expiry_check_throttle b' = expiry_check_throttle b ∧
    other_recvs id b' = other_recvs id (set_pending_recv (delete lid (pending_recv b)) b) ∧
    ∀ data sb, N.of_nat (length data) = total → ongoing_recv sb = ongoing_recv b' →
      receiving sb id lid total (f_bytes file') data.
Proof.
  intros Hw <- <- <- Hend Hwrites. cbn [push_event]. unfold accept_pending_recv. rewrite Hw.
  eexists. split; [reflexivity|]. split_and!; try done.
  { unfold other_recvs. simpl. by rewrite delete_insert_eq. }
  intros data sb Hlen E. eexists. rewrite E. simpl. rewrite lookup_insert_eq. split; [done|].
  by split_and!.
Qed.

(** A file that was offered and can be read. *)
Definition on_offer_with (id lid total : N) (data : bytes) (a b : Node) : Prop :=
  (∃ v, pending_send (n_behav a) !! id = Some v ∧ PendingSend.local_send_id v = id ∧
        PendingSend.remote v = n_id b ∧ PendingSend.bytes_total v = total ∧
        File.os_reliable (PendingSend.file v) ∧ File.rest (PendingSend.file v) = data) ∧
  (∃ w, pending_recv (n_behav b) !! lid = Some w ∧ PendingRecv.remote_send_id w = id ∧
        PendingRecv.remote w = n_id a ∧ PendingRecv.bytes_total w = total).

(** The acceptance crosses: the first chunk waits. *)
Lemma acceptance_crosses cx fuel now elapsed file' dir cbb id lid total data a b :
  idle cx a → idle cx b → on_offer_with id lid total data a b →
  N.of_nat (length data) = total → (total < U64)%N → File.at_end file' → os_writes file' →
  fits fuel (HAcceptFile id cbb) →
  ∃ s a' b' buf left,
    push_event now (AcceptFile file' lid dir cbb) (n_behav b) = Return (s, []) ∧
    turn cx fuel now elapsed (with_behav s b) a = Return (b', a', [], [Answered cbb (AnsAcceptFile (Ok elapsed))]) ∧
    n_id a' = n_id a ∧ n_id b' = n_id b ∧ data = buf ++ left ∧
    chunk_waits cx id lid total (f_bytes file' ++ data) buf (f_bytes file') left
      (other_sends id (set_pending_send (delete id (pending_send (n_behav a))) (n_behav a)))
      (other_recvs id (set_pending_recv (delete lid (pending_recv (n_behav b))) (n_behav b))) a' b' ∧
    out_events (n_behav a') = [SendProgressed id 0 total].
Proof.
  intros (Ha & Hoa & Hqa) (Hb & Hob & Hqb) ((v & Hv & Hvid & Hvpeer & Hvtot & Hos & Hrest) & (w & Hw & Hwid & Hwpeer & Hwtot))
    Hlen Hsize Hend Hwrites Hfits.
  destruct (asked_to_accept now file' lid dir cbb id (n_id a) total w (n_behav b) Hw Hwid Hwpeer Hwtot Hend Hwrites)
    as (s1 & Hs1 & Ho1 & Hq1 & HT1 & Hf1 & Hr1).
  destruct (told_of_acceptance fuel now (n_id b) id (n_id b) total total data v (n_behav a))
    as (buf & left & sa & Hsa & Hsplit & Hle & Hq & Ho & HT & Hnil & Hcons & Hfa); try done.
  destruct (turn_command cx fuel now elapsed (with_behav s1 b) a (HAcceptFile id cbb) [] sa
    (λ s, out_events s = [] ∧ pending_handler_event s = [] ∧ ongoing_recv s = ongoing_recv s1 ∧
          other_recvs id s = other_recvs id s1))
    as (sb & hb & ha & (Hob' & Hqb' & Hrecv & Hfb) & Hturn & Hb' & Ha'); try done.
  - by apply (calm_with_behav cx b).
  - simpl. by rewrite Ho1.
  - simpl. by rewrite Hq1, Hqb.
  - intros d'. eexists. split; [reflexivity|]. simpl. by rewrite Ho1.
  - exists s1. eexists _, _, buf, left. split; [done|]. split; [exact Hturn|].
    split_and!; try done; [|cbn [n_behav]; by rewrite Ho, Hoa].
    unfold chunk_waits. cbn [n_behav n_id]. split_and!; try done.
    + by rewrite Hq, Hqa.
    + intros ->. destruct (Hnil eq_refl) as [E ?]. rewrite Hsplit in E. by split.
    + by rewrite Hsplit.
    + by apply Hr1; [rewrite <-Hsplit|].
    + by rewrite Hfb.
Qed.

(** An accepted file is transferred. *)
Lemma accept_completes cx fuel rounds now elapsed file' dir cbb id lid data a b :
  let total := N.of_nat (length data) in
  idle cx a → idle cx b → on_offer_with id lid total data a b →
  (id < U64)%N → (total < U64)%N → File.at_end file' → os_writes file' →
  fits fuel (HAcceptFile id cbb) → (MAX_BODY < N.of_nat fuel)%N → 2 * length data + 1 < rounds →
  ∃ r ns, accept_file cx fuel rounds now elapsed file' lid dir cbb a b = Return r ∧
    answers r = [Answered cbb (AnsAcceptFile (Ok elapsed))] ∧
    sender_events r = (λ n, SendProgressed id n total) <$> ns ∧
    Sorted N.lt ns ∧ head ns = Some 0%N ∧ last ns = Some total ∧
    receiver_events r = [RecvProgressed lid total total] ∧
    closed_file id (trace r) = Some (f_bytes file' ++ data) ∧
    idle cx (run_sender r) ∧ idle cx (run_receiver r) ∧
    n_id (run_sender r) = n_id a ∧ n_id (run_receiver r) = n_id b ∧
    ongoing_send (n_behav (run_sender r)) !! id = None ∧ ongoing_recv (n_behav (run_receiver r)) !! id = None ∧
    other_sends id (n_behav (run_sender r)) =
      other_sends id (set_pending_send (delete id (pending_send (n_behav a))) (n_behav a)) ∧
    other_recvs id (n_behav (run_receiver r)) =
      other_recvs id (set_pending_recv (delete lid (pending_recv (n_behav b))) (n_behav b)).
Proof.
  intros total Ha Hb Hoffer Hid Htotal Hend Hwrites Hfits Hfuel Hrounds.
  destruct (acceptance_crosses cx fuel now elapsed file' dir cbb id lid total data a b Ha Hb Hoffer eq_refl Htotal Hend Hwrites Hfits)
    as (s & a1 & b1 & buf & left & Hs & Hturn & Hia & Hib & Hsplit & Hw & Hout).
  destruct rounds as [|rounds]; [lia|]. pose proof Hw as (Ha1 & Hrest1).
  destruct (turn_event cx fuel now elapsed a1 b1 _ _ Ha1 Hout) as (d & Hturn1 & Ha2). set (a2 := with_behav _ a1) in *.
  destruct (pump_transfer cx fuel now elapsed id lid total (f_bytes file' ++ data)
    (other_sends id (set_pending_send (delete id (pending_send (n_behav a))) (n_behav a)))
    (other_recvs id (set_pending_recv (delete lid (pending_recv (n_behav b))) (n_behav b)))
    rounds buf (f_bytes file') left a2 b1)
    as (a3 & b3 & ns & states & Hpump & Hia3 & Hib3 & Ht & Hsort & Hlast & Hfile);
    [lia|done|rewrite <-Hsplit; lia|by split|done|].
  destruct Ht as (Ha3 & Hb3 & Hoa3 & Hqa3 & Hgone & Hgone' & Hob3 & Hqb3 & Hfa & Hfb).
  destruct (turn_event cx fuel now elapsed b3 a3 _ _ Hb3 Hob3) as (d' & Hturn3 & Hb4).
  rewrite <-Hsplit, N.sub_diag in Hsort, Hlast.
  unfold accept_file. rewrite Hs. cbn [obind]. rewrite Hturn. cbn [obind pump]. rewrite Hturn1. cbn [obind].
  rewrite Hpump. cbn [obind]. rewrite Hturn3. cbn [obind]. eexists _, (0%N :: ns). split; [reflexivity|].
  cbn [answers sender_events receiver_events trace run_sender run_receiver n_id with_behav].
  rewrite Hia3, Hib3. split_and!; try done.
  pose proof Hw as (_ & _ & _ & _ & _ & _ & _ & (r & Hr & _ & _ & _ & Hg & _) & _).
  unfold closed_file. cbn. unfold file_of at 1 2. rewrite Hr. cbn. rewrite Hg. by destruct (omap _ states).
Qed.

(** C1: a file crosses.  Two connected nodes at rest: the caller of [send_file]
    on one and the caller of [accept_file] on the other both get their answer
    (the ID of the transfer, the time of the round trip); however the streams
    and the operating system cut the bytes, every chunk is sent in a frame,
    decoded, written and acknowledged; the sender reports its progress from 0 up
    to the size, strictly increasing, the receiver the offer and the end; the
    receiver's file was closed with exactly the sender's bytes after what it
    held; both nodes have forgotten the transfer. *)
Theorem file_crosses_the_wire cx fuel rounds now elapsed file path name cba file' dir cbb data a b :
  let id := send_counter (n_behav a) in let lid := recv_counter (n_behav b) in
  let total := N.of_nat (length data) in
  idle cx a → idle cx b → n_id b ∈ connected_peers (n_behav a) →
  File.metadata_len file = Ok total → File.os_reliable file → File.rest file = data → file_name path = Some name →
  File.at_end file' → os_writes file' → (total < U64)%N → (id + 1 < U64)%N → (lid + 1 < U64)%N →
  fits fuel (NewFileSend name id cba total) → fits fuel (HAcceptFile id cbb) →
  (MAX_BODY < N.of_nat fuel)%N → 2 * length data + 1 < rounds →
  ∃ r ns, transfer_file cx fuel rounds now elapsed file path cba file' dir cbb a b = Return r ∧
    answers r = [Answered cba (AnsSendFile (Ok id)); Answered cbb (AnsAcceptFile (Ok elapsed))] ∧
    sender_events r = (λ n, SendProgressed id n total) <$> ns ∧
    Sorted N.lt ns ∧ head ns = Some 0%N ∧ last ns = Some total ∧
    receiver_events r = [IncomingFile (n_id a) name lid total; RecvProgressed lid total total] ∧
    closed_file id (trace r) = Some (f_bytes file' ++ data) ∧
    ongoing_send (n_behav (run_sender r)) !! id = None ∧ ongoing_recv (n_behav (run_receiver r)) !! id = None.
Proof.
  intros id lid total Ha Hb Hconn Hmeta Hos Hrest Hname Hend Hwrites Htotal Hid Hlid Hfit1 Hfit2 Hfuel Hrounds.
  destruct (offer_crosses cx fuel now elapsed file path name cba a b total Ha Hb Hconn Hmeta Hname Hid Hlid Hfit1)
    as (s & a1 & b1 & Hs & Hturn1 & Hia & Hib & (Ha1 & Hb1 & Hob1 & Hqb1 & Hv & Hw) & _).
  destruct (turn_event cx fuel now elapsed b1 a1 _ _ Hb1 Hob1) as (d & Hturn2 & Hb2). set (b2 := with_behav _ b1) in *.
  destruct (accept_completes cx fuel rounds now elapsed file' dir cbb id lid data a1 b2)
    as (r & ns & Hr & Hans & Hse & Hsort & Hhead & Hlast & Hre & Hclosed & _ & _ & _ & _ & Hgone & Hgone' & _); try done.
  { destruct Hv as (v & ? & ? & ? & ? & Hf). split; [|done]. exists v. rewrite Hf. by split_and!. }
  { lia. }
  unfold transfer_file. rewrite Hs. cbn [obind]. rewrite Hturn1. cbn [obind]. rewrite Hturn2. cbn [obind]. fold b2 lid.
  rewrite Hr. cbn [obind]. eexists _, ns. split; [reflexivity|].
  cbn [answers sender_events receiver_events trace run_sender run_receiver]. rewrite Hans, Hre, Hia. by split_and!.
Qed.
End wire.

(** ** Witness: three bytes over pipes that move a byte at a time *)
Section witnesses.
#[local] Existing Instance demo_codec.
#[local] Existing Instance demo_codec_laws.
#[local] Abbreviation peer n := (n%N : @PeerId demo_platform).

Definition demo_conn : Handler Pipe := {|
  state := Active; pending_in_events := []; pending_out_events := []; timeout := 1000;
  inbound := Some {| rt_stream := demo_pipe [] |}; outbound := Some (Idle (demo_pipe [])) |}.
Definition demo_node (self other : @PeerId demo_platform) : Node := {|
  n_id := self;
  n_behav := set_connected_peers {[ other ]} (new Config_default);
  n_handler := demo_conn |}.

Lemma demo_idle self other : idle (0%N : @PollCx demo_platform) (demo_node self other).
Proof.
  split_and!; try done. split; [|split].
  - exists (λ d, (delay_poll (0%N : @PollCx demo_platform) d) = (false, d)). split; [by vm_compute|].
    intros d E. by rewrite E.
  - split_and!; try done. by exists (demo_pipe []), (demo_pipe []).
  - by vm_compute.
Qed.

Lemma file_crosses_the_wire_witness :
  ∃ r ns, transfer_file (0%N : @PollCx demo_platform) (N.to_nat (MAX_BODY + 1)) 8 0 5 demo_file "dir/a.txt"
      (demo_cb 0) demo_empty "dl" (demo_cb 1) (demo_node 8%N 7%N) (demo_node 7%N 8%N) = Return r ∧
    sender_events r = (λ n, SendProgressed 0 n 3) <$> ns ∧ Sorted N.lt ns ∧
    closed_file 0 (trace r) = Some [Byte.x41; Byte.x41; Byte.x41].
Proof.
  set (fuel := N.to_nat (MAX_BODY + 1)).
  assert (Hfuel : (MAX_BODY < N.of_nat fuel)%N) by (unfold fuel; rewrite N2Nat.id; lia). clearbody fuel.
  assert (Hfits : ∀ ev, event_u64 ev → (N.of_nat (length (outgoing ev).1.2) < 100)%N → fits fuel ev).
  { intros ev Hev Hl. unfold fits, MAX_BODY in *. split_and!; [done|lia|lia]. }
  destruct (file_crosses_the_wire (0%N : @PollCx demo_platform) fuel 8 0 5 demo_file
    "dir/a.txt" "a.txt" (demo_cb 0) demo_empty "dl" (demo_cb 1) [Byte.x41; Byte.x41; Byte.x41]
    (demo_node 8%N 7%N) (demo_node 7%N 8%N)) as (r & ns & Hr & _ & Hs & Hsort & _ & _ & _ & Hf & _).
  - apply demo_idle.
  - apply demo_idle.
  - cbn. set_solver.
  - reflexivity.
  - by intros i; exists 2.
  - reflexivity.
  - reflexivity.
  - reflexivity.
  - by intros i; exists 1.
  - done.
  - done.
  - done.
  - by apply Hfits; [|vm_compute].
  - by apply Hfits; [|vm_compute].
  - exact Hfuel.
  - cbn. lia.
  - exists r, ns. by split_and!.
Defined.
End witnesses.
End BlobWire.
