(* ===== verification/BlobCancel.v ===== *)
(** * Cancelled transfers, and transfers that share an ID

    Module [BlobCancel]: an offer that one of the two nodes of [BlobWire] takes
    back, from the request of one application to the report to the other; and
    what becomes of two transfers whose senders have numbered them alike. *)

From stdpp Require Import base gmap sets list strings fin_maps.
From Stdlib Require Import Lia NArith.
From S2P Require Import Prelude Std Core Stream Wire BlobProtocol BlobTypes BlobHandler BlobHandlerProps.
From S2P Require Import BlobBehaviour BlobDemo BlobBehaviourProps BlobReceive BlobTransfer BlobWire.
Import BlobWire.

Module BlobCancel.
Section cancel.
Context {P : Platform} {codec : Codec} {laws : CodecLaws}.
Context {St : Type} {io : AsyncIO St} {rel : ReliableIO St} {net : Network St}.

Abbreviation Node := (@BlobWire.Node P St).

(** ** A cancellation, from one application to the other *)
Record Cancelled := {
  canceller : Node;
  other : Node;
  canceller_events : list OutEvent;
  other_events : list OutEvent;
  answers : list (Sent Answer);
}.

(** The request [ev] at [a]; [a] is polled twice, then [b]. *)
Definition cancel_file (cx : PollCx) (fuel : nat) (now elapsed : N) (ev : InEvent) (a b : Node)
    : outcome Cancelled :=
  ' (s, sent1) ← push_event now ev (n_behav a);
  ' (a, b, evs, sent2, _) ← pump cx fuel now elapsed 2 (with_behav s a) b;
  ' (b, a, evs', sent3) ← turn cx fuel now elapsed b a;
  Return {| canceller := a; other := b; canceller_events := evs; other_events := evs';
            answers := sent1 ++ sent2 ++ sent3 |}.

(** A file [a] has offered to [b], not yet accepted. *)
Definition on_offer (id lid : N) (a b : Node) : Prop :=
  (∃ v, pending_send (n_behav a) !! id = Some v ∧ PendingSend.remote v = n_id b) ∧
  ongoing_send (n_behav a) !! id = None ∧
  (∃ w, pending_recv (n_behav b) !! lid = Some w ∧ PendingRecv.remote_send_id w = id ∧ PendingRecv.remote w = n_id a) ∧
  (∀ k w, pending_recv (n_behav b) !! k = Some w → PendingRecv.remote_send_id w = id → k = lid) ∧
  ongoing_recv (n_behav b) !! id = None.

(** Neither knows of it. *)
Definition forgotten (id lid : N) (a b : Node) : Prop :=
  pending_send (n_behav a) !! id = None ∧ ongoing_send (n_behav a) !! id = None ∧
  pending_recv (n_behav b) !! lid = None ∧ ongoing_recv (n_behav b) !! id = None.

(** What the receiver's behaviour does when it hears that the send was cancelled. *)
Lemma told_send_cancelled fuel now from id lid w b :
  pending_recv b !! lid = Some w → PendingRecv.remote_send_id w = id →
  (∀ k w, pending_recv b !! k = Some w → PendingRecv.remote_send_id w = id → k = lid) → ongoing_recv b !! id = None →
  ∃ b', on_connection_handler_event fuel now from (RemoteCancelRecv id) b = Return b' ∧
    out_events b' = out_events b ++ [CancelledRecv id] ∧ pending_handler_event b' = pending_handler_event b ∧
    expiry_check_throttle b' = expiry_check_throttle b ∧
    tables b' = tables (set_pending_recv (delete lid (pending_recv b)) b).
Proof.
  intros Hw Hid Huniq Hor. simpl. unfold remove_recv_by_remote_send_id. rewrite Hor.
  destruct (list_find_pending b id) as [(k & v & i & -> & Hv & Hvid)|[_ Hnone]]; [|by destruct (Hnone _ _ Hw)].
  pose proof (Huniq k v Hv Hvid) as ->. simpl. eexists. split; [done|]. by rewrite Hvid.
Qed.

(** And the sender's, when it hears that the receive was cancelled. *)
Lemma told_recv_cancelled fuel now from id v a :
  pending_send a !! id = Some v →
  ∃ a', on_connection_handler_event fuel now from (RemoteCancelSend id) a = Return a' ∧
    out_events a' = out_events a ++ [CancelledSend id] ∧ pending_handler_event a' = pending_handler_event a ∧
    expiry_check_throttle a' = expiry_check_throttle a ∧
    tables a' = tables (set_pending_send (delete id (pending_send a)) a).
Proof.
  intros Hv. simpl. unfold remove_send_record. simpl. rewrite Hv. simpl. by eexists.
Qed.

(** The two nodes are at rest again, without the transfer. *)
Definition taken_back (cx : PollCx) (id lid : N) (a b a' b' : Node) : Prop :=
  idle cx a' ∧ idle cx b' ∧ n_id a' = n_id a ∧ n_id b' = n_id b ∧
  tables (n_behav a') = tables (set_pending_send (delete id (pending_send (n_behav a))) (n_behav a)) ∧
  tables (n_behav b') = tables (set_pending_recv (delete lid (pending_recv (n_behav b))) (n_behav b)).

Lemma taken_back_forgotten cx id lid a b a' b' :
  on_offer id lid a b → taken_back cx id lid a b a' b' → forgotten id lid a' b'.
Proof.
  intros (_ & Hos & _ & _ & Hor) (_ & _ & _ & _ & [= _ _ Hps Hos' _ _ _] & [= _ _ _ _ _ Hpr Hor']).
  unfold forgotten. rewrite Hps, Hos', Hpr, Hor'. split_and!; [apply lookup_delete_eq|done|apply lookup_delete_eq|done].
Qed.

Lemma pump_two cx fuel now elapsed a b a1 b1 e1 s1 a2 b2 e2 s2 :
  turn cx fuel now elapsed a b = Return (a1, b1, e1, s1) → turn cx fuel now elapsed a1 b1 = Return (a2, b2, e2, s2) →
  pump cx fuel now elapsed 2 a b = Return (a2, b2, e1 ++ e2 ++ [], s1 ++ s2 ++ [], [n_behav b1; n_behav b2]).
Proof. intros H1 H2. cbn [pump]. rewrite H1. cbn [obind]. by rewrite H2. Qed.

(** The sender takes its offer back. *)
Lemma cancel_by_sender cx fuel now elapsed id lid cb a b :
  idle cx a → idle cx b → on_offer id lid a b → fits fuel (LocalCancelSend id) →
  ∃ r, cancel_file cx fuel now elapsed (CancelSend id cb) a b = Return r ∧
    answers r = [Answered cb (AnsCancel (Ok ()))] ∧
    canceller_events r = [] ∧ other_events r = [CancelledRecv id] ∧
    taken_back cx id lid a b (canceller r) (other r).
Proof.
  intros (Ha & Hoa & Hqa) (Hb & Hob & Hqb) ((v & Hv & Hvb) & Hos & (w & Hw & Hwid & Hwa) & Huniq & Hor) Hfits.
  unfold cancel_file. cbn [push_event]. unfold cancel_send_by_local_send_id, remove_send_record. rewrite Hv.
  cbn [obind]. match goal with |- context [with_behav ?s a] => set (s1 := s) end.
  destruct (told_send_cancelled fuel now (n_id a) id lid w (n_behav b) Hw Hwid Huniq Hor)
    as (sb & Hsb & Hob' & Hqb' & HTb & Htab).
  destruct (turn_command cx fuel now elapsed (with_behav s1 a) b (LocalCancelSend id) [] sb
    (λ s, out_events s = [] ∧ pending_handler_event s = [] ∧ tables s = tables s1))
    as (sa & ha & hb & (Hoa1 & Hqa1 & Hta) & Hturn & Ha1 & Hb1); try done.
  { simpl. by rewrite Hqa, Hvb. }
  { intros d. by eexists. }
  set (a1 := {| n_id := _; n_behav := sa; n_handler := ha |}) in *.
  set (b1 := {| n_id := _; n_behav := sb; n_handler := hb |}) in *.
  destruct (turn_idle cx fuel now elapsed a1 b1 Ha1 Hoa1 Hqa1) as (d & Hturn2 & Ha2).
  rewrite (pump_two _ _ _ _ _ _ _ _ _ _ _ _ _ _ Hturn Hturn2). cbn [obind].
  rewrite Hob in Hob'. destruct (turn_event cx fuel now elapsed b1 (with_behav (set_expiry_check_throttle d (n_behav a1)) a1)
    (CancelledRecv id) [] Hb1 Hob') as (d' & -> & Hb2).
  cbn [obind]. eexists. split; [done|]. split_and!; try done. unfold taken_back, idle.
  cbn [canceller other n_id n_behav with_behav pending_handler_event set_out_events set_expiry_check_throttle b1].
  by rewrite Hqb', Hqb.
Qed.

(** The receiver refuses it. *)
Lemma cancel_by_receiver cx fuel now elapsed id lid cb a b :
  idle cx a → idle cx b → on_offer id lid a b → fits fuel (LocalCancelRecv id) →
  ∃ r, cancel_file cx fuel now elapsed (CancelRecv lid cb) b a = Return r ∧
    answers r = [Answered cb (AnsCancel (Ok ()))] ∧
    canceller_events r = [CancelledRecv lid] ∧ other_events r = [CancelledSend id] ∧
    taken_back cx id lid a b (other r) (canceller r).
Proof.
  intros (Ha & Hoa & Hqa) (Hb & Hob & Hqb) ((v & Hv & Hvb) & Hos & (w & Hw & Hwid & Hwa) & Huniq & Hor) Hfits.
  unfold cancel_file. cbn [push_event]. unfold cancel_recv_by_local_recv_id, remove_recv_record. rewrite Hw.
  cbn [obind]. match goal with |- context [with_behav ?s b] => set (s1 := s) end.
  assert (Ho1 : out_events (n_behav (with_behav s1 b)) = [CancelledRecv lid]) by (simpl; by rewrite Hob).
  destruct (turn_event cx fuel now elapsed (with_behav s1 b) a _ [] Hb Ho1) as (d & Hturn1 & Hb1).
  set (b1 := with_behav _ (with_behav s1 b)) in *.
  destruct (told_recv_cancelled fuel now (n_id b) id v (n_behav a) Hv)
    as (sa & Hsa & Hoa' & Hqa' & HTa & Htab).
  destruct (turn_command cx fuel now elapsed b1 a (LocalCancelRecv id) [] sa
    (λ s, out_events s = [] ∧ pending_handler_event s = [] ∧ tables s = tables s1))
    as (sb & hb & ha & (Hob2 & Hqb2 & Htb) & Hturn2 & Hb2 & Ha2); try done.
  { simpl. by rewrite Hqb, Hwa, Hwid. }
  { intros d'. by eexists. }
  rewrite (pump_two _ _ _ _ _ _ _ _ _ _ _ _ _ _ Hturn1 Hturn2). cbn [obind].
  rewrite Hoa in Hoa'.
  match goal with |- context [turn _ _ _ _ ?x ?y] => destruct (turn_event cx fuel now elapsed x y (CancelledSend id) [] Ha2 Hoa') as (d' & -> & Ha3) end.
  cbn [obind]. eexists. split; [done|]. split_and!; try done. unfold taken_back, idle.
  cbn [canceller other n_id n_behav with_behav pending_handler_event set_out_events set_expiry_check_throttle].
  by rewrite Hqa', Hqa.
Qed.

(** Either side can take an offered file back.  Two connected nodes, an offer
    that is not accepted yet: if the sender cancels, or the receiver refuses, the
    command crosses, the caller is told that it worked, both nodes forget the
    transfer, and each application is told; but when the sender cancels, the
    receiver's application is given the sender's number of the transfer, not the
    one it knows. *)
Theorem either_side_cancels cx fuel now elapsed id lid cb a b :
  idle cx a → idle cx b → on_offer id lid a b → fits fuel (LocalCancelSend id) → fits fuel (LocalCancelRecv id) →
  (∃ r, cancel_file cx fuel now elapsed (CancelSend id cb) a b = Return r ∧
     answers r = [Answered cb (AnsCancel (Ok ()))] ∧
     canceller_events r = [] ∧ other_events r = [CancelledRecv id] ∧ forgotten id lid (canceller r) (other r)) ∧
  (∃ r, cancel_file cx fuel now elapsed (CancelRecv lid cb) b a = Return r ∧
     answers r = [Answered cb (AnsCancel (Ok ()))] ∧
     canceller_events r = [CancelledRecv lid] ∧ other_events r = [CancelledSend id] ∧
     forgotten id lid (other r) (canceller r)).
Proof.
  intros Ha Hb Hoff Hf1 Hf2. split.
  - destruct (cancel_by_sender cx fuel now elapsed id lid cb a b Ha Hb Hoff Hf1) as (r & Hr & Hans & He & He' & Ht).
    exists r. split_and!; try done; by eapply taken_back_forgotten.
  - destruct (cancel_by_receiver cx fuel now elapsed id lid cb a b Ha Hb Hoff Hf2) as (r & Hr & Hans & He & He' & Ht).
    exists r. split_and!; try done; by eapply taken_back_forgotten.
Qed.

(** ** Two senders, one number *)

Lemma accepted_twice now s lid1 lid2 v1 v2 id file1 dir1 cb1 file2 dir2 cb2 :
  pending_recv s !! lid1 = Some v1 → pending_recv s !! lid2 = Some v2 → lid1 ≠ lid2 →
  PendingRecv.remote_send_id v1 = id → PendingRecv.remote_send_id v2 = id →
  File.at_end file2 → os_writes file2 →
  ∃ s1 s2 r2,
    push_event now (AcceptFile file1 lid1 dir1 cb1) s = Return (s1, []) ∧
    push_event now (AcceptFile file2 lid2 dir2 cb2) s1 = Return (s2, []) ∧
    pending_handler_event s2 = pending_handler_event s ++
      [NotifyHandler (PendingRecv.remote v1) Any (HAcceptFile id cb1);
       NotifyHandler (PendingRecv.remote v2) Any (HAcceptFile id cb2)] ∧
    ongoing_recv s2 = <[id := r2]> (ongoing_recv s) ∧
    OngoingFileRecv.local_recv_id r2 = lid2 ∧ OngoingFileRecv.remote r2 = PendingRecv.remote v2 ∧
    ∀ data, N.of_nat (length data) = PendingRecv.bytes_total v2 →
      receiving s2 id lid2 (PendingRecv.bytes_total v2) (f_bytes file2) data.
Proof.
  intros Hv1 Hv2 Hlid Hid1 Hid2 Hend Hos. cbn [push_event]. unfold accept_pending_recv. rewrite Hv1.
  eexists _, _, _. split; [reflexivity|]. simpl. rewrite lookup_delete_ne by done. rewrite Hv2.
  split; [reflexivity|]. simpl. rewrite Hid1, Hid2. split; [by rewrite <-app_assoc|].
  split; [apply insert_insert_eq|]. split; [done|]. split; [done|].
  intros data Hlen. eexists. simpl. rewrite lookup_insert_eq. split; [done|]. by split_and!.
Qed.

(** C38: receives are kept under the sender's number of the transfer, whoever the
    sender is, and every node numbers its sends from 0.  When two peers have
    offered files under the same number and both are accepted, both senders are
    told to go on, but there is one record, the second one: the first transfer is
    forgotten, and what the first peer sends is written into the second one's
    file. *)
Theorem two_senders_share_a_record fuel now s lid1 lid2 v1 v2 id file1 dir1 cb1 file2 dir2 cb2 content :
  pending_recv s !! lid1 = Some v1 → pending_recv s !! lid2 = Some v2 → lid1 ≠ lid2 →
  PendingRecv.remote v1 ≠ PendingRecv.remote v2 → PendingRecv.remote_send_id v1 = id → PendingRecv.remote_send_id v2 = id →
  File.at_end file2 → os_writes file2 → content ≠ [] → length content < fuel →
  (N.of_nat (length content) ≤ PendingRecv.bytes_total v2)%N → (PendingRecv.bytes_total v2 < U64)%N →
  ∃ s1 s2 s3 r2 r3,
    push_event now (AcceptFile file1 lid1 dir1 cb1) s = Return (s1, []) ∧
    push_event now (AcceptFile file2 lid2 dir2 cb2) s1 = Return (s2, []) ∧
    pending_handler_event s2 = pending_handler_event s ++
      [NotifyHandler (PendingRecv.remote v1) Any (HAcceptFile id cb1);
       NotifyHandler (PendingRecv.remote v2) Any (HAcceptFile id cb2)] ∧
    ongoing_recv s2 = <[id := r2]> (ongoing_recv s) ∧
    OngoingFileRecv.local_recv_id r2 = lid2 ∧ OngoingFileRecv.remote r2 = PendingRecv.remote v2 ∧
    on_connection_handler_event fuel now (PendingRecv.remote v1) (HRecvProgressed id content) s2 = Return s3 ∧
    ongoing_recv s3 !! id = Some r3 ∧ OngoingFileRecv.local_recv_id r3 = lid2 ∧
    f_bytes (OngoingFileRecv.file_handle r3) = f_bytes file2 ++ content.
Proof.
  intros Hv1 Hv2 Hlid _ Hid1 Hid2 Hend Hos Hne Hfuel Hlen Htot.
  destruct (accepted_twice now s lid1 lid2 v1 v2 id file1 dir1 cb1 file2 dir2 cb2 Hv1 Hv2 Hlid Hid1 Hid2 Hend Hos)
    as (s1 & s2 & r2 & H1 & H2 & Hq & Ho & Hl & Hr & Hrecv).
  set (left := replicate (N.to_nat (PendingRecv.bytes_total v2) - length content) Byte.x00).
  destruct (progress_ongoing_recv_step fuel now id lid2 (PendingRecv.bytes_total v2) (f_bytes file2) content left s2)
    as (s3 & H3 & (r3 & Hr3 & Hl3 & _ & _ & Hb3 & _) & _); [|done..|].
  { apply Hrecv. subst left. rewrite length_app, length_replicate. lia. }
  by exists s1, s2, s3, r2, r3.
Qed.
End cancel.

(** ** Witnesses *)
Section witnesses.
#[local] Existing Instance demo_codec.
#[local] Existing Instance demo_codec_laws.

(** A node with the behaviour [s], whose queues have been handed out. *)
Definition rested (self : @PeerId demo_platform) (s : Behaviour) : @BlobWire.Node demo_platform Pipe :=
  {| n_id := self; n_behav := set_pending_handler_event [] (set_out_events [] s); n_handler := demo_conn |}.
Definition s_offered_0 : Behaviour :=
  final (run 10 [OpHandler 0 8%N (HIncomingFile "a.txt" 0 3)] (new Config_default)).
Definition w_offered_0 : PendingRecv.t :=
  {| PendingRecv.local_recv_id := 0; PendingRecv.remote_send_id := 0; PendingRecv.remote := 8%N;
     PendingRecv.bytes_total := 3; PendingRecv.file_name := "a.txt"; PendingRecv.timestamp := 0 |}.

Lemma rested_idle self s : expiry_check_throttle s = delay_new 5000 → idle (0%N : @PollCx demo_platform) (rested self s).
Proof.
  intros E. destruct (demo_idle self 0%N) as ((Hw & Hc & Hs) & _). split; [|done]. split; [|done].
  cbn in *. by rewrite E.
Qed.

Lemma either_side_cancels_witness :
  (∃ r, cancel_file (0%N : @PollCx demo_platform) 100 1 5 (CancelSend 0 (demo_cb 3)) (rested 8%N s_offer) (rested 7%N s_offered_0) = Return r ∧
     other_events r = [CancelledRecv 0]) ∧
  (∃ r, cancel_file (0%N : @PollCx demo_platform) 100 1 5 (CancelRecv 0 (demo_cb 3)) (rested 7%N s_offered_0) (rested 8%N s_offer) = Return r ∧
     other_events r = [CancelledSend 0]).
Proof.
  assert (Hfits : ∀ ev, event_u64 ev → (N.of_nat (length (outgoing ev).1.2) < 60)%N → fits 100 ev)
    by (intros ev Hev Hl; unfold fits, MAX_BODY; split_and!; [done|lia|lia]).
  assert (Hr : pending_recv s_offered_0 = {[0%N := w_offered_0]}) by (vm_compute; reflexivity).
  destruct (either_side_cancels (0%N : @PollCx demo_platform) 100 1 5 0 0 (demo_cb 3) (rested 8%N s_offer) (rested 7%N s_offered_0))
    as [(r1 & H1 & _ & _ & E1 & _) (r2 & H2 & _ & _ & E2 & _)].
  - apply rested_idle. by vm_compute.
  - apply rested_idle. by vm_compute.
  - split; [exists v_offer_0; split; by vm_compute|]. split; [by vm_compute|].
    cbn [rested n_behav pending_recv ongoing_recv set_pending_handler_event set_out_events]. rewrite Hr.
    split; [by exists w_offered_0|]. split; [|by vm_compute]. by intros k w [<- _]%lookup_singleton_Some.
  - by apply Hfits; [|vm_compute].
  - by apply Hfits; [|vm_compute].
  - split; [exists r1; exact (conj H1 E1)|exists r2; exact (conj H2 E2)].
Defined.

(** Two peers, each with its first file. *)
Definition s_two_offers : Behaviour :=
  final (run 10 [OpHandler 0 8%N (HIncomingFile "a.txt" 0 3); OpHandler 0 9%N (HIncomingFile "b.txt" 0 2)] (new Config_default)).
Definition w_second : PendingRecv.t :=
  {| PendingRecv.local_recv_id := 1; PendingRecv.remote_send_id := 0; PendingRecv.remote := 9%N;
     PendingRecv.bytes_total := 2; PendingRecv.file_name := "b.txt"; PendingRecv.timestamp := 0 |}.

Lemma two_senders_share_a_record_witness :
  ∃ s1 s2 s3 r3 : _,
    push_event 1 (AcceptFile demo_empty 0 "dl" (demo_cb 0)) s_two_offers = Return (s1, []) ∧
    push_event 1 (AcceptFile demo_empty 1 "dl" (demo_cb 1)) s1 = Return (s2, []) ∧
    on_connection_handler_event 10 1 (8%N : @PeerId demo_platform) (HRecvProgressed 0 [Byte.x41]) s2 = Return s3 ∧
    ongoing_recv s3 !! 0%N = Some r3 ∧ OngoingFileRecv.local_recv_id r3 = 1%N ∧
    f_bytes (OngoingFileRecv.file_handle r3) = [Byte.x41].
Proof.
  destruct (two_senders_share_a_record 10 1 s_two_offers 0 1 w_offered_0 w_second 0 demo_empty "dl" (demo_cb 0)
    demo_empty "dl" (demo_cb 1) [Byte.x41]) as (s1 & s2 & s3 & r2 & r3 & H1 & H2 & _ & _ & _ & _ & H3 & Hr & Hl & Hb).
  - by vm_compute.
  - by vm_compute.
  - done.
  - done.
  - reflexivity.
  - reflexivity.
  - reflexivity.
  - by intros i; exists 1.
  - done.
  - simpl. lia.
  - by vm_compute.
  - by vm_compute.
  - exists s1, s2, s3, r3. exact (conj H1 (conj H2 (conj H3 (conj Hr (conj Hl Hb))))).
Defined.
End witnesses.
End BlobCancel.
