(* ===== verification/BlobOffers.v ===== *)
(** * Files between two nodes, over a whole session

    Module [BlobOffers]: two connected nodes that offer each other files, take
    offers back, refuse them and accept them, in any order.  The abstract state
    is, for each direction, how many files were offered and which offers stand,
    with their contents; the two behaviours, with their handlers and the wire
    between them, implement it. *)

From stdpp Require Import base gmap sets list strings fin_maps fin_map_dom.
From Stdlib Require Import Lia NArith Sorted.
From S2P Require Import Prelude Std Core Stream Wire BlobProtocol BlobTypes BlobHandler BlobHandlerProps.
From S2P Require Import BlobBehaviour BlobDemo BlobBehaviourProps BlobTransfer BlobWire BlobCancel.
Import BlobWire BlobCancel.

Module BlobOffers.
Section offers.
Context {P : Platform} {codec : Codec} {laws : CodecLaws}.
Context {St : Type} {io : AsyncIO St} {rel : ReliableIO St} {net : Network St}.
(** [rounds]: how often the sender is polled during a transfer. *)
Context (cx : PollCx) (fuel rounds : nat) (now elapsed : N).

Abbreviation Node := (@BlobWire.Node P St).

(** ** What one node does *)
Inductive Act :=
| Offer (file : File) (path : string) (callback : Callback)
| Withdraw (local_send_id : N) (callback : Callback)
| Refuse (local_recv_id : N) (callback : Callback)
| Accept (file : File) (local_recv_id : N) (dir : string) (callback : Callback).

(** What comes of it: the answers to the callers, what each application hears,
    what the file that was written held when it was closed. *)
Record Heard := {
  replies : list (Sent Answer);
  mine : list OutEvent;
  theirs : list OutEvent;
  written : option bytes;
}.

(** The request is made at [a]; [a] is polled, then [b]. *)
Definition offer_file (file : File) (path : string) (cb : Callback) (a b : Node) : outcome (Node * Node * Heard) :=
  ' (s, sent1) ← push_event now (SendFile file path (n_id b) cb) (n_behav a);
  ' (a, b, evs, sent2) ← turn cx fuel now elapsed (with_behav s a) b;
  ' (b, a, evs', sent3) ← turn cx fuel now elapsed b a;
  Return (a, b, {| replies := sent1 ++ sent2 ++ sent3; mine := evs; theirs := evs'; written := None |}).
Definition take_back (ev : InEvent) (a b : Node) : outcome (Node * Node * Heard) :=
  r ← cancel_file cx fuel now elapsed ev a b;
  Return (canceller r, other r,
          {| replies := BlobCancel.answers r; mine := canceller_events r; theirs := other_events r; written := None |}).
Definition take (file : File) (lid : N) (dir : string) (cb : Callback) (a b : Node) : outcome (Node * Node * Heard) :=
  r ← accept_file cx fuel rounds now elapsed file lid dir cb b a;
  Return (run_receiver r, run_sender r,
          {| replies := BlobWire.answers r; mine := receiver_events r; theirs := sender_events r;
             written := match pending_recv (n_behav a) !! lid with
                        | Some w => closed_file (PendingRecv.remote_send_id w) (trace r)
                        | None => None
                        end |}).
Definition act (x : Act) (a b : Node) : outcome (Node * Node * Heard) :=
  match x with
  | Offer file path cb => offer_file file path cb a b
  | Withdraw id cb => take_back (CancelSend id cb) a b
  | Refuse lid cb => take_back (CancelRecv lid cb) a b
  | Accept file lid dir cb => take file lid dir cb a b
  end.

(** Any sequence of acts of the two nodes; [true] is the first node. *)
Fixpoint session (acts : list (bool * Act)) (a b : Node) : outcome (Node * Node * list Heard) :=
  match acts with
  | [] => Return (a, b, [])
  | (true, x) :: acts =>
      ' (a, b, h) ← act x a b;
      ' (a, b, hs) ← session acts a b;
      Return (a, b, h :: hs)
  | (false, x) :: acts =>
      ' (b, a, h) ← act x b a;
      ' (a, b, hs) ← session acts a b;
      Return (a, b, h :: hs)
  end.

(** ** The abstract session *)

(** The offers of one node to the other: how many, and which stand. *)
Record Offers := { made : N; standing : gmap N bytes }.
Definition without (id : N) (o : Offers) : Offers := {| made := made o; standing := delete id (standing o) |}.
Definition and_offer (data : bytes) (o : Offers) : Offers :=
  {| made := made o + 1; standing := <[made o := data]> (standing o) |}.

(** What is to come of an act: exactly this, or a transfer, whose progress the
    sender hears of in steps of its own. *)
Inductive Expected :=
| Exactly (replies : list (Sent Answer)) (mine theirs : list OutEvent)
| Transferred (id : N) (data before : bytes) (callback : Callback).
Definition meets (e : Expected) (h : Heard) : Prop :=
  match e with
  | Exactly r m t => h = {| replies := r; mine := m; theirs := t; written := None |}
  | Transferred id data before cb =>
      let total := N.of_nat (length data) in
      replies h = [Answered cb (AnsAcceptFile (Ok elapsed))] ∧ mine h = [RecvProgressed id total total] ∧
      (∃ ns, theirs h = (λ n, SendProgressed id n total) <$> ns ∧
             Sorted N.lt ns ∧ head ns = Some 0%N ∧ last ns = Some total) ∧
      written h = Some (before ++ data)
  end.

Definition spec_cancel (id : N) (cb : Callback) (o : Offers) (mine theirs : list OutEvent) : Offers * Expected :=
  match standing o !! id with
  | Some _ => (without id o, Exactly [Answered cb (AnsCancel (Ok ()))] mine theirs)
  | None => (o, Exactly [Answered cb (AnsCancel (Err IdNotFound))] [] [])
  end.
(** The act of the node [me], whose offers are [o]; [o'] are the other's. *)
Definition spec_act (me : PeerId) (x : Act) (o o' : Offers) : Offers * Offers * Expected :=
  match x with
  | Offer file path cb =>
      let data := File.rest file in
      let name := default "" (file_name path) in
      (and_offer data o, o',
       Exactly [Answered cb (AnsSendFile (Ok (made o)))] []
               [IncomingFile me name (made o) (N.of_nat (length data))])
  | Withdraw id cb => let '(o, e) := spec_cancel id cb o [] [CancelledRecv id] in (o, o', e)
  | Refuse id cb => let '(o', e) := spec_cancel id cb o' [CancelledRecv id] [CancelledSend id] in (o, o', e)
  | Accept file id dir cb =>
      match standing o' !! id with
      | Some data => (o, without id o', Transferred id data (f_bytes file) cb)
      | None => (o, o', Exactly [Answered cb (AnsAcceptFile (Err (FileRecvError.PendingRecvNotFound id)))] [] [])
      end
  end.
Fixpoint spec_session (ida idb : PeerId) (acts : list (bool * Act)) (oa ob : Offers) : Offers * Offers * list Expected :=
  match acts with
  | [] => (oa, ob, [])
  | (true, x) :: acts =>
      let '(oa, ob, h) := spec_act ida x oa ob in
      let '(oa, ob, hs) := spec_session ida idb acts oa ob in (oa, ob, h :: hs)
  | (false, x) :: acts =>
      let '(ob, oa, h) := spec_act idb x ob oa in
      let '(oa, ob, hs) := spec_session ida idb acts oa ob in (oa, ob, h :: hs)
  end.

(** ** The nodes implement it *)

(** A standing offer in the tables of the sender, of the receiver. *)
Definition sends (to : PeerId) (id : N) (data : bytes) (v : PendingSend.t) : Prop :=
  PendingSend.local_send_id v = id ∧ PendingSend.remote v = to ∧
  PendingSend.bytes_total v = N.of_nat (length data) ∧
  File.os_reliable (PendingSend.file v) ∧ File.rest (PendingSend.file v) = data.
Definition receives (from : PeerId) (id : N) (data : bytes) (w : PendingRecv.t) : Prop :=
  PendingRecv.local_recv_id w = id ∧ PendingRecv.remote_send_id w = id ∧ PendingRecv.remote w = from ∧
  PendingRecv.bytes_total w = N.of_nat (length data).
(** A file whose transfer ends within the polls. *)
Definition short (data : bytes) : Prop := (N.of_nat (length data) < U64)%N ∧ 2 * length data + 1 < rounds.

(** The tables of both nodes hold the standing offers of [a]. *)
Record agree (o : Offers) (a b : Node) : Prop := {
  ag_sent : send_counter (n_behav a) = made o;
  ag_heard : recv_counter (n_behav b) = made o;
  ag_no_send : ongoing_send (n_behav a) = ∅;
  ag_no_recv : ongoing_recv (n_behav b) = ∅;
  ag_sends : map_Forall2 (sends (n_id b)) (standing o) (pending_send (n_behav a));
  ag_recvs : map_Forall2 (receives (n_id a)) (standing o) (pending_recv (n_behav b));
  ag_below : map_Forall (λ id data, (id < made o)%N ∧ short data) (standing o);
}.
Definition in_step (oa ob : Offers) (a b : Node) : Prop :=
  idle cx a ∧ idle cx b ∧ n_id b ∈ connected_peers (n_behav a) ∧ n_id a ∈ connected_peers (n_behav b) ∧
  agree oa a b ∧ agree ob b a.

(** What an act needs: a file with a name and its size that can be read, a file
    that can be written, commands that fit. *)
Definition act_ok (x : Act) : Prop :=
  match x with
  | Offer file path cb =>
      File.metadata_len file = Ok (N.of_nat (length (File.rest file))) ∧ File.os_reliable file ∧ short (File.rest file) ∧
      ∃ name, file_name path = Some name ∧
        ∀ id, (id < U64)%N → fits fuel (NewFileSend name id cb (N.of_nat (length (File.rest file))))
  | Withdraw _ _ => ∀ id, (id < U64)%N → fits fuel (LocalCancelSend id)
  | Refuse _ _ => ∀ id, (id < U64)%N → fits fuel (LocalCancelRecv id)
  | Accept file _ _ cb =>
      File.at_end file ∧ os_writes file ∧ (MAX_BODY < N.of_nat fuel)%N ∧
      ∀ id, (id < U64)%N → fits fuel (HAcceptFile id cb)
  end.
(** ** Each act is simulated *)

Lemma agree_halves o a b a' b' :
  agree o a b → n_id a' = n_id a → n_id b' = n_id b →
  (tables (n_behav a')).1.2 = (tables (n_behav a)).1.2 → (tables (n_behav b')).2 = (tables (n_behav b)).2 →
  agree o a' b'.
Proof.
  intros [] Ha Hb [= Hsc Hps Hos] [= Hrc Hpr Hor].
  split; rewrite ?Hsc, ?Hps, ?Hos, ?Hrc, ?Hpr, ?Hor, ?Ha, ?Hb; done.
Qed.

Lemma agree_offer o data a b a' b' v w :
  agree o a b → short data → n_id a' = n_id a → n_id b' = n_id b →
  (tables (n_behav a')).1.2 = (made o + 1, <[made o := v]> (pending_send (n_behav a)), ongoing_send (n_behav a))%N →
  (tables (n_behav b')).2 = (made o + 1, <[made o := w]> (pending_recv (n_behav b)), ongoing_recv (n_behav b))%N →
  sends (n_id b) (made o) data v → receives (n_id a) (made o) data w → agree (and_offer data o) a' b'.
Proof.
  intros [] Hshort Ha Hb [= Hsc Hps Hos] [= Hrc Hpr Hor] Hv Hw.
  split; rewrite ?Hsc, ?Hps, ?Hos, ?Hrc, ?Hpr, ?Hor, ?Ha, ?Hb; cbn [made standing and_offer]; try done.
  - by apply map_Forall2_insert_2.
  - by apply map_Forall2_insert_2.
  - apply map_Forall_insert_2; [split; [lia|done]|]. apply (map_Forall_impl _ _ _ ag_below0). intros ? ? []. split; [lia|done].
Qed.

Lemma agree_without id o a b a' b' :
  agree o a b → n_id a' = n_id a → n_id b' = n_id b →
  (tables (n_behav a')).1.2 = (send_counter (n_behav a), delete id (pending_send (n_behav a)), ongoing_send (n_behav a)) →
  (tables (n_behav b')).2 = (recv_counter (n_behav b), delete id (pending_recv (n_behav b)), ongoing_recv (n_behav b)) →
  agree (without id o) a' b'.
Proof.
  intros [] Ha Hb [= Hsc Hps Hos] [= Hrc Hpr Hor].
  split; rewrite ?Hsc, ?Hps, ?Hos, ?Hrc, ?Hpr, ?Hor, ?Ha, ?Hb; cbn [made standing without]; try done.
  - by apply map_Forall2_delete.
  - by apply map_Forall2_delete.
  - by apply map_Forall_delete.
Qed.

(** A standing offer is in both tables. *)
Lemma agree_lookup id o a b data : agree o a b → standing o !! id = Some data →
  ∃ v w, pending_send (n_behav a) !! id = Some v ∧ sends (n_id b) id data v ∧
         pending_recv (n_behav b) !! id = Some w ∧ receives (n_id a) id data w ∧ (id < made o)%N ∧ short data.
Proof.
  intros [] Hid. pose proof (ag_sends0 id) as Hs. pose proof (ag_recvs0 id) as Hr.
  destruct (ag_below0 _ _ Hid). rewrite Hid in Hs, Hr. inversion Hs; subst. inversion Hr; subst. by eexists _, _.
Qed.
Lemma agree_unknown id o a b : agree o a b → standing o !! id = None →
  pending_send (n_behav a) !! id = None ∧ pending_recv (n_behav b) !! id = None.
Proof.
  intros [] Hid. pose proof (ag_sends0 id) as Hs. pose proof (ag_recvs0 id) as Hr. rewrite Hid in Hs, Hr.
  by inversion Hs; inversion Hr.
Qed.
Lemma agree_recv id o a b w : agree o a b → pending_recv (n_behav b) !! id = Some w → ∃ data, receives (n_id a) id data w.
Proof. intros [] Hw. pose proof (ag_recvs0 id) as Hr. rewrite Hw in Hr. inversion Hr; subst. by eexists. Qed.

Lemma agree_on_offer id o a b data : agree o a b → standing o !! id = Some data → on_offer id id a b.
Proof.
  intros Ho Hid. destruct (agree_lookup _ _ _ _ _ Ho Hid) as (v & w & Hv & (_ & Hvr & _) & Hw & (_ & Hwi & Hwr & _) & _).
  unfold on_offer. rewrite (ag_no_send _ _ _ Ho), (ag_no_recv _ _ _ Ho).
  split_and!; [by exists v|done|by exists w| |done].
  intros k w' Hw' Hk. destruct (agree_recv _ _ _ _ _ Ho Hw') as (? & _ & ? & _). congruence.
Qed.

Lemma in_step_swap oa ob a b : in_step oa ob a b ↔ in_step ob oa b a.
Proof. unfold in_step. naive_solver. Qed.

Lemma in_step_same oa ob a b a' b' :
  in_step oa ob a b → idle cx a' → idle cx b' → n_id a' = n_id a → n_id b' = n_id b →
  tables (n_behav a') = tables (n_behav a) → tables (n_behav b') = tables (n_behav b) → in_step oa ob a' b'.
Proof.
  intros (_ & _ & Hab & Hba & Hoa & Hob) Ha Hb Hia Hib Hta Htb.
  pose proof Hta as [= Hca _ _ _ _ _ _]. pose proof Htb as [= Hcb _ _ _ _ _ _].
  unfold in_step. split_and!; try done; rewrite ?Hia, ?Hib, ?Hca, ?Hcb; try done.
  - apply (agree_halves oa a b); try done; by rewrite ?Hta, ?Htb.
  - apply (agree_halves ob b a); try done; by rewrite ?Hta, ?Htb.
Qed.

(** What is left when the offer [id] of [a] is taken back, or taken. *)
Lemma in_step_without id oa ob a b a' b' :
  in_step oa ob a b → taken_back cx id id a b a' b' → in_step (without id oa) ob a' b'.
Proof.
  intros (Ha & Hb & Hab & Hba & Hoa & Hob) (Ha' & Hb' & Hia & Hib & Hta & Htb).
  pose proof Hta as [= Hca _ _ _ _ _ _]. pose proof Htb as [= Hcb _ _ _ _ _ _].
  unfold in_step. split_and!; try done; rewrite ?Hia, ?Hib, ?Hca, ?Hcb; try done.
  - apply (agree_without id oa a b); try done; simpl; [by injection Hta as _ -> -> -> _ _ _|by injection Htb as _ _ _ _ -> -> ->].
  - apply (agree_halves ob b a); try done; simpl; [by injection Htb as _ -> -> -> _ _ _|by injection Hta as _ _ _ _ -> -> ->].
Qed.

Definition simulates (me : PeerId) (x : Act) (oa ob : Offers) (a b : Node) : Prop :=
  let '(oa', ob', e) := spec_act me x oa ob in
  ∃ a' b' h, act x a b = Return (a', b', h) ∧ meets e h ∧ in_step oa' ob' a' b' ∧ n_id a' = n_id a ∧ n_id b' = n_id b.
Lemma offer_simulates file path cb oa ob a b :
  in_step oa ob a b → act_ok (Offer file path cb) → (made oa + 1 < U64)%N →
  simulates (n_id a) (Offer file path cb) oa ob a b.
Proof.
  intros (Ha & Hb & Hab & Hba & Hoa & Hob) (Hmeta & Hos & Hshort & name & Hname & Hfits) Hlt.
  pose proof (ag_sent _ _ _ Hoa) as Hsent. pose proof (ag_heard _ _ _ Hoa) as Hheard.
  destruct (offer_crosses cx fuel now elapsed file path name cb a b _ Ha Hb Hab Hmeta Hname)
    as (s & a1 & b1 & Hs & Hturn & Hia & Hib & (Ha1 & Hb1 & Hob1 & Hqb1 & Hv' & Hw') &
        v & w & Hta & Hvi & Hvr & Htb & Hwl & Hwi & Hwr); [lia|lia|apply Hfits; lia|].
  destruct (turn_event cx fuel now elapsed b1 a1 _ _ Hb1 Hob1) as (d & Hturn2 & Hb2).
  unfold simulates. cbn [spec_act act]. rewrite Hname. unfold offer_file. rewrite Hs. cbn [obind].
  rewrite Hturn. cbn [obind]. rewrite Hturn2. cbn [obind].
  rewrite Hsent, Hheard in *. rewrite Hia. eexists _, _, _. split; [reflexivity|]. split; [done|]. split; [|by split].
  pose proof Hta as [= Hca _ Hpsa _ _ _ _]. pose proof Htb as [= Hcb _ _ _ _ Hprb _].
  assert (Hsv : sends (n_id b) (made oa) (File.rest file) v).
  { destruct Hv' as (v' & Hv' & ? & ? & ? & <-). rewrite Hpsa in Hv'. simpl in Hv'. rewrite lookup_insert_eq in Hv'.
    injection Hv' as ->. by split_and!. }
  assert (Hrw : receives (n_id a) (made oa) (File.rest file) w).
  { destruct Hw' as (w' & Hw' & ? & ? & ?). rewrite Hprb in Hw'. simpl in Hw'. rewrite lookup_insert_eq in Hw'.
    injection Hw' as ->. by split_and!. }
  unfold in_step. cbn [n_id n_behav with_behav connected_peers set_out_events set_expiry_check_throttle].
  split_and!; try done; rewrite ?Hia, ?Hib, ?Hca, ?Hcb; try done.
  - eapply (agree_offer oa _ a b _ _ v w); try done; simpl; [by injection Hta as _ -> -> -> _ _ _|by injection Htb as _ _ _ _ -> -> ->].
  - eapply (agree_halves ob b a); try done; simpl; [by injection Htb as _ -> -> -> _ _ _|by injection Hta as _ _ _ _ -> -> ->].
Qed.

(** A request about an offer that is not there: nothing happens. *)
Lemma nothing_to_take_back ev cb a b :
  idle cx a → idle cx b → push_event now ev (n_behav a) = Return (n_behav a, [Answered cb (AnsCancel (Err IdNotFound))]) →
  ∃ a' b', take_back ev a b =
      Return (a', b', {| replies := [Answered cb (AnsCancel (Err IdNotFound))]; mine := []; theirs := []; written := None |}) ∧
    idle cx a' ∧ idle cx b' ∧ n_id a' = n_id a ∧ n_id b' = n_id b ∧
    tables (n_behav a') = tables (n_behav a) ∧ tables (n_behav b') = tables (n_behav b).
Proof.
  intros (Ha & Hoa & Hqa) (Hb & Hob & Hqb) Hev. unfold take_back, cancel_file. rewrite Hev. cbn [obind].
  replace (with_behav (n_behav a) a) with a by by destruct a.
  destruct (pump_idle cx fuel now elapsed 2 a b Ha Hoa Hqa) as (d1 & -> & Ha1). cbn [obind].
  match goal with |- context [turn _ _ _ _ ?x ?y] => destruct (turn_idle cx fuel now elapsed x y Hb Hob Hqb) as (d3 & -> & Hb3) end.
  cbn [obind]. eexists _, _. split; [reflexivity|]. by split_and!.
Qed.

Lemma withdraw_simulates id cb oa ob a b :
  in_step oa ob a b → act_ok (Withdraw id cb) → (made oa < U64)%N → simulates (n_id a) (Withdraw id cb) oa ob a b.
Proof.
  intros Hin Hfits Hlt. pose proof Hin as (Ha & Hb & _ & _ & Hoa & _).
  unfold simulates. cbn [spec_act act]. unfold spec_cancel. destruct (standing oa !! id) as [data|] eqn:Hid.
  - destruct (agree_lookup _ _ _ _ _ Hoa Hid) as (_ & _ & _ & _ & _ & _ & Hidlt & _).
    destruct (cancel_by_sender cx fuel now elapsed id id cb a b Ha Hb (agree_on_offer id oa a b data Hoa Hid) ltac:(apply Hfits; lia))
      as (r & Hr & Hans & Hm & Ht & Hback).
    unfold take_back. rewrite Hr. cbn [obind]. rewrite Hans, Hm, Ht.
    eexists _, _, _. split; [reflexivity|]. split; [done|]. pose proof Hback as (_ & _ & ? & ? & _). split; [|by split].
    by apply (in_step_without id oa ob a b).
  - destruct (agree_unknown id oa a b Hoa Hid) as [Hps _].
    destruct (nothing_to_take_back (CancelSend id cb) cb a b Ha Hb) as (a' & b' & Hr & Ha' & Hb' & Hia & Hib & Hta & Htb).
    { cbn. unfold cancel_send_by_local_send_id, remove_send_record. by rewrite Hps, (ag_no_send _ _ _ Hoa). }
    eexists a', b', _. split; [exact Hr|]. split; [done|]. split; [|done]. by apply (in_step_same oa ob a b).
Qed.

Lemma refuse_simulates id cb oa ob a b :
  in_step oa ob a b → act_ok (Refuse id cb) → (made ob < U64)%N → simulates (n_id a) (Refuse id cb) oa ob a b.
Proof.
  intros Hin Hfits Hlt. pose proof Hin as (Ha & Hb & _ & _ & _ & Hob).
  unfold simulates. cbn [spec_act act]. unfold spec_cancel. destruct (standing ob !! id) as [data|] eqn:Hid.
  - destruct (agree_lookup _ _ _ _ _ Hob Hid) as (_ & _ & _ & _ & _ & _ & Hidlt & _).
    destruct (cancel_by_receiver cx fuel now elapsed id id cb b a Hb Ha (agree_on_offer id ob b a data Hob Hid) ltac:(apply Hfits; lia))
      as (r & Hr & Hans & Hm & Ht & Hback).
    unfold take_back. rewrite Hr. cbn [obind]. rewrite Hans, Hm, Ht.
    eexists _, _, _. split; [reflexivity|]. split; [done|]. pose proof Hback as (_ & _ & ? & ? & _). split; [|by split].
    apply in_step_swap. apply in_step_swap in Hin. by apply (in_step_without id ob oa b a).
  - destruct (agree_unknown id ob b a Hob Hid) as [_ Hpr].
    destruct (nothing_to_take_back (CancelRecv id cb) cb a b Ha Hb) as (a' & b' & Hr & Ha' & Hb' & Hia & Hib & Hta & Htb).
    { cbn. unfold cancel_recv_by_local_recv_id, remove_recv_record. by rewrite Hpr, (ag_no_recv _ _ _ Hob). }
    eexists a', b', _. split; [exact Hr|]. split; [done|]. split; [|done]. by apply (in_step_same oa ob a b).
Qed.

(** The tables of both sides, once a transfer is over. *)
Lemma sends_settled id s s' :
  ongoing_send s = ∅ → ongoing_send s' !! id = None → other_sends id s' = other_sends id s → tables s' = tables s.
Proof.
  intros E E' [= Hc Hsc Hps Hos Hrc Hpr Hor]. unfold tables. rewrite delete_id in Hos by done.
  by rewrite Hc, Hsc, Hps, Hos, Hrc, Hpr, Hor, E, delete_empty.
Qed.
Lemma recvs_settled id s s' :
  ongoing_recv s = ∅ → ongoing_recv s' !! id = None → other_recvs id s' = other_recvs id s → tables s' = tables s.
Proof.
  intros E E' [= Hc Hsc Hps Hos Hrc Hpr Hor]. unfold tables. rewrite delete_id in Hor by done.
  by rewrite Hc, Hsc, Hps, Hos, Hrc, Hpr, Hor, E, delete_empty.
Qed.

(** [a] takes the offer [id] of [b]. *)
Lemma accept_standing file id dir cb oa ob a b data :
  in_step oa ob a b → act_ok (Accept file id dir cb) → (made ob < U64)%N → standing ob !! id = Some data →
  ∃ a' b' h, take file id dir cb a b = Return (a', b', h) ∧ meets (Transferred id data (f_bytes file) cb) h ∧
    taken_back cx id id b a b' a'.
Proof.
  intros (Ha & Hb & _ & _ & _ & Hob) (Hend & Hwrites & Hfuel & Hfits) Hlt Hid.
  destruct (agree_lookup _ _ _ _ _ Hob Hid) as
    (v & w & Hv & (? & ? & ? & ? & ?) & Hw & (? & Hwi & ? & ?) & Hidlt & Hsmall & Hrounds).
  destruct (accept_completes cx fuel rounds now elapsed file dir cb id id data b a Hb Ha)
    as (r & ns & Hr & Hans & Hse & Hsort & Hhead & Hlast & Hre & Hclosed & Hia & Hib & Hna & Hnb & Hgone & Hgone' & Hfa & Hfb);
    try done; [by split; [exists v|exists w]|lia|apply Hfits; lia|].
  unfold take. rewrite Hr, Hw, Hwi. cbn [obind]. eexists _, _, _. split; [reflexivity|]. split.
  - split_and!; cbn; try done. by exists ns.
  - unfold taken_back. split_and!; try done.
    + apply (sends_settled id); [exact (ag_no_send _ _ _ Hob)|done|exact Hfa].
    + apply (recvs_settled id); [exact (ag_no_recv _ _ _ Hob)|done|exact Hfb].
Qed.

Lemma accept_unknown file id dir cb oa ob a b :
  in_step oa ob a b → standing ob !! id = None →
  ∃ a' b', take file id dir cb a b =
      Return (a', b', {| replies := [Answered cb (AnsAcceptFile (Err (FileRecvError.PendingRecvNotFound id)))];
                         mine := []; theirs := []; written := None |}) ∧
    in_step oa ob a' b' ∧ n_id a' = n_id a ∧ n_id b' = n_id b.
Proof.
  intros Hin Hid. pose proof Hin as ((Ha & Hoa & Hqa) & (Hb & Hob & Hqb) & _ & _ & _ & Ho).
  destruct (agree_unknown id ob b a Ho Hid) as [_ Hpr].
  unfold take, accept_file. cbn [push_event]. unfold accept_pending_recv. rewrite Hpr. cbn [obind handle_callback_sender].
  replace (with_behav (n_behav a) a) with a by by destruct a.
  destruct (turn_idle cx fuel now elapsed a b Ha Hoa Hqa) as (d1 & -> & Ha1). cbn [obind].
  match goal with |- context [pump _ _ _ _ _ ?x ?y] => destruct (pump_idle cx fuel now elapsed rounds x y Hb Hob Hqb) as (d2 & -> & Hb1) end.
  cbn [obind]. match goal with |- context [turn _ _ _ _ ?x ?y] => destruct (turn_idle cx fuel now elapsed x y Ha1 Hoa Hqa) as (d3 & -> & Ha2) end.
  cbn [obind]. eexists _, _. split; [reflexivity|]. split; [|done].
  apply (in_step_same oa ob a b); try done; by split_and!.
Qed.

Lemma accept_simulates file id dir cb oa ob a b :
  in_step oa ob a b → act_ok (Accept file id dir cb) → (made ob < U64)%N →
  simulates (n_id a) (Accept file id dir cb) oa ob a b.
Proof.
  intros Hin Hok Hlt. unfold simulates. cbn [spec_act act]. destruct (standing ob !! id) as [data|] eqn:Hid.
  - destruct (accept_standing file id dir cb oa ob a b data Hin Hok Hlt Hid) as (a' & b' & h & Hr & Hm & Hback).
    exists a', b', h. pose proof Hback as (_ & _ & ? & ? & _). split_and!; try done.
    apply in_step_swap. apply in_step_swap in Hin. by apply (in_step_without id ob oa b a).
  - destruct (accept_unknown file id dir cb oa ob a b Hin Hid) as (a' & b' & Hr & ? & ? & ?). by eexists a', b', _.
Qed.

Lemma act_simulates x oa ob a b :
  in_step oa ob a b → act_ok x → (made oa + 1 < U64)%N → (made ob < U64)%N → simulates (n_id a) x oa ob a b.
Proof.
  intros Hin Hok Hoa Hob. destruct x.
  - by apply offer_simulates.
  - apply withdraw_simulates; [done..|lia].
  - by apply refuse_simulates.
  - by apply accept_simulates.
Qed.
Lemma spec_act_made me x oa ob :
  let '(oa', ob', _) := spec_act me x oa ob in (made oa' ≤ made oa + 1)%N ∧ made ob' = made ob.
Proof.
  destruct x as [file path cb|id cb|id cb|file id dir cb]; simpl; unfold spec_cancel;
    [|destruct (standing oa !! id)|destruct (standing ob !! id)|destruct (standing ob !! id)]; simpl; split; (lia || done).
Qed.

Lemma session_simulates acts : ∀ oa ob a b,
  in_step oa ob a b → Forall (λ x, act_ok x.2) acts →
  (made oa + N.of_nat (length acts) < U64)%N → (made ob + N.of_nat (length acts) < U64)%N →
  let '(oa', ob', es) := spec_session (n_id a) (n_id b) acts oa ob in
  ∃ a' b' hs, session acts a b = Return (a', b', hs) ∧ Forall2 meets es hs ∧ in_step oa' ob' a' b'.
Proof.
  induction acts as [|[who x] acts IH]; intros oa ob a b Hin Hok Hla Hlb; [by exists a, b, []|].
  apply Forall_cons in Hok as [Hx Hok]. simpl in Hx. cbn [spec_session session]. simpl length in Hla, Hlb.
  destruct who.
  - pose proof (act_simulates x oa ob a b Hin Hx ltac:(lia) ltac:(lia)) as Hsim. unfold simulates in Hsim.
    pose proof (spec_act_made (n_id a) x oa ob) as Hmade.
    destruct (spec_act (n_id a) x oa ob) as [[oa1 ob1] e]. destruct Hmade as [Hm1 Hm2].
    destruct Hsim as (a1 & b1 & h & -> & Hm & Hin1 & Hia & Hib). cbn [obind].
    specialize (IH oa1 ob1 a1 b1 Hin1 Hok ltac:(lia) ltac:(lia)). rewrite Hia, Hib in IH.
    destruct (spec_session (n_id a) (n_id b) acts oa1 ob1) as [[oa2 ob2] es].
    destruct IH as (a2 & b2 & hs & -> & Hms & Hin2). cbn [obind]. exists a2, b2, (h :: hs). split_and!; try done. by constructor.
  - pose proof (proj1 (in_step_swap oa ob a b) Hin) as Hin'.
    pose proof (act_simulates x ob oa b a Hin' Hx ltac:(lia) ltac:(lia)) as Hsim. unfold simulates in Hsim.
    pose proof (spec_act_made (n_id b) x ob oa) as Hmade.
    destruct (spec_act (n_id b) x ob oa) as [[ob1 oa1] e]. destruct Hmade as [Hm1 Hm2].
    destruct Hsim as (b1 & a1 & h & -> & Hm & Hin1 & Hib & Hia). cbn [obind]. apply in_step_swap in Hin1.
    specialize (IH oa1 ob1 a1 b1 Hin1 Hok ltac:(lia) ltac:(lia)). rewrite Hia, Hib in IH.
    destruct (spec_session (n_id a) (n_id b) acts oa1 ob1) as [[oa2 ob2] es].
    destruct IH as (a2 & b2 & hs & -> & Hms & Hin2). cbn [obind]. exists a2, b2, (h :: hs). split_and!; try done. by constructor.
Qed.

(** ** What the applications list *)

(** [list_pending_send], [list_pending_recv]: the IDs. *)
Definition listed_sends (a : Node) : list N := SendInfo.local_send_id <$> list_send (n_behav a).
Definition listed_recvs (a : Node) : outcome (list N) :=
  infos ← list_recv (n_behav a);
  Return (RecvInfo.local_recv_id <$> infos).
Definition ids (o : Offers) : list N := elements (dom (standing o)).

(** The IDs of a table that is keyed by them, when the keys are those of [m]. *)
Lemma keyed_ids {A B} (R : N → A → B → Prop) (f : B → N) (m : gmap N A) (t : gmap N B) :
  map_Forall2 R m t → (∀ k a b, R k a b → f b = k) → (λ '(_, v), f v) <$> hm_iter t ≡ₚ elements (dom m).
Proof.
  intros Hm Hf. rewrite hm_iter_perm.
  assert ((λ '(_, v), f v) <$> map_to_list t = (map_to_list t).*1) as ->.
  { apply list_fmap_ext. intros i [k v] Hi. apply list_elem_of_lookup_2, elem_of_map_to_list in Hi.
    pose proof (Hm k) as Hk. rewrite Hi in Hk. inversion Hk; subst. by eapply Hf. }
  apply NoDup_Permutation; [apply NoDup_fst_map_to_list|apply NoDup_elements|].
  intros k. rewrite elem_of_elements, elem_of_dom, list_elem_of_fmap. pose proof (Hm k) as Hk. split.
  - intros ([k' v] & -> & Hv%elem_of_map_to_list). simpl in Hk. rewrite Hv in Hk. by inversion Hk.
  - intros [v Hv]. rewrite Hv in Hk. inversion Hk as [? b ? E1 E2|]; subst. exists (k, b).
    by rewrite elem_of_map_to_list.
Qed.

Lemma agree_sends o a b : agree o a b → listed_sends a ≡ₚ ids o.
Proof.
  intros []. unfold listed_sends, list_send, ids. rewrite ag_no_send0, hm_iter_empty. simpl.
  rewrite <-(keyed_ids _ PendingSend.local_send_id _ _ ag_sends0); [|by intros ??? (? & _)].
  rewrite <-list_fmap_compose. apply reflexive_eq, list_fmap_ext. by intros i [k v] _.
Qed.

Lemma agree_recvs o a b : agree o a b → ∃ l, listed_recvs b = Return l ∧ l ≡ₚ ids o.
Proof.
  intros []. unfold listed_recvs, list_recv, ids. rewrite ag_no_recv0, hm_iter_empty. simpl.
  eexists. split; [reflexivity|].
  rewrite <-(keyed_ids _ PendingRecv.local_recv_id _ _ ag_recvs0); [|by intros ??? (? & _)].
  rewrite <-list_fmap_compose. apply reflexive_eq, list_fmap_ext. by intros i [k v] _.
Qed.

(** Two nodes that have just connected. *)
Definition no_offers : Offers := {| made := 0; standing := ∅ |}.
Definition fresh_to (peer : PeerId) (s : Behaviour) : Prop :=
  ∃ cfg timer, s = set_expiry_check_throttle timer (set_connected_peers {[peer]} (new cfg)).
Definition just_connected (a b : Node) : Prop :=
  idle cx a ∧ idle cx b ∧ fresh_to (n_id b) (n_behav a) ∧ fresh_to (n_id a) (n_behav b).

Lemma just_connected_in_step a b : just_connected a b → in_step no_offers no_offers a b.
Proof.
  intros (Ha & Hb & (? & ? & Ea) & (? & ? & Eb)). unfold in_step. split_and!; try done.
  - rewrite Ea. simpl. set_solver.
  - rewrite Eb. simpl. set_solver.
  - split; rewrite ?Ea, ?Eb; simpl; try done; apply map_Forall2_empty.
  - split; rewrite ?Ea, ?Eb; simpl; try done; apply map_Forall2_empty.
Qed.

(** C13: two nodes implement the abstract session.  From the moment they are
    connected, whatever files they offer each other, take back, refuse and
    accept, in whatever order, also under numbers that do not exist: every request
    returns and is answered as the abstract session says, and both applications
    hear what it says; an accepted file is written in full behind what the
    destination held, its sender hears of the progress from 0 to the size; and
    afterwards each node lists as its sends, and the other as its receives,
    exactly the standing offers. *)
Theorem offers_stay_in_step acts a b :
  just_connected a b → Forall (λ x, act_ok x.2) acts → (N.of_nat (length acts) < U64)%N →
  let '(oa, ob, expected) := spec_session (n_id a) (n_id b) acts no_offers no_offers in
  ∃ a' b' heard ra rb, session acts a b = Return (a', b', heard) ∧ Forall2 meets expected heard ∧
    listed_sends a' ≡ₚ ids oa ∧ listed_recvs b' = Return rb ∧ rb ≡ₚ ids oa ∧
    listed_sends b' ≡ₚ ids ob ∧ listed_recvs a' = Return ra ∧ ra ≡ₚ ids ob.
Proof.
  intros Hc Hok Hlen.
  pose proof (session_simulates acts no_offers no_offers a b (just_connected_in_step a b Hc) Hok Hlen Hlen) as Hsim.
  destruct (spec_session _ _ _ _ _) as [[oa ob] es]. destruct Hsim as (a' & b' & hs & Hrun & Hm & _ & _ & _ & _ & Hoa & Hob).
  destruct (agree_recvs oa a' b' Hoa) as (rb & Hrb & Hpb). destruct (agree_recvs ob b' a' Hob) as (ra & Hra & Hpa).
  exists a', b', hs, ra, rb. split_and!; try done; by eapply agree_sends.
Qed.
End offers.

(** ** Witness: an offer each way, one refused, one taken, a number that does
    not exist *)
Section witnesses.
#[local] Existing Instance demo_codec.
#[local] Existing Instance demo_codec_laws.
#[local] Abbreviation cx0 := (0%N : @PollCx demo_platform).

Lemma demo_just_connected : just_connected cx0 (demo_node 8%N 7%N) (demo_node 7%N 8%N).
Proof.
  split_and!; try apply demo_idle; exists Config_default, (delay_new 5000); reflexivity.
Qed.

(** Any fuel beyond the longest message will do, for commands of a few bytes. *)
Lemma fits_short fuel ev :
  (MAX_BODY < N.of_nat fuel)%N → event_u64 ev → length (outgoing ev).1.2 < 100 → fits fuel ev.
Proof. intros Hfuel Hev Hl. unfold fits, MAX_BODY in *. split_and!; [done|lia|lia]. Qed.

Lemma demo_offer_ok fuel cb :
  (MAX_BODY < N.of_nat fuel)%N → act_ok (codec := demo_codec) fuel 8 (Offer demo_file "dir/a.txt" cb).
Proof.
  intros Hfuel. split; [reflexivity|]. split; [by intros i; exists 2|]. split; [split; vm_compute; [reflexivity|lia]|].
  exists "a.txt". split; [reflexivity|]. intros id Hid. rewrite U64_eq in Hid.
  apply fits_short; [done|by split; [exact Hid|]|].
  cbn [outgoing fst snd encode_IncomingFile demo_codec messages.if_remote_send_id messages.if_bytes_total messages.if_file_name].
  rewrite !length_app. unfold u64_to_be_bytes. rewrite !length_to_be. vm_compute. lia.
Qed.
Lemma demo_withdraw_ok fuel id cb : (MAX_BODY < N.of_nat fuel)%N → act_ok (codec := demo_codec) fuel 8 (Withdraw id cb).
Proof.
  intros Hfuel i Hi. rewrite U64_eq in Hi. apply fits_short; [done|exact Hi|].
  assert (length (outgoing (LocalCancelSend i)).1.2 = 8) as -> by apply length_to_be. lia.
Qed.
Lemma demo_refuse_ok fuel id cb : (MAX_BODY < N.of_nat fuel)%N → act_ok (codec := demo_codec) fuel 8 (Refuse id cb).
Proof.
  intros Hfuel i Hi. rewrite U64_eq in Hi. apply fits_short; [done|exact Hi|].
  assert (length (outgoing (LocalCancelRecv i)).1.2 = 8) as -> by apply length_to_be. lia.
Qed.
Lemma demo_accept_ok fuel id cb :
  (MAX_BODY < N.of_nat fuel)%N → act_ok (codec := demo_codec) fuel 8 (Accept demo_empty id "dl" cb).
Proof.
  intros Hfuel. split; [reflexivity|]. split; [by intros i; exists 1|]. split; [done|].
  intros i Hi. rewrite U64_eq in Hi. apply fits_short; [done|exact Hi|].
  assert (length (outgoing (HAcceptFile i cb)).1.2 = 8) as -> by apply length_to_be. lia.
Qed.

Definition demo_acts : list (bool * Act) :=
  [(true, Offer demo_file "dir/a.txt" (demo_cb 0)); (false, Offer demo_file "dir/a.txt" (demo_cb 1));
   (true, Offer demo_file "dir/a.txt" (demo_cb 2)); (false, Refuse 0 (demo_cb 3));
   (false, Accept demo_empty 1 "dl" (demo_cb 4)); (true, Withdraw 5 (demo_cb 5))].

Lemma demo_acts_ok fuel :
  (MAX_BODY < N.of_nat fuel)%N → Forall (λ x : bool * Act, act_ok (codec := demo_codec) fuel 8 x.2) demo_acts.
Proof.
  intros Hfuel. repeat apply Forall_cons_2; [..|apply Forall_nil_2]; cbn [snd].
  - by apply demo_offer_ok.
  - by apply demo_offer_ok.
  - by apply demo_offer_ok.
  - by apply demo_refuse_ok.
  - by apply demo_accept_ok.
  - by apply demo_withdraw_ok.
Qed.

Definition demo_expected : list Expected :=
  [Exactly [Answered (demo_cb 0) (AnsSendFile (Ok 0%N))] [] [IncomingFile (8%N : @PeerId demo_platform) "a.txt" 0 3];
   Exactly [Answered (demo_cb 1) (AnsSendFile (Ok 0%N))] [] [IncomingFile (7%N : @PeerId demo_platform) "a.txt" 0 3];
   Exactly [Answered (demo_cb 2) (AnsSendFile (Ok 1%N))] [] [IncomingFile (8%N : @PeerId demo_platform) "a.txt" 1 3];
   Exactly [Answered (demo_cb 3) (AnsCancel (Ok ()))] [CancelledRecv 0] [CancelledSend 0];
   Transferred 1 [Byte.x41; Byte.x41; Byte.x41] [] (demo_cb 4);
   Exactly [Answered (demo_cb 5) (AnsCancel (Err IdNotFound))] [] []].

Lemma offers_stay_in_step_witness :
  ∃ a' b' heard ra rb,
    session cx0 (N.to_nat (MAX_BODY + 1)) 8 1 5 demo_acts (demo_node 8%N 7%N) (demo_node 7%N 8%N) = Return (a', b', heard) ∧
    Forall2 (meets 5) demo_expected heard ∧
    listed_sends a' ≡ₚ [] ∧ listed_recvs b' = Return rb ∧ rb ≡ₚ [] ∧
    listed_sends b' ≡ₚ [0%N] ∧ listed_recvs a' = Return ra ∧ ra ≡ₚ [0%N].
Proof.
  set (fuel := N.to_nat (MAX_BODY + 1)).
  assert (Hfuel : (MAX_BODY < N.of_nat fuel)%N) by (unfold fuel; rewrite N2Nat.id; lia). clearbody fuel.
  exact (offers_stay_in_step cx0 fuel 8 1 5 demo_acts (demo_node 8%N 7%N) (demo_node 7%N 8%N)
    demo_just_connected (demo_acts_ok fuel Hfuel) eq_refl).
Defined.
End witnesses.
End BlobOffers.
