(* ===== verification/BlobTests.v ===== *)
(** * The tests of [blob.rs]

    Module [BlobTests]: the tests of the transfers, as programs on two nodes
    that have just connected (what [setup_peer] arrives at), and that each of
    them passes, whatever the file is.  They are sessions of [BlobOffers.v]. *)

From stdpp Require Import base gmap sets list strings fin_maps fin_map_dom.
From Stdlib Require Import Lia NArith Sorted.
From S2P Require Import Prelude Std Core Stream Wire BlobProtocol BlobTypes BlobHandler BlobHandlerProps.
From S2P Require Import BlobBehaviour BlobDemo BlobTransfer BlobWire BlobCancel BlobOffers.
Import BlobWire BlobCancel BlobOffers.

Module BlobTests.
Section tests.
Context {P : Platform} {codec : Codec} {laws : CodecLaws}.
Context {St : Type} {io : AsyncIO St} {rel : ReliableIO St} {net : Network St}.
Context (cx : PollCx) (fuel rounds : nat) (now elapsed : N).
(** The file that is sent; the new file in the temporary directory; the hash. *)
Context (SOURCE_FILE : File) (path : string) (dest : File) (dir : string) (cb : N → Callback).
Context (xxh3_128 : bytes → N).

Abbreviation Node := (@BlobWire.Node P St).
Abbreviation act := (BlobOffers.act cx fuel rounds now elapsed).
Abbreviation act_ok := (BlobOffers.act_ok fuel rounds).
Abbreviation in_step := (BlobOffers.in_step cx rounds).
Abbreviation just_connected := (BlobOffers.just_connected cx).

(** ** The helpers of the tests *)

(** [manager.executor().block_on(manager.blob().send_file(to, file)).unwrap()] *)
Definition send (k : N) (a b : Node) : outcome (Node * Node) :=
  ' (a, b, h) ← act (Offer SOURCE_FILE path (cb k)) a b;
  match replies h with
  | [Answered _ (AnsSendFile (Ok _))] => Return (a, b)
  | _ => Panic "called `Result::unwrap()` on an `Err` value"
  end.
(** [block_on(manager.blob().cancel_send(id))?], and the same for a receive. *)
Definition cancelled (r : outcome (Node * Node * Heard)) : outcome (Node * Node) :=
  ' (a, b, h) ← r;
  match replies h with
  | [Answered _ (AnsCancel (Ok _))] => Return (a, b)
  | _ => Panic "the test returns an error"
  end.
Definition nth_recv (i : nat) (b : Node) : outcome N :=
  ids ← listed_recvs b;
  expect (ids !! i) "index out of bounds".
Definition nth_send (i : nat) (a : Node) : outcome N := expect (listed_sends a !! i) "index out of bounds".

(** The listener returns at this event; without it, it waits on. *)
Definition is_whole (ev : OutEvent) : bool :=
  match ev with
  | RecvProgressed _ bytes_received bytes_total => (bytes_received =? bytes_total)%N
  | _ => false
  end.
(** [b] takes the file of [a]; also what is in the file then. *)
Definition wait_recv (k recv_id : N) (a b : Node) : outcome (Node * Node * option bytes) :=
  ' (b, a, h) ← act (Accept dest recv_id dir (cb k)) b a;
  match replies h with
  | [Answered _ (AnsAcceptFile (Ok _))] =>
      if existsb is_whole (mine h) then Return (a, b, written h) else OutOfFuel
  | _ => Panic "the test returns an error"
  end.
Definition verify_file (left_file_buf right_file_buf : bytes) : bool :=
  (xxh3_128 left_file_buf =? xxh3_128 right_file_buf)%N.
Definition send_recv (k : N) (a b : Node) : outcome (Node * Node) :=
  ' (a, b) ← send k a b;
  _ ← assert (length (listed_sends a) =? 1)%nat;
  recv_id ← nth_recv 0 b;
  ' (a, b, got) ← wait_recv (k + 1) recv_id a b;
  got ← expect got "the test returns an error";
  _ ← assert (verify_file (File.rest SOURCE_FILE) got);
  Return (a, b).

(** ** The tests *)
Definition single_send_recv (a b : Node) : outcome () :=
  _ ← send_recv 0 a b;
  Return ().

Definition multi_send_recv (a b : Node) : outcome () :=
  ' (a, b) ← send_recv 0 a b;
  ' (a, b) ← send_recv 2 a b;
  ' (b, a) ← send_recv 4 b a;
  ' (a, b) ← send_recv 6 a b;
  _ ← send_recv 8 b a;
  Return ().

Definition cancel_single_send (a b : Node) : outcome () :=
  ' (a, b) ← send 0 a b;
  _ ← nth_recv 0 b;
  ' (a, b) ← cancelled (act (Withdraw 0 (cb 1)) a b);
  ids ← listed_recvs b;
  assert (length ids =? 0)%nat.

Definition cancel_single_send_in_multiple (a b : Node) : outcome () :=
  ' (a, b) ← send 0 a b;
  ' (a, b) ← send 1 a b;
  ' (a, b) ← send 2 a b;
  ' (a, b) ← send 3 a b;
  _ ← nth_recv 2 b;
  ' (a, b) ← cancelled (act (Withdraw 2 (cb 4)) a b);
  ids ← listed_recvs b;
  _ ← assert (length ids =? 3)%nat;
  ids ← listed_recvs b;
  assert (negb (existsb (N.eqb 2) ids)).

Definition cancel_single_recv (a b : Node) : outcome () :=
  ' (a, b) ← send 0 a b;
  recv_id ← nth_recv 0 b;
  ' (b, a) ← cancelled (act (Refuse recv_id (cb 1)) b a);
  assert (length (listed_sends a) =? 0)%nat.

Definition cancel_single_recv_in_multiple (a b : Node) : outcome () :=
  ' (a, b) ← send 0 a b;
  ' (a, b) ← send 1 a b;
  ' (a, b) ← send 2 a b;
  ' (a, b) ← send 3 a b;
  _ ← nth_send 2 a;
  ' (b, a) ← cancelled (act (Refuse 2 (cb 4)) b a);
  _ ← assert (length (listed_sends a) =? 3)%nat;
  assert (negb (existsb (N.eqb 2) (listed_sends a))).

(** ** They pass *)

(** The file can be sent, the new one is empty and can be written, and the
    commands fit. *)
Context (Hsend : ∀ k, act_ok (Offer SOURCE_FILE path (cb k))).
Context (Hwithdraw : ∀ id k, act_ok (Withdraw id (cb k))) (Hrefuse : ∀ id k, act_ok (Refuse id (cb k))).
Context (Haccept : ∀ id k, act_ok (Accept dest id dir (cb k))) (Hnew : f_bytes dest = []).

Abbreviation data := (File.rest SOURCE_FILE).

Lemma send_in_step k oa ob a b : in_step oa ob a b → (made oa + 1 < U64)%N →
  ∃ a' b', send k a b = Return (a', b') ∧ in_step (and_offer data oa) ob a' b'.
Proof.
  intros Hin Hlt.
  destruct (offer_simulates cx fuel rounds now elapsed SOURCE_FILE path (cb k) oa ob a b Hin (Hsend k) Hlt)
    as (a' & b' & h & Hr & -> & Hin' & _).
  exists a', b'. split; [|done]. unfold send. by rewrite Hr.
Qed.

Lemma withdraw_in_step k id oa ob a b : in_step oa ob a b → is_Some (standing oa !! id) → (made oa < U64)%N →
  ∃ a' b', cancelled (act (Withdraw id (cb k)) a b) = Return (a', b') ∧ in_step (without id oa) ob a' b'.
Proof.
  intros Hin [d Hid] Hlt.
  pose proof (withdraw_simulates cx fuel rounds now elapsed id (cb k) oa ob a b Hin (Hwithdraw id k) Hlt) as Hsim.
  unfold simulates in Hsim. cbn [spec_act] in Hsim. unfold spec_cancel in Hsim. rewrite Hid in Hsim.
  destruct Hsim as (a' & b' & h & Hr & -> & Hin' & _). exists a', b'. split; [|done]. by rewrite Hr.
Qed.

Lemma refuse_in_step k id oa ob a b : in_step oa ob a b → is_Some (standing oa !! id) → (made oa < U64)%N →
  ∃ b' a', cancelled (act (Refuse id (cb k)) b a) = Return (b', a') ∧ in_step (without id oa) ob a' b'.
Proof.
  intros Hin%in_step_swap [d Hid] Hlt.
  pose proof (refuse_simulates cx fuel rounds now elapsed id (cb k) ob oa b a Hin (Hrefuse id k) Hlt) as Hsim.
  unfold simulates in Hsim. cbn [spec_act] in Hsim. unfold spec_cancel in Hsim. rewrite Hid in Hsim.
  destruct Hsim as (b' & a' & h & Hr & -> & Hin' & _). exists b', a'. apply in_step_swap in Hin'. split; [|done]. by rewrite Hr.
Qed.

Lemma wait_recv_in_step k id oa ob a b d : in_step oa ob a b → standing oa !! id = Some d → (made oa < U64)%N →
  ∃ a' b', wait_recv k id a b = Return (a', b', Some d) ∧ in_step (without id oa) ob a' b'.
Proof.
  intros Hin%in_step_swap Hid Hlt.
  pose proof (accept_simulates cx fuel rounds now elapsed dest id dir (cb k) ob oa b a Hin (Haccept id k) Hlt) as Hsim.
  unfold simulates in Hsim. cbn [spec_act] in Hsim. rewrite Hid in Hsim.
  destruct Hsim as (b' & a' & h & Hr & (Hans & Hmine & _ & Hwritten) & Hin' & _). exists a', b'. apply in_step_swap in Hin'.
  split; [|done]. unfold wait_recv. rewrite Hr. cbn [obind]. rewrite Hans, Hmine. cbn [existsb is_whole].
  by rewrite N.eqb_refl, Hwritten, Hnew.
Qed.

(** The lists a test looks at. *)
Lemma recvs_in_step oa ob a b : in_step oa ob a b → ∃ l, listed_recvs b = Return l ∧ l ≡ₚ ids oa.
Proof. intros (_ & _ & _ & _ & Hoa & _). by eapply agree_recvs. Qed.
Lemma sends_in_step oa ob a b : in_step oa ob a b → listed_sends a ≡ₚ ids oa.
Proof. intros (_ & _ & _ & _ & Hoa & _). by eapply agree_sends. Qed.

Lemma listed_length l o : l ≡ₚ ids o → length l = size (standing o).
Proof. intros ->. unfold ids. by rewrite <-size_dom. Qed.
Lemma in_ids id o : id ∈ ids o ↔ is_Some (standing o !! id).
Proof. unfold ids. by rewrite elem_of_elements, elem_of_dom. Qed.
Lemma not_listed id l o : l ≡ₚ ids (without id o) → negb (existsb (N.eqb id) l) = true.
Proof.
  intros Hp. apply negb_true_iff, not_true_iff_false. rewrite existsb_exists. intros (k & Hk & ->%N.eqb_eq).
  rewrite <-list_elem_of_In, Hp, in_ids in Hk. simpl in Hk. rewrite lookup_delete_eq in Hk. by destruct Hk.
Qed.

Lemma nth_recv_in_step i oa ob a b : in_step oa ob a b → i < size (standing oa) →
  ∃ id, nth_recv i b = Return id ∧ is_Some (standing oa !! id).
Proof.
  intros Hin Hi. unfold nth_recv. destruct (recvs_in_step _ _ _ _ Hin) as (l & -> & Hp). cbn [obind].
  rewrite <-(listed_length _ _ Hp) in Hi. destruct (lookup_lt_is_Some_2 l i Hi) as [id Hid]. exists id.
  rewrite Hid. split; [done|]. rewrite <-in_ids, <-Hp. by eapply list_elem_of_lookup_2.
Qed.
Lemma nth_send_in_step i oa ob a b : in_step oa ob a b → i < size (standing oa) → ∃ id, nth_send i a = Return id.
Proof.
  intros Hin Hi. unfold nth_send. rewrite <-(listed_length _ _ (sends_in_step _ _ _ _ Hin)) in Hi.
  destruct (lookup_lt_is_Some_2 _ i Hi) as [id Hid]. exists id. by rewrite Hid.
Qed.

(** A file is sent and received; nothing is left of it. *)
Lemma send_recv_in_step k oa ob a b :
  in_step oa ob a b → standing oa = ∅ → (made oa + 1 < U64)%N →
  ∃ a' b', send_recv k a b = Return (a', b') ∧ in_step {| made := made oa + 1; standing := ∅ |} ob a' b'.
Proof.
  intros Hin Hnone Hlt. unfold send_recv.
  destruct (send_in_step k _ _ _ _ Hin Hlt) as (a1 & b1 & -> & Hi1). cbn [obind].
  rewrite (listed_length _ _ (sends_in_step _ _ _ _ Hi1)). cbn [standing and_offer]. rewrite Hnone, insert_empty, map_size_singleton.
  destruct (nth_recv_in_step 0 _ _ _ _ Hi1) as (id & -> & [d Hid]).
  { cbn [standing and_offer]. rewrite Hnone, insert_empty, map_size_singleton. lia. }
  cbn [Nat.eqb assert obind]. pose proof Hid as Hd. cbn [standing and_offer] in Hd. rewrite Hnone, insert_empty in Hd.
  apply lookup_singleton_Some in Hd as [<- <-].
  destruct (wait_recv_in_step (k + 1) _ _ _ _ _ _ Hi1 Hid) as (a2 & b2 & -> & Hi2); [cbn [made and_offer]; lia|].
  cbn [obind expect]. unfold verify_file. rewrite N.eqb_refl. cbn [assert obind]. exists a2, b2. split; [done|].
  unfold without, and_offer in Hi2. cbn [made standing] in Hi2. by rewrite Hnone, delete_insert_eq, delete_empty in Hi2.
Qed.

Lemma single_file_passes a b : just_connected a b → single_send_recv a b = Return ().
Proof.
  intros Hi%(just_connected_in_step cx rounds). unfold single_send_recv.
  by destruct (send_recv_in_step 0 _ _ _ _ Hi) as (a1 & b1 & -> & _).
Qed.

Lemma multi_file_passes a b : just_connected a b → multi_send_recv a b = Return ().
Proof.
  intros Hi%(just_connected_in_step cx rounds). unfold multi_send_recv.
  destruct (send_recv_in_step 0 _ _ _ _ Hi) as (a1 & b1 & -> & Hi1); [done..|]. cbn [obind].
  destruct (send_recv_in_step 2 _ _ _ _ Hi1) as (a2 & b2 & -> & Hi2%in_step_swap); [done..|]. cbn [obind].
  destruct (send_recv_in_step 4 _ _ _ _ Hi2) as (b3 & a3 & -> & Hi3%in_step_swap); [done..|]. cbn [obind].
  destruct (send_recv_in_step 6 _ _ _ _ Hi3) as (a4 & b4 & -> & Hi4%in_step_swap); [done..|]. cbn [obind].
  by destruct (send_recv_in_step 8 _ _ _ _ Hi4) as (b5 & a5 & -> & _).
Qed.

Lemma four_sent oa ob a b : in_step oa ob a b → (made oa + 4 < U64)%N →
  ∃ a1 b1 a2 b2 a3 b3 a4 b4, send 0 a b = Return (a1, b1) ∧ send 1 a1 b1 = Return (a2, b2) ∧
    send 2 a2 b2 = Return (a3, b3) ∧ send 3 a3 b3 = Return (a4, b4) ∧
    in_step (and_offer data (and_offer data (and_offer data (and_offer data oa)))) ob a4 b4.
Proof.
  intros Hi Hlt.
  destruct (send_in_step 0 _ _ _ _ Hi) as (a1 & b1 & Hs1 & Hi1); [lia|].
  destruct (send_in_step 1 _ _ _ _ Hi1) as (a2 & b2 & Hs2 & Hi2); [simpl; lia|].
  destruct (send_in_step 2 _ _ _ _ Hi2) as (a3 & b3 & Hs3 & Hi3); [simpl; lia|].
  destruct (send_in_step 3 _ _ _ _ Hi3) as (a4 & b4 & Hs4 & Hi4); [simpl; lia|].
  exists a1, b1, a2, b2, a3, b3, a4, b4. by split_and!.
Qed.

Lemma cancel_single_send_passes a b : just_connected a b → cancel_single_send a b = Return ().
Proof.
  intros Hi%(just_connected_in_step cx rounds). unfold cancel_single_send.
  destruct (send_in_step 0 _ _ _ _ Hi) as (a1 & b1 & -> & Hi1); [done|]. cbn [obind].
  destruct (nth_recv_in_step 0 _ _ _ _ Hi1) as (id & -> & _); [vm_compute; lia|]. cbn [obind].
  destruct (withdraw_in_step 1 0 _ _ _ _ Hi1) as (a2 & b2 & -> & Hi2); [by eexists|done|]. cbn [obind].
  destruct (recvs_in_step _ _ _ _ Hi2) as (l & -> & Hp). cbn [obind].
  apply listed_length in Hp as ->. by vm_compute.
Qed.

Lemma cancel_single_send_in_multiple_passes a b :
  just_connected a b → cancel_single_send_in_multiple a b = Return ().
Proof.
  intros Hi%(just_connected_in_step cx rounds). unfold cancel_single_send_in_multiple.
  destruct (four_sent _ _ _ _ Hi) as (a1 & b1 & a2 & b2 & a3 & b3 & a4 & b4 & -> & H2 & H3 & H4 & Hi4); [done|].
  cbn [obind]. rewrite H2. cbn [obind]. rewrite H3. cbn [obind]. rewrite H4. cbn [obind].
  destruct (nth_recv_in_step 2 _ _ _ _ Hi4) as (id & -> & _); [vm_compute; lia|]. cbn [obind].
  destruct (withdraw_in_step 4 2 _ _ _ _ Hi4) as (a5 & b5 & -> & Hi5); [by eexists|done|]. cbn [obind].
  destruct (recvs_in_step _ _ _ _ Hi5) as (l & -> & Hp). cbn [obind].
  rewrite (not_listed 2 _ _ Hp). apply listed_length in Hp as ->. by vm_compute.
Qed.

Lemma cancel_single_recv_passes a b : just_connected a b → cancel_single_recv a b = Return ().
Proof.
  intros Hi%(just_connected_in_step cx rounds). unfold cancel_single_recv.
  destruct (send_in_step 0 _ _ _ _ Hi) as (a1 & b1 & -> & Hi1); [done|]. cbn [obind].
  destruct (nth_recv_in_step 0 _ _ _ _ Hi1) as (id & -> & Hid); [vm_compute; lia|]. cbn [obind].
  destruct (refuse_in_step 1 id _ _ _ _ Hi1 Hid) as (b2 & a2 & -> & Hi2); [done|]. cbn [obind].
  rewrite (listed_length _ _ (sends_in_step _ _ _ _ Hi2)).
  destruct Hid as [d Hd]. cbn [standing and_offer no_offers made] in Hd. rewrite insert_empty in Hd.
  apply lookup_singleton_Some in Hd as [<- _]. by vm_compute.
Qed.

Lemma cancel_single_recv_in_multiple_passes a b :
  just_connected a b → cancel_single_recv_in_multiple a b = Return ().
Proof.
  intros Hi%(just_connected_in_step cx rounds). unfold cancel_single_recv_in_multiple.
  destruct (four_sent _ _ _ _ Hi) as (a1 & b1 & a2 & b2 & a3 & b3 & a4 & b4 & -> & H2 & H3 & H4 & Hi4); [done|].
  cbn [obind]. rewrite H2. cbn [obind]. rewrite H3. cbn [obind]. rewrite H4. cbn [obind].
  destruct (nth_send_in_step 2 _ _ _ _ Hi4) as (id & ->); [vm_compute; lia|]. cbn [obind].
  destruct (refuse_in_step 4 2 _ _ _ _ Hi4) as (b5 & a5 & -> & Hi5); [by eexists|done|]. cbn [obind].
  pose proof (sends_in_step _ _ _ _ Hi5) as Hp. rewrite (not_listed 2 _ _ Hp).
  rewrite (listed_length _ _ Hp). by vm_compute.
Qed.

(** The tests pass, whatever the connection, the file and its name. *)
Lemma repository_tests_pass a b : just_connected a b →
  single_send_recv a b = Return () ∧ multi_send_recv a b = Return () ∧
  cancel_single_send a b = Return () ∧ cancel_single_send_in_multiple a b = Return () ∧
  cancel_single_recv a b = Return () ∧ cancel_single_recv_in_multiple a b = Return ().
Proof.
  intros H. split_and!; [by apply single_file_passes|by apply multi_file_passes|by apply cancel_single_send_passes|by apply cancel_single_send_in_multiple_passes
    |by apply cancel_single_recv_passes|by apply cancel_single_recv_in_multiple_passes].
Qed.
End tests.

(** On the connection of the examples, with any hash. *)
#[local] Existing Instance demo_codec.
#[local] Existing Instance demo_codec_laws.
Lemma repository_tests_pass_demo (xxh3_128 : bytes → N) fuel : (MAX_BODY < N.of_nat fuel)%N →
  multi_send_recv (0%N : @PollCx demo_platform) fuel 8 1 5 demo_file "dir/a.txt" demo_empty "dl" demo_cb xxh3_128
    (demo_node 8%N 7%N) (demo_node 7%N 8%N) = Return ().
Proof.
  intros Hfuel.
  destruct (repository_tests_pass (0%N : @PollCx demo_platform) fuel 8 1 5 demo_file "dir/a.txt" demo_empty "dl" demo_cb
    xxh3_128) with (a := demo_node 8%N 7%N) (b := demo_node 7%N 8%N) as (_ & H & _).
  - intros k. by apply demo_offer_ok.
  - intros id k. by apply demo_withdraw_ok.
  - intros id k. by apply demo_refuse_ok.
  - intros id k. by apply demo_accept_ok.
  - done.
  - apply demo_just_connected.
  - exact H.
Qed.
End BlobTests.
