(* ===== verification/BlobAsync.v ===== *)
(** * Two blob behaviours, with any interleaving

    Module [BlobAsync]: two connected nodes whose applications make requests,
    whose swarms poll, whose handlers send, acknowledge and report, each when it
    likes.  A handler sends its commands one at a time and in order, and reports
    the acknowledgement ([BlobHandlerProps]); what the other's handler receives
    waits until its behaviour is told.  Every transfer of such a run is a run of
    [TransferSpec]. *)

From stdpp Require Import base gmap sets list strings relations fin_maps fin_map_dom.
From Stdlib Require Import Lia NArith.
From S2P Require Import Prelude Std Core BlobTypes BlobHandler BlobHandlerProps BlobBehaviour BlobDemo.
From S2P Require Import BlobBehaviourProps BlobReceive BlobSafety BlobTransfer TransferSpec.
Import TransferSpec.

Module BlobAsync.
Section async.
Context {P : Platform} {codec : Codec}.
(** Whether every file on offer can be read to its end. *)
Context (R : Prop).

#[local] Abbreviation tsteps := (rtc (tstep R)).
#[local] Abbreviation good := (TransferSpec.good R).

(** ** The nodes and their steps *)

(** A node: its behaviour, what its handler has still to send, what it sent and
    waits to be acknowledged, what it has for its behaviour.  The last two fields
    keep what the requests named: the contents of the files offered, and those of
    the destinations, under the sender's number. *)
Record Half := MkHalf {
  self : PeerId;
  behav : Behaviour;
  commands : list FromBehaviourEvent;
  unacked : option FromBehaviourEvent;
  heard : list ToBehaviourEvent;
  offers : gmap N bytes;
  dests : gmap N bytes;
}.

Inductive Label :=
| Request (now : N) (ev : InEvent)
| Polled (cx : PollCx) (now : N)
| Delivered
| Acknowledged (rtt : N)
| Told (now : N).

Definition offers_after (ev : InEvent) (s : Behaviour) (offers : gmap N bytes) : gmap N bytes :=
  match ev with
  | SendFile file _ to _ =>
      if decide (to ∈ connected_peers s) then
        match File.metadata_len file with Ok _ => <[send_counter s := File.rest file]> offers | Err _ => offers end
      else offers
  | _ => offers
  end.
Definition dests_after (ev : InEvent) (s : Behaviour) (dests : gmap N bytes) : gmap N bytes :=
  match ev with
  | AcceptFile file lid _ _ =>
      match pending_recv s !! lid with
      | Some v => <[PendingRecv.remote_send_id v := f_bytes file]> dests
      | None => dests
      end
  | _ => dests
  end.

(** One step of [x]; [y] is the other node.  A step that has nothing to do leaves
    everything as it is. *)
Definition half_step (fuel : nat) (l : Label) (x y : Half) : outcome (Half * Half * list Output) :=
  match l with
  | Request now ev =>
      ' (s, sent) ← push_event now ev (behav x);
      Return (MkHalf (self x) s (commands x) (unacked x) (heard x)
                (offers_after ev (behav x) (offers x)) (dests_after ev (behav x) (dests x)), y, Replied <$> sent)
  | Polled cx now =>
      ' (s, p) ← BlobBehaviour.poll cx now (behav x);
      let new := match p with
                 | Ready (NotifyHandler to _ ev) => if decide (to = self y) then [ev] else []
                 | _ => []
                 end in
      Return (MkHalf (self x) s (commands x ++ new) (unacked x) (heard x) (offers x) (dests x), y,
              match p with Ready ev => [Emitted ev] | Pending => [] end)
  | Delivered =>
      match unacked x, commands x with
      | None, ev :: evs =>
          Return (MkHalf (self x) (behav x) evs (Some ev) (heard x) (offers x) (dests x),
                  MkHalf (self y) (behav y) (commands y) (unacked y) (heard y ++ [dual ev]) (offers y) (dests y), [])
      | _, _ => Return (x, y, [])
      end
  | Acknowledged rtt =>
      match unacked x with
      | Some ev =>
          let ack := match ack_event (event_job ev, rtt) with Some ack => [ack] | None => [] end in
          Return (MkHalf (self x) (behav x) (commands x) None (heard x ++ ack) (offers x) (dests x), y, [])
      | None => Return (x, y, [])
      end
  | Told now =>
      match heard x with
      | ev :: evs =>
          s ← on_connection_handler_event fuel now (self y) ev (behav x);
          Return (MkHalf (self x) s (commands x) (unacked x) evs (offers x) (dests x), y, [])
      | [] => Return (x, y, [])
      end
  end.

(** Any sequence of steps; [true] is the first node. *)
Fixpoint run (fuel : nat) (ls : list (bool * Label)) (x y : Half) : outcome (Half * Half) :=
  match ls with
  | [] => Return (x, y)
  | (true, l) :: ls => ' (x, y, _) ← half_step fuel l x y; run fuel ls x y
  | (false, l) :: ls => ' (y, x, _) ← half_step fuel l y x; run fuel ls x y
  end.

(** ** A transfer in a state of the system *)

(** What is under way from [x] to the behaviour of [y], in order. *)
Definition queued (s : Behaviour) : list ToBehaviourEvent :=
  omap (λ ev, match ev with NotifyHandler _ _ ev => Some (dual ev) | _ => None end) (pending_handler_event s).
Definition path (x y : Half) : list ToBehaviourEvent := heard y ++ (dual <$> commands x) ++ queued (behav x).

Definition item_of (id : N) (ev : ToBehaviourEvent) : option Item :=
  match ev with
  | HIncomingFile _ i _ => if decide (i = id) then Some Announce else None
  | HRecvProgressed i c => if decide (i = id) then Some (Chunk c) else None
  | RemoteCancelRecv i => if decide (i = id) then Some Cancel else None
  | _ => None
  end.
Definition reply_of (id : N) (ev : ToBehaviourEvent) : option Reply :=
  match ev with
  | FileSendAccepted i => if decide (i = id) then Some Accepted else None
  | RemoteCancelSend i => if decide (i = id) then Some Refused else None
  | _ => None
  end.

Definition src_of (id : N) (s : Behaviour) : Source :=
  match pending_send s !! id with
  | Some v => Offered (File.rest (PendingSend.file v))
  | None =>
      match ongoing_send s !! id with
      | Some r => Reading (File.rest (OngoingFileSend.file_handle r))
      | None => Absent
      end
  end.
Definition waiting_of (id : N) (s : Behaviour) : gset N :=
  dom (filter (λ '(_, v), PendingRecv.remote_send_id v = id) (pending_recv s)).
Definition dst_of (id : N) (s : Behaviour) : option (bytes * N) :=
  (λ r, (f_bytes (OngoingFileRecv.file_handle r), OngoingFileRecv.bytes_received r)) <$> ongoing_recv s !! id.

(** The transfer [id] from the behaviour [sx] to the behaviour [sy]. *)
Definition view (id : N) (off dst : gmap N bytes) (sx sy : Behaviour) (pxy pyx : list ToBehaviourEvent) : Transfer :=
  MkTransfer (bool_decide (id < send_counter sx)%N) (off !! id) (dst !! id) (src_of id sx)
    (omap (item_of id) pxy) (waiting_of id sy) (dst_of id sy) (omap (reply_of id) pyx).
Definition transfer_of (id : N) (x y : Half) : Transfer :=
  view id (offers x) (dests y) (behav x) (behav y) (path x y) (path y x).

(** ** What a behaviour does to the transfers it sends and receives *)

(** A behaviour with one peer. *)
Record local (p : PeerId) (s : Behaviour) : Prop := {
  lo_conn : connected_peers s ⊆ {[p]};
  lo_pending_send k v : pending_send s !! k = Some v →
    PendingSend.local_send_id v = k ∧ PendingSend.remote v = p ∧ ongoing_send s !! k = None ∧ (k < send_counter s)%N ∧
    (R → File.os_reliable (PendingSend.file v));
  lo_ongoing_send k r : ongoing_send s !! k = Some r →
    OngoingFileSend.local_send_id r = k ∧ OngoingFileSend.remote r = p ∧ (k < send_counter s)%N ∧
    (R → File.os_reliable (OngoingFileSend.file_handle r));
  lo_pending_recv k v : pending_recv s !! k = Some v → PendingRecv.remote v = p;
  lo_ongoing_recv k r : ongoing_recv s !! k = Some r →
    OngoingFileRecv.remote r = p ∧ OngoingFileRecv.remote_send_id r = k ∧ File.at_end (OngoingFileRecv.file_handle r);
  lo_queue : ∃ evs, pending_handler_event s = NotifyHandler p Any <$> evs;
}.

(** [s] becomes [s'] and queues [new]; [pop] is what it has been told.  The two
    clauses are about the transfer [id] it sends, and the one it receives. *)
Definition sends_as (id : N) (pop : list ToBehaviourEvent) (off off' : gmap N bytes) (s s' : Behaviour)
    (new : list FromBehaviourEvent) : Prop :=
  ∀ dst sy pxy pyx, good (view id off dst s sy pxy (pop ++ pyx)) →
    tsteps (view id off dst s sy pxy (pop ++ pyx)) (view id off' dst s' sy (pxy ++ (dual <$> new)) pyx).
Definition receives_as (id : N) (pop : list ToBehaviourEvent) (dst dst' : gmap N bytes) (s s' : Behaviour)
    (new : list FromBehaviourEvent) : Prop :=
  ∀ off sy pxy pyx, good (view id off dst sy s (pop ++ pyx) pxy) →
    tsteps (view id off dst sy s (pop ++ pyx) pxy) (view id off dst' sy s' pyx (pxy ++ (dual <$> new))).

Definition moves (p : PeerId) (pop : list ToBehaviourEvent) (off off' dst dst' : gmap N bytes) (s s' : Behaviour) : Prop :=
  local p s' ∧ (send_counter s ≤ send_counter s' ≤ send_counter s + 1)%N ∧
  ∃ new, pending_handler_event s' = pending_handler_event s ++ (NotifyHandler p Any <$> new) ∧
    ∀ id, sends_as id pop off off' s s' new ∧ receives_as id pop dst dst' s s' new.

(** Nothing changes for a transfer. *)
Lemma view_same id off off' dst dst' sx sx' sy sy' pxy pxy' pyx pyx' :
  ((id < send_counter sx)%N ↔ (id < send_counter sx')%N) → off !! id = off' !! id → dst !! id = dst' !! id →
  src_of id sx = src_of id sx' → waiting_of id sy = waiting_of id sy' → dst_of id sy = dst_of id sy' →
  omap (item_of id) pxy = omap (item_of id) pxy' → omap (reply_of id) pyx = omap (reply_of id) pyx' →
  view id off dst sx sy pxy pyx = view id off' dst' sx' sy' pxy' pyx'.
Proof. intros Hc H1 H2 H3 H4 H5 H6 H7. unfold view. rewrite H1, H2, H3, H4, H5, H6, H7. f_equal. by apply bool_decide_ext. Qed.
Lemma tsteps_eq t t' : t = t' → tsteps t t'.
Proof. by intros ->. Qed.

(** Events that say nothing to the receiver of a transfer, to its sender. *)
Definition no_item (evs : list ToBehaviourEvent) : Prop := ∀ id, omap (item_of id) evs = [].
Definition no_reply (evs : list ToBehaviourEvent) : Prop := ∀ id, omap (reply_of id) evs = [].

Lemma sends_as_same id pop off off' s s' new :
  ((id < send_counter s)%N ↔ (id < send_counter s')%N) → off !! id = off' !! id → src_of id s = src_of id s' →
  omap (reply_of id) pop = [] → omap (item_of id) (dual <$> new) = [] → sends_as id pop off off' s s' new.
Proof.
  intros Hc Ho Hs H1 H2 dst sy pxy pyx _. apply tsteps_eq, view_same; try done;
    by rewrite ?omap_app, ?H1, ?H2, ?app_nil_r.
Qed.
Lemma receives_as_same id pop dst dst' s s' new :
  dst !! id = dst' !! id → waiting_of id s = waiting_of id s' → dst_of id s = dst_of id s' →
  omap (item_of id) pop = [] → omap (reply_of id) (dual <$> new) = [] → receives_as id pop dst dst' s s' new.
Proof.
  intros Hd Hw Ho H1 H2 off sy pxy pyx _. apply tsteps_eq, view_same; try done;
    by rewrite ?omap_app, ?H1, ?H2, ?app_nil_r.
Qed.

(** One step of the transfer is enough. *)
Lemma sends_as_step id pop off off' s s' new r i :
  omap (reply_of id) pop = r → omap (item_of id) (dual <$> new) = i →
  (∀ bf p w o k, tstep R (MkTransfer (bool_decide (id < send_counter s)%N) (off !! id) bf (src_of id s) p w o (r ++ k))
     (MkTransfer (bool_decide (id < send_counter s')%N) (off' !! id) bf (src_of id s') (p ++ i) w o k)) →
  sends_as id pop off off' s s' new.
Proof. intros <- <- H dst sy pxy pyx _. apply rtc_once. unfold view. rewrite !omap_app. apply H. Qed.
Lemma receives_as_step id pop dst dst' s s' new i r :
  omap (item_of id) pop = i → omap (reply_of id) (dual <$> new) = r →
  (∀ b d sr p k,
     let t := MkTransfer b d (dst !! id) sr (i ++ p) (waiting_of id s) (dst_of id s) k in
     good t → tstep R t (MkTransfer b d (dst' !! id) sr p (waiting_of id s') (dst_of id s') (k ++ r))) →
  receives_as id pop dst dst' s s' new.
Proof.
  intros <- <- H off sy pxy pyx. unfold view. rewrite !omap_app. intros Hg. apply rtc_once, H. exact Hg.
Qed.

Lemma moves_send p pop off off' dst s s' new :
  local p s' → (send_counter s ≤ send_counter s' ≤ send_counter s + 1)%N →
  pending_handler_event s' = pending_handler_event s ++ (NotifyHandler p Any <$> new) →
  pending_recv s' = pending_recv s → ongoing_recv s' = ongoing_recv s → no_item pop → no_reply (dual <$> new) →
  (∀ id, sends_as id pop off off' s s' new) → moves p pop off off' dst dst s s'.
Proof.
  intros Hl Hc Hq Hpr Hor Hpop Hnew Hs. split; [done|]. split; [done|]. exists new. split; [done|].
  intros id. split; [done|]. apply receives_as_same; try done; unfold waiting_of, dst_of; by rewrite ?Hpr, ?Hor.
Qed.
Lemma moves_recv p pop off dst dst' s s' new :
  local p s' → send_counter s' = send_counter s →
  pending_handler_event s' = pending_handler_event s ++ (NotifyHandler p Any <$> new) →
  pending_send s' = pending_send s → ongoing_send s' = ongoing_send s → no_reply pop → no_item (dual <$> new) →
  (∀ id, receives_as id pop dst dst' s s' new) → moves p pop off off dst dst' s s'.
Proof.
  intros Hl Hc Hq Hps Hos Hpop Hnew Hr. split; [done|]. split; [lia|]. exists new. split; [done|].
  intros id. split; [|done]. apply sends_as_same; try done; unfold src_of; by rewrite ?Hc, ?Hps, ?Hos.
Qed.

(** Nothing but what the application hears changes. *)
Lemma moves_nothing p pop off dst s s' :
  local p s' → send_counter s' = send_counter s → pending_handler_event s' = pending_handler_event s →
  pending_send s' = pending_send s → ongoing_send s' = ongoing_send s →
  pending_recv s' = pending_recv s → ongoing_recv s' = ongoing_recv s → no_item pop → no_reply pop →
  moves p pop off off dst dst s s'.
Proof.
  intros Hl Hc Hq Hps Hos Hpr Hor Hi Hr. apply (moves_recv _ _ _ _ _ _ _ []); try done; [by rewrite app_nil_r|].
  intros id. apply receives_as_same; try done; unfold waiting_of, dst_of; by rewrite ?Hpr, ?Hor.
Qed.

Lemma moves_trans p pop off off1 off2 dst dst1 dst2 s s1 s2 :
  moves p pop off off1 dst dst1 s s1 → moves p [] off1 off2 dst1 dst2 s1 s2 → send_counter s2 = send_counter s1 →
  moves p pop off off2 dst dst2 s s2.
Proof.
  intros (_ & Hc1 & new1 & Hq1 & H1) (Hl & Hc2 & new2 & Hq2 & H2) Hc. split; [done|]. split; [by rewrite Hc|].
  exists (new1 ++ new2). split; [by rewrite Hq2, Hq1, fmap_app, app_assoc|].
  intros id. destruct (H1 id) as [Hs1 Hr1], (H2 id) as [Hs2 Hr2]. split.
  - intros d sy pxy pyx Hg. rewrite fmap_app, app_assoc. etransitivity; [by apply Hs1|].
    apply (Hs2 d sy _ pyx). simpl. eapply tsteps_good; [|exact Hg]. by apply Hs1.
  - intros o sy pxy pyx Hg. rewrite fmap_app, app_assoc. etransitivity; [by apply Hr1|].
    apply (Hr2 o sy _ pyx). simpl. eapply tsteps_good; [|exact Hg]. by apply Hr1.
Qed.

(** With fewer records a behaviour still has one peer. *)
Lemma local_shrinks p s s' new :
  local p s → connected_peers s' = connected_peers s → send_counter s' = send_counter s →
  pending_send s' ⊆ pending_send s → ongoing_send s' ⊆ ongoing_send s →
  pending_recv s' ⊆ pending_recv s → ongoing_recv s' ⊆ ongoing_recv s →
  pending_handler_event s' = pending_handler_event s ++ (NotifyHandler p Any <$> new) → local p s'.
Proof.
  intros [] Hc Hsc Hps Hos Hpr Hor Hq. split; rewrite ?Hc, ?Hsc; try done.
  - intros k v Hv. destruct (lo_pending_send0 k v) as (? & ? & ? & ? & ?); [by eapply lookup_weaken|].
    split_and!; try done. by eapply lookup_weaken_None.
  - intros k r Hr. apply lo_ongoing_send0. by eapply lookup_weaken.
  - intros k v Hv. by eapply lo_pending_recv0, lookup_weaken.
  - intros k r Hr. by eapply lo_ongoing_recv0, lookup_weaken.
  - destruct lo_queue0 as [evs Hevs]. exists (evs ++ new). by rewrite Hq, Hevs, fmap_app.
Qed.

(** ** Sending *)

(** One send changes. *)
Lemma moves_send_one p i pop off dst s s' new :
  local p s' → send_counter s' = send_counter s →
  pending_handler_event s' = pending_handler_event s ++ (NotifyHandler p Any <$> new) →
  pending_recv s' = pending_recv s → ongoing_recv s' = ongoing_recv s → no_item pop → no_reply (dual <$> new) →
  (∀ id, id ≠ i → src_of id s' = src_of id s ∧ omap (reply_of id) pop = [] ∧ omap (item_of id) (dual <$> new) = []) →
  sends_as i pop off off s s' new → moves p pop off off dst dst s s'.
Proof.
  intros Hl Hc Hq Hpr Hor Hpop Hnew Hid Hi. apply (moves_send _ _ _ _ _ _ _ new); try done; [lia|].
  intros id. destruct (decide (id = i)) as [->|Hne]; [done|]. destruct (Hid id Hne) as (H1 & H2 & H3).
  apply sends_as_same; try done. by rewrite Hc.
Qed.

(** Commands and events about [i]. *)
Lemma item_of_other id i ev : id ≠ i →
  match ev with HIncomingFile _ j _ | HRecvProgressed j _ | RemoteCancelRecv j => j = i | _ => True end →
  omap (item_of id) [ev] = [].
Proof. intros Hne. destruct ev; simpl; try done; intros ->; by rewrite decide_False. Qed.
Lemma reply_of_other id i ev : id ≠ i →
  match ev with FileSendAccepted j | RemoteCancelSend j => j = i | _ => True end → omap (reply_of id) [ev] = [].
Proof. intros Hne. destruct ev; simpl; try done; intros ->; by rewrite decide_False. Qed.

Lemma remove_send_record_spec p i s : local p s →
  let '(r, s') := remove_send_record i s in
  local p s' ∧ send_counter s' = send_counter s ∧ pending_handler_event s' = pending_handler_event s ∧
  pending_recv s' = pending_recv s ∧ ongoing_recv s' = ongoing_recv s ∧
  src_of i s' = Absent ∧ (∀ id, id ≠ i → src_of id s' = src_of id s) ∧
  match r with Some remote => remote = p ∧ (i < send_counter s)%N | None => s' = s end.
Proof.
  intros Hl. pose proof Hl as []. unfold remove_send_record.
  destruct (pending_send s !! i) as [v|] eqn:Hps; [|destruct (ongoing_send s !! i) as [r|] eqn:Hos].
  - destruct (lo_pending_send0 i v Hps) as (_ & Hr & Hno & ? & _). split_and!; try done.
    + apply (local_shrinks p s _ []); simpl; rewrite ?app_nil_r; auto with wf.
    + unfold src_of. simpl. by rewrite lookup_delete_eq, Hno.
    + intros id Hne. unfold src_of. simpl. by rewrite lookup_delete_ne.
  - destruct (lo_ongoing_send0 i r Hos) as (_ & Hr & ? & _). split_and!; try done.
    + apply (local_shrinks p s _ []); simpl; rewrite ?app_nil_r; auto with wf.
    + unfold src_of. simpl. by rewrite Hps, lookup_delete_eq.
    + intros id Hne. unfold src_of. simpl. by rewrite lookup_delete_ne.
  - split_and!; try done. unfold src_of. by rewrite Hps, Hos.
Qed.

Lemma local_pushes p s ev : local p s → local p (push_out ev s).
Proof. intros []. by split. Qed.
Lemma local_notifies p s ev : local p s → local p (notify_any p ev s).
Proof. intros []. split; try done. destruct lo_queue0 as [evs Hevs]. exists (evs ++ [ev]). simpl. by rewrite Hevs, fmap_app. Qed.

Lemma cancel_send_moves p i off dst s : local p s →
  moves p [] off off dst dst s (cancel_send_by_local_send_id i s).2 ∧
  send_counter (cancel_send_by_local_send_id i s).2 = send_counter s.
Proof.
  intros Hl. unfold cancel_send_by_local_send_id. pose proof (remove_send_record_spec p i s Hl) as H.
  destruct (remove_send_record i s) as [[remote|] s']; destruct H as (Hl' & Hc & Hq & Hpr & Hor & Hi & Hid & Hr); simpl.
  - destruct Hr as [-> Hborn]. split; [|done].
    apply (moves_send_one p i _ _ _ _ _ [LocalCancelSend i]); try done; [by apply local_notifies|simpl; by rewrite Hq|..].
    + intros id Hne. split_and!; [by apply Hid|done|by apply (item_of_other id i)].
    + apply (sends_as_step i _ _ _ _ _ _ [] [Cancel]); [done|simpl; by rewrite decide_True|]. intros bf q w o k.
      change (src_of i (notify_any p (LocalCancelSend i) s')) with (src_of i s'). simpl. rewrite Hi, Hc.
      apply t_withdraw. by apply bool_decide_eq_true.
  - subst. split; [|done]. by apply moves_nothing.
Qed.

(** The sender reads a chunk. *)
Lemma progress_ongoing_send_cases p now i s s' : local p s → progress_ongoing_send now i s = Return s' →
  match ongoing_send s !! i with
  | None => s' = s
  | Some r =>
      local p s' ∧ send_counter s' = send_counter s ∧ pending_recv s' = pending_recv s ∧ ongoing_recv s' = ongoing_recv s ∧
      pending_send s' = pending_send s ∧ delete i (ongoing_send s') = delete i (ongoing_send s) ∧
      out_events s' = out_events s ∧
      ((pending_handler_event s' = pending_handler_event s ∧ ongoing_send s' !! i = None ∧ ¬ R) ∨
       ∃ buf rem, File.rest (OngoingFileSend.file_handle r) = buf ++ rem ∧ (buf = [] → rem = []) ∧
         pending_handler_event s' = pending_handler_event s ++ [NotifyHandler p Any (FileChunk i buf)] ∧
         match buf with
         | [] => ongoing_send s' !! i = None
         | _ => ∃ r', ongoing_send s' !! i = Some r' ∧ File.rest (OngoingFileSend.file_handle r') = rem
         end)
  end.
Proof.
  intros Hl. unfold progress_ongoing_send. destruct (ongoing_send s !! i) as [r|] eqn:Hr; [|by intros [= <-]].
  pose proof Hl as []. destruct (lo_ongoing_send0 i r Hr) as (Hid & Hrem & Hlt & Hos).
  destruct (File.read FILE_CHUNK_SIZE (OngoingFileSend.file_handle r)) as [[buf|e] f] eqn:Hread; intros H.
  - apply bind_return in H as (sent & _ & H). apply File.read_ok in Hread as (Hrest & _ & Hnil & _ & Hfos). rewrite Hrem, Hid in H.
    assert (Hnil' : buf = [] → File.rest f = []).
    { intros ->. destruct (Hnil eq_refl) as [?|E]; [done|]. by rewrite E in Hrest. }
    destruct (Nat.eqb_spec (length buf) 0) as [E|E].
    + apply nil_length_inv in E as ->. injection H as <-. simpl. rewrite delete_insert_eq, delete_delete_eq, lookup_delete_eq.
      split_and!; try done.
      * apply (local_shrinks p s _ [FileChunk i []]); simpl; auto with wf.
      * right. exists [], (File.rest f). by split_and!.
    + injection H as <-. simpl. rewrite delete_insert_eq, lookup_insert_eq. split_and!; try done.
      * split; simpl; try done.
        -- intros k v Hv. destruct (lo_pending_send0 k v Hv) as (? & ? & Hn & ? & ?). split_and!; try done.
           destruct (decide (k = i)) as [->|Hne]; [congruence|]. by rewrite lookup_insert_ne.
        -- intros k r'. rewrite lookup_insert_Some. intros [[<- <-]|[? ?]]; [|by apply lo_ongoing_send0].
           split_and!; try done. intros HR. unfold File.os_reliable. cbn. rewrite Hfos. by apply Hos.
        -- destruct lo_queue0 as [evs Hevs]. exists (evs ++ [FileChunk i buf]). by rewrite Hevs, fmap_app.
      * right. exists buf, (File.rest f). split_and!; try done. destruct buf; [done|]. by eexists.
  - injection H as <-. simpl. rewrite delete_delete_eq, lookup_delete_eq. split_and!; try done.
    + apply (local_shrinks p s _ []); simpl; rewrite ?app_nil_r; auto with wf.
    + left. split_and!; try done. intros HR. destruct (Hos HR (f_calls (OngoingFileSend.file_handle r))) as [n Hn].
      unfold File.read in Hread. by rewrite Hn in Hread.
Qed.

Lemma ongoing_is_read p i s r : local p s → ongoing_send s !! i = Some r →
  pending_send s !! i = None ∧ src_of i s = Reading (File.rest (OngoingFileSend.file_handle r)).
Proof.
  intros [] Hr. assert (pending_send s !! i = None) as Hn.
  { apply eq_None_not_Some. intros [v Hv]. destruct (lo_pending_send0 i v Hv) as (_ & _ & ? & _). congruence. }
  split; [done|]. unfold src_of. by rewrite Hn, Hr.
Qed.

(** A read, when [pop] says nothing to the transfers. *)
Lemma progress_ongoing_send_moves p pop now i off dst s s' : local p s → no_item pop → no_reply pop →
  progress_ongoing_send now i s = Return s' → moves p pop off off dst dst s s' ∧ send_counter s' = send_counter s.
Proof.
  intros Hl Hpi Hpr' Hp. apply (progress_ongoing_send_cases p) in Hp; [|done].
  destruct (ongoing_send s !! i) as [r|] eqn:Hr; [|subst; split; [by apply moves_nothing|done]].
  destruct Hp as (Hl' & Hc & Hpr & Hor & Hps & Hos & _ & Hread). split; [|done].
  destruct (ongoing_is_read p i s r Hl Hr) as [Hni Hsi].
  assert (Hother : ∀ id, id ≠ i → src_of id s' = src_of id s).
  { intros id Hne. unfold src_of. rewrite Hps. apply (f_equal (lookup id)) in Hos. rewrite !lookup_delete_ne in Hos by done. by rewrite Hos. }
  destruct Hread as [(Hq & Hn & HR)|(buf & rem & Hrest & Hnil & Hq & Hbuf)].
  - apply (moves_send_one p i _ _ _ _ _ []); try done; [by rewrite Hq, app_nil_r|intros id Hne; split_and!; [by apply Hother|apply Hpr'|done]|].
    apply (sends_as_step i _ _ _ _ _ _ [] []); [apply Hpr'|done|]. intros bf q w o k.
    rewrite Hsi, Hc, app_nil_r. replace (src_of i s') with Absent by (unfold src_of; by rewrite Hps, Hni, Hn). by apply t_fail.
  - apply (moves_send_one p i _ _ _ _ _ [FileChunk i buf]); try done.
    { intros id Hne. split_and!; [by apply Hother|apply Hpr'|by apply (item_of_other id i)]. }
    apply (sends_as_step i _ _ _ _ _ _ [] [Chunk buf]); [apply Hpr'|simpl; by rewrite decide_True|]. intros bf q w o k.
    rewrite Hsi, Hc, Hrest. assert (src_of i s' = after_read buf rem) as ->; [|by apply t_read].
    unfold src_of. rewrite Hps, Hni. destruct buf; [by rewrite Hbuf|]. by destruct Hbuf as (r' & -> & <-).
Qed.

(** The acceptance makes the pending send an ongoing one. *)
Lemma begin_moves p now i off dst s v : local p s → pending_send s !! i = Some v →
  let r := {| OngoingFileSend.local_send_id := PendingSend.local_send_id v; OngoingFileSend.remote := PendingSend.remote v;
              OngoingFileSend.bytes_total := PendingSend.bytes_total v; OngoingFileSend.file_handle := PendingSend.file v;
              OngoingFileSend.file_path := PendingSend.file_path v; OngoingFileSend.bytes_sent := 0;
              OngoingFileSend.last_active := now |} in
  moves p [FileSendAccepted i] off off dst dst s
    (set_ongoing_send (<[PendingSend.local_send_id v := r]> (ongoing_send s)) (set_pending_send (delete i (pending_send s)) s)).
Proof.
  intros Hl Hv r. pose proof Hl as []. destruct (lo_pending_send0 i v Hv) as (Hid & Hrem & Hno & Hlt & Hos). rewrite Hid.
  apply (moves_send_one p i _ _ _ _ _ []); try done; [|by rewrite app_nil_r|..].
  - split; simpl; try done.
    + intros k w. rewrite lookup_delete_Some. intros [Hne Hw]. destruct (lo_pending_send0 k w Hw) as (? & ? & ? & ? & ?).
      split_and!; try done. by rewrite lookup_insert_ne.
    + intros k w. rewrite lookup_insert_Some. intros [[<- <-]|[? ?]]; [by split_and!|by apply lo_ongoing_send0].
  - intros id Hne. split_and!; [|by apply (reply_of_other id i)|done].
    unfold src_of. simpl. by rewrite lookup_delete_ne, lookup_insert_ne.
  - apply (sends_as_step i _ _ _ _ _ _ [Accepted] []); [simpl; by rewrite decide_True|done|]. intros bf q w o k.
    unfold src_of. simpl. rewrite Hv, lookup_delete_eq, lookup_insert_eq, app_nil_r. apply t_begin.
Qed.

Lemma send_accepted_moves p now i off dst s r s' : local p s → pending_send_accepted now i s = Return (r, s') →
  moves p [FileSendAccepted i] off off dst dst s s' ∧ send_counter s' = send_counter s.
Proof.
  intros Hl. unfold pending_send_accepted. destruct (pending_send s !! i) as [v|] eqn:Hv.
  - intros H. cbn [expect obind] in H. apply bind_return in H as (s2 & Hp & [= _ <-]).
    pose proof (begin_moves p now i off dst s v Hl Hv) as Hb. cbv zeta in Hb.
    apply (progress_ongoing_send_moves p [] now _ off dst) in Hp as [Hm Hc]; [|by destruct Hb|done..].
    split; [by eapply moves_trans|]. by rewrite Hc.
  - destruct (ongoing_send s !! i) eqn:Ho; [intros H; discriminate H|]. intros [= _ <-]. split; [|done].
    apply (moves_send_one p i _ _ _ _ _ []); try done; [by rewrite app_nil_r|..].
    + intros id Hne. split_and!; [done|by apply (reply_of_other id i)|done].
    + apply (sends_as_step i _ _ _ _ _ _ [Accepted] []); [simpl; by rewrite decide_True|done|]. intros bf q w o k.
      rewrite app_nil_r. apply t_late. unfold src_of. by rewrite Hv, Ho.
Qed.

(** A request to send. *)
Lemma send_file_moves p now file path to cb off dst s s' sent : local p s → (send_counter s + 1 < U64)%N →
  (N.of_nat (length (File.rest file)) < U64)%N → (R → File.os_reliable file) → send_file now file path to cb s = Return (s', sent) →
  moves p [] off (offers_after (SendFile file path to cb) s off) dst dst s s'.
Proof.
  intros Hl Hlt Hsmall Hrel. pose proof Hl as []. unfold send_file, next_send_id. rewrite u64_add_small by done. cbn [obind].
  assert (Hborn : ∀ id, id ≠ send_counter s → (id < send_counter s)%N ↔ (id < send_counter s + 1)%N) by lia.
  assert (Hno : bool_decide (send_counter s < send_counter s)%N = false) by (apply bool_decide_eq_false_2; lia).
  assert (Hyes : bool_decide (send_counter s < send_counter s + 1)%N = true) by (apply bool_decide_eq_true_2; lia).
  assert (Hburn : ∀ s1, send_counter s1 = (send_counter s + 1)%N → pending_handler_event s1 = pending_handler_event s →
    tables (set_send_counter (send_counter s) s1) = tables s → moves p [] off off dst dst s s1).
  { intros s1 Hc Hq [= Hco Hps Hos _ Hpr Hor]. apply (moves_send _ _ _ _ _ _ _ []); try done; [|lia|by rewrite Hq, app_nil_r|].
    - split; rewrite ?Hco, ?Hps, ?Hos, ?Hpr, ?Hor, ?Hq, ?Hc; try done.
      + intros k v Hv. destruct (lo_pending_send0 k v Hv) as (? & ? & ? & ? & ?). split_and!; try done. lia.
      + intros k v Hv. destruct (lo_ongoing_send0 k v Hv) as (? & ? & ? & ?). split_and!; try done. lia.
    - intros id. destruct (decide (id = send_counter s)) as [->|Hne].
      + apply (sends_as_step _ _ _ _ _ _ _ [] []); [done..|]. intros bf q w o k. unfold src_of.
        rewrite Hc, Hps, Hos, app_nil_r, Hno, Hyes. apply t_burn.
      + apply sends_as_same; try done; [rewrite Hc; by apply Hborn|]. unfold src_of. by rewrite Hps, Hos. }
  cbn [connected_peers set_send_counter offers_after]. destruct (decide (to ∈ connected_peers s)) as [Hto|Hto].
  2: { intros H. apply bind_return in H as (l & _ & [= <- _]). by apply Hburn. }
  apply lo_conn0, elem_of_singleton in Hto as ->.
  destruct (File.metadata_len file) as [total|e]; [|intros [= <- _]; by apply Hburn].
  intros H. apply bind_return in H as (name & _ & [= <- _]).
  apply (moves_send _ _ _ _ _ _ _ [NewFileSend name (send_counter s) cb total]); try done; [|simpl; lia|].
  - split; simpl; try done.
    + intros k v. rewrite lookup_insert_Some. intros [[<- <-]|[? Hv]].
      * split_and!; try done; [|lia]. apply eq_None_not_Some. intros [r Hr].
        destruct (lo_ongoing_send0 _ r Hr) as (_ & _ & ? & _). lia.
      * destruct (lo_pending_send0 k v Hv) as (? & ? & ? & ? & ?). split_and!; try done. lia.
    + intros k v Hv. destruct (lo_ongoing_send0 k v Hv) as (? & ? & ? & ?). split_and!; try done. lia.
    + destruct lo_queue0 as [evs Hevs]. exists (evs ++ [NewFileSend name (send_counter s) cb total]). by rewrite Hevs, fmap_app.
  - intros id. destruct (decide (id = send_counter s)) as [->|Hne].
    + apply (sends_as_step _ _ _ _ _ _ _ [] [Announce]); [done|simpl; by rewrite decide_True|]. intros bf q w o k.
      unfold src_of at 2. simpl. rewrite !lookup_insert_eq, Hno, Hyes. by apply t_offer.
    + apply sends_as_same; try done; [by apply Hborn|by rewrite lookup_insert_ne| |simpl; by rewrite decide_False].
      unfold src_of. simpl. by rewrite lookup_insert_ne.
Qed.

(** ** Receiving *)

Lemma dst_of_eq id s s' : ongoing_recv s' !! id = ongoing_recv s !! id → dst_of id s' = dst_of id s.
Proof. intros E. unfold dst_of. by rewrite E. Qed.
Lemma waiting_of_eq id s s' : pending_recv s' = pending_recv s → waiting_of id s' = waiting_of id s.
Proof. intros E. unfold waiting_of. by rewrite E. Qed.

(** A chunk. *)
Lemma progress_ongoing_recv_moves p fuel now i content off dst s s' : local p s →
  progress_ongoing_recv fuel now i content s = Return s' → moves p [HRecvProgressed i content] off off dst dst s s'.
Proof.
  intros Hl. pose proof Hl as []. unfold progress_ongoing_recv.
  assert (Hpop : ∀ id, id ≠ i → omap (item_of id) [HRecvProgressed i content] = []) by (intros id Hne; by apply (item_of_other id i)).
  assert (Hpop_i : omap (item_of i) [HRecvProgressed i content] = [Chunk content]) by (simpl; by rewrite decide_True).
  (* the record is gone, or is not there *)
  assert (Hclosed : ∀ s1, tables s1 = tables (set_ongoing_recv (delete i (ongoing_recv s)) s) →
    pending_handler_event s1 = pending_handler_event s → moves p [HRecvProgressed i content] off off dst dst s s1).
  { intros s1 [= Hco Hsc Hps Hos Hrc Hpr Hor] Hq.
    apply (moves_recv _ _ _ _ _ _ _ []); try done; [|by rewrite Hq, app_nil_r|].
    - apply (local_shrinks p s s1 []); rewrite ?Hps, ?Hos, ?Hpr, ?Hor, ?Hq, ?app_nil_r; auto with wf.
    - intros id. destruct (decide (id = i)) as [->|Hne].
      + apply (receives_as_step _ _ _ _ _ _ _ [Chunk content] []); [done..|]. intros b d sr q k t _. unfold t.
        rewrite app_nil_r, (waiting_of_eq i s s1 Hpr). unfold dst_of at 2. rewrite Hor, lookup_delete_eq. apply t_close.
      + apply receives_as_same; try done; [symmetry; by apply waiting_of_eq| |by apply Hpop].
        symmetry. apply dst_of_eq. by rewrite Hor, lookup_delete_ne. }
  destruct (ongoing_recv s !! i) as [r|] eqn:Hr.
  2: { intros [= <-]. apply Hclosed; [|done]. unfold tables. simpl. by rewrite delete_id. }
  destruct (Nat.eqb_spec (length content) 0) as [E|E].
  { destruct (negb _); intros [= <-]; by apply Hclosed. }
  intros H. apply bind_return in H as ([f [n|e]] & Hw & H); [|injection H as <-; by apply Hclosed].
  apply bind_return in H as (received & Hadd & [= <-]). destruct (lo_ongoing_recv0 i r Hr) as (Hrem & Hid & Hend).
  assert (Hne : content ≠ []) by (by intros ->). apply write_chunk_ok in Hw as (-> & Hend' & Hb); [|done..].
  apply (moves_recv _ _ _ _ _ _ _ []); try done; [|by rewrite app_nil_r|].
  - split; simpl; try done. intros k r'. rewrite insert_delete_eq, lookup_insert_Some.
    intros [[<- <-]|[? ?]]; [done|by apply lo_ongoing_recv0].
  - intros id. destruct (decide (id = i)) as [->|Hid'].
    + apply (receives_as_step _ _ _ _ _ _ _ [Chunk content] []); [done..|]. intros b d sr q k t. unfold t, dst_of. simpl.
      rewrite Hr, lookup_insert_eq, app_nil_r. simpl. intros Hg. eapply tstep_good in Hg as Hg'; [|by apply t_write].
      destruct (good_written _ _ _ _ Hg' eq_refl) as (d' & b' & got & Hd & _ & _ & Hn & Hpre & _).
      apply prefix_length in Hpre. pose proof (g_small _ _ Hg' d' Hd) as Hsmall.
      rewrite u64_add_small in Hadd by lia. injection Hadd as <-. rewrite Hb. by apply t_write.
    + apply receives_as_same; try done; [|by apply Hpop].
      symmetry. apply dst_of_eq. simpl. by rewrite lookup_insert_ne, lookup_delete_ne.
Qed.

(** The announced transfers at the receiver. *)
Lemma waiting_of_delete id lid s s' : pending_recv s' = delete lid (pending_recv s) →
  waiting_of id s' = waiting_of id s ∖ {[lid]}.
Proof. intros E. unfold waiting_of. by rewrite E, map_filter_delete, dom_delete_L. Qed.
Lemma waiting_of_insert id lid v s s' : pending_recv s' = <[lid := v]> (pending_recv s) →
  waiting_of id s' = if decide (PendingRecv.remote_send_id v = id) then {[lid]} ∪ waiting_of id s else waiting_of id s ∖ {[lid]}.
Proof.
  intros E. unfold waiting_of. rewrite E. destruct (decide _).
  - by rewrite map_filter_insert_True, dom_insert_L.
  - by rewrite map_filter_insert_False, map_filter_delete, dom_delete_L.
Qed.
Lemma elem_of_waiting id lid s :
  lid ∈ waiting_of id s ↔ ∃ v, pending_recv s !! lid = Some v ∧ PendingRecv.remote_send_id v = id.
Proof.
  unfold waiting_of. rewrite elem_of_dom. split.
  - intros [v [Hv Hid]%map_lookup_filter_Some]. by exists v.
  - intros (v & Hv & Hid). exists v. by apply map_lookup_filter_Some.
Qed.

(** A local number is free again: whoever waited under it. *)
Lemma receives_as_forget id lid pop dst s s' new :
  pending_recv s' = delete lid (pending_recv s) → ongoing_recv s' !! id = ongoing_recv s !! id →
  omap (item_of id) pop = [] → omap (reply_of id) (dual <$> new) = [] → receives_as id pop dst dst s s' new.
Proof.
  intros Hpr Hor H1 H2. apply (receives_as_step _ _ _ _ _ _ _ [] []); [done..|]. intros b d sr q k t _. unfold t.
  rewrite (waiting_of_delete id lid s s' Hpr), (dst_of_eq id s s' Hor), app_nil_r. apply t_forget.
Qed.

(** An announcement. *)
Lemma on_new_pending_recv_moves p now name i total off dst s s' : local p s →
  on_new_pending_recv now p name i total s = Return s' → moves p [HIncomingFile name i total] off off dst dst s s'.
Proof.
  intros Hl. pose proof Hl as []. unfold on_new_pending_recv, next_recv_id. intros H.
  apply bind_return in H as ([lid s1] & H1 & [= <-]). apply bind_return in H1 as (c & _ & [= <- <-]).
  apply (moves_recv _ _ _ _ _ _ _ []); try done; [|by rewrite app_nil_r|].
  - split; simpl; try done. intros k v. rewrite lookup_insert_Some. intros [[<- <-]|[? ?]]; [done|by eapply lo_pending_recv0].
  - intros id. apply (receives_as_step _ _ _ _ _ _ _ (if decide (i = id) then [Announce] else []) []); [simpl; by destruct (decide _)|done|].
    intros b d sr q k t _. unfold t.
    match goal with |- context [waiting_of id ?s2] => rewrite (waiting_of_insert id _ _ s s2 eq_refl) end.
    simpl. rewrite app_nil_r. destruct (decide (i = id)); [apply t_announced|apply t_forget].
Qed.

(** The request to accept. *)
Lemma accept_pending_recv_moves p now file path lid cb off dst s : local p s → File.at_end file →
  moves p [] off off dst (dests_after (AcceptFile file lid path cb) s dst) s (accept_pending_recv now file path lid cb s).1.
Proof.
  intros Hl Hend. pose proof Hl as []. unfold accept_pending_recv, dests_after.
  destruct (pending_recv s !! lid) as [v|] eqn:Hv; [|by apply moves_nothing]. rewrite (lo_pending_recv0 lid v Hv). simpl.
  apply (moves_recv _ _ _ _ _ _ _ [HAcceptFile (PendingRecv.remote_send_id v) cb]); try done.
  - split; simpl; try done.
    + intros k w. rewrite lookup_delete_Some. intros [_ Hw]. by eapply lo_pending_recv0.
    + intros k r. rewrite lookup_insert_Some. intros [[<- <-]|[? ?]]; [done|by apply lo_ongoing_recv0].
    + destruct lo_queue0 as [evs Hevs]. exists (evs ++ [HAcceptFile (PendingRecv.remote_send_id v) cb]). by rewrite Hevs, fmap_app.
  - intros id. destruct (decide (id = PendingRecv.remote_send_id v)) as [->|Hne].
    + apply (receives_as_step _ _ _ _ _ _ _ [] [Accepted]); [done|simpl; by rewrite decide_True|]. intros b d sr q k t _. unfold t.
      match goal with |- context [waiting_of ?id (notify_any ?q ?e ?s2)] => rewrite (waiting_of_delete id lid s (notify_any q e s2) eq_refl) end.
      unfold dst_of at 2. simpl. rewrite !lookup_insert_eq. apply t_accept. apply elem_of_waiting. by exists v.
    + apply (receives_as_step _ _ _ _ _ _ _ [] []); [done|simpl; by rewrite decide_False|]. intros b d sr q k t _. unfold t.
      match goal with |- context [waiting_of ?id (notify_any ?q ?e ?s2)] => rewrite (waiting_of_delete id lid s (notify_any q e s2) eq_refl) end.
      unfold dst_of. simpl. rewrite !lookup_insert_ne by done. rewrite app_nil_r. apply t_forget.
Qed.

(** A receive is given up: an announced one, or one under way. *)
Lemma refuse_moves p i off dst s s' :
  local p s' → send_counter s' = send_counter s →
  pending_handler_event s' = pending_handler_event s ++ [NotifyHandler p Any (LocalCancelRecv i)] →
  pending_send s' = pending_send s → ongoing_send s' = ongoing_send s → (∀ id, id ≠ i → receives_as id [] dst dst s s' [LocalCancelRecv i]) →
  (∀ b d sr q k, tstep R (MkTransfer b d (dst !! i) sr q (waiting_of i s) (dst_of i s) k)
     (MkTransfer b d (dst !! i) sr q (waiting_of i s') (dst_of i s') (k ++ [Refused]))) →
  moves p [] off off dst dst s s'.
Proof.
  intros Hl Hc Hq Hps Hos Hid Hi. apply (moves_recv _ _ _ _ _ _ _ [LocalCancelRecv i]); try done.
  intros id. destruct (decide (id = i)) as [->|Hne]; [|by apply Hid].
  apply (receives_as_step _ _ _ _ _ _ _ [] [Refused]); [done|simpl; by rewrite decide_True|]. intros b d sr q k t _. apply Hi.
Qed.

Lemma cancel_recv_moves p lid off dst s : local p s →
  moves p [] off off dst dst s (cancel_recv_by_local_recv_id lid s).2 ∧
  send_counter (cancel_recv_by_local_recv_id lid s).2 = send_counter s.
Proof.
  intros Hl. pose proof Hl as []. unfold cancel_recv_by_local_recv_id, remove_recv_record.
  destruct (pending_recv s !! lid) as [v|] eqn:Hv; [|destruct (ongoing_recv s !! lid) as [r|] eqn:Hr].
  - rewrite (lo_pending_recv0 lid v Hv). split; [|done].
    apply (refuse_moves p (PendingRecv.remote_send_id v)); try done.
    + eapply (local_shrinks p s _ [LocalCancelRecv (PendingRecv.remote_send_id v)]); simpl; auto with wf.
    + intros id Hne. eapply receives_as_forget; try done. by apply (reply_of_other id (PendingRecv.remote_send_id v)).
    + intros b d sr q k. cbn [snd].
      match goal with |- context [waiting_of ?id (push_out ?e ?s2)] => rewrite (waiting_of_delete id lid s (push_out e s2) eq_refl) end.
      apply t_refuse, elem_of_waiting. by exists v.
  - destruct (lo_ongoing_recv0 lid r Hr) as (-> & -> & _). split; [|done].
    apply (refuse_moves p lid); try done.
    + eapply (local_shrinks p s _ [LocalCancelRecv lid]); simpl; auto with wf.
    + intros id Hne. apply receives_as_same; try done; [|by apply (reply_of_other id lid)].
      symmetry. apply dst_of_eq. simpl. by rewrite lookup_delete_ne.
    + intros b d sr q k. simpl. unfold dst_of. simpl. rewrite Hr, lookup_delete_eq. apply t_drop.
  - split; [|done]. by apply moves_nothing.
Qed.

(** The sender has given up: the transfer is forgotten, whether it waits or is
    under way.  It does not do both ([good]), which is why it is enough to look
    for one. *)
Lemma remove_recv_by_remote_moves p i off dst s : local p s →
  let '(r, s') := remove_recv_by_remote_send_id i s in
  local p s' ∧ moves p [RemoteCancelRecv i] off off dst dst s s'.
Proof.
  intros Hl. pose proof Hl as [].
  assert (Hpop_i : omap (item_of i) [RemoteCancelRecv i] = [Cancel]) by (simpl; by rewrite decide_True).
  assert (Hgo : ∀ s', local p s' → send_counter s' = send_counter s → pending_handler_event s' = pending_handler_event s →
    pending_send s' = pending_send s → ongoing_send s' = ongoing_send s →
    (∀ id, id ≠ i → receives_as id [RemoteCancelRecv i] dst dst s s' []) → dst_of i s' = None →
    (size (waiting_of i s) + open (dst_of i s) ≤ 1 → waiting_of i s' = ∅) →
    moves p [RemoteCancelRecv i] off off dst dst s s').
  { intros s' Hl' Hc Hq Hps Hos Hid Hd Hw. apply (moves_recv _ _ _ _ _ _ _ []); try done; [by rewrite app_nil_r|].
    intros id. destruct (decide (id = i)) as [->|Hne]; [|by apply Hid].
    apply (receives_as_step _ _ _ _ _ _ _ [Cancel] []); [done..|]. intros b d sr q k t Hg. unfold t.
    rewrite Hd, Hw, app_nil_r; [apply t_cancelled|]. pose proof (g_once _ _ Hg) as H. unfold known, t in H. cbn [pipe waiting TransferSpec.dst] in H. lia. }
  unfold remove_recv_by_remote_send_id.
  destruct (ongoing_recv s !! i) as [r|] eqn:Hr;
    [|destruct (list_find_pending s i) as [(k & v & n & -> & Hk & Hv)|[-> Hf]]].
  - assert (local p (set_ongoing_recv (delete i (ongoing_recv s)) s)).
    { apply (local_shrinks p s _ []); simpl; rewrite ?app_nil_r; auto with wf. }
    split; [done|]. apply Hgo; try done.
    + intros id Hne. apply receives_as_same; try done; [|by apply (item_of_other id i)].
      symmetry. apply dst_of_eq. simpl. by rewrite lookup_delete_ne.
    + unfold dst_of. simpl. by rewrite lookup_delete_eq.
    + unfold dst_of. rewrite Hr. cbn [fmap option_fmap option_map open]. intros Hs.
      rewrite (waiting_of_eq i s) by done. apply leibniz_equiv, size_empty_inv. lia.
  - assert (local p (set_pending_recv (delete k (pending_recv s)) s)).
    { apply (local_shrinks p s _ []); simpl; rewrite ?app_nil_r; auto with wf. }
    split; [done|]. apply Hgo; try done.
    + intros id Hne. eapply receives_as_forget; try done. by apply (item_of_other id i).
    + unfold dst_of. simpl. by rewrite Hr.
    + intros Hs. rewrite (waiting_of_delete i k s) by done. assert (k ∈ waiting_of i s) as Hin by (apply elem_of_waiting; by exists v).
      apply leibniz_equiv, size_empty_inv. pose proof (size_minus_in _ _ Hin). lia.
  - split; [done|]. apply Hgo; try done.
    + intros id Hne. apply receives_as_same; try done. by apply (item_of_other id i).
    + unfold dst_of. by rewrite Hr.
    + intros _. apply set_eq. intros k. rewrite elem_of_waiting. split; [|set_solver]. intros (v & Hv & Hid).
      by destruct (Hf k v Hv).
Qed.

(** ** Every step of a behaviour *)

(** What a check does is a sequence of cancellations. *)
Lemma check_expiry_by (Q : Behaviour → Prop) now s s' :
  (∀ s i, Q s → Q (cancel_send_by_local_send_id i s).2) → (∀ s i, Q s → Q (cancel_recv_by_local_recv_id i s).2) →
  check_expiry now s = Return s' → Q s → Q s'.
Proof.
  intros Hsend Hrecv. unfold check_expiry.
  intros (s1 & H1 & (s2 & H2 & (s3 & H3 & H4)%bind_return)%bind_return)%bind_return HQ.
  assert (Hsends : ∀ ids s, Q s → Q (cancel_sends ids s)).
  { intros ids. induction ids as [|i ids IH]; intros; [done|]. by apply IH, Hsend. }
  assert (Hrecvs : ∀ ids s, Q s → Q (cancel_recvs ids s)).
  { intros ids. induction ids as [|i ids IH]; intros; [done|]. by apply IH, Hrecv. }
  unfold check_pending_send, check_pending_recv, check_ongoing_send, check_ongoing_recv in *.
  assert (Q s1) by (clear H2 H3 H4; repeat case_match; inv_return; auto).
  assert (Q s2) by (clear H1 H3 H4; repeat case_match; inv_return; auto).
  assert (Q s3) by (clear H1 H2 H4; repeat case_match; inv_return; auto).
  clear H1 H2 H3; repeat case_match; inv_return; auto.
Qed.

(** Nothing, or moves that leave the counter alone. *)
Definition stays (p : PeerId) (off dst : gmap N bytes) (s s' : Behaviour) : Prop :=
  moves p [] off off dst dst s s' ∧ send_counter s' = send_counter s.
Lemma stays_local p off dst s s' : stays p off dst s s' → local p s'.
Proof. by intros [[? _] _]. Qed.
Lemma stays_refl p off dst s : local p s → stays p off dst s s.
Proof. intros Hl. split; [|done]. by apply moves_nothing. Qed.
Lemma stays_trans p off dst s s1 s2 : stays p off dst s s1 → stays p off dst s1 s2 → stays p off dst s s2.
Proof. intros [Hm1 Hc1] [Hm2 Hc2]. split; [by eapply moves_trans|congruence]. Qed.
(** A poll may check what has expired, then hands out an event. *)
Lemma poll_by (Q : Behaviour → Prop) cx now s s' r :
  (∀ s i, Q s → Q (cancel_send_by_local_send_id i s).2) → (∀ s i, Q s → Q (cancel_recv_by_local_recv_id i s).2) →
  (∀ s d, Q s → Q (set_expiry_check_throttle d s)) →
  BlobBehaviour.poll cx now s = Return (s', r) → Q s → ∃ s1, Q s1 ∧ pop_event s1 = (s', r).
Proof.
  intros Hsend Hrecv Hset. unfold BlobBehaviour.poll. destruct (delay_poll cx (expiry_check_throttle s)) as [ready d].
  intros (s1 & H1 & [= H2])%bind_return HQ. exists s1. split; [|done].
  destruct ready; [|injection H1 as <-; by apply Hset]. apply bind_return in H1 as (s2 & Hx & [= <-]).
  apply Hset. eapply (check_expiry_by Q); try done. by apply Hset.
Qed.
Lemma poll_stays p off dst cx now s s' r : local p s → BlobBehaviour.poll cx now s = Return (s', r) →
  ∃ s1, stays p off dst s s1 ∧ pop_event s1 = (s', r).
Proof.
  intros Hl Hp.
  assert (Hnext : ∀ s1 s2, stays p off dst s s1 → (local p s1 → stays p off dst s1 s2) → stays p off dst s s2).
  { intros s1 s2 H1 H2. eapply stays_trans; [exact H1|]. by eapply H2, stays_local. }
  apply (poll_by (stays p off dst s)) in Hp; [done|..|by apply stays_refl].
  - intros s1 i H1. apply (Hnext s1); [done|]. intros. by apply cancel_send_moves.
  - intros s1 i H1. apply (Hnext s1); [done|]. intros. by apply cancel_recv_moves.
  - intros s1 d H1. apply (Hnext s1); [done|]. intros []. split; [|done]. by apply moves_nothing.
Qed.

Lemma moves_pushes p pop off off' dst dst' s s' ev :
  moves p pop off off' dst dst' s s' → moves p pop off off' dst dst' s (push_out ev s').
Proof.
  intros Hm. eapply moves_trans; [exact Hm| |done]. destruct Hm as [Hl _]. apply moves_nothing; try done. by apply local_pushes.
Qed.
Lemma moves_heard p pop off off' dst dst' s s' ev :
  moves p pop off off' dst dst' (push_out ev s) s' → moves p pop off off' dst dst' s s'.
Proof. intros (Hl & Hc & new & Hq & H). split; [done|]. split; [done|]. by exists new. Qed.

Lemma told_moves p fuel now ev off dst s s' : local p s →
  on_connection_handler_event fuel now p ev s = Return s' → moves p [ev] off off dst dst s s'.
Proof.
  intros Hl H. destruct ev as [i content|i rtt|name i total|i|i|i|i|e| | |]; cbn [on_connection_handler_event] in H.
  all: try (injection H as <-).
  all: try (by apply moves_nothing; first [done|apply local_pushes]).
  - by eapply progress_ongoing_recv_moves.
  - destruct (ongoing_send s !! i) as [r|] eqn:Hr.
    + eapply moves_heard, (progress_ongoing_send_moves p [HSendProgressed i rtt]); [by apply local_pushes|done..|exact H].
    + by apply (progress_ongoing_send_moves p [HSendProgressed i rtt] now i off dst s s' Hl).
  - by eapply on_new_pending_recv_moves.
  - apply bind_return in H as ([r s1] & Hs & H). apply (send_accepted_moves p now i off dst) in Hs as [Hm _]; [|done].
    destruct r; injection H as <-; [by apply moves_pushes|done].
  - pose proof (remove_send_record_spec p i (push_out (CancelledSend i) s) (local_pushes p s _ Hl)) as H.
    destruct (remove_send_record i (push_out (CancelledSend i) s)) as [r s'].
    destruct H as (Hl' & Hc & Hq & Hpr & Hor & Hi & Hid & _).
    apply (moves_send_one p i _ _ _ _ _ []); try done; [simpl; by rewrite Hq, app_nil_r|..].
    + intros id Hne. split_and!; [by rewrite Hid|by apply (reply_of_other id i)|done].
    + apply (sends_as_step i _ _ _ _ _ _ [Refused] []); [simpl; by rewrite decide_True|done|]. intros bf q w o k.
      cbn [snd]. rewrite Hi, Hc, app_nil_r. apply t_refused.
  - pose proof (remove_recv_by_remote_moves p i off dst s Hl) as Hm.
    destruct (remove_recv_by_remote_send_id i s) as [[[? lid]|] s1]; injection H as <-; [apply moves_pushes|]; by apply Hm.
  - apply moves_nothing; try done. destruct (local_pushes p s (OutboundNegotiated p) Hl). split; try done. simpl in *. set_solver.
Qed.

(** What is asked for: a file whose size is a 64-bit number, and which can be read
    ([R]); a destination with its cursor at the end. *)
Definition request_ok (ev : InEvent) : Prop :=
  match ev with
  | SendFile file _ _ _ => (N.of_nat (length (File.rest file)) < U64)%N ∧ (R → File.os_reliable file)
  | AcceptFile file _ _ _ => File.at_end file
  | _ => True
  end.
Lemma request_moves p now ev off dst s s' sent : local p s → request_ok ev → (send_counter s + 1 < U64)%N →
  push_event now ev s = Return (s', sent) → moves p [] off (offers_after ev s off) dst (dests_after ev s dst) s s'.
Proof.
  intros Hl Hok Hlt H.
  destruct ev as [| file recv_id dir callback| | | | |]; cbn [push_event] in H; simpl in Hok.
  - destruct Hok. by eapply send_file_moves.
  - injection H as H. pose proof (accept_pending_recv_moves p now file dir recv_id callback off dst s Hl Hok) as Hm. by rewrite H in Hm.
  - injection H as <- _. by apply moves_nothing.
  - apply bind_return in H as (infos & _ & [= <- _]). by apply moves_nothing.
  - injection H as <- _. by apply moves_nothing.
  - destruct (cancel_recv_moves p local_recv_id off dst s Hl) as [Hm _].
    destruct (cancel_recv_by_local_recv_id local_recv_id s) as [b s1]. by injection H as <- _.
  - destruct (cancel_send_moves p local_send_id off dst s Hl) as [Hm _].
    destruct (cancel_send_by_local_send_id local_send_id s) as [b s1]. by injection H as <- _.
Qed.

(** ** Every run of the system *)

(** Both behaviours know only each other. *)
Definition linked (x y : Half) : Prop := local (self y) (behav x) ∧ local (self x) (behav y).

Lemma queued_app s s' p new : pending_handler_event s' = pending_handler_event s ++ (NotifyHandler p Any <$> new) →
  queued s' = queued s ++ (dual <$> new).
Proof. intros E. unfold queued. rewrite E, omap_app. f_equal. clear E. induction new as [|ev new IH]; [done|]. simpl. f_equal. exact IH. Qed.

(** [x] moves: what it sends and what it receives goes on as it should. *)
Definition carries (x x' y y' : Half) : Prop :=
  linked x' y' ∧ self x' = self x ∧ self y' = self y ∧
  (send_counter (behav x') ≤ send_counter (behav x) + 1)%N ∧ send_counter (behav y') = send_counter (behav y) ∧
  ∀ id, (good (transfer_of id x y) → tsteps (transfer_of id x y) (transfer_of id x' y')) ∧
        (good (transfer_of id y x) → tsteps (transfer_of id y x) (transfer_of id y' x')).

(** The behaviour of [x] moves by itself, or is told the first it has heard. *)
Lemma moves_carries x y s pop evs off dst :
  linked x y → heard x = pop ++ evs → moves (self y) pop (offers x) off (dests x) dst (behav x) s →
  carries x (MkHalf (self x) s (commands x) (unacked x) evs off dst) y y.
Proof.
  intros [Hlx Hly] Hh (Hl & Hc & new & Hq & Hm). split; [done|]. split_and!; try done; [apply Hc|].
  intros id. destruct (Hm id) as [Hs Hr]. unfold transfer_of.
  assert (path x y ++ (dual <$> new) = path (MkHalf (self x) s (commands x) (unacked x) evs off dst) y) as Ep.
  { unfold path. simpl. rewrite (queued_app _ _ _ _ Hq). by rewrite !app_assoc. }
  assert (path y x = pop ++ path y (MkHalf (self x) s (commands x) (unacked x) evs off dst)) as Ey.
  { unfold path. simpl. rewrite Hh. by rewrite !app_assoc. }
  rewrite <-Ep, Ey. split; [apply Hs|]. apply Hr.
Qed.

(** Only what is under way is moved along. *)
Lemma carries_same x x' y y' :
  linked x y → self x' = self x → self y' = self y → local (self y) (behav x') → tables (behav x') = tables (behav x) → behav y' = behav y →
  offers x' = offers x → dests x' = dests x → offers y' = offers y → dests y' = dests y →
  path x' y' = path x y →
  (∀ id, omap (item_of id) (path y' x') = omap (item_of id) (path y x) ∧
         omap (reply_of id) (path y' x') = omap (reply_of id) (path y x)) → carries x x' y y'.
Proof.
  intros [Hlx Hly] Hx Hy Hl [= Hco Hsc Hps Hos _ Hpr Hor] Hb H1 H2 H3 H4 Hp Hpy. split; [split; by rewrite ?Hx, ?Hy, ?Hb|].
  split_and!; try done; [lia|by rewrite Hb|].
  intros id. destruct (Hpy id) as (E1 & E2). unfold transfer_of.
  split; intros _; apply tsteps_eq, view_same; rewrite ?H1, ?H2, ?H3, ?H4, ?Hb, ?Hp, ?E1, ?E2, ?Hsc; try done;
    unfold src_of, waiting_of, dst_of; by rewrite ?Hps, ?Hos, ?Hpr, ?Hor.
Qed.

Lemma carries_trans x x1 x2 y y1 y2 : carries x x1 y y1 → carries x1 x2 y1 y2 →
  send_counter (behav x2) = send_counter (behav x1) → carries x x2 y y2.
Proof.
  intros (_ & Hx1 & Hy1 & Hc1 & Hd1 & H1) (Hl & Hx2 & Hy2 & Hc2 & Hd2 & H2) Hc.
  split; [done|]. split_and!; try congruence.
  intros id. destruct (H1 id) as [Ha1 Hb1], (H2 id) as [Ha2 Hb2].
  split; (intros Hg; etransitivity; [by auto|]); [apply Ha2|apply Hb2]; (eapply tsteps_good; [|exact Hg]); auto.
Qed.

Definition label_ok (l : Label) : Prop := match l with Request _ ev => request_ok ev | _ => True end.

Lemma pop_local p s s' r : local p s → pop_event s = (s', r) → local p s'.
Proof.
  intros []. unfold pop_event. destruct (out_events s) as [|e evs]; [|by intros [= <- _]; split].
  destruct (pending_handler_event s) as [|ev q] eqn:Hq; [by intros [= <- _]; split; rewrite ?Hq|].
  intros [= <- _]. split; try done. destruct lo_queue0 as [[|e evs] E]; [done|]. injection E as _ E. by exists evs.
Qed.

(** What a poll hands to the handler was first in the queue. *)
Lemma popped_path p s s' r : local p s → pop_event s = (s', r) →
  tables s' = tables s ∧
  queued s = (dual <$> match r with Ready (NotifyHandler to _ ev) => if decide (to = p) then [ev] else [] | _ => [] end) ++ queued s'.
Proof.
  intros []. unfold pop_event. destruct (out_events s) as [|e evs]; [|by intros [= <- <-]].
  destruct lo_queue0 as [[|ev evs] E]; rewrite E; simpl; [by intros [= <- <-]|].
  intros [= <- <-]. rewrite decide_True by done. split; [done|]. unfold queued. by rewrite E.
Qed.

Lemma half_step_carries fuel l x y x' y' out :
  linked x y → label_ok l → (send_counter (behav x) + 1 < U64)%N → half_step fuel l x y = Return (x', y', out) →
  carries x x' y y'.
Proof.
  intros Hlink Hok Hlt. pose proof Hlink as [Hlx Hly]. destruct l as [now ev|cx now| |rtt|now]; simpl in Hok |- *.
  - intros H. apply bind_return in H as ([s sent] & Hp & [= <- <- _]).
    apply (moves_carries x y s []); [done..|]. by eapply request_moves.
  - intros H. apply bind_return in H as ([s r] & Hp & [= <- <- _]).
    destruct (poll_stays (self y) (offers x) (dests x) cx now (behav x) s r Hlx Hp) as (s1 & [Hm Hc1] & Hpop).
    pose proof (moves_carries x y s1 [] (heard x) (offers x) (dests x) Hlink eq_refl Hm) as Hcar.
    destruct Hm as [Hl1 _]. destruct (popped_path _ _ _ _ Hl1 Hpop) as [Ht Hq].
    eapply carries_trans; [exact Hcar| |simpl; by injection Ht as _ -> _ _ _ _ _].
    apply carries_same; simpl; try done; [by eapply pop_local|].
    unfold path. simpl. rewrite fmap_app, Hq. by rewrite !app_assoc.
  - destruct (unacked x); [|destruct (commands x) as [|ev evs] eqn:Hcm]; intros [= <- <- _].
    1, 2: by apply carries_same.
    apply carries_same; simpl; try done. unfold path. simpl. rewrite Hcm. simpl. by rewrite <-app_assoc.
  - destruct (unacked x) as [ev|]; intros [= <- <- _]; [|by apply carries_same].
    apply carries_same; simpl; try done. intros id. unfold path. simpl. rewrite !omap_app.
    by destruct ev; unfold ack_event, event_job; simpl; rewrite ?app_nil_r.
  - destruct (heard x) as [|ev evs] eqn:Hh; [intros [= <- <- _]; by apply carries_same|].
    intros H. apply bind_return in H as (s & Hp & [= <- <- _]).
    apply (moves_carries x y s [ev]); [done..|]. by eapply told_moves.
Qed.

Lemma run_carries fuel ls : ∀ x y x' y',
  linked x y → Forall (λ l, label_ok l.2) ls →
  (send_counter (behav x) + N.of_nat (length ls) < U64)%N → (send_counter (behav y) + N.of_nat (length ls) < U64)%N →
  (∀ id, good (transfer_of id x y) ∧ good (transfer_of id y x)) → run fuel ls x y = Return (x', y') →
  linked x' y' ∧ ∀ id, tsteps (transfer_of id x y) (transfer_of id x' y') ∧ tsteps (transfer_of id y x) (transfer_of id y' x').
Proof.
  induction ls as [|[who l] ls IH]; intros x y x' y' Hlink Hok Hx Hy Hg; cbn [run]; [by intros [= <- <-]|].
  apply Forall_cons in Hok as [Hl Hok]. simpl in Hl. simpl length in Hx, Hy.
  assert (∀ x1 y1, linked x1 y1 → (send_counter (behav x1) ≤ send_counter (behav x) + 1)%N →
    (send_counter (behav y1) ≤ send_counter (behav y) + 1)%N →
    (∀ id, tsteps (transfer_of id x y) (transfer_of id x1 y1) ∧ tsteps (transfer_of id y x) (transfer_of id y1 x1)) →
    run fuel ls x1 y1 = Return (x', y') →
    linked x' y' ∧ ∀ id, tsteps (transfer_of id x y) (transfer_of id x' y') ∧ tsteps (transfer_of id y x) (transfer_of id y' x')) as Hgo.
  { intros x1 y1 Hl1 Hc1 Hc2 Hm Hrun. destruct (IH x1 y1 x' y') as [Hl' H']; try done; [lia|lia| |].
    { intros id. destruct (Hg id), (Hm id). split; by eapply tsteps_good. }
    split; [done|]. intros id. destruct (Hm id), (H' id). split; by etransitivity. }
  destruct who; intros H; apply bind_return in H as ([[a b] out] & Hs & Hrun).
  - apply half_step_carries in Hs as (Hl1 & _ & _ & Hc1 & Hc2 & Hm); [|done|done|lia].
    apply (Hgo a b); try done; [lia|]. intros id. destruct (Hg id), (Hm id). split; auto.
  - apply half_step_carries in Hs as (Hl1 & _ & _ & Hc1 & Hc2 & Hm); [|by destruct Hlink|done|lia].
    apply (Hgo b a); try done; [by destruct Hl1|lia|]. intros id. destruct (Hg id), (Hm id). split; auto.
Qed.

(** ** From the connection on *)

Definition fresh_half (a b : PeerId) (x : Half) : Prop :=
  ∃ cfg timer, x = MkHalf a (set_expiry_check_throttle timer (set_connected_peers {[b]} (new cfg))) [] None [] ∅ ∅.

Lemma fresh_local a b x : fresh_half a b x → local b (behav x).
Proof.
  intros (cfg & timer & ->). split; simpl; try done; try (intros ? ?; by rewrite lookup_empty). by exists [].
Qed.
Lemma fresh_linked a b x y : fresh_half a b x → fresh_half b a y → linked x y.
Proof.
  intros Hx Hy. pose proof (fresh_local a b x Hx). pose proof (fresh_local b a y Hy).
  destruct Hx as (? & ? & ->), Hy as (? & ? & ->). by split.
Qed.
Lemma fresh_unborn a b x y id : fresh_half a b x → fresh_half b a y → transfer_of id x y = unborn.
Proof.
  intros (cfg & timer & ->) (cfg' & timer' & ->). unfold transfer_of, view, path, queued, src_of, waiting_of, dst_of, unborn.
  simpl. rewrite !lookup_empty, map_filter_empty, dom_empty_L, bool_decide_eq_false_2 by lia. done.
Qed.

(** Every transfer is a run of the specification. *)
Lemma run_follows fuel ls a b x y x' y' :
  fresh_half a b x → fresh_half b a y → Forall (λ l, label_ok l.2) ls → (N.of_nat (length ls) < U64)%N →
  run fuel ls x y = Return (x', y') →
  linked x' y' ∧ ∀ id, tsteps unborn (transfer_of id x' y') ∧ tsteps unborn (transfer_of id y' x').
Proof.
  intros Hx Hy Hok Hlen Hrun.
  destruct (run_carries fuel ls x y x' y') as [Hl H]; try done.
  - by apply (fresh_linked a b).
  - destruct Hx as (? & ? & ->). simpl. lia.
  - destruct Hy as (? & ? & ->). simpl. lia.
  - intros i. rewrite (fresh_unborn a b x y i Hx Hy), (fresh_unborn b a y x i Hy Hx). split; apply good_unborn.
  - split; [done|]. intros id. destruct (H id) as [H1 H2].
    by rewrite (fresh_unborn a b x y id Hx Hy) in H1; rewrite (fresh_unborn b a y x id Hy Hx) in H2.
Qed.
Lemma run_good fuel ls a b x y x' y' :
  fresh_half a b x → fresh_half b a y → Forall (λ l, label_ok l.2) ls → (N.of_nat (length ls) < U64)%N →
  run fuel ls x y = Return (x', y') →
  linked x' y' ∧ (∀ id, good (transfer_of id x' y')) ∧ (∀ id, good (transfer_of id y' x')).
Proof.
  intros Hx Hy Hok Hlen Hrun. destruct (run_follows fuel ls a b x y x' y') as [Hl H]; try done.
  split; [done|]. split; intros id; destruct (H id) as [H1 H2]; (eapply tsteps_good; [|apply good_unborn]); done.
Qed.

(** C7: each of the transfers, in both directions, lives the life of
    [TransferSpec]: however the steps of the two nodes interleave, a run of the
    system is, for every number, a run of that machine. *)
Theorem transfers_follow_their_specification fuel ls a b x y x' y' :
  fresh_half a b x → fresh_half b a y → Forall (λ l, label_ok l.2) ls → (N.of_nat (length ls) < U64)%N →
  run fuel ls x y = Return (x', y') →
  ∀ id, tsteps unborn (transfer_of id x' y') ∧ tsteps unborn (transfer_of id y' x').
Proof. intros Hx Hy Hok Hlen Hrun. by destruct (run_follows fuel ls a b x y x' y'). Qed.

(** What [y] writes of what [x] sends. *)
Definition written_so_far (x y : Half) : Prop :=
  ∀ id r, ongoing_recv (behav y) !! id = Some r →
    ∃ data before got, offers x !! id = Some data ∧ dests y !! id = Some before ∧
      f_bytes (OngoingFileRecv.file_handle r) = before ++ got ∧
      OngoingFileRecv.bytes_received r = N.of_nat (length got) ∧ got `prefix_of` data ∧
      (∀ evs, heard y = HRecvProgressed id [] :: evs → got = data).

Lemma good_written_so_far x y : (∀ id, good (transfer_of id x y)) → written_so_far x y.
Proof.
  intros Hg id r Hr.
  destruct (good_written _ _ (f_bytes (OngoingFileRecv.file_handle r)) (OngoingFileRecv.bytes_received r) (Hg id))
    as (d & b & got & Hd & Hb & Hf & Hn & Hp & Hend).
  { unfold transfer_of, view, dst_of. simpl. by rewrite Hr. }
  exists d, b, got. split_and!; try done. intros evs Hev. apply Hend.
  unfold transfer_of, view, path. simpl. rewrite Hev. simpl. by rewrite decide_True.
Qed.

(** C2: whatever the schedule.  Two nodes, from their connection on: any number of
    files offered, taken back, refused and accepted in both directions, any checks
    of what expired, errors of reads and writes, and the steps of both nodes and
    of their handlers in any order.  What has been written of a file is, behind
    what the destination held when it was accepted, a beginning of the file that
    was offered under this number, and is counted right; and when the chunk that
    ends the transfer is next, it is the whole file. *)
Theorem no_byte_out_of_place fuel ls a b x y x' y' :
  fresh_half a b x → fresh_half b a y → Forall (λ l, label_ok l.2) ls → (N.of_nat (length ls) < U64)%N →
  run fuel ls x y = Return (x', y') → written_so_far x' y' ∧ written_so_far y' x'.
Proof.
  intros Hx Hy Hok Hlen Hrun. destruct (run_good fuel ls a b x y x' y') as (_ & H1 & H2); try done.
  split; by apply good_written_so_far.
Qed.

(** ** No step panics *)

Lemma half_step_wf n fuel l x y x' y' out :
  (n < MAX_OPS)%N → wf n (behav x) → wf n (behav y) → half_step fuel l x y = Return (x', y', out) →
  wf (n + 1) (behav x') ∧ wf (n + 1) (behav y').
Proof.
  intros Hn Hx Hy. destruct l as [now ev|cx now| |rtt|now]; simpl.
  - intros H. apply bind_return in H as ([s sent] & Hp & [= <- <- _]). split; [|by apply wf_skip].
    eapply (step_wf n fuel (OpPush now ev)); [done|exact Hx|]. simpl. by rewrite Hp.
  - intros H. apply bind_return in H as ([s r] & Hp & [= <- <- _]). split; [|by apply wf_skip].
    eapply (step_wf n fuel (OpPoll cx now)); [done|exact Hx|]. simpl. by rewrite Hp.
  - destruct (unacked x), (commands x); intros [= <- <- _]; split; by apply wf_skip.
  - destruct (unacked x); intros [= <- <- _]; split; by apply wf_skip.
  - destruct (heard x) as [|ev evs]; [intros [= <- <- _]; split; by apply wf_skip|].
    intros H. apply bind_return in H as (s & Hp & [= <- <- _]). split; [|by apply wf_skip].
    eapply (step_wf n fuel (OpHandler now (self y) ev)); [done|exact Hx|]. simpl. by rewrite Hp.
Qed.
(** What a step asks of the node that takes it: of its own request and its own
    clock, that its files make progress, and of [fuel], to be above a chunk. *)
Definition own_ok (fuel : nat) (l : Label) (x : Half) : Prop :=
  match l with
  | Request now ev => safe fuel (OpPush now ev) (behav x)
  | Polled cx now => clock_ok now (behav x)
  | Told _ =>
      (∀ id r, ongoing_recv (behav x) !! id = Some r → File.os_progress (OngoingFileRecv.file_handle r)) ∧
      (∀ id content evs, heard x = HRecvProgressed id content :: evs → length content < fuel)
  | _ => True
  end.

(** What arrives from the other node is never what makes a behaviour panic. *)
Lemma told_safe fuel now x y ev evs : (∀ id, good (transfer_of id x y)) → (∀ id, good (transfer_of id y x)) →
  linked x y → heard x = ev :: evs → own_ok fuel (Told now) x → safe fuel (OpHandler now (self y) ev) (behav x).
Proof.
  intros Hxy Hyx [Hl _] Hh [Hos Hfuel]. destruct ev as [i content| | |i| | | | | | |]; try done; simpl.
  - intros r Hr. split_and!; [by eapply Hos|by eapply Hfuel|].
    destruct (decide (content = [])) as [->|Hne].
    + destruct (good_written_so_far y x Hyx i r Hr) as (d & b & got & Hd & _ & _ & -> & Hp%prefix_length & _).
      pose proof (g_small _ _ (Hyx i) d Hd). simpl. lia.
    + pose proof (Hyx i) as Hg. revert Hg. unfold transfer_of, view, path, dst_of. rewrite Hh, Hr. simpl.
      rewrite decide_True by done. intros Hg. eapply tstep_good in Hg; [|by apply t_write].
      destruct (good_written _ _ _ _ Hg eq_refl) as (d & b & got & Hd & _ & _ & -> & Hp%prefix_length & _).
      pose proof (g_small _ _ Hg d Hd). lia.
  - destruct (ongoing_send (behav x) !! i) as [r|] eqn:Hr; [|done]. exfalso.
    destruct (ongoing_is_read _ i _ r Hl Hr) as [_ Hs]. pose proof (g_turns _ _ (Hxy i)) as Ht. revert Ht.
    unfold transfer_of, view, path. rewrite Hh, Hs. cbn [pipe waiting back src reads]. simpl.
    rewrite decide_True by done. rewrite accepted_cons. lia.
Qed.

Lemma half_step_returns n fuel l x y : (n < MAX_OPS)%N → wf n (behav x) → linked x y →
  (∀ id, good (transfer_of id x y)) → (∀ id, good (transfer_of id y x)) → own_ok fuel l x → is_return (half_step fuel l x y).
Proof.
  intros Hn Hwf Hlink Hxy Hyx Hown. destruct l as [now ev|cx now| |rtt|now]; simpl in Hown |- *.
  - destruct (push_event_returns n fuel now ev (behav x) Hn Hwf Hown) as [[s sent] ->]. by eexists.
  - destruct (safe_poll_returns n cx now (behav x) Hwf Hown) as [[s r] ->]. by eexists.
  - destruct (unacked x), (commands x); by eexists.
  - destruct (unacked x); by eexists.
  - destruct (heard x) as [|ev evs] eqn:Hh; [by eexists|].
    pose proof (told_safe fuel now x y ev evs Hxy Hyx Hlink Hh ltac:(by rewrite <-Hh in Hown)) as Hsafe.
    destruct (handler_event_returns n fuel now (self y) ev (behav x) Hn Hwf Hsafe) as [s ->]. by eexists.
Qed.

End async.

(** ** Witness: half of a file is written, the rest is under way *)
Section witnesses.
#[local] Existing Instance demo_codec.
#[local] Abbreviation cx0 := (0%N : @PollCx demo_platform).

Definition demo_half (a b : @PeerId demo_platform) : Half :=
  MkHalf a (set_expiry_check_throttle (delay_new 5000) (set_connected_peers {[b]} (new Config_default))) [] None [] ∅ ∅.
Definition demo_labels : list (bool * Label) :=
  [(true, Request 0 (SendFile demo_file "dir/a.txt" (7%N : @PeerId demo_platform) (demo_cb 0)));
   (true, Polled cx0 0); (true, Delivered); (false, Told 0); (false, Polled cx0 0); (true, Acknowledged 5); (true, Told 0);
   (false, Request 0 (AcceptFile demo_empty 0 "dl" (demo_cb 1))); (false, Polled cx0 0); (false, Delivered);
   (true, Told 0); (true, Polled cx0 0); (true, Polled cx0 0); (true, Delivered); (true, Acknowledged 5);
   (false, Told 0); (true, Told 0)].

Lemma demo_fresh a b : fresh_half a b (demo_half a b).
Proof. by exists Config_default, (delay_new 5000). Qed.
Lemma demo_labels_ok R : Forall (λ l, label_ok R l.2) demo_labels.
Proof.
  repeat apply Forall_cons_2; try exact I; try apply Forall_nil_2; [split; [reflexivity|]|reflexivity].
  intros _ i. eexists. reflexivity.
Qed.
Definition demo_transfer : Transfer :=
  MkTransfer true (Some (File.rest demo_file)) (Some []) (Reading []) [Chunk (drop 2 (File.rest demo_file))] ∅
    (Some (take 2 (File.rest demo_file), 2%N)) [].
Lemma demo_runs : ∃ x' y', run 10 demo_labels (demo_half 8%N 7%N) (demo_half 7%N 8%N) = Return (x', y') ∧
  transfer_of 0 x' y' = demo_transfer.
Proof.
  assert (match run 10 demo_labels (demo_half 8%N 7%N) (demo_half 7%N 8%N) with
          | Return (x', y') => transfer_of 0 x' y'
          | _ => unborn
          end = demo_transfer) as H by (vm_compute; reflexivity).
  destruct (run _ _ _ _) as [[x' y']| |]; [|discriminate H..]. by exists x', y'.
Qed.

Lemma transfers_follow_their_specification_witness : ∃ x' y',
  run 10 demo_labels (demo_half 8%N 7%N) (demo_half 7%N 8%N) = Return (x', y') ∧
  rtc (tstep True) unborn (transfer_of 0 x' y') ∧ is_Some (dst (transfer_of 0 x' y')).
Proof.
  destruct demo_runs as (x' & y' & Hrun & Ht). exists x', y'. split; [exact Hrun|]. split; [|by rewrite Ht].
  exact (proj1 (transfers_follow_their_specification True 10 demo_labels _ _ _ _ x' y'
    (demo_fresh 8%N 7%N) (demo_fresh 7%N 8%N) (demo_labels_ok True) eq_refl Hrun 0%N)).
Defined.

Lemma no_byte_out_of_place_witness : ∃ x' y',
  run 10 demo_labels (demo_half 8%N 7%N) (demo_half 7%N 8%N) = Return (x', y') ∧
  written_so_far x' y' ∧ dst_of 0 (behav y') = Some (take 2 (File.rest demo_file), 2%N).
Proof.
  destruct demo_runs as (x' & y' & Hrun & Ht). exists x', y'. split; [exact Hrun|].
  split; [|exact (f_equal TransferSpec.dst Ht)].
  exact (proj1 (no_byte_out_of_place True 10 demo_labels _ _ _ _ x' y'
    (demo_fresh 8%N 7%N) (demo_fresh 7%N 8%N) (demo_labels_ok True) eq_refl Hrun)).
Defined.

End witnesses.
End BlobAsync.
