(* ===== verification/BlobRuns.v ===== *)
(** * Two blob behaviours do not stop each other

    Module [BlobRuns], on the system of [BlobAsync]: every run returns, when the
    requests and the clocks of the nodes are ordinary ones.  [fine] and [fine_half]
    are what the steps keep for it, beside [good] and [wf]; [sys_ok] is all of it. *)

From stdpp Require Import base gmap sets list strings relations fin_maps fin_map_dom.
From Stdlib Require Import Lia NArith.
From S2P Require Import Prelude Std Core BlobTypes BlobHandler BlobHandlerProps BlobBehaviour BlobDemo.
From S2P Require Import BlobBehaviourProps BlobReceive BlobSafety BlobTransfer TransferSpec BlobAsync.
Import TransferSpec BlobAsync.

Module BlobRuns.
Section runs.
Context {P : Platform} {codec : Codec}.
Context (R : Prop).

(** ** What the steps of a node keep *)

(** A name a path ends in, and its longest on the usual file systems; events as
    handlers of this program report them. *)
Definition named (name : string) : Prop := ∃ p, file_name p = Some name.
Definition NAME_MAX : nat := 255.
Definition event_fine (ev : ToBehaviourEvent) : Prop :=
  match ev with
  | HIncomingFile name _ total => named name ∧ String.length name ≤ NAME_MAX ∧ (total < U64)%N
  | HRecvProgressed _ content => (N.of_nat (length content) ≤ CHUNK)%N
  | _ => True
  end.

(** The transfers a chunk is under way of, and those whose chunk has arrived. *)
Definition chunk_of (ev : ToBehaviourEvent) : option N :=
  match ev with HRecvProgressed i _ => Some i | _ => None end.
Definition acked_of (ev : ToBehaviourEvent) : option N :=
  match ev with HSendProgressed i _ => Some i | _ => None end.

(** At the time [t].  A file that is read has its next turn to come: a chunk that
    is queued, or one of [turns]. *)
Record fine (t : N) (turns : list N) (s : Behaviour) : Prop := {
  fi_clock : clock_ok t s;
  fi_ongoing k r : ongoing_recv s !! k = Some r →
    File.os_progress (OngoingFileRecv.file_handle r) ∧ is_Some (file_name (OngoingFileRecv.file_path r));
  fi_pending k v : pending_recv s !! k = Some v → named (PendingRecv.file_name v);
  fi_queue : Forall event_fine (queued s);
  fi_turn k r : ongoing_send s !! k = Some r → k ∈ turns ++ omap chunk_of (queued s);
}.

Lemma clock_ok_later t t' s : (t ≤ t')%N → clock_ok t s → clock_ok t' s.
Proof.
  intros Ht (H1 & H2 & H3 & H4).
  split_and!; intros k v Hv; [specialize (H1 k v Hv)|specialize (H2 k v Hv)|specialize (H3 k v Hv)|specialize (H4 k v Hv)];
    simpl in *; lia.
Qed.
Lemma fine_weaken t t' turns turns' s : (t ≤ t')%N → turns ⊆ turns' → fine t turns s → fine t' turns' s.
Proof.
  intros Ht Hturns []. split; try done; [by eapply clock_ok_later|].
  intros k r Hr. apply fi_turn0 in Hr. set_solver.
Qed.

Lemma queued_notify q ev s : queued (notify_any q ev s) = queued s ++ [dual ev].
Proof. unfold queued. simpl. by rewrite omap_app. Qed.

(** With fewer records, and more in the queue. *)
Lemma fine_shrinks t turns s s' new : fine t turns s →
  pending_send s' ⊆ pending_send s → ongoing_send s' ⊆ ongoing_send s →
  pending_recv s' ⊆ pending_recv s → ongoing_recv s' ⊆ ongoing_recv s →
  queued s' = queued s ++ new → Forall event_fine new → fine t turns s'.
Proof.
  intros [(C1 & C2 & C3 & C4)] Hps Hos Hpr Hor Hq Hnew.
  split; [split_and!; intros k v Hv; eapply lookup_weaken in Hv; try done; eauto|..].
  - intros k r Hr. by eapply fi_ongoing0, lookup_weaken.
  - intros k v Hv. by eapply fi_pending0, lookup_weaken.
  - rewrite Hq. by apply Forall_app_2.
  - intros k r Hr. eapply lookup_weaken in Hr; [|exact Hos]. apply fi_turn0 in Hr. rewrite Hq, omap_app. set_solver.
Qed.
Lemma fine_same t turns s s' : fine t turns s → pending_send s' = pending_send s → ongoing_send s' = ongoing_send s →
  pending_recv s' = pending_recv s → ongoing_recv s' = ongoing_recv s → queued s' = queued s → fine t turns s'.
Proof.
  intros Hf Hps Hos Hpr Hor Hq. eapply (fine_shrinks _ _ s _ []); rewrite ?Hps, ?Hos, ?Hpr, ?Hor, ?Hq, ?app_nil_r; auto with wf.
Qed.

Lemma remove_send_record_sub i s : let s' := (remove_send_record i s).2 in
  pending_send s' ⊆ pending_send s ∧ ongoing_send s' ⊆ ongoing_send s ∧ pending_recv s' = pending_recv s ∧
  ongoing_recv s' = ongoing_recv s ∧ queued s' = queued s.
Proof. unfold remove_send_record. repeat case_match; simpl; split_and!; auto with wf. Qed.
Lemma cancel_send_fine t turns i s : fine t turns s → fine t turns (cancel_send_by_local_send_id i s).2.
Proof.
  intros Hf. unfold cancel_send_by_local_send_id. pose proof (remove_send_record_sub i s) as H. cbv zeta in H.
  destruct (remove_send_record i s) as [[q|] s']; destruct H as (H1 & H2 & H3 & H4 & H5); simpl in *.
  - eapply (fine_shrinks _ _ s _ [RemoteCancelRecv i]); simpl; rewrite ?H3, ?H4; auto with wf; [|by repeat constructor].
    rewrite queued_notify. by rewrite H5.
  - eapply (fine_shrinks _ _ s _ []); rewrite ?H3, ?H4, ?H5, ?app_nil_r; auto with wf.
Qed.
Lemma cancel_recv_fine t turns i s : fine t turns s → fine t turns (cancel_recv_by_local_recv_id i s).2.
Proof.
  intros Hf. unfold cancel_recv_by_local_recv_id, remove_recv_record.
  destruct (pending_recv s !! i) as [v|]; [|destruct (ongoing_recv s !! i) as [r|]]; simpl; [..|done].
  - eapply (fine_shrinks _ _ s _ [RemoteCancelSend (PendingRecv.remote_send_id v)]); simpl; auto with wf; [|by repeat constructor].
    match goal with |- queued (push_out _ (notify_any ?q ?e ?s2)) = _ => exact (queued_notify q e s2) end.
  - eapply (fine_shrinks _ _ s _ [RemoteCancelSend (OngoingFileRecv.remote_send_id r)]); simpl; auto with wf; [|by repeat constructor].
    match goal with |- queued (push_out _ (notify_any ?q ?e ?s2)) = _ => exact (queued_notify q e s2) end.
Qed.

Lemma poll_fine p t turns cx now s s' r : local R p s → (t ≤ now)%N → fine t turns s →
  BlobBehaviour.poll cx now s = Return (s', r) → ∃ s1, local R p s1 ∧ fine now turns s1 ∧ pop_event s1 = (s', r).
Proof.
  intros Hl Ht Hf Hp. apply (poll_by (λ s, local R p s ∧ fine now turns s)) in Hp as (s1 & [] & ?); [by exists s1|..].
  - intros s1 i [Hl1 Hf1]. split; [|by apply cancel_send_fine]. by destruct (cancel_send_moves R p i ∅ ∅ s1 Hl1) as [[? _] _].
  - intros s1 i [Hl1 Hf1]. split; [|by apply cancel_recv_fine]. by destruct (cancel_recv_moves R p i ∅ ∅ s1 Hl1) as [[? _] _].
  - intros s1 d [Hl1 Hf1]. split; [by destruct Hl1|by eapply fine_same].
  - split; [done|by eapply fine_weaken].
Qed.
(** What leaves the queue is still under way. *)
Lemma fine_popped t turns new s s' : tables s' = tables s → queued s = new ++ queued s' → fine t turns s →
  fine t (turns ++ omap chunk_of new) s' ∧ Forall event_fine new.
Proof.
  intros [= _ _ Hps Hos _ Hpr Hor] Hq [(C1 & C2 & C3 & C4)]. rewrite Hq in fi_queue0, fi_turn0. apply Forall_app in fi_queue0 as [Hn Hq'].
  split; [|done]. split; rewrite ?Hps, ?Hos, ?Hpr, ?Hor; try done; [split_and!; by rewrite ?Hps, ?Hos, ?Hpr, ?Hor|].
  intros k r Hr. apply fi_turn0 in Hr. rewrite omap_app in Hr. by rewrite <-app_assoc.
Qed.

(** A chunk that is read is queued, or it was the last of the file. *)
Lemma progress_ongoing_send_fine p t now turns i s s' : local R p s → (t ≤ now)%N → fine t (i :: turns) s →
  progress_ongoing_send now i s = Return s' → fine now turns s'.
Proof.
  intros Hl Ht Hf. pose proof Hf as []. unfold progress_ongoing_send.
  assert (Hturn : ∀ q k r, k ≠ i → ongoing_send s !! k = Some r → k ∈ turns ++ omap chunk_of (queued s ++ q)).
  { intros q k r Hne Hr. apply fi_turn0 in Hr. rewrite omap_app. set_solver. }
  destruct (ongoing_send s !! i) as [r|] eqn:Hr.
  2: { intros [= <-]. split; try done; [by eapply clock_ok_later|].
       intros k r Hk. rewrite <-(app_nil_r (queued s)). eapply Hturn; [|done]. congruence. }
  destruct (File.read FILE_CHUNK_SIZE (OngoingFileSend.file_handle r)) as [[buf|e] f] eqn:Hread; intros H.
  - apply bind_return in H as (sent & _ & H). destruct (lo_ongoing_send _ _ _ Hl i r Hr) as (Hid & _).
    apply File.read_ok in Hread as (_ & Hlen & _). rewrite FILE_CHUNK_SIZE_eq in Hlen. rewrite Hid in H.
    assert (∀ s1, s' = set_ongoing_send s1 (notify_any (OngoingFileSend.remote r) (FileChunk i buf)
        (set_ongoing_send (<[i := ongoing_send_after r f sent now]> (ongoing_send s)) s)) →
      s1 ⊆ <[i := ongoing_send_after r f sent now]> (ongoing_send s) → fine now turns s') as Hgo.
    { intros s1 -> Hsub. apply (clock_ok_later _ now) in fi_clock0 as (C1 & C2 & C3 & C4); [|done].
      assert (Hq : ∀ s2, queued (set_ongoing_send s2 (notify_any (OngoingFileSend.remote r) (FileChunk i buf)
        (set_ongoing_send (<[i := ongoing_send_after r f sent now]> (ongoing_send s)) s))) = queued s ++ [HRecvProgressed i buf]).
      { intros s2. apply (queued_notify (OngoingFileSend.remote r) (FileChunk i buf) s). }
      split; try done; rewrite ?Hq.
      - split_and!; try done. intros k v Hv. eapply lookup_weaken in Hv; [|exact Hsub].
        apply lookup_insert_Some in Hv as [[<- <-]|[_ Hv]]; [simpl; lia|by eapply C3].
      - apply Forall_app_2; [done|]. by constructor.
      - intros k v Hv. eapply lookup_weaken in Hv; [|exact Hsub].
        apply lookup_insert_Some in Hv as [[<- <-]|[Hne Hv]]; [|by eapply Hturn].
        rewrite omap_app. simpl. set_solver. }
    destruct (Nat.eqb (length buf) 0); injection H as <-.
    + eapply Hgo; [done|]. simpl. auto with wf.
    + eapply (Hgo (<[i := ongoing_send_after r f sent now]> (ongoing_send s))); done.
  - injection H as <-. assert (fine now (i :: turns) s) as [] by by eapply fine_weaken.
    destruct fi_clock1 as (C1 & C2 & C3 & C4). split; try done; simpl.
    + split_and!; try done. intros k v Hv. simpl in Hv. apply lookup_delete_Some in Hv as [_ Hv]. by eapply C3.
    + intros k v Hv. simpl in Hv. apply lookup_delete_Some in Hv as [Hne Hv]. rewrite <-(app_nil_r (queued _)). by eapply Hturn.
Qed.

Lemma progress_ongoing_recv_fine fuel t now turns i content s s' : (t ≤ now)%N → fine t turns s →
  progress_ongoing_recv fuel now i content s = Return s' → fine now turns s'.
Proof.
  intros Ht Hf%(fine_weaken t now turns turns); [|done..]. unfold progress_ongoing_recv.
  destruct (ongoing_recv s !! i) as [r|] eqn:Hr; [|by intros [= <-]].
  assert (Hclosed : ∀ s1, tables s1 = tables (set_ongoing_recv (delete i (ongoing_recv s)) s) → queued s1 = queued s → fine now turns s1).
  { intros s1 [= _ _ Hps Hos _ Hpr Hor] Hq.
    eapply (fine_shrinks _ _ s _ []); rewrite ?Hps, ?Hos, ?Hpr, ?Hor, ?Hq, ?app_nil_r; auto with wf. }
  destruct (Nat.eqb (length content) 0); [destruct (negb _); intros [= <-]; by apply Hclosed|].
  intros H. apply bind_return in H as ([f [n|e]] & Hw & H); [|injection H as <-; by apply Hclosed].
  apply bind_return in H as (received & _ & [= <-]). apply write_chunk_os in Hw.
  destruct Hf as [(C1 & C2 & C3 & C4)]. split; try done; simpl.
  - split_and!; try done. intros k v Hv. simpl in Hv. apply lookup_insert_Some in Hv as [[<- <-]|[_ Hv]]; [simpl; lia|].
    apply lookup_delete_Some in Hv as [_ Hv]. by eapply C4.
  - intros k v. rewrite insert_delete_eq, lookup_insert_Some. intros [[<- <-]|[_ Hv]]; [|by eapply fi_ongoing0].
    destruct (fi_ongoing0 i r Hr) as [Hos Hname]. split; [|done]. unfold File.os_progress. simpl. by rewrite Hw.
Qed.

Lemma pending_send_accepted_fine p t now turns i r s s' : local R p s → (t ≤ now)%N → fine t turns s →
  pending_send_accepted now i s = Return (r, s') → fine now turns s'.
Proof.
  intros Hl Ht Hf. unfold pending_send_accepted. destruct (pending_send s !! i) as [v|] eqn:Hv.
  - intros H. cbn [expect obind] in H. apply bind_return in H as (s2 & Hp & [= _ <-]).
    pose proof (begin_moves R p now i ∅ ∅ s v Hl Hv) as Hb. cbv zeta in Hb. destruct Hb as [Hl' _].
    destruct (lo_pending_send _ _ _ Hl i v Hv) as (Hid & _). rewrite Hid in Hp, Hl'.
    apply (progress_ongoing_send_fine p now now turns) in Hp; [done|exact Hl'|done|].
    assert (fine now (i :: turns) s) as [] by (apply (fine_weaken t _ turns); [done|set_solver|done]).
    destruct fi_clock0 as (C1 & C2 & C3 & C4). split; try done; simpl.
    + split_and!; try done; intros k w Hw; simpl in Hw; [apply lookup_delete_Some in Hw as [_ Hw]; by eapply C1|].
      apply lookup_insert_Some in Hw as [[<- <-]|[_ Hw]]; [simpl; lia|by eapply C3].
    + intros k w Hw. simpl in Hw. apply lookup_insert_Some in Hw as [[<- <-]|[_ Hw]]; [by left|by eapply fi_turn0].
  - destruct (ongoing_send s !! i); [intros H; discriminate H|]. intros [= _ <-]. by eapply fine_weaken.
Qed.

Lemma on_new_pending_recv_fine t now turns p name i total s s' : (t ≤ now)%N → fine t turns s → named name →
  on_new_pending_recv now p name i total s = Return s' → fine now turns s'.
Proof.
  intros Ht Hf%(fine_weaken t now turns turns) Hn; [|done..]. unfold on_new_pending_recv, next_recv_id. intros H.
  apply bind_return in H as ([lid s1] & H1 & [= <-]). apply bind_return in H1 as (c & _ & [= <- <-]).
  destruct Hf as [(C1 & C2 & C3 & C4)]. split; try done; simpl.
  - split_and!; try done. intros k v Hv. simpl in Hv. apply lookup_insert_Some in Hv as [[<- <-]|[_ Hv]]; [simpl; lia|by eapply C2].
  - intros k v Hv. simpl in Hv. apply lookup_insert_Some in Hv as [[<- <-]|[_ Hv]]; [done|by eapply fi_pending0].
Qed.

Lemma told_fine p fuel t now turns ev s s' : local R p s → (t ≤ now)%N → event_fine ev →
  fine t (option_list (acked_of ev) ++ turns) s → on_connection_handler_event fuel now p ev s = Return s' → fine now turns s'.
Proof.
  intros Hl Ht Hev Hf H.
  destruct ev as [i content|i rtt|name i total|i|i|i|i|e| | |]; cbn [on_connection_handler_event] in H; simpl in Hev, Hf.
  all: try (injection H as <-; eapply fine_weaken; [exact Ht|done|]; by eapply fine_same).
  - by eapply progress_ongoing_recv_fine.
  - destruct (ongoing_send s !! i) as [r|].
    + eapply progress_ongoing_send_fine; [by apply local_pushes|exact Ht| |exact H]. by eapply fine_same.
    + by eapply progress_ongoing_send_fine.
  - destruct Hev as [Hev _]. by eapply on_new_pending_recv_fine.
  - apply bind_return in H as ([r s1] & Hs & H). apply (pending_send_accepted_fine p t now turns) in Hs; [|done..].
    destruct r; injection H as <-; [by eapply fine_same|done].
  - injection H as <-. pose proof (remove_send_record_sub i (push_out (CancelledSend i) s)) as (H1 & H2 & H3 & H4 & H5).
    eapply fine_weaken; [exact Ht|done|].
    eapply (fine_shrinks _ _ s _ []); rewrite ?H3, ?H4, ?app_nil_r; try done.
  - eapply fine_weaken; [exact Ht|done|]. unfold remove_recv_by_remote_send_id in H.
    destruct (ongoing_recv s !! i) as [r|]; [|destruct (list_find _ _) as [[? [k v]]|]]; injection H as <-; [..|done];
      (eapply (fine_shrinks _ _ s _ []); rewrite ?app_nil_r; simpl; auto with wf).
Qed.

(** What requests name: a file with a name and a 64-bit size, a destination that
    accepts bytes; the caller waits for the answer. *)
Definition request_fine (ev : InEvent) : Prop :=
  match ev with
  | SendFile file path _ cb =>
      (∃ name, file_name path = Some name ∧ String.length name ≤ NAME_MAX) ∧
      (∀ total, File.metadata_len file = Ok total → (total < U64)%N) ∧ cb_open cb = true
  | AcceptFile file _ _ _ => File.os_progress file
  | _ => True
  end.

Lemma send_file_fine p t now turns file path to cb s s' sent : local R p s → (t ≤ now)%N → request_fine (SendFile file path to cb) →
  fine t turns s → send_file now file path to cb s = Return (s', sent) → fine now turns s'.
Proof.
  intros Hl Ht ((name & Hname & Hlen) & Htotal & _) Hf%(fine_weaken t now turns turns); [|done..]. unfold send_file, next_send_id. intros H.
  apply bind_return in H as ([lid s1] & H1 & H). apply bind_return in H1 as (c & _ & [= <- <-]).
  destruct (decide _); [|apply bind_return in H as (l & _ & [= <- _]); by eapply fine_same].
  destruct (File.metadata_len file) as [total|]; [|injection H as <- _; by eapply fine_same]. specialize (Htotal total eq_refl).
  rewrite Hname in H. injection H as <- _. destruct Hf as [(C1 & C2 & C3 & C4)].
  match goal with |- fine _ _ (notify_any ?q ?e ?s2) => assert (Hq : queued (notify_any q e s2) = queued s ++ [dual e]) by
    apply (queued_notify q e s2) end.
  split; try done; rewrite ?Hq.
  - split_and!; try done. intros k v Hv. simpl in Hv. apply lookup_insert_Some in Hv as [[<- <-]|[_ Hv]]; [simpl; lia|by eapply C1].
  - apply Forall_app_2; [done|]. constructor; [|done]. split; [by exists path|done].
  - intros k r Hr. apply fi_turn0 in Hr. rewrite omap_app. set_solver.
Qed.
Lemma accept_pending_recv_fine t now turns file path lid cb s : (t ≤ now)%N → File.os_progress file → fine t turns s →
  fine now turns (accept_pending_recv now file path lid cb s).1.
Proof.
  intros Ht Hos Hf%(fine_weaken t now turns turns); [|done..]. unfold accept_pending_recv.
  destruct (pending_recv s !! lid) as [v|] eqn:Hv; [|done]. destruct Hf as [(C1 & C2 & C3 & C4)].
  destruct (fi_pending0 lid v Hv) as [q Hq]. simpl.
  match goal with |- fine _ _ (notify_any ?q ?e ?s2) => assert (Hn : queued (notify_any q e s2) = queued s ++ [dual e]) by
    apply (queued_notify q e s2) end.
  split; try done; rewrite ?Hn.
  - split_and!; try done; intros k w Hw; simpl in Hw.
    + apply lookup_delete_Some in Hw as [_ Hw]. by eapply C2.
    + apply lookup_insert_Some in Hw as [[<- <-]|[_ Hw]]; [simpl; lia|by eapply C4].
  - intros k r Hr. simpl in Hr. apply lookup_insert_Some in Hr as [[<- <-]|[_ Hr]]; [|by eapply fi_ongoing0].
    split; [done|]. simpl. rewrite (file_name_pushed _ _ _ Hq). by eexists.
  - intros k w Hw. simpl in Hw. apply lookup_delete_Some in Hw as [_ Hw]. by eapply fi_pending0.
  - apply Forall_app_2; [done|]. by constructor.
  - intros k r Hr. apply fi_turn0 in Hr. rewrite omap_app. set_solver.
Qed.
Lemma request_keeps_fine p t now turns ev s s' sent : local R p s → (t ≤ now)%N → request_fine ev → fine t turns s →
  push_event now ev s = Return (s', sent) → fine now turns s'.
Proof.
  intros Hl Ht Hok Hf H. pose proof (fine_weaken t now turns turns s Ht ltac:(done) Hf) as Hf'.
  destruct ev as [| file recv_id dir callback| | | | |]; cbn [push_event] in H; simpl in Hok.
  - by eapply send_file_fine.
  - injection H as H. pose proof (accept_pending_recv_fine t now turns file dir recv_id callback s Ht Hok Hf) as Ha. by rewrite H in Ha.
  - by injection H as <- _.
  - apply bind_return in H as (infos & _ & [= <- _]). done.
  - by injection H as <- _.
  - pose proof (cancel_recv_fine now turns local_recv_id s Hf'). destruct (cancel_recv_by_local_recv_id local_recv_id s) as [b s1]. by injection H as <- _.
  - pose proof (cancel_send_fine now turns local_send_id s Hf'). destruct (cancel_send_by_local_send_id local_send_id s) as [b s1]. by injection H as <- _.
Qed.

(** ** What the steps of the system keep *)

Definition turns_of (x : Half) : list N :=
  omap acked_of (heard x) ++ omap chunk_of (dual <$> (option_list (unacked x) ++ commands x)).
Record fine_half (t : N) (x : Half) : Prop := {
  fh_behav : fine t (turns_of x) (behav x);
  fh_commands : Forall event_fine (dual <$> commands x);
  fh_heard : Forall event_fine (heard x);
}.

Definition time_of (l : Label) : option N :=
  match l with Request now _ | Polled _ now | Told now => Some now | _ => None end.
Definition label_fine (l : Label) : Prop := match l with Request _ ev => request_fine ev | _ => True end.

Lemma half_step_fine fuel t t' l x y x' y' out : linked R x y → label_fine l →
  (∀ now, time_of l = Some now → (t ≤ now)%N) → fine_half t x → fine_half t' y → half_step fuel l x y = Return (x', y', out) →
  fine_half (default t (time_of l)) x' ∧ fine_half t' y'.
Proof.
  intros [Hlx _] Hok Ht Hx Hy. pose proof Hx as [Hb Hcm Hh]. destruct l as [now ev|cx now| |rtt|now]; simpl in Hok, Ht |- *.
  - specialize (Ht now eq_refl). intros H. apply bind_return in H as ([s sent] & Hp & [= <- <- _]). split; [|done].
    split; try done. by eapply (request_keeps_fine (self y) t now).
  - specialize (Ht now eq_refl). intros H. apply bind_return in H as ([s r] & Hp & [= <- <- _]). split; [|done].
    apply (poll_fine (self y) t (turns_of x)) in Hp as (s1 & Hl1 & Hf1 & Hpop); [|done..].
    destruct (popped_path R _ _ _ _ Hl1 Hpop) as [Htab Hq]. apply (fine_popped now (turns_of x) _ s1 s Htab Hq) in Hf1 as [Hf1 Hn].
    split; [|simpl; rewrite fmap_app; by apply Forall_app_2|done]. eapply fine_weaken; [reflexivity| |exact Hf1].
    unfold turns_of. simpl. rewrite !fmap_app, !omap_app. set_solver.
  - destruct (unacked x) eqn:Hu; [|destruct (commands x) as [|ev evs] eqn:Hc]; intros [= <- <- _]; [done..|].
    apply Forall_cons in Hcm as [Hev Hcm]. split.
    + split; try done. eapply fine_weaken; [reflexivity| |exact Hb]. unfold turns_of. by rewrite Hu, Hc.
    + destruct Hy as [Hby Hcmy Hhy]. split; [|done|by apply Forall_app_2; [|constructor]].
      eapply fine_weaken; [reflexivity| |exact Hby]. unfold turns_of. simpl. rewrite !omap_app. set_solver.
  - destruct (unacked x) as [ev|] eqn:Hu; intros [= <- <- _]; [|done]. split; [|done].
    split; [|done|apply Forall_app_2; [done|]; by destruct ev; unfold ack_event; simpl; repeat constructor].
    eapply fine_weaken; [reflexivity| |exact Hb]. unfold turns_of. simpl. rewrite Hu, !omap_app. simpl.
    destruct ev; unfold ack_event; simpl; set_solver.
  - specialize (Ht now eq_refl). destruct (heard x) as [|ev evs] eqn:Hheard; [intros [= <- <- _]; split; [|done]|].
    + split; [eapply fine_weaken; [exact Ht| |exact Hb]; done|done|by rewrite Hheard].
    + intros H. apply bind_return in H as (s & Hp & [= <- <- _]). split; [|done]. apply Forall_cons in Hh as [Hev Hh].
      split; try done. eapply told_fine; [exact Hlx|exact Ht|exact Hev| |exact Hp].
      unfold turns_of in Hb |- *. rewrite Hheard in Hb. simpl in Hb |- *. by destruct (acked_of ev).
Qed.

(** Such a step may be taken. *)
Lemma fine_own_ok fuel t l x : (CHUNK < N.of_nat fuel)%N → label_fine l →
  (∀ now, time_of l = Some now → (t ≤ now)%N) → fine_half t x → own_ok fuel l x.
Proof.
  intros Hfuel Hok Ht [[] _ Hh]. destruct l as [now ev|cx now| |rtt|now]; simpl in Hok, Ht |- *; try done.
  - destruct ev; simpl in Hok |- *; try done.
    + destruct Hok as ((name & Hname & _) & _ & Hcb). destruct (decide _); [left; by exists name|done].
    + intros k r Hr. by eapply fi_ongoing0.
  - eapply clock_ok_later; [|done]. by apply Ht.
  - split; [intros k r Hr; by eapply fi_ongoing0|]. intros i content evs E. rewrite E in Hh.
    apply Forall_cons in Hh as [Hc _]. simpl in Hc. lia.
Qed.

(** All of it, after at most [n] steps, at the times [c] of the two nodes. *)
Record sys_ok (n : N) (c : N * N) (x y : Half) : Prop := {
  so_linked : linked R x y;
  so_xy : ∀ id, good R (transfer_of id x y);
  so_yx : ∀ id, good R (transfer_of id y x);
  so_wf_x : wf n (behav x);
  so_wf_y : wf n (behav y);
  so_fine_x : fine_half c.1 x;
  so_fine_y : fine_half c.2 y;
}.
Lemma sys_ok_swap n c x y : sys_ok n c x y → sys_ok n (c.2, c.1) y x.
Proof. intros [[]]. by split. Qed.

Definition label_good (l : Label) : Prop := label_ok R l ∧ label_fine l.

Lemma half_step_ok fuel n c l x y : (n < MAX_OPS)%N → (CHUNK < N.of_nat fuel)%N → label_good l →
  (∀ now, time_of l = Some now → (c.1 ≤ now)%N) → sys_ok n c x y →
  ∃ x' y' out, half_step fuel l x y = Return (x', y', out) ∧ sys_ok (n + 1) (default c.1 (time_of l), c.2) x' y'.
Proof.
  intros Hn Hfuel [Hok Hfine] Ht [].
  assert (is_return (half_step fuel l x y)) as [[[x' y'] out] Hs].
  { eapply half_step_returns; try done. by eapply fine_own_ok. }
  exists x', y', out. split; [done|]. pose proof Hs as Hc. apply (half_step_carries R) in Hc as (Hl & _ & _ & _ & _ & Hm); [|done..|].
  2: { destruct so_wf_x0 as [[Hct _ _] _]. rewrite U64_eq. rewrite MAX_OPS_eq in Hn. lia. }
  destruct (half_step_wf n fuel l x y x' y' out) as [Hwx Hwy]; try done.
  destruct (half_step_fine fuel c.1 c.2 l x y x' y' out) as [Hfx Hfy]; try done.
  split; try done; intros id; destruct (Hm id) as [Hxy Hyx]; [eapply tsteps_good; [by apply Hxy|done]|eapply tsteps_good; [by apply Hyx|done]].
Qed.

(** The clock of each node does not go back. *)
Fixpoint clocks_ok (c : N * N) (ls : list (bool * Label)) : Prop :=
  match ls with
  | [] => True
  | (true, l) :: ls => (∀ now, time_of l = Some now → (c.1 ≤ now)%N) ∧ clocks_ok (default c.1 (time_of l), c.2) ls
  | (false, l) :: ls => (∀ now, time_of l = Some now → (c.2 ≤ now)%N) ∧ clocks_ok (c.1, default c.2 (time_of l)) ls
  end.
Fixpoint clocks_after (c : N * N) (ls : list (bool * Label)) : N * N :=
  match ls with
  | [] => c
  | (true, l) :: ls => clocks_after (default c.1 (time_of l), c.2) ls
  | (false, l) :: ls => clocks_after (c.1, default c.2 (time_of l)) ls
  end.

Lemma run_cons_ok fuel n c who l ls x y : (n < MAX_OPS)%N → (CHUNK < N.of_nat fuel)%N → label_good l →
  clocks_ok c ((who, l) :: ls) → sys_ok n c x y →
  ∃ x1 y1, run fuel [(who, l)] x y = Return (x1, y1) ∧ run fuel ((who, l) :: ls) x y = run fuel ls x1 y1 ∧
    sys_ok (n + 1) (clocks_after c [(who, l)]) x1 y1 ∧ clocks_ok (clocks_after c [(who, l)]) ls.
Proof.
  intros Hn Hfuel Hl Hc Hs. destruct who; destruct Hc as [Ht Hc].
  - destruct (half_step_ok fuel n c l x y) as (x' & y' & out & E & Hs'); try done. exists x', y'. cbn [run]. rewrite E. by split_and!.
  - destruct (half_step_ok fuel n (c.2, c.1) l y x) as (y' & x' & out & E & Hs'); try done; [by apply sys_ok_swap|].
    exists x', y'. cbn [run]. rewrite E. split_and!; try done. by apply sys_ok_swap in Hs'.
Qed.
Lemma run_goes_ok fuel ls : ∀ n c x y, (n + N.of_nat (length ls) ≤ MAX_OPS)%N → (CHUNK < N.of_nat fuel)%N →
  Forall (λ l, label_good l.2) ls → clocks_ok c ls → sys_ok n c x y →
  ∃ x' y', run fuel ls x y = Return (x', y') ∧ sys_ok (n + N.of_nat (length ls)) (clocks_after c ls) x' y'.
Proof.
  induction ls as [|[who l] ls IH]; intros n c x y Hn Hfuel Hls Hc Hs.
  - exists x, y. split; [done|]. by rewrite N.add_0_r.
  - simpl length in Hn. apply Forall_cons in Hls as [Hl Hls].
    destruct (run_cons_ok fuel n c who l ls x y) as (x1 & y1 & _ & -> & Hs1 & Hc1); try done; [lia|].
    destruct (IH (n + 1)%N (clocks_after c [(who, l)]) x1 y1) as (x' & y' & Hr & Hs'); try done; [lia|]. exists x', y'. split; [done|].
    replace (n + N.of_nat (length ((who, l) :: ls)))%N with (n + 1 + N.of_nat (length ls))%N by (simpl; lia). by destruct who.
Qed.

Lemma clocks_ok_app c ls ls' : clocks_ok c (ls ++ ls') ↔ clocks_ok c ls ∧ clocks_ok (clocks_after c ls) ls'.
Proof. revert c. induction ls as [|[[] l] ls IH]; intros c; simpl; [tauto|..]; rewrite IH; tauto. Qed.
Lemma run_app fuel ls ls' x y x' y' : run fuel ls x y = Return (x', y') → run fuel (ls ++ ls') x y = run fuel ls' x' y'.
Proof.
  revert x y. induction ls as [|[who l] ls IH]; intros x y; [by intros [= <- <-]|].
  destruct who; cbn [run app]; intros H; apply bind_return in H as ([[a b] out] & -> & Hr); simpl; by apply IH.
Qed.

Lemma fresh_ok a b x y : fresh_half a b x → fresh_half b a y → sys_ok 0 (0, 0)%N x y.
Proof.
  intros Hx Hy.
  assert (∀ c d z, fresh_half c d z → wf 0 (behav z) ∧ fine_half 0 z) as H.
  { intros c d z (cfg & timer & ->). split; [split; split; simpl; try done; intros *; by rewrite lookup_empty|].
    by split. }
  destruct (H a b x Hx), (H b a y Hy). split; try done; [by eapply fresh_linked|..];
    intros id; erewrite fresh_unborn by done; apply good_unborn.
Qed.

(** C15: nodes that run this program do not stop each other.  However the requests,
    the polls, the deliveries, the acknowledgements and the reports of two nodes
    interleave from their connection on, the run goes through to its end: nothing
    that arrives from the other makes a behaviour panic or loop, be it an
    acceptance, a cancellation or a chunk.  What is asked for is each node's own:
    files that are offered have a name and a 64-bit size, destinations accept
    bytes and have their cursor at the end, callers wait for their answer and no
    clock goes back. *)
Theorem runs_return fuel ls a b x y :
  fresh_half a b x → fresh_half b a y → Forall (λ l, label_good l.2) ls → clocks_ok (0, 0)%N ls →
  (N.of_nat (length ls) ≤ MAX_OPS)%N → (CHUNK < N.of_nat fuel)%N → is_return (run fuel ls x y).
Proof.
  intros Hx Hy Hls Hc Hlen Hfuel. destruct (run_goes_ok fuel ls 0 (0, 0)%N x y) as (x1 & y1 & -> & _); [lia|done..|by eapply fresh_ok|].
  by eexists.
Qed.
End runs.

(** ** Witness *)
Section witnesses.
#[local] Existing Instance demo_codec.

Definition demo_fuel : nat := N.to_nat 262145.
Lemma demo_fuel_enough : (CHUNK < N.of_nat demo_fuel)%N.
Proof. unfold demo_fuel. rewrite N2Nat.id. reflexivity. Qed.
Lemma demo_labels_good R : Forall (λ l, label_good R l.2) demo_labels.
Proof.
  pose proof (demo_labels_ok R) as H. rewrite Forall_forall in H |- *. intros l Hl. split; [by apply H|]. clear H. revert l Hl.
  apply Forall_forall. repeat apply Forall_cons_2; try exact I; try apply Forall_nil_2.
  - split; [exists "a.txt"%string; split; [reflexivity|vm_compute; lia]|]. split; [by intros ? [= <-]|done].
  - intros i. right. by exists 1.
Qed.
Lemma demo_clocks : clocks_ok (0, 0)%N demo_labels.
Proof. vm_compute. split_and!; try done; by intros ? [= <-]. Qed.

Lemma runs_return_witness : is_return (run demo_fuel demo_labels (demo_half 8%N 7%N) (demo_half 7%N 8%N)).
Proof.
  exact (runs_return True demo_fuel demo_labels _ _ _ _ (demo_fresh 8%N 7%N) (demo_fresh 7%N 8%N) (demo_labels_good True)
    demo_clocks ltac:(vm_compute; discriminate) demo_fuel_enough).
Defined.
End witnesses.
End BlobRuns.
