(* ===== verification/BlobSettle.v ===== *)
(** * Two blob behaviours come to rest

    Module [BlobSettle], on the system of [BlobAsync]: [work] bounds how much the
    nodes have still to do by themselves, and every step that does something brings
    it down; where it does not go down nothing is under way, and then no transfer is
    left half done.  So when the applications ask for nothing more, every transfer
    ends. *)

From stdpp Require Import base gmap sets list strings relations fin_maps fin_map_dom.
From Stdlib Require Import Lia NArith.
From S2P Require Import Prelude Std Core BlobTypes BlobHandler BlobHandlerProps BlobBehaviour BlobDemo.
From S2P Require Import BlobBehaviourProps BlobReceive BlobSafety BlobTransfer TransferSpec BlobAsync BlobRuns.
Import TransferSpec BlobAsync BlobRuns.

Module BlobSettle.

(** ** Sums over tables *)
Definition total {A} (f : A → nat) (m : gmap N A) : nat := map_fold (λ _ v n, f v + n) 0 m.

Lemma total_delete {A} (f : A → nat) m k v : m !! k = Some v → total f m = f v + total f (delete k m).
Proof. intros Hk. apply (map_fold_delete_L (λ _ v n, f v + n)); [lia|done]. Qed.
Lemma total_insert {A} (f : A → nat) m k v : total f (<[k := v]> m) = f v + total f (delete k m).
Proof. rewrite (total_delete f _ k v) by apply lookup_insert_eq. by rewrite delete_insert_eq. Qed.
Lemma total_delete_le {A} (f : A → nat) m k : total f (delete k m) ≤ total f m.
Proof. destruct (m !! k) as [v|] eqn:Hk; [rewrite (total_delete f m k v Hk); lia|by rewrite delete_id]. Qed.

Section settle.
Context {P : Platform} {codec : Codec}.
Context (R : Prop).

(** ** What is left to do *)

(** What an event may make a behaviour do: hand out an event, wait for an answer
    to an announcement.  A step of an event towards that counts one. *)
Definition weight (ev : ToBehaviourEvent) : nat := match ev with HIncomingFile _ _ _ => 10 | _ => 2 end.
Definition cost (k : nat) (evs : list ToBehaviourEvent) : nat := sum_list_with (λ ev, k + weight ev) evs.
(** A file is read in at most as many turns as it has bytes, and one for its end. *)
Definition turns_left (f : File) : nat := 8 * S (length (File.rest f)).
Arguments cost : simpl never.
Arguments turns_left : simpl never.

Definition load (s : Behaviour) : nat :=
  length (out_events s) + cost 5 (queued s) + total (λ _, 8) (pending_recv s) + total (λ _, 8) (ongoing_recv s) +
  total (λ v, turns_left (PendingSend.file v)) (pending_send s) +
  total (λ r, turns_left (OngoingFileSend.file_handle r)) (ongoing_send s).
Definition load_half (x : Half) : nat :=
  load (behav x) + cost 4 (dual <$> commands x) + 3 * length (option_list (unacked x)) + cost 0 (heard x).
Definition work (x y : Half) : nat := load_half x + load_half y.

Lemma cost_app k evs evs' : cost k (evs ++ evs') = cost k evs + cost k evs'.
Proof. apply sum_list_with_app. Qed.
Lemma cost_cons k ev evs : cost k (ev :: evs) = k + weight ev + cost k evs.
Proof. done. Qed.
Lemma cost_nil k : cost k [] = 0.
Proof. done. Qed.

(** Only the tables and the queues count. *)
Lemma load_push ev s : load (push_out ev s) = S (load s).
Proof. unfold load. simpl. rewrite length_app. simpl. unfold queued. simpl. lia. Qed.
Lemma load_notify q ev s : load (notify_any q ev s) = load s + 5 + weight (dual ev).
Proof. unfold load. rewrite queued_notify, cost_app, cost_cons, cost_nil. simpl. lia. Qed.

(** A record less. *)
Lemma load_pending_send i v s : pending_send s !! i = Some v → load (set_pending_send (delete i (pending_send s)) s) + 8 ≤ load s.
Proof. intros Hv. unfold load. simpl. rewrite (total_delete _ _ _ _ Hv). unfold turns_left, queued. simpl. lia. Qed.
Lemma load_ongoing_send i r s : ongoing_send s !! i = Some r → load (set_ongoing_send (delete i (ongoing_send s)) s) + 8 ≤ load s.
Proof. intros Hr. unfold load. simpl. rewrite (total_delete _ (ongoing_send s) _ _ Hr). unfold turns_left, queued. simpl. lia. Qed.
Lemma load_pending_recv i v s : pending_recv s !! i = Some v → load (set_pending_recv (delete i (pending_recv s)) s) + 8 ≤ load s.
Proof. intros Hv. unfold load. simpl. rewrite (total_delete _ (pending_recv s) _ _ Hv). unfold queued. simpl. lia. Qed.
Lemma load_ongoing_recv i r s : ongoing_recv s !! i = Some r → load (set_ongoing_recv (delete i (ongoing_recv s)) s) + 8 ≤ load s.
Proof. intros Hr. unfold load. simpl. rewrite (total_delete _ (ongoing_recv s) _ _ Hr). unfold queued. simpl. lia. Qed.

Lemma remove_send_record_load i s :
  match remove_send_record i s with (Some _, s') => load s' + 8 ≤ load s | (None, s') => s' = s end.
Proof.
  unfold remove_send_record. destruct (pending_send s !! i) eqn:Hv; [by apply load_pending_send in Hv|].
  destruct (ongoing_send s !! i) eqn:Hr; [by apply load_ongoing_send in Hr|done].
Qed.
Lemma remove_recv_record_load i s :
  match remove_recv_record i s with (Some _, s') => load s' + 8 ≤ load s | (None, s') => s' = s end.
Proof.
  unfold remove_recv_record. destruct (pending_recv s !! i) eqn:Hv; [by apply load_pending_recv in Hv|].
  destruct (ongoing_recv s !! i) eqn:Hr; [by apply load_ongoing_recv in Hr|done].
Qed.
Lemma remove_recv_by_remote_load i s :
  match remove_recv_by_remote_send_id i s with (Some _, s') => load s' + 8 ≤ load s | (None, s') => s' = s end.
Proof.
  unfold remove_recv_by_remote_send_id. destruct (ongoing_recv s !! i) eqn:Hr; [by apply load_ongoing_recv in Hr|].
  destruct (list_find_pending s i) as [(k & v & n & -> & Hv & _)|[-> _]]; [by eapply load_pending_recv|done].
Qed.

Lemma cancel_send_load i s : load (cancel_send_by_local_send_id i s).2 ≤ load s.
Proof.
  unfold cancel_send_by_local_send_id. pose proof (remove_send_record_load i s) as H.
  destruct (remove_send_record i s) as [[q|] s']; simpl; [rewrite load_notify; simpl; lia|by subst].
Qed.
Lemma cancel_recv_load i s : load (cancel_recv_by_local_recv_id i s).2 ≤ load s.
Proof.
  unfold cancel_recv_by_local_recv_id. pose proof (remove_recv_record_load i s) as H.
  destruct (remove_recv_record i s) as [[[q k]|] s']; simpl; [rewrite load_push, load_notify; simpl; lia|by subst].
Qed.

Lemma poll_load p cx now s s' r : local R p s → BlobBehaviour.poll cx now s = Return (s', r) →
  ∃ s1, local R p s1 ∧ load s1 ≤ load s ∧ pop_event s1 = (s', r).
Proof.
  intros Hl Hp. apply (poll_by (λ s1, local R p s1 ∧ load s1 ≤ load s)) in Hp as (s1 & [] & ?); [by exists s1|..].
  - intros s1 i [Hl1 Hle]. split; [|etransitivity; [apply cancel_send_load|done]].
    by destruct (cancel_send_moves R p i ∅ ∅ s1 Hl1) as [[? _] _].
  - intros s1 i [Hl1 Hle]. split; [|etransitivity; [apply cancel_recv_load|done]].
    by destruct (cancel_recv_moves R p i ∅ ∅ s1 Hl1) as [[? _] _].
  - intros s1 d [Hl1 Hle]. split; [by destruct Hl1|done].
  - done.
Qed.

(** A read leaves less of the file, or nothing. *)
Lemma progress_ongoing_send_load p now i s s' : local R p s → progress_ongoing_send now i s = Return s' → load s' ≤ load s.
Proof.
  intros Hl Hp. apply (progress_ongoing_send_cases R p) in Hp; [|done].
  destruct (ongoing_send s !! i) as [r|] eqn:Hr; [|by subst].
  destruct Hp as (Hl' & _ & Hpr & Hor & Hps & Hos & Hout & Hread). unfold load.
  rewrite Hpr, Hor, Hps, Hout, (total_delete _ (ongoing_send s) i r Hr), <-Hos. pose proof (total_delete_le (λ r, turns_left (OngoingFileSend.file_handle r)) (ongoing_send s') i).
  destruct Hread as [(Hq & Hn & _)|(buf & rem & Hrest & _ & Hq & Hbuf)].
  - replace (queued s') with (queued s) by (unfold queued; by rewrite Hq). rewrite (delete_id (ongoing_send s')) by done. lia.
  - rewrite (queued_app s s' p [FileChunk i buf] Hq). change (dual <$> [FileChunk i buf]) with [HRecvProgressed i buf].
    rewrite cost_app, cost_cons, cost_nil. simpl weight.
    assert (turns_left (OngoingFileSend.file_handle r) = 8 * S (length buf + length rem)) as -> by (unfold turns_left; by rewrite Hrest, length_app).
    destruct buf as [|b buf].
    + rewrite (delete_id (ongoing_send s')) by done. lia.
    + destruct Hbuf as (r' & Hr' & Hrem). rewrite (total_delete _ (ongoing_send s') i r' Hr').
      assert (turns_left (OngoingFileSend.file_handle r') = 8 * S (length rem)) as -> by (unfold turns_left; by rewrite Hrem).
      simpl length. lia.
Qed.

Lemma pending_send_accepted_load p now i r s s' : local R p s → pending_send_accepted now i s = Return (r, s') → load s' ≤ load s.
Proof.
  intros Hl. unfold pending_send_accepted. destruct (pending_send s !! i) as [v|] eqn:Hv.
  - intros H. cbn [expect obind] in H. apply bind_return in H as (s2 & Hp & [= _ <-]).
    destruct (begin_moves R p now i ∅ ∅ s v Hl Hv) as [Hl' _].
    apply (progress_ongoing_send_load p) in Hp; [|exact Hl']. etransitivity; [exact Hp|].
    unfold load. simpl. rewrite total_insert, (total_delete _ (pending_send s) i v Hv). simpl.
    pose proof (total_delete_le (λ r, turns_left (OngoingFileSend.file_handle r)) (ongoing_send s) (PendingSend.local_send_id v)).
    unfold queued. simpl. lia.
  - destruct (ongoing_send s !! i); [intros H; discriminate H|]. by intros [= _ <-].
Qed.

Lemma progress_ongoing_recv_load fuel now i content s s' : progress_ongoing_recv fuel now i content s = Return s' →
  load s' ≤ load s + 1.
Proof.
  unfold progress_ongoing_recv. destruct (ongoing_recv s !! i) as [r|] eqn:Hr; [|intros [= <-]; lia].
  assert (Hgone : load (set_ongoing_recv (delete i (ongoing_recv s)) s) ≤ load s).
  { unfold load. simpl. pose proof (total_delete_le (λ _, 8) (ongoing_recv s) i). unfold queued. simpl. lia. }
  destruct (Nat.eqb (length content) 0); [destruct (negb _); intros [= <-]; rewrite load_push; lia|].
  intros H. apply bind_return in H as ([f [n|e]] & _ & H); [|injection H as <-; rewrite load_push; lia].
  apply bind_return in H as (received & _ & [= <-]). unfold load. simpl.
  rewrite insert_delete_eq, total_insert, (total_delete _ (ongoing_recv s) i r Hr). unfold queued. simpl. lia.
Qed.

(** What is told is paid for. *)
Lemma told_load p fuel now ev s s' : local R p s → on_connection_handler_event fuel now p ev s = Return s' →
  load s' + 1 ≤ load s + weight ev.
Proof.
  intros Hl H.
  destruct ev as [i content|i rtt|name i size|i|i|i|i|e| | |]; cbn [on_connection_handler_event] in H; cbn [weight].
  all: try (injection H as <-; rewrite ?load_push; try lia).
  - apply progress_ongoing_recv_load in H. lia.
  - destruct (ongoing_send s !! i) as [r|].
    + apply (progress_ongoing_send_load p) in H; [|by apply local_pushes]. rewrite load_push in H. lia.
    + apply (progress_ongoing_send_load p) in H; [|done]. lia.
  - unfold on_new_pending_recv, next_recv_id in H. apply bind_return in H as ([lid s1] & H1 & [= <-]).
    apply bind_return in H1 as (c & _ & [= <- <-]). rewrite load_push. unfold load. simpl. rewrite total_insert.
    pose proof (total_delete_le (λ _, 8) (pending_recv s) (recv_counter s)). unfold queued. simpl. lia.
  - apply bind_return in H as ([r s1] & Hs & H). apply (pending_send_accepted_load p) in Hs; [|done].
    destruct r; injection H as <-; [rewrite load_push|]; lia.
  - pose proof (remove_send_record_load i (push_out (CancelledSend i) s)) as Hr. rewrite load_push in Hr.
    destruct (remove_send_record i (push_out (CancelledSend i) s)) as [[q|] s']; simpl; [lia|]. subst. rewrite load_push. lia.
  - pose proof (remove_recv_by_remote_load i s) as Hr.
    destruct (remove_recv_by_remote_send_id i s) as [[[q k]|] s1]; injection H as <-; [rewrite load_push; lia|subst; lia].
  - unfold load, queued. simpl. lia.
Qed.

(** ** Steps *)

(** Not a request. *)
Definition internal (l : Label) : Prop := match l with Request _ _ => False | _ => True end.
(** The step [l] of [x] has nothing to do. *)
Definition rests (l : Label) (x : Half) : Prop :=
  match l with
  | Request _ _ => True
  | Polled _ _ => queued (behav x) = []
  | Delivered => is_Some (unacked x) ∨ commands x = []
  | Acknowledged _ => unacked x = None
  | Told _ => heard x = []
  end.
(** What is under way from [x] is what it was. *)
Definition waits (x x' : Half) : Prop :=
  commands x' = commands x ∧ unacked x' = unacked x ∧ heard x' = heard x ∧
  (queued (behav x) = [] → queued (behav x') = []).
Lemma waits_refl x : waits x x.
Proof. by split_and!. Qed.
Lemma waits_trans x y z : waits x y → waits y z → waits x z.
Proof. intros (H1 & H2 & H3 & H4) (H5 & H6 & H7 & H8). split_and!; [congruence..|auto]. Qed.
Lemma waits_rests l x x' : waits x x' → rests l x → rests l x'.
Proof. intros (H1 & H2 & H3 & H4). destruct l; simpl; rewrite ?H1, ?H2, ?H3; auto. Qed.

Lemma load_popped s q to h ev : pending_handler_event s = NotifyHandler to h ev :: q →
  load s = load (set_pending_handler_event q s) + 5 + weight (dual ev).
Proof.
  intros Hq. assert (queued s = dual ev :: queued (set_pending_handler_event q s)) as Hd by (unfold queued; by rewrite Hq).
  unfold load. rewrite Hd, cost_cons. simpl. lia.
Qed.
Lemma half_step_work fuel l x y x' y' out : linked R x y → internal l → half_step fuel l x y = Return (x', y', out) →
  work x' y' < work x y ∨ (work x' y' ≤ work x y ∧ waits x x' ∧ y' = y ∧ rests l x').
Proof.
  intros [Hlx Hly] Hin. unfold work, load_half. destruct l as [|cx now| |rtt|now]; [done|..]; cbn [half_step].
  - intros H. apply bind_return in H as ([s r] & Hp & [= <- <- _]). simpl.
    apply (poll_load (self y)) in Hp as (s1 & [] & Hle & Hpop); [|done]. revert Hpop. unfold pop_event.
    destruct (out_events s1) as [|e evs] eqn:Hout.
    + destruct lo_queue0 as [[|ev q] Hq]; rewrite Hq; simpl.
      * intros [= <- <-]. right. simpl. rewrite app_nil_r. split; [lia|]. split; [|split; [done|]].
        -- split_and!; try done. intros _. unfold queued. simpl. by rewrite Hq.
        -- unfold rests, queued. simpl. by rewrite Hq.
      * intros [= <- <-]. left. rewrite decide_True by done. rewrite fmap_app, cost_app. change (dual <$> [ev]) with [dual ev]. rewrite cost_cons, cost_nil.
        simpl in Hq. rewrite (load_popped _ _ _ _ _ Hq) in Hle. lia.
    + intros [= <- <-]. left. simpl. rewrite app_nil_r.
      assert (load s1 = S (load (set_out_events evs s1))) as Hs1; [|lia]. unfold load, queued. rewrite Hout. simpl. lia.
  - destruct (unacked x) as [ev|] eqn:Hu; [|destruct (commands x) as [|ev evs] eqn:Hc].
    + intros [= <- <- _]. right. split_and!; try done; [rewrite Hu; lia|]. left. by rewrite Hu.
    + intros [= <- <- _]. right. split_and!; try done; [rewrite Hu, Hc; lia|]. by right.
    + intros [= <- <- _]. left. cbn [behav commands unacked heard]. rewrite fmap_cons, cost_app, !cost_cons, cost_nil. simpl. lia.
  - destruct (unacked x) as [ev|] eqn:Hu.
    + intros [= <- <- _]. left. cbn [behav commands unacked heard]. rewrite cost_app.
      destruct ev; unfold event_job; cbn [outgoing fst snd]; rewrite ?cost_cons, ?cost_nil; simpl; lia.
    + intros [= <- <- _]. right. split_and!; try done. rewrite Hu. lia.
  - destruct (heard x) as [|ev evs] eqn:Hh.
    + intros [= <- <- _]. right. split_and!; try done. rewrite Hh. lia.
    + intros H. apply bind_return in H as (s & Hp & [= <- <- _]). left. simpl. apply (told_load (self y)) in Hp; [|done].
      rewrite cost_cons. lia.
Qed.

Lemma run_one_work fuel who l x y x' y' : linked R x y → internal l → run fuel [(who, l)] x y = Return (x', y') →
  work x' y' < work x y ∨
  (work x' y' ≤ work x y ∧ waits x x' ∧ waits y y' ∧ rests l (if who : bool then x' else y')).
Proof.
  intros Hl Hin. destruct who; cbn [run]; intros H; apply bind_return in H as ([[a b] out] & Hs & [= <- <-]).
  - apply half_step_work in Hs as [?|(? & ? & -> & ?)]; [by left| |done..]. right. split_and!; auto using waits_refl.
  - apply half_step_work in Hs as [?|(? & ? & -> & ?)]; [left|right| |done]; unfold work in *; [lia| |by destruct Hl].
    split_and!; auto using waits_refl; lia.
Qed.
(** Steps that leave [work] as it is find nothing to do, all of them. *)
Lemma run_work fuel ls : ∀ n c x y x' y', (n + N.of_nat (length ls) ≤ MAX_OPS)%N → (CHUNK < N.of_nat fuel)%N →
  Forall (λ l, internal l.2) ls → clocks_ok c ls → sys_ok R n c x y → run fuel ls x y = Return (x', y') →
  work x' y' < work x y ∨
  (work x' y' ≤ work x y ∧ waits x x' ∧ waits y y' ∧ Forall (λ '(who, l), rests l (if who : bool then x' else y')) ls).
Proof.
  induction ls as [|[who l] ls IH]; intros n c x y x' y' Hn Hfuel Hls Hc Hs Hrun.
  - injection Hrun as <- <-. right. split_and!; auto using waits_refl.
  - simpl length in Hn. apply Forall_cons in Hls as [Hl Hls]. simpl in Hl.
    assert (label_good R l) as Hgood by by destruct l.
    destruct (run_cons_ok R fuel n c who l ls x y) as (x1 & y1 & H1 & Hgo & Hs1 & Hc1); try done; [lia|]. rewrite Hgo in Hrun.
    apply run_one_work in H1; [|by destruct Hs|done].
    eapply (IH (n + 1)%N) in Hrun; [|lia|done..].
    destruct Hrun as [Hlt|(Hle & Hwx & Hwy & Hr)]; [left; destruct H1 as [|[]]; lia|].
    destruct H1 as [|(Hle1 & Hwx1 & Hwy1 & Hr1)]; [left; lia|right].
    split_and!; [lia|by eapply waits_trans..|]. constructor; [|done]. destruct who; by eapply waits_rests.
Qed.

(** ** Rounds *)

(** Both nodes do everything they can do by themselves, in some order. *)
Definition round (ls : list (bool * Label)) : Prop :=
  Forall (λ l, internal l.2) ls ∧
  ∀ who, (∃ cx now, (who, Polled cx now) ∈ ls) ∧ (who, Delivered) ∈ ls ∧ (∃ rtt, (who, Acknowledged rtt) ∈ ls) ∧
         (∃ now, (who, Told now) ∈ ls).

(** Nothing is under way from [x]. *)
Definition quiet (x : Half) : Prop := queued (behav x) = [] ∧ commands x = [] ∧ unacked x = None ∧ heard x = [].

Lemma round_quiet ls x y : round ls → Forall (λ '(who, l), rests l (if who : bool then x else y)) ls → quiet x ∧ quiet y.
Proof.
  intros [_ Hall] Hr. rewrite Forall_forall in Hr.
  assert (∀ who, quiet (if who : bool then x else y)) as Hq; [|exact (conj (Hq true) (Hq false))].
  intros who. destruct (Hall who) as ((cx & now & H1) & H2 & (rtt & H3) & (now' & H4)).
  apply Hr in H1, H2, H3, H4. simpl in *. split_and!; try done. destruct H2 as [[ev Hev]|]; [congruence|done].
Qed.

(** What is left when nothing is under way: files on offer, of which the other
    node has been told. *)
Definition at_rest (x y : Half) : Prop :=
  quiet x ∧ ongoing_send (behav x) = ∅ ∧ ongoing_recv (behav x) = ∅ ∧
  ∀ lid v, pending_recv (behav x) !! lid = Some v → is_Some (pending_send (behav y) !! PendingRecv.remote_send_id v).

Lemma quiet_no_send t x : fine_half t x → quiet x → ongoing_send (behav x) = ∅.
Proof.
  intros [[] _ _] (Hq & Hc & Hu & Hh). apply map_empty. intros k. apply eq_None_not_Some. intros [r Hr].
  apply fi_turn0 in Hr. unfold turns_of in Hr. rewrite Hq, Hc, Hu, Hh in Hr. by apply not_elem_of_nil in Hr.
Qed.

End settle.

(** ** The end of the transfers *)
Section liveness.
Context {P : Platform} {codec : Codec}.

(** A node that has been told of a file, and where nothing is under way. *)
Lemma quiet_known n c x y id : sys_ok True n c x y → quiet x → quiet y → known (transfer_of id y x) ≠ 0 →
  is_Some (pending_send (behav y) !! id) ∧ dst_of id (behav x) = None.
Proof.
  intros [] (Hqx & Hcx & _ & Hhx) Hy Hk. pose proof (quiet_no_send _ _ so_fine_y0 Hy) as Hsy.
  destruct Hy as (Hqy & Hcy & _ & Hhy). pose proof (so_yx0 id) as Hg.
  assert (pipe (transfer_of id y x) = [] ∧ back (transfer_of id y x) = []) as [Hpipe Hback].
  { unfold transfer_of, view, path. simpl. by rewrite Hqx, Hcx, Hhx, Hqy, Hcy, Hhy. }
  assert (src (transfer_of id y x) ≠ Absent) as Hsrc.
  { intros E. destruct (g_ended _ _ Hg I Hk E) as [H|H]; rewrite Hpipe in H; by apply not_elem_of_nil in H. }
  unfold transfer_of, view, src_of in Hsrc. simpl in Hsrc. rewrite Hsy, lookup_empty in Hsrc.
  destruct (pending_send (behav y) !! id) as [v|] eqn:Hv; [|done]. split; [done|].
  apply eq_None_not_Some. intros [f Hf]. pose proof (g_accepted _ _ Hg f (File.rest (PendingSend.file v)) Hf) as Ha.
  rewrite Hback in Ha. eapply not_elem_of_nil, Ha. unfold transfer_of, view, src_of. simpl. by rewrite Hv.
Qed.
Lemma quiet_at_rest n c x y : sys_ok True n c x y → quiet x → quiet y → at_rest x y.
Proof.
  intros Hs Hx Hy. pose proof (quiet_no_send _ _ (so_fine_x _ _ _ _ _ Hs) Hx) as Hsx.
  split; [done|]. split; [done|]. split.
  - apply map_empty. intros k. apply eq_None_not_Some. intros [r Hr]. destruct (quiet_known n c x y k) as [_ Hd]; try done.
    + unfold known, transfer_of, view, dst_of. simpl. rewrite Hr. simpl. lia.
    + unfold dst_of in Hd. by rewrite Hr in Hd.
  - intros lid v Hv. apply (quiet_known n c x y); try done. unfold known. cbn [waiting transfer_of view].
    assert (size (waiting_of (PendingRecv.remote_send_id v) (behav x)) ≠ 0); [|lia].
    apply size_non_empty_iff. assert (lid ∈ waiting_of (PendingRecv.remote_send_id v) (behav x)); [|set_solver].
    apply elem_of_waiting. by exists v.
Qed.

(** In more rounds than there is work, there is one with nothing to do. *)
Lemma rounds_settle fuel rs : ∀ n c x y, (n + N.of_nat (length (concat rs)) ≤ MAX_OPS)%N → (CHUNK < N.of_nat fuel)%N →
  Forall round rs → clocks_ok c (concat rs) → sys_ok True n c x y → work x y < length rs →
  ∃ k x' y', k ≤ S (work x y) ∧ run fuel (concat (take k rs)) x y = Return (x', y') ∧ at_rest x' y' ∧ at_rest y' x'.
Proof.
  induction rs as [|r rs IH]; intros n c x y Hn Hfuel Hrs Hc Hs Hw; [simpl in Hw; lia|].
  cbn [concat] in Hn, Hc. rewrite length_app in Hn. apply clocks_ok_app in Hc as [Hc Hc']. apply Forall_cons in Hrs as [Hr Hrs].
  destruct (run_goes_ok True fuel r n c x y) as (x1 & y1 & Hrun & Hs1); try done; [lia|..].
  { destruct Hr as [Hin _]. eapply Forall_impl; [exact Hin|]. intros [who l]. by destruct l. }
  destruct (run_work True fuel r n c x y x1 y1) as [Hlt|(_ & _ & _ & Hidle)]; try done; [lia|by destruct Hr|..].
  - destruct (IH (n + N.of_nat (length r))%N (clocks_after c r) x1 y1) as (k & x' & y' & Hk & Hrun' & Hrest); try done; [lia|simpl in Hw; lia|].
    exists (S k), x', y'. split; [lia|]. split; [|done]. cbn [take concat]. by rewrite (run_app fuel r _ x y x1 y1).
  - destruct (round_quiet r x1 y1 Hr Hidle). exists 1, x1, y1. split; [lia|]. cbn [take concat]. rewrite app_nil_r.
    split; [done|]. split; [by eapply quiet_at_rest|]. eapply quiet_at_rest; [by apply sys_ok_swap in Hs1|done..].
Qed.

(** C3: every transfer ends.  After any run, with any requests and any schedule, let
    the applications ask for nothing more and let the nodes go on in rounds, in each
    of which each of them polls, sends, acknowledges and reports at least once, in
    any order: in at most one round more than [work] says, no file is being sent or
    received any more and nothing is under way, and of every file one node still
    waits to accept the other has the offer.  Files on offer have to be readable. *)
Theorem transfers_come_to_an_end fuel ls rs a b x y x' y' :
  fresh_half a b x → fresh_half b a y → Forall (λ l, label_good True l.2) ls → Forall round rs →
  clocks_ok (0, 0)%N (ls ++ concat rs) → (N.of_nat (length (ls ++ concat rs)) ≤ MAX_OPS)%N → (CHUNK < N.of_nat fuel)%N →
  run fuel ls x y = Return (x', y') → work x' y' < length rs →
  ∃ k x'' y'', k ≤ S (work x' y') ∧ run fuel (ls ++ concat (take k rs)) x y = Return (x'', y'') ∧
    at_rest x'' y'' ∧ at_rest y'' x''.
Proof.
  intros Hx Hy Hls Hrs Hc Hlen Hfuel Hrun Hw. rewrite length_app in Hlen. apply clocks_ok_app in Hc as [Hc Hc'].
  destruct (run_goes_ok True fuel ls 0 (0, 0)%N x y) as (x1 & y1 & Hrun1 & Hs); try done; [lia|by eapply fresh_ok|].
  rewrite Hrun in Hrun1. injection Hrun1 as <- <-.
  destruct (rounds_settle fuel rs (0 + N.of_nat (length ls)) (clocks_after (0, 0)%N ls) x' y') as (k & x'' & y'' & Hk & Hr & Hrest);
    try done; [lia|]. exists k, x'', y''. split; [done|]. split; [|done]. by rewrite (run_app _ _ _ _ _ _ _ Hrun).
Qed.
End liveness.

(** ** Witness: a file is accepted, the first chunk is written; the rest follows *)
Section witnesses.
#[local] Existing Instance demo_codec.
#[local] Abbreviation cx0 := (0%N : @PollCx demo_platform).

Definition demo_round : list (bool * Label) :=
  [(true, Polled cx0 0); (true, Delivered); (true, Acknowledged 5); (true, Told 0);
   (false, Polled cx0 0); (false, Delivered); (false, Acknowledged 5); (false, Told 0)].
Lemma demo_round_ok : round demo_round.
Proof.
  split; [by repeat constructor|]. intros []; (split_and!; [exists cx0, 0%N| |exists 5%N|exists 0%N]; unfold demo_round; set_solver).
Qed.
Lemma demo_works : ∃ x' y', run demo_fuel demo_labels (demo_half 8%N 7%N) (demo_half 7%N 8%N) = Return (x', y') ∧
  Nat.ltb (work x' y') 40 = true ∧ is_Some (ongoing_recv (behav y') !! 0%N).
Proof.
  assert (match run demo_fuel demo_labels (demo_half 8%N 7%N) (demo_half 7%N 8%N) with
          | Return (x', y') => Nat.ltb (work x' y') 40 && match ongoing_recv (behav y') !! 0%N with Some _ => true | None => false end
          | _ => false
          end = true) as H by (vm_compute; reflexivity).
  destruct (run _ _ _ _) as [[x' y']| |]; try discriminate H. apply andb_prop in H as [Hw Hr]. exists x', y'.
  split; [reflexivity|]. split; [exact Hw|]. destruct (ongoing_recv (behav y') !! 0%N); [by eexists|discriminate Hr].
Qed.

Lemma transfers_come_to_an_end_witness : ∃ x' y',
  run demo_fuel demo_labels (demo_half 8%N 7%N) (demo_half 7%N 8%N) = Return (x', y') ∧
  is_Some (ongoing_recv (behav y') !! 0%N) ∧
  ∃ k x'' y'', k ≤ S (work x' y') ∧
    run demo_fuel (demo_labels ++ concat (take k (replicate 40 demo_round))) (demo_half 8%N 7%N) (demo_half 7%N 8%N) = Return (x'', y'') ∧
    at_rest x'' y'' ∧ at_rest y'' x''.
Proof.
  destruct demo_works as (x' & y' & Hrun & Hw & Hr). exists x', y'. split; [exact Hrun|]. split; [exact Hr|].
  refine (transfers_come_to_an_end demo_fuel demo_labels (replicate 40 demo_round) _ _ _ _ x' y'
    (demo_fresh 8%N 7%N) (demo_fresh 7%N 8%N) (demo_labels_good True) _ _ ltac:(vm_compute; discriminate) demo_fuel_enough Hrun
    (proj1 (Nat.ltb_lt _ _) Hw)).
  - apply Forall_replicate. exact demo_round_ok.
  - apply clocks_ok_app. split; [exact demo_clocks|]. vm_compute. repeat split; by intros ? [= <-].
Defined.
End witnesses.
End BlobSettle.
