(* ===== verification/BlobLink.v ===== *)
(** * Handlers and streams do what [BlobAsync] says

    Module [BlobLink]: two nodes with their blob behaviour and the handler of their
    connection, polled in any order; the handlers send and receive frames with
    [protocol::send] and [protocol::recv] over two streams.  Such a system goes
    through, and does nothing that the one of [BlobAsync] does not do: what is
    proved there holds of it. *)

From stdpp Require Import base gmap sets list strings relations fin_maps.
From Stdlib Require Import Lia NArith.
From S2P Require Import Prelude Std Core Stream Wire BlobProtocol BlobTypes BlobHandler BlobHandlerProps.
From S2P Require Import BlobBehaviour BlobDemo BlobBehaviourProps BlobSafety TransferSpec BlobAsync BlobRuns.
Import Wire TransferSpec BlobAsync BlobRuns.

(** Protobuf: a field of a small message is a tag and a varint of at most ten
    bytes, a string is one more of those and its bytes. *)
Class CodecSizes {codec : Codec} := {
  IncomingFile_size m : length (encode_IncomingFile m) ≤ 33 + String.length (messages.if_file_name m);
  AcceptFile_size m : length (encode_AcceptFile m) ≤ 11;
  CancelSend_size m : length (encode_CancelSend m) ≤ 11;
  CancelRecv_size m : length (encode_CancelRecv m) ≤ 11;
}.

Module BlobLink.
Section link.
Context {P : Platform} {codec : Codec} {laws : CodecLaws} {sizes : CodecSizes}.
Context {St : Type} {io : AsyncIO St} {rel : ReliableIO St} {net : Network St}.
Context (R : Prop).

#[local] Arguments ack_event : simpl never.
#[local] Arguments ack_answer : simpl never.
#[local] Arguments outgoing : simpl never.

(** ** The nodes and their moves *)

(** A node: what its handler has handed to the swarm waits to be told; the last
    field is the answer of its call of [send], once the other one has read the
    frame. *)
Record Side := MkSide {
  sd_id : PeerId;
  sd_behav : Behaviour;
  sd_handler : Handler St;
  sd_told : list ToBehaviourEvent;
  sd_answer : option (Poll (result (St * N) IoError));
}.

(** A handler is polled: a frame may have arrived for it, an answer for its frame. *)
Inductive Move :=
| MRequest (now : N) (ev : InEvent)
| MPolled (cx : PollCx) (now : N)
| MHandler (timer : PollCx) (arrives answered : bool) (elapsed : N)
| MTold (now : N).

(** The frame that is on its way from [x] to the handler of [y], both calls run to
    their end: the answer to [x] and what [y] receives. *)
Definition frame_crosses (fuel : nat) (elapsed : N) (x y : Side)
    : outcome (option (Poll (result (St * N) IoError) * Poll (result (St * (bytes * byte)) IoError))) :=
  match outbound (sd_handler x), sd_answer x, inbound (sd_handler y) with
  | Some (Busy task _ _), None, Some fut =>
      r ← blob_exchange fuel elapsed (st_buf task) (st_message_type task) (st_stream task) (rt_stream fut);
      Return (Some r)
  | _, _, _ => Return None
  end.

(** The poll context: what the futures of a handler answer. *)
Definition link_cx (timer : PollCx) (received : option (Poll (result (St * (bytes * byte)) IoError)))
    (answer : option (Poll (result (St * N) IoError))) : HandlerCx St := {|
  cx_timer := timer;
  cx_recv := λ _, match received with
                  | Some (Ready (Ok (s, (buf, t)))) => Ready (Ok (s, buf, t))
                  | Some (Ready (Err e)) => Ready (Err e)
                  | _ => Pending
                  end;
  cx_send := λ k _, match k, answer with O, Some r => r | _, _ => Pending end;
|}.

Definition told (p : Poll PollResult) : list ToBehaviourEvent :=
  match p with Ready (NotifyBehaviour ev) => [ev] | _ => [] end.

Definition side_step (fuel : nat) (m : Move) (x y : Side) : outcome (Side * Side) :=
  match m with
  | MRequest now ev =>
      ' (s, _) ← push_event now ev (sd_behav x);
      Return (MkSide (sd_id x) s (sd_handler x) (sd_told x) (sd_answer x), y)
  | MPolled cx now =>
      ' (s, p) ← BlobBehaviour.poll cx now (sd_behav x);
      let h := match p with
               | Ready (NotifyHandler to _ ev) =>
                   if decide (to = sd_id y) then on_behaviour_event ev (sd_handler x) else sd_handler x
               | _ => sd_handler x
               end in
      Return (MkSide (sd_id x) s h (sd_told x) (sd_answer x), y)
  | MHandler timer arrives answered elapsed =>
      crossed ← (if arrives : bool then frame_crosses fuel elapsed y x else Return None);
      let answer := if answered : bool then sd_answer x else None in
      ' (p, h, _) ← BlobHandler.poll (link_cx timer (snd <$> crossed) answer) (sd_handler x);
      Return (MkSide (sd_id x) (sd_behav x) h (sd_told x ++ told p) (match answer with Some _ => None | None => sd_answer x end),
              match crossed with
              | Some (r, _) => MkSide (sd_id y) (sd_behav y) (sd_handler y) (sd_told y) (Some r)
              | None => y
              end)
  | MTold now =>
      match sd_told x with
      | ev :: evs =>
          s ← on_connection_handler_event fuel now (sd_id y) ev (sd_behav x);
          Return (MkSide (sd_id x) s (sd_handler x) evs (sd_answer x), y)
      | [] => Return (x, y)
      end
  end.

Fixpoint link_run (fuel : nat) (ms : list (bool * Move)) (x y : Side) : outcome (Side * Side) :=
  match ms with
  | [] => Return (x, y)
  | (true, m) :: ms => ' (x, y) ← side_step fuel m x y; link_run fuel ms x y
  | (false, m) :: ms => ' (y, x) ← side_step fuel m y x; link_run fuel ms x y
  end.

(** The time for a command is not over: neither for the one that is being sent nor
    for the one that would be started. *)
Definition in_time (m : Move) (x : Side) : bool :=
  match m with
  | MHandler timer _ _ _ =>
      negb (delay_poll timer (delay_new (timeout (sd_handler x)))).1 &&
      match outbound (sd_handler x) with Some (Busy _ _ d) => negb (delay_poll timer d).1 | _ => true end
  | _ => true
  end.
(** ...all along a run. *)
Fixpoint run_in_time (fuel : nat) (ms : list (bool * Move)) (x y : Side) : bool :=
  match ms with
  | [] => true
  | (true, m) :: ms =>
      in_time m x && match side_step fuel m x y with Return (x, y) => run_in_time fuel ms x y | _ => true end
  | (false, m) :: ms =>
      in_time m y && match side_step fuel m y x with Return (y, x) => run_in_time fuel ms x y | _ => true end
  end.

(** ** What a node is in [BlobAsync] *)

(** The commands are those of the handler's queue, after the one whose frame has
    not arrived; the one whose frame has arrived is not acknowledged yet. *)
Definition outbound_half (o : option (OutboundState St)) (answer : option (Poll (result (St * N) IoError)))
    (queue : list FromBehaviourEvent) (hx : Half) : Prop :=
  match o with
  | Some (Idle so) => quiet so ∧ answer = None ∧ unacked hx = None ∧ commands hx = queue
  | Some (Busy task job _) =>
      ∃ ev so, task = {| st_stream := so; st_buf := (outgoing ev).1.2; st_message_type := (outgoing ev).2 |} ∧
        job = event_job ev ∧
        match answer with
        | None => quiet so ∧ unacked hx = None ∧ commands hx = ev :: queue
        | Some r => (∃ so' rtt, r = Ready (Ok (so', rtt)) ∧ quiet so') ∧ unacked hx = Some ev ∧ commands hx = queue
        end
  | _ => False
  end.
Record side_half (x : Side) (hx : Half) : Prop := {
  sh_self : self hx = sd_id x;
  sh_behav : behav hx = sd_behav x;
  sh_heard : heard hx = sd_told x ++ pending_out_events (sd_handler x);
  sh_active : state (sd_handler x) = Active;
  sh_inbound : ∃ si, inbound (sd_handler x) = Some {| rt_stream := si |} ∧ quiet si;
  sh_outbound : outbound_half (outbound (sd_handler x)) (sd_answer x) (pending_in_events (sd_handler x)) hx;
}.

(** ** Polls of a handler *)

(** What a poll leaves alone. *)
Definition same_but_outbound (h h' : Handler St) : Prop :=
  state h' = state h ∧ inbound h' = inbound h ∧ timeout h' = timeout h.
Lemma same_trans h h1 h2 : same_but_outbound h h1 → same_but_outbound h1 h2 → same_but_outbound h h2.
Proof. intros (H1 & H2 & H3) (H4 & H5 & H6). split_and!; congruence. Qed.

(** A handler that is not sending starts the next command, if there is one. *)
Lemma idle_starts cx k sent f (h : Handler St) so hx :
  outbound h = Some (Idle so) → quiet so → (∀ task, cx_send cx k task = Pending) →
  (delay_poll (cx_timer cx) (delay_new (timeout h))).1 = false → unacked hx = None → commands hx = pending_in_events h →
  ∃ h', loop (poll_outbound_body cx) (S (S f)) (k, h, sent) = Return (None, h', sent) ∧ same_but_outbound h h' ∧
    pending_out_events h' = pending_out_events h ∧ outbound_half (outbound h') None (pending_in_events h') hx.
Proof.
  destruct h as [st ins outs T inb outb]. simpl. intros -> Hq Hsend Ht Hu Hc. cbn [loop poll_outbound_body outbound].
  destruct ins as [|ev evs]; simpl.
  - eexists. split; [done|]. by split_and!.
  - unfold progress_outbound. destruct (outgoing ev) as [[job bs] t] eqn:Hout. simpl. rewrite Hsend.
    destruct (delay_poll (cx_timer cx) (delay_new T)) as [ready d]. simpl in Ht. subst ready. simpl.
    eexists. split; [done|]. split; [by split_and!|]. split; [done|]. exists ev, so. unfold event_job. rewrite Hout. by split_and!.
Qed.

(** One that is sending finishes when the answer is there, and starts the next. *)
Lemma outbound_polled cx (h : Handler St) (answer : option (Poll (result (St * N) IoError))) shown hx :
  outbound_half (outbound h) answer (pending_in_events h) hx → shown = None ∨ shown = answer →
  (∀ task, cx_send cx 0 task = default Pending shown) → (∀ task, cx_send cx 1 task = Pending) →
  (delay_poll (cx_timer cx) (delay_new (timeout h))).1 = false →
  match outbound h with Some (Busy _ _ d) => (delay_poll (cx_timer cx) d).1 = false | _ => True end →
  ∃ h' sent rtt hx', poll_outbound cx h = Return (None, h', sent) ∧ same_but_outbound h h' ∧
    (∀ fuel hy, run fuel (match shown with Some _ => [(true, Acknowledged rtt)] | None => [] end) hx hy = Return (hx', hy)) ∧
    self hx' = self hx ∧ behav hx' = behav hx ∧
    (∃ new, pending_out_events h' = pending_out_events h ++ new ∧ heard hx' = heard hx ++ new) ∧
    outbound_half (outbound h') (match shown with Some _ => None | None => answer end) (pending_in_events h') hx'.
Proof.
  unfold poll_outbound. destruct (outbound h) as [[|so|task job d]|] eqn:Ho; try done; intros Hhalf Hshown H0 H1 Ht Htask.
  - destruct Hhalf as (Hq & -> & Hu & Hc). assert (shown = None) as -> by by destruct Hshown.
    destruct (idle_starts cx 0 [] (1 + 2 * length (pending_in_events h)) h so hx) as (h' & Hloop & Hsame & Hout & Hhalf'); try done.
    exists h', [], 0%N, hx. split; [exact Hloop|]. split; [done|]. split; [done|]. split_and!; try done.
    exists []. by rewrite !app_nil_r.
  - destruct Hhalf as (ev & so & -> & -> & Hans). destruct shown as [r|].
    + destruct Hshown as [?|<-]; [done|]. destruct Hans as ((so' & rtt & -> & Hq) & Hu & Hc).
      pose (ack := match ack_event (event_job ev, rtt) with Some ack => [ack] | None => [] end).
      pose (h1 := set_outbound (Some (Idle so')) (match ack_event (event_job ev, rtt) with Some a => BlobHandler.push_out a (set_outbound None h) | None => set_outbound None h end)).
      pose (hx1 := MkHalf (self hx) (behav hx) (commands hx) None (heard hx ++ ack) (offers hx) (dests hx)).
      assert (Hh1 : outbound h1 = Some (Idle so') ∧ pending_in_events h1 = pending_in_events h ∧ pending_out_events h1 = pending_out_events h ++ ack ∧
        same_but_outbound h h1).
      { unfold h1, ack, same_but_outbound. destruct (ack_event _); simpl; by rewrite ?app_nil_r. }
      destruct Hh1 as (Ho1 & Hi1 & Hp1 & Hs1).
      destruct (idle_starts cx 1 (ack_answer (event_job ev, rtt)) (2 * length (pending_in_events h)) h1 so' hx1) as (h' & Hloop & Hsame & Hout & Hhalf');
        try done; [by destruct Hs1 as (_ & _ & ->)|by rewrite Hi1|].
      exists h', (ack_answer (event_job ev, rtt)), rtt, hx1.
      split; [|split; [by eapply same_trans|split_and!; try done]].
      * unfold outbound_fuel. cbn [loop Nat.add poll_outbound_body]. rewrite Ho, H0. simpl.
        rewrite on_sent_ack by apply has_callback_event. exact Hloop.
      * intros fuel hy. simpl. by rewrite Hu.
      * exists ack. rewrite Hout, Hp1. by split.
    + exists (set_outbound (Some (Busy {| st_stream := so; st_buf := (outgoing ev).1.2; st_message_type := (outgoing ev).2 |} (event_job ev)
        (delay_poll (cx_timer cx) d).2)) h), [], 0%N, hx.
      split_and!; try done.
      * unfold outbound_fuel. cbn [loop Nat.add poll_outbound_body]. rewrite Ho, H0. simpl.
        destruct (delay_poll (cx_timer cx) d) as [ready d']. simpl in Htask. by subst ready.
      * exists []. by rewrite !app_nil_r.
      * simpl. by exists ev, so.
Qed.

(** ** Frames *)

(** A command under way is about a transfer that exists, and fits into a frame. *)
Lemma numbered n c hx hy id : sys_ok R n c hx hy → (n ≤ MAX_OPS)%N →
  omap (item_of id) (path hx hy) ≠ [] ∨ omap (reply_of id) (path hx hy) ≠ [] → (id < 2 ^ 64)%N.
Proof.
  intros [] Hn H.
  assert (∀ x y, good R (transfer_of id x y) → wf n (behav x) →
    pipe (transfer_of id x y) ≠ [] ∨ back (transfer_of id x y) ≠ [] → (id < 2 ^ 64)%N) as Hborn.
  { intros x y Hg [[Hc _ _] _] Hne. destruct (born (transfer_of id x y)) eqn:Hb.
    - apply bool_decide_eq_true in Hb. rewrite MAX_OPS_eq in Hn. lia.
    - destruct (g_unborn _ _ Hg Hb) as (_ & Hp & _ & _ & Hk). by destruct Hne. }
  destruct H; [apply (Hborn hx hy)|apply (Hborn hy hx)]; auto.
Qed.
Lemma command_fits n c hx hy ev cmds : sys_ok R n c hx hy → (n ≤ MAX_OPS)%N → commands hx = ev :: cmds →
  event_u64 ev ∧ (N.of_nat (length (outgoing ev).1.2) ≤ MAX_BODY)%N.
Proof.
  intros Hs Hn Hc. assert (Hfine : event_fine (dual ev)).
  { destruct (so_fine_x _ _ _ _ _ Hs) as [_ Hf _]. rewrite Hc in Hf. by apply Forall_cons in Hf as [? _]. }
  assert (Hid : ∀ id, omap (item_of id) [dual ev] ≠ [] ∨ omap (reply_of id) [dual ev] ≠ [] → (id < 2 ^ 64)%N).
  { intros id Hne. apply (numbered n c hx hy id Hs Hn). unfold path. rewrite Hc, fmap_cons.
    replace (dual ev :: (dual <$> cmds)) with ([dual ev] ++ (dual <$> cmds)) by done. rewrite !omap_app.
    destruct Hne as [Hne|Hne]; [left|right]; intros E; apply app_eq_nil in E as [_ E]; apply app_eq_nil in E as [E _];
      apply app_eq_nil in E as [E _]; done. }
  assert (Hi : match ev with NewFileSend _ i _ _ | FileChunk i _ | HAcceptFile i _ | LocalCancelSend i | LocalCancelRecv i => (i < 2 ^ 64)%N end).
  { destruct ev; apply Hid; simpl; rewrite decide_True by done; auto. }
  unfold MAX_BODY. destruct ev as [name i cb total|i content|i cb|i|i]; unfold outgoing, event_u64; cbn [fst snd dual event_fine] in *.
  - destruct Hfine as (_ & Hlen & Htotal). rewrite U64_eq in Htotal. split; [split; [done|exact Htotal]|].
    pose proof (IncomingFile_size {| messages.if_remote_send_id := i; messages.if_bytes_total := total; messages.if_file_name := name |}) as Hsize.
    cbn [messages.if_file_name] in Hsize. unfold NAME_MAX in Hlen. lia.
  - split; [done|].
    pose proof (FileChunk_size {| messages.fc_remote_send_id := i; messages.fc_content := content |} Hi) as Hsize.
    cbn [messages.fc_content] in Hsize. rewrite CHUNK_eq in Hfine. rewrite FILE_CHUNK_SIZE_eq, CHUNK_eq in Hsize. specialize (Hsize ltac:(lia)). lia.
  - split; [done|]. pose proof (AcceptFile_size {| messages.af_local_send_id := i |}). lia.
  - split; [done|]. pose proof (CancelSend_size {| messages.cs_remote_send_id := i |}). lia.
  - split; [done|]. pose proof (CancelRecv_size {| messages.cr_local_send_id := i |}). lia.
Qed.

(** After [Delivered], on the side that sends. *)
Definition delivered (hy : Half) (ev : FromBehaviourEvent) (cmds : list FromBehaviourEvent) : Half :=
  MkHalf (self hy) (behav hy) cmds (Some ev) (heard hy) (offers hy) (dests hy).
Definition receives (hx : Half) (ev : FromBehaviourEvent) : Half :=
  MkHalf (self hx) (behav hx) (commands hx) (unacked hx) (heard hx ++ [dual ev]) (offers hx) (dests hx).

(** A frame that crosses is the one of the first command, and arrives whole. *)
Lemma crossing fuel n c arrives elapsed x y hx hy : (MAX_BODY < N.of_nat fuel)%N → (n ≤ MAX_OPS)%N →
  side_half x hx → side_half y hy → sys_ok R n c hy hx →
  ∃ crossed, (if arrives : bool then frame_crosses fuel elapsed y x else Return None) = Return crossed ∧
    (crossed = None ∨
     ∃ ev cmds si ra, crossed = Some (ra, Ready (Ok (si, ((outgoing ev).1.2, (outgoing ev).2)))) ∧ quiet si ∧ event_u64 ev ∧
       unacked hy = None ∧ commands hy = ev :: cmds ∧
       outbound_half (outbound (sd_handler y)) (Some ra) (pending_in_events (sd_handler y)) (delivered hy ev cmds)).
Proof.
  intros Hfuel Hn [] [] Hs. destruct arrives; [|by exists None; auto]. unfold frame_crosses.
  destruct sh_inbound0 as (si & -> & Hqi). clear sh_inbound1 sh_outbound0.
  destruct (outbound (sd_handler y)) as [[|so|task job d]|]; try done; try (by exists None; auto).
  destruct (sd_answer y) as [r|]; [by exists None; auto|].
  destruct sh_outbound1 as (ev & so & -> & -> & Hq & Hu & Hc). destruct (command_fits n c hy hx ev _ Hs Hn Hc) as [Hev Hmax].
  cbn [st_buf st_message_type st_stream rt_stream].
  destruct (blob_exchange_ok fuel elapsed (outgoing ev).1.2 (outgoing ev).2 so si Hq Hqi Hmax ltac:(lia)) as (so' & si' & -> & Hq' & Hqi').
  cbn [obind]. eexists. split; [done|]. right. exists ev, (pending_in_events (sd_handler y)), si', (Ready (Ok (so', elapsed))).
  split_and!; try done. exists ev, so. split_and!; try done. by exists so', elapsed.
Qed.

(** What a handler receives: nothing, or the frame of a command. *)
Definition arrived (hx hx1 : Half) (received : option (Poll (result (St * (bytes * byte)) IoError))) : Prop :=
  (received = None ∧ hx1 = hx) ∨
  (∃ ev si, received = Some (Ready (Ok (si, ((outgoing ev).1.2, (outgoing ev).2)))) ∧ quiet si ∧ event_u64 ev ∧ hx1 = receives hx ev).

Lemma inbound_polled timer received answer x hx hx1 : side_half x hx → arrived hx hx1 received →
  ∃ h1, poll_inbound (link_cx timer received answer) (sd_handler x) = Return (None, h1) ∧ state h1 = Active ∧
    (∃ si, inbound h1 = Some {| rt_stream := si |} ∧ quiet si) ∧ timeout h1 = timeout (sd_handler x) ∧
    outbound h1 = outbound (sd_handler x) ∧ pending_in_events h1 = pending_in_events (sd_handler x) ∧
    heard hx1 = sd_told x ++ pending_out_events h1 ∧ self hx1 = sd_id x ∧ behav hx1 = sd_behav x ∧
    outbound_half (outbound (sd_handler x)) (sd_answer x) (pending_in_events (sd_handler x)) hx1.
Proof.
  intros [] Harr. destruct sh_inbound0 as (si & Hi & Hq). unfold poll_inbound. rewrite Hi.
  destruct Harr as [[-> ->]|(ev & si' & -> & Hq' & Hev & ->)].
  - exists (sd_handler x). split_and!; try done. by exists si.
  - simpl. rewrite outgoing_decoded by done. eexists. split; [done|]. split_and!; try done; [by exists si'|].
    simpl. by rewrite sh_heard0, app_assoc.
Qed.

(** A poll of a handler: what has crossed is received, what is answered is
    acknowledged, the next command is started, and one event is handed over. *)
Lemma handler_polled timer received (answered : bool) x hx hx1 : side_half x hx → arrived hx hx1 received →
  in_time (MHandler timer true answered 0) x = true →
  let answer := if answered then sd_answer x else None in
  ∃ p h sent hx2 rtt, BlobHandler.poll (link_cx timer received answer) (sd_handler x) = Return (p, h, sent) ∧
    (∀ fuel hy, run fuel (match answer with Some _ => [(true, Acknowledged rtt)] | None => [] end) hx1 hy = Return (hx2, hy)) ∧
    side_half (MkSide (sd_id x) (sd_behav x) h (sd_told x ++ told p) (match answer with Some _ => None | None => sd_answer x end)) hx2.
Proof.
  intros Hx Harr Htime answer. pose proof (sh_active _ _ Hx) as Hactive.
  destruct (inbound_polled timer received answer x hx hx1 Hx Harr) as (h1 & Hin & Hst & Hsi & HT & Ho & Hpi & Hheard & Hself & Hbehav & Hhalf).
  simpl in Htime. apply andb_prop in Htime as [Ht Htask]. apply negb_true_iff in Ht.
  destruct (outbound_polled (link_cx timer received answer) h1 (sd_answer x) answer hx1) as
    (h' & sent & rtt & hx2 & Hout & (Hst' & Hi' & _) & Hrun & Hself' & Hbehav' & (new & Hp' & Hheard') & Hhalf').
  - by rewrite Ho, Hpi.
  - unfold answer. destruct answered; auto.
  - intros task. simpl. by destruct answer.
  - done.
  - by rewrite HT.
  - rewrite Ho. destruct (outbound (sd_handler x)) as [[| |? ? d]|]; try done. by apply negb_true_iff in Htask.
  - unfold BlobHandler.poll. rewrite Hactive. unfold poll_active. rewrite Hin. cbn [obind]. rewrite Hout. cbn [obind].
    assert (Hall : heard hx2 = sd_told x ++ pending_out_events h') by by rewrite Hheard', Hheard, Hp', app_assoc.
    destruct (pending_out_events h') as [|ev evs] eqn:Hpe.
    + eexists _, _, _, hx2, rtt. split; [done|]. split; [done|].
      split; simpl; try congruence; [by rewrite Hpe, app_nil_r|by rewrite Hi'].
    + eexists _, _, _, hx2, rtt. split; [done|]. split; [done|].
      split; simpl; try congruence; [by rewrite <-app_assoc|by rewrite Hi'].
Qed.

(** ** Moves are steps *)

Definition move_time (m : Move) : option N :=
  match m with MRequest now _ | MPolled _ now | MTold now => Some now | MHandler _ _ _ _ => None end.
Definition move_good (m : Move) : Prop := match m with MRequest now ev => label_good R (Request now ev) | _ => True end.

(** What the applications ask for, and when. *)
Definition asked (l : bool * Label) : option (bool * N * InEvent) :=
  match l with (who, Request now ev) => Some (who, now, ev) | _ => None end.
Definition move_asked (m : bool * Move) : option (bool * N * InEvent) :=
  match m with (who, MRequest now ev) => Some (who, now, ev) | _ => None end.

(** What a move of [x] is in [BlobAsync]. *)
Definition simulated (fuel : nat) (c : N * N) (m : Move) (x y : Side) (hx hy : Half) : Prop :=
  ∃ x' y' ls hx' hy', side_step fuel m x y = Return (x', y') ∧ run fuel ls hx hy = Return (hx', hy') ∧ length ls ≤ 2 ∧
    Forall (λ l, label_good R l.2) ls ∧ clocks_ok c ls ∧ ((clocks_after c ls).1 ≤ default c.1 (move_time m))%N ∧ (clocks_after c ls).2 = c.2 ∧
    omap asked ls = option_list (move_asked (true, m)) ∧
    side_half x' hx' ∧ side_half y' hy'.

(** A move that is one step. *)
Lemma one_step fuel c m l x y hx hy hx' hy' out x' y' : half_step fuel l hx hy = Return (hx', hy', out) → label_good R l →
  move_time m = time_of l → move_asked (true, m) = asked (true, l) → (∀ now, time_of l = Some now → (c.1 ≤ now)%N) → side_step fuel m x y = Return (x', y') →
  side_half x' hx' → side_half y' hy' → simulated fuel c m x y hx hy.
Proof.
  intros Hstep Hl Hm Ha Ht Hs Hx Hy. exists x', y', [(true, l)], hx', hy'. split; [done|]. split; [cbn [run]; by rewrite Hstep|].
  split; [simpl; lia|]. split; [constructor; [done|constructor]|]. split; [by split|]. split; [simpl; by rewrite Hm|]. split; [done|]. rewrite Ha. by destruct l.
Qed.

(** Frames and acknowledgements take no time. *)
Definition timeless (l : bool * Label) : Prop := match l.2 with Delivered | Acknowledged _ => True | _ => False end.
Lemma timeless_ok c ls : Forall timeless ls → Forall (λ l, label_good R l.2) ls ∧ clocks_ok c ls ∧ clocks_after c ls = c ∧ omap asked ls = [].
Proof.
  induction 1 as [|[who l] ls Hl Hls (H1 & H2 & H3 & H4)]; [by destruct c|]. split; [constructor; [by destruct l|done]|].
  destruct c as [c1 c2]. by destruct who, l.
Qed.
Lemma answer_labels {A} (answer : option A) rtt :
  let ls := match answer with Some _ => [(true, Acknowledged rtt)] | None => [] end in Forall timeless ls ∧ length ls ≤ 1.
Proof. destruct answer; simpl; split; try lia; repeat constructor. Qed.

Lemma handler_simulated fuel n c timer arrives answered elapsed x y hx hy : (MAX_BODY < N.of_nat fuel)%N → (n ≤ MAX_OPS)%N →
  side_half x hx → side_half y hy → sys_ok R n c hx hy → in_time (MHandler timer arrives answered elapsed) x = true →
  simulated fuel c (MHandler timer arrives answered elapsed) x y hx hy.
Proof.
  intros Hfuel Hn Hx Hy Hs Ht. apply sys_ok_swap in Hs.
  destruct (crossing fuel n _ arrives elapsed x y hx hy Hfuel Hn Hx Hy Hs) as (crossed & Hcross & Hcrossed).
  destruct Hcrossed as [->|(ev & cmds & si & ra & -> & Hq & Hev & Hu & Hc & Hhalf)].
  - destruct (handler_polled timer None answered x hx hx Hx (or_introl (conj eq_refl eq_refl)) Ht)
      as (p & h & sent & hx2 & rtt & Hpoll & Hrun & Hx').
    eexists _, _, _, hx2, hy. split; [cbn [side_step]; rewrite Hcross; cbn [obind fmap option_fmap option_map]; rewrite Hpoll; done|].
    split; [apply Hrun|].
    destruct (answer_labels (if answered then sd_answer x else None) rtt) as [Hls Hlen]. destruct (timeless_ok c _ Hls) as (H1 & H2 & H3 & H4).
    split; [lia|]. split; [done|]. split; [done|]. rewrite H3. by split_and!.
  - destruct (handler_polled timer (Some (Ready (Ok (si, ((outgoing ev).1.2, (outgoing ev).2))))) answered x hx (receives hx ev) Hx)
      as (p & h & sent & hx2 & rtt & Hpoll & Hrun & Hx'); [right; by exists ev, si|done|].
    assert (Hy' : side_half (MkSide (sd_id y) (sd_behav y) (sd_handler y) (sd_told y) (Some ra)) (delivered hy ev cmds)) by by destruct Hy.
    assert (Hdel : ∀ ls, run fuel ((false, Delivered) :: ls) hx hy = run fuel ls (receives hx ev) (delivered hy ev cmds)).
    { intros ls. cbn [run half_step]. by rewrite Hu, Hc. }
    eexists _, _, ((false, Delivered) :: _), hx2, (delivered hy ev cmds).
    split; [cbn [side_step]; rewrite Hcross; cbn [obind fmap option_fmap option_map snd]; rewrite Hpoll; done|].
    split; [rewrite Hdel; apply Hrun|].
    destruct (answer_labels (if answered then sd_answer x else None) rtt) as [Hls Hlen].
    destruct (timeless_ok c ((false, Delivered) :: match (if answered then sd_answer x else None) with Some _ => [(true, Acknowledged rtt)] | None => [] end))
      as (H1 & H2 & H3 & H4); [by constructor|].
    split; [simpl; lia|]. split; [done|]. split; [done|]. rewrite H3. by split_and!.
Qed.

Lemma side_step_simulated fuel n c m x y hx hy : (MAX_BODY < N.of_nat fuel)%N → (n < MAX_OPS)%N →
  side_half x hx → side_half y hy → sys_ok R n c hx hy → move_good m → (∀ now, move_time m = Some now → (c.1 ≤ now)%N) →
  in_time m x = true → simulated fuel c m x y hx hy.
Proof.
  intros Hfuel Hn Hx Hy Hs Hm Hclock Ht.
  assert (Hfuel' : (CHUNK < N.of_nat fuel)%N) by (rewrite CHUNK_eq; unfold MAX_BODY in Hfuel; lia).
  pose proof Hx as []. pose proof Hy as [Hself_y _ _ _ _ _].
  destruct m as [now ev|cx now|timer arrives answered elapsed|now].
  - destruct (half_step_ok R fuel n c (Request now ev) hx hy) as (hx' & hy' & out & Hstep & _); try done.
    pose proof Hstep as Hstep'. cbn [half_step] in Hstep'. apply bind_return in Hstep' as ([s sent] & Hp & [= <- <- _]).
    rewrite sh_behav0 in Hp. eapply one_step; try done; [cbn [side_step]; by rewrite Hp|]. by split.
  - destruct (half_step_ok R fuel n c (Polled cx now) hx hy) as (hx' & hy' & out & Hstep & _); try done.
    pose proof Hstep as Hstep'. cbn [half_step] in Hstep'. apply bind_return in Hstep' as ([s r] & Hp & [= <- <- _]).
    rewrite sh_behav0 in Hp. eapply one_step; try done; [cbn [side_step]; by rewrite Hp|]. rewrite Hself_y.
    destruct r as [[| | | |to hd ev| | | | | |]|]; try (split; simpl; try done; by rewrite app_nil_r).
    destruct (decide (to = sd_id y)); [|split; simpl; try done; by rewrite app_nil_r].
    split; simpl; try done. revert sh_outbound0. destruct (outbound (sd_handler x)) as [[|so|task job d]|]; simpl; try done.
    + intros (? & ? & ? & ->). by split_and!.
    + intros (ev0 & so & ? & ? & H). exists ev0, so. split; [done|]. split; [done|].
      destruct (sd_answer x); destruct H as (? & ? & ->); by split_and!.
  - apply (handler_simulated fuel n); try done. lia.
  - destruct (half_step_ok R fuel n c (Told now) hx hy) as (hx' & hy' & out & Hstep & _); try done.
    pose proof Hstep as Hstep'. cbn [half_step] in Hstep'. rewrite sh_heard0 in Hstep'.
    destruct (sd_told x) as [|ev evs] eqn:Htold.
    + exists x, y, [], hx, hy. split; [cbn [side_step]; by rewrite Htold|]. split_and!; try done; [simpl; lia|].
      simpl. by apply Hclock.
    + apply bind_return in Hstep' as (s & Hp & [= <- <- _]). rewrite sh_behav0, Hself_y in Hp.
      eapply one_step; try done; [cbn [side_step]; rewrite Htold, Hp; done|]. by split.
Qed.

(** ** Runs *)

Definition c_le (c c' : N * N) : Prop := (c.1 ≤ c'.1)%N ∧ (c.2 ≤ c'.2)%N.
Lemma sys_ok_later n c c' hx hy : c_le c c' → sys_ok R n c hx hy → sys_ok R n c' hx hy.
Proof.
  intros [H1 H2] []. split; try done.
  - destruct so_fine_x0. split; try done. by eapply fine_weaken.
  - destruct so_fine_y0. split; try done. by eapply fine_weaken.
Qed.
Lemma clocks_ok_earlier c c' ls : c_le c c' → clocks_ok c' ls → clocks_ok c ls.
Proof.
  revert c c'. induction ls as [|[who l] ls IH]; intros c c' [H1 H2]; [done|].
  destruct who; intros [Ht Hc]; (split; [intros now Hnow; specialize (Ht now Hnow); lia|]);
    (eapply IH; [|exact Hc]); split; simpl; try done; destruct (time_of l); simpl; lia.
Qed.

(** From the other node's side. *)
Definition flip (ls : list (bool * Label)) : list (bool * Label) := (λ '(who, l), (negb who, l)) <$> ls.
Lemma run_flip fuel ls : ∀ x y x' y', run fuel ls y x = Return (y', x') → run fuel (flip ls) x y = Return (x', y').
Proof.
  induction ls as [|[who l] ls IH]; intros x y x' y'; [by intros [= -> ->]|].
  destruct who; cbn [run]; intros H; apply bind_return in H as ([[a b] out] & Hs & Hr);
    unfold flip; cbn [fmap list_fmap negb run]; rewrite Hs; cbn [obind]; by apply IH.
Qed.
Lemma clocks_flip ls : ∀ c, clocks_ok (c.2, c.1) ls →
  clocks_ok c (flip ls) ∧ clocks_after c (flip ls) = ((clocks_after (c.2, c.1) ls).2, (clocks_after (c.2, c.1) ls).1).
Proof.
  induction ls as [|[who l] ls IH]; intros c; [by destruct c|].
  destruct who; intros [Ht Hc]; unfold flip; cbn [fmap list_fmap negb clocks_ok clocks_after];
    [destruct (IH (c.1, default c.2 (time_of l))) as [H1 H2]|destruct (IH (default c.1 (time_of l), c.2)) as [H1 H2]];
    try done; (split; [split; [exact Ht|exact H1]|exact H2]).
Qed.
Lemma flip_asked ls l : omap asked ls = option_list (move_asked (true, l)) → omap asked (flip ls) = option_list (move_asked (false, l)).
Proof.
  assert (omap asked (flip ls) = (λ '(who, now, ev), (negb who, now, ev)) <$> omap asked ls) as ->.
  { induction ls as [|[who k] ls IH]; [done|]. unfold flip in *. cbn [fmap list_fmap omap list_omap]. destruct k; simpl; by rewrite IH. }
  intros ->. by destruct l.
Qed.
Lemma flip_good ls : Forall (λ l, label_good R l.2) ls → Forall (λ l, label_good R l.2) (flip ls).
Proof. intros H. apply Forall_fmap. eapply Forall_impl; [exact H|]. by intros [who l]. Qed.

Fixpoint move_clocks_ok (c : N * N) (ms : list (bool * Move)) : Prop :=
  match ms with
  | [] => True
  | (true, m) :: ms => (∀ now, move_time m = Some now → (c.1 ≤ now)%N) ∧ move_clocks_ok (default c.1 (move_time m), c.2) ms
  | (false, m) :: ms => (∀ now, move_time m = Some now → (c.2 ≤ now)%N) ∧ move_clocks_ok (c.1, default c.2 (move_time m)) ms
  end.

(** Related nodes stay related. *)
Lemma link_run_simulated fuel ms : ∀ n c x y hx hy, (MAX_BODY < N.of_nat fuel)%N →
  (n + 2 * N.of_nat (length ms) ≤ MAX_OPS)%N → side_half x hx → side_half y hy → sys_ok R n c hx hy →
  Forall (λ m, move_good m.2) ms → move_clocks_ok c ms → run_in_time fuel ms x y = true →
  ∃ x' y' ls hx' hy', link_run fuel ms x y = Return (x', y') ∧ Forall (λ l, label_good R l.2) ls ∧ clocks_ok c ls ∧
    length ls ≤ 2 * length ms ∧ omap asked ls = omap move_asked ms ∧
    run fuel ls hx hy = Return (hx', hy') ∧ side_half x' hx' ∧ side_half y' hy'.
Proof.
  induction ms as [|[who m] ms IH]; intros n c x y hx hy Hfuel Hn Hx Hy Hs Hms Hc Ht.
  { by exists x, y, [], hx, hy. }
  apply Forall_cons in Hms as [Hm Hms]. simpl length in Hn. simpl in Hm.
  assert (Hfuel' : (CHUNK < N.of_nat fuel)%N) by (rewrite CHUNK_eq; unfold MAX_BODY in Hfuel; lia).
  (* the rest, after the labels [ls1] *)
  assert (Hgo : ∀ x1 y1 ls1 hx1 hy1 c1, side_half x1 hx1 → side_half y1 hy1 → run fuel ls1 hx hy = Return (hx1, hy1) →
    length ls1 ≤ 2 → Forall (λ l, label_good R l.2) ls1 → clocks_ok c ls1 → c_le (clocks_after c ls1) c1 → move_clocks_ok c1 ms →
    omap asked ls1 = option_list (move_asked (who, m)) → run_in_time fuel ms x1 y1 = true →
    ∃ x' y' ls hx' hy', link_run fuel ms x1 y1 = Return (x', y') ∧ Forall (λ l, label_good R l.2) ls ∧ clocks_ok c ls ∧
      length ls ≤ 2 * S (length ms) ∧ omap asked ls = omap move_asked ((who, m) :: ms) ∧ run fuel ls hx hy = Return (hx', hy') ∧ side_half x' hx' ∧ side_half y' hy').
  { intros x1 y1 ls1 hx1 hy1 c1 Hx1 Hy1 Hrun1 Hlen1 Hgood1 Hc1 Hle Hcm Hask1 Ht1.
    destruct (run_goes_ok R fuel ls1 n c hx hy) as (a & b & Hab & Hs1); try done; [lia|]. rewrite Hrun1 in Hab. injection Hab as <- <-.
    apply (sys_ok_later _ _ c1) in Hs1; [|done].
    destruct (IH (n + N.of_nat (length ls1))%N c1 x1 y1 hx1 hy1) as (x' & y' & ls & hx' & hy' & Hlink & Hgood & Hck & Hlen & Hask & Hrun & Hx' & Hy');
      try done; [lia|].
    exists x', y', (ls1 ++ ls), hx', hy'. split; [done|]. split; [by apply Forall_app_2|].
    split; [apply clocks_ok_app; split; [done|by eapply clocks_ok_earlier]|]. split; [rewrite length_app; lia|].
    split; [rewrite omap_app, Hask1, Hask; cbn [omap list_omap]; by destruct (move_asked _)|].
    split; [by rewrite (run_app _ _ _ _ _ _ _ Hrun1)|done]. }
  destruct who; cbn [link_run run_in_time move_clocks_ok length] in *; apply andb_prop in Ht as [Ht1 Ht]; destruct Hc as [Hc1 Hc].
  - destruct (side_step_simulated fuel n c m x y hx hy) as (x1 & y1 & ls1 & hx1 & hy1 & Hstep & Hrun1 & Hlen1 & Hg1 & Hck1 & Ha1 & Ha2 & Hask & Hx1 & Hy1);
      try done; [lia|]. rewrite Hstep in Ht |- *. cbn [obind].
    apply (Hgo x1 y1 ls1 hx1 hy1 (default c.1 (move_time m), c.2)); try done. split; simpl; [done|lia].
  - destruct (side_step_simulated fuel n (c.2, c.1) m y x hy hx) as (y1 & x1 & ls1 & hy1 & hx1 & Hstep & Hrun1 & Hlen1 & Hg1 & Hck1 & Ha1 & Ha2 & Hask & Hy1 & Hx1);
      try done; [lia|by apply sys_ok_swap|]. rewrite Hstep in Ht |- *. cbn [obind].
    destruct (clocks_flip ls1 c Hck1) as [Hf1 Hf2].
    apply (Hgo x1 y1 (flip ls1) hx1 hy1 (c.1, default c.2 (move_time m))); try done; [by apply run_flip|by unfold flip; rewrite length_fmap|by apply flip_good| |by apply flip_asked].
    rewrite Hf2. split; simpl in *; [lia|done].
Qed.

(** ** From the connection on *)

(** Both streams are open, the behaviours know of it. *)
Definition fresh_side (a b : PeerId) (x : Side) : Prop :=
  ∃ cfg timer T si so, quiet si ∧ quiet so ∧
    x = MkSide a (set_expiry_check_throttle timer (set_connected_peers {[b]} (new cfg)))
      {| state := Active; pending_in_events := []; pending_out_events := []; timeout := T;
         inbound := Some {| rt_stream := si |}; outbound := Some (Idle so) |} [] None.
Definition start (x : Side) : Half := MkHalf (sd_id x) (sd_behav x) [] None [] ∅ ∅.

Lemma fresh_start a b x : fresh_side a b x → fresh_half a b (start x) ∧ side_half x (start x).
Proof.
  intros (cfg & timer & T & si & so & Hsi & Hso & ->). split; [by exists cfg, timer|]. split; try done. by exists si.
Qed.

(** C4: handlers and streams do what [BlobAsync] says.  Two nodes with their
    behaviours and the handlers of their connection, whose frames are sent and
    received by [protocol::send] and [protocol::recv] on streams that do not fail:
    whatever requests are made, whichever of them is polled or told next, and
    whenever frames and checksums arrive (before the time of a command is over),
    the run goes through, and the behaviours are in the states of a run of
    [BlobAsync] with the same requests. *)
Theorem handlers_implement_the_link fuel ms a b x y :
  fresh_side a b x → fresh_side b a y → Forall (λ m, move_good m.2) ms → move_clocks_ok (0, 0)%N ms →
  (2 * N.of_nat (length ms) ≤ MAX_OPS)%N → (MAX_BODY < N.of_nat fuel)%N → run_in_time fuel ms x y = true →
  ∃ x' y' ls hx hy, link_run fuel ms x y = Return (x', y') ∧
    Forall (λ l, label_good R l.2) ls ∧ clocks_ok (0, 0)%N ls ∧ length ls ≤ 2 * length ms ∧ omap asked ls = omap move_asked ms ∧
    run fuel ls (start x) (start y) = Return (hx, hy) ∧ side_half x' hx ∧ side_half y' hy.
Proof.
  intros Hx Hy Hms Hc Hlen Hfuel Ht. destruct (fresh_start a b x Hx) as [Hfx Hsx], (fresh_start b a y Hy) as [Hfy Hsy].
  eapply (link_run_simulated fuel ms 0 (0, 0)%N); try done. by eapply fresh_ok.
Qed.
End link.
(** ** Witness: a file is offered and accepted, and its first bytes are written *)
Section witnesses.
#[local] Existing Instance demo_codec.
#[local] Existing Instance demo_codec_laws.
#[local] Abbreviation cx0 := (0%N : @PollCx demo_platform).

#[local] Instance demo_codec_sizes : CodecSizes.
Proof.
  split; intros m; cbv [encode_IncomingFile encode_AcceptFile encode_CancelSend encode_CancelRecv demo_codec];
    rewrite ?length_app; unfold u64_to_be_bytes; rewrite ?length_to_be; [|lia..].
  assert (∀ s, length (String.list_byte_of_string s) = String.length s) as ->; [|lia].
  intros s. unfold String.list_byte_of_string. rewrite length_map. induction s as [|c s IH]; simpl; congruence.
Qed.

Definition demo_side (a b : @PeerId demo_platform) : Side (St := Pipe) :=
  MkSide a (set_expiry_check_throttle (delay_new 5000) (set_connected_peers {[b]} (new Config_default)))
    {| state := Active; pending_in_events := []; pending_out_events := []; timeout := 1000;
       inbound := Some {| rt_stream := demo_pipe [] |}; outbound := Some (Idle (demo_pipe [])) |} [] None.
Lemma demo_side_fresh a b : fresh_side a b (demo_side a b).
Proof. by exists Config_default, (delay_new 5000), 1000%N, (demo_pipe []), (demo_pipe []). Qed.

Definition demo_moves : list (bool * Move) :=
  let a_runs := (true, MHandler cx0 false false 0) in let b_runs := (false, MHandler cx0 false false 0) in
  let a_hears := (true, MHandler cx0 true false 5) in let b_hears := (false, MHandler cx0 true false 5) in
  let a_ends := (true, MHandler cx0 false true 0) in let b_ends := (false, MHandler cx0 false true 0) in
  [(true, MRequest 0 (SendFile demo_file "dir/a.txt" (7%N : @PeerId demo_platform) (demo_cb 0))); (true, MPolled cx0 0);
   a_runs; b_hears; (false, MTold 0); a_ends; (true, MTold 0); (false, MPolled cx0 0);
   (false, MRequest 0 (AcceptFile demo_empty 0 "dl" (demo_cb 1))); (false, MPolled cx0 0); b_runs; a_hears; (true, MTold 0);
   b_ends; (true, MPolled cx0 0); (true, MPolled cx0 0); a_runs; b_hears; (false, MTold 0)].
Definition link_fuel : nat := N.to_nat (MAX_BODY + 1).
Lemma demo_moves_in_time : run_in_time link_fuel demo_moves (demo_side 8%N 7%N) (demo_side 7%N 8%N) = true.
Proof. vm_compute. reflexivity. Qed.
Lemma demo_moves_write : match link_run link_fuel demo_moves (demo_side 8%N 7%N) (demo_side 7%N 8%N) with
  | Return (x, y) => dst_of 0 (sd_behav y) | _ => None end = Some (take 2 (File.rest demo_file), 2%N).
Proof. vm_compute. reflexivity. Qed.

Lemma handlers_implement_the_link_witness : ∃ x' y' ls hx hy,
  link_run link_fuel demo_moves (demo_side 8%N 7%N) (demo_side 7%N 8%N) = Return (x', y') ∧
  run link_fuel ls (start (demo_side 8%N 7%N)) (start (demo_side 7%N 8%N)) = Return (hx, hy) ∧
  side_half y' hy ∧ dst_of 0 (behav hy) = Some (take 2 (File.rest demo_file), 2%N).
Proof.
  destruct (handlers_implement_the_link True link_fuel demo_moves _ _ _ _ (demo_side_fresh 8%N 7%N) (demo_side_fresh 7%N 8%N))
    as (x' & y' & ls & hx & hy & Hlink & _ & _ & _ & _ & Hrun & _ & Hy).
  - repeat apply Forall_cons_2; try exact I; try apply Forall_nil_2.
    + split; [split; [reflexivity|intros _ i; eexists; reflexivity]|].
      split; [exists "a.txt"%string; split; [reflexivity|vm_compute; lia]|]. split; [by intros ? [= <-]|reflexivity].
    + split; [reflexivity|]. intros i. right. by exists 1.
  - vm_compute. repeat split; by intros ? [= <-].
  - vm_compute. discriminate.
  - unfold link_fuel. rewrite N2Nat.id. reflexivity.
  - exact demo_moves_in_time.
  - exists x', y', ls, hx, hy. split; [exact Hlink|]. split; [exact Hrun|]. split; [exact Hy|].
    rewrite (sh_behav _ _ Hy). pose proof demo_moves_write as H. rewrite Hlink in H. exact H.
Defined.
End witnesses.
End BlobLink.
