(* ===== verification/Messaging.v ===== *)
(** * The messaging protocol ([owlnest-messaging])

    Module [Messaging]: configuration, errors, messages, the behaviour and the
    connection handler.  [serde_json] is a parameter; the futures of the handler
    are answered by the poll context, as in [BlobHandler]. *)

From stdpp Require Import base gmap sets list strings pretty.
From Stdlib Require Import Lia NArith.
From S2P Require Import Prelude Std Core Stream.

Module Messaging.

Definition PROTOCOL_NAME : string := "/owlnest/messaging/0.0.1".

(** ** config.rs, error.rs, message.rs, op.rs *)
Inductive Store := Volatile.
Record Config := { timeout_ms : N; store : Store }.
Definition Config_default : Config := {| timeout_ms := 30 * 1000; store := Volatile |}.
Definition Config_new : Config := Config_default.
Definition with_timeout (self : Config) (timeout : N) : Config :=
  {| timeout_ms := timeout; store := store self |}.

Inductive Error :=
| UnrecognizedMessage (msg : string)
| IO (msg : string)
| Channel.

Definition Error_fmt (e : Error) : string :=
  match e with
  | UnrecognizedMessage msg => msg
  | IO msg => msg
  | Channel => "Callback channel closed unexpectedly"
  end.

Inductive OpResult := SuccessfulPost (rtt : N) | OpError (e : Error).

Section data.
Context {P : Platform}.

Inductive SendError :=
| ConnectionClosed
| VerifierMismatch
| PeerNotFound (peer : PeerId)
| Timeout.

Definition SendError_fmt (e : SendError) : string :=
  match e with
  | ConnectionClosed => "Connection Closed"
  | VerifierMismatch => "Message verifier mismatch"
  | Timeout => "Message timed out"
  | PeerNotFound peer => "Peer " +:+ peer_display peer +:+ " not connected"
  end.

Record Message := { time : N; from : PeerId; to : PeerId; msg : string }.

(** [now_ms]: the milliseconds of the system clock. *)
Definition Message_new (now_ms : N) (from to : PeerId) (msg : string) : Message :=
  {| time := now_ms; from := from; to := to; msg := msg |}.
End data.

(** [serde_json]: [to_vec] may fail, [from_slice] reads back what it wrote. *)
Class Json (A : Type) := {
  JsonError : Type;
  json_display : JsonError → string;
  to_vec : A → result bytes JsonError;
  from_slice : bytes → result A JsonError;
}.
Class JsonLaws (A : Type) {json : Json A} := {
  to_vec_ok a : ∃ bs, to_vec a = Ok bs;
  json_roundtrip a bs : to_vec a = Ok bs → from_slice bs = Ok a;
}.

(** ** lib.rs, and the events between behaviour and handler *)
Section behaviour.
Context {P : Platform} {json : Json Message}.

Definition as_bytes (self : Message) : outcome bytes :=
  match to_vec self with
  | Ok bs => Return bs
  | Err _ => Panic "called `Result::unwrap()` on an `Err` value"
  end.

Inductive InEvent :=
| SendMessage (peer : PeerId) (message : Message) (callback : Callback)
| ListConnected (callback : Callback).

Inductive OutEvent :=
| IncomingMessage (from : PeerId) (msg : Message)
| OutError (e : Error)
| InboundNegotiated (peer : PeerId)
| OutboundNegotiated (peer : PeerId)
| Unsupported (peer : PeerId).

Inductive FromBehaviourEvent := PostMessage (m : Message) (callback : Callback).

Inductive ToBehaviourEvent :=
| HIncomingMessage (bs : bytes)
| HError (e : Error)
| HInboundNegotiated
| HOutboundNegotiated
| HUnsupported.

Inductive Answer :=
| AnsSend (r : result N SendError)
| AnsListConnected (peers : list PeerId).

(** ** behaviour.rs *)
Record Behaviour := {
  config : Config;
  out_events : list OutEvent;
  in_events : list InEvent;
  connected_peers : gset PeerId;
}.

Definition new (config : Config) : Behaviour :=
  {| config := config; out_events := []; in_events := []; connected_peers := ∅ |}.

Definition push_event (ev : InEvent) (s : Behaviour) : Behaviour :=
  {| config := config s; out_events := out_events s; in_events := in_events s ++ [ev];
     connected_peers := connected_peers s |}.

Definition push_out (ev : OutEvent) (s : Behaviour) : Behaviour :=
  {| config := config s; out_events := out_events s ++ [ev]; in_events := in_events s;
     connected_peers := connected_peers s |}.

Definition set_connected (v : gset PeerId) (s : Behaviour) : Behaviour :=
  {| config := config s; out_events := out_events s; in_events := in_events s; connected_peers := v |}.

Definition on_disconnect (info : Core.ConnectionClosed) (s : Behaviour) : Behaviour :=
  if (cc_remaining_established info <? 1)%N
  then set_connected (connected_peers s ∖ {[cc_peer_id info]}) s
  else s.

Definition on_handler_event (event : ToBehaviourEvent) (peer_id : PeerId) (s : Behaviour) : Behaviour :=
  match event with
  | HIncomingMessage bs =>
      match from_slice bs with
      | Ok m => push_out (IncomingMessage (from m) m) s
      | Err e =>
          push_out (OutError (UnrecognizedMessage
            ("Unrecognized message: " +:+ json_display e +:+ ", raw data: " +:+ utf8_lossy bs))) s
      end
  | HError e => push_out (OutError e) s
  | HInboundNegotiated => push_out (InboundNegotiated peer_id) s
  | HOutboundNegotiated =>
      set_connected ({[peer_id]} ∪ connected_peers s) (push_out (OutboundNegotiated peer_id) s)
  | HUnsupported => push_out (Unsupported peer_id) s
  end.

Definition on_connection_handler_event (peer_id : PeerId) (event : ToBehaviourEvent) (s : Behaviour)
    : Behaviour := on_handler_event event peer_id s.

(** [while let Some(ev) = self.in_events.pop_front()]: the events that can be
    answered at once, up to the first message for a connected peer. *)
Fixpoint take_in_events (peers : gset PeerId) (evs : list InEvent)
    : option (ToSwarm OutEvent FromBehaviourEvent) * list InEvent * list (Sent Answer) :=
  match evs with
  | [] => (None, [], [])
  | SendMessage peer message callback :: evs =>
      if decide (peer ∈ peers)
      then (Some (NotifyHandler peer Any (PostMessage message callback)), evs, [])
      else
        let '(r, evs, sent) := take_in_events peers evs in
        (r, evs, handle_callback_sender (AnsSend (Err (PeerNotFound peer))) callback ++ sent)
  | ListConnected callback :: evs =>
      let '(r, evs, sent) := take_in_events peers evs in
      (r, evs, handle_callback_sender (AnsListConnected (hs_iter peers)) callback ++ sent)
  end.

Definition handle_in_events (s : Behaviour)
    : option (ToSwarm OutEvent FromBehaviourEvent) * Behaviour * list (Sent Answer) :=
  let '(r, evs, sent) := take_in_events (connected_peers s) (in_events s) in
  (r, {| config := config s; out_events := out_events s; in_events := evs;
         connected_peers := connected_peers s |}, sent).

Definition poll (s : Behaviour)
    : Poll (ToSwarm OutEvent FromBehaviourEvent) * Behaviour * list (Sent Answer) :=
  match out_events s with
  | ev :: evs =>
      (Ready (GenerateEvent ev),
       {| config := config s; out_events := evs; in_events := in_events s;
          connected_peers := connected_peers s |}, [])
  | [] =>
      match handle_in_events s with
      | (Some ev, s, sent) => (Ready ev, s, sent)
      | (None, s, sent) => (Pending, s, sent)
      end
  end.

Definition on_swarm_event (event : FromSwarm) (s : Behaviour) : Behaviour :=
  match event with
  | FromSwarmConnectionClosed info => on_disconnect info s
  | FromSwarmOther => s
  end.
End behaviour.

(** ** handler.rs *)
Section handler.
Context {P : Platform} {json : Json Message} {St : Type}.

Inductive State := Inactive (reported : bool) | Active.

Record RecvTask := { rt_stream : St }.
Record SendTask := { st_stream : St; st_buf : bytes }.

Inductive OutboundState :=
| OpenStream
| Idle (stream : St)
| Busy (task : SendTask) (callback : Callback) (timer : Delay).

Record Handler := {
  state : State;
  pending_in_events : list FromBehaviourEvent;
  pending_out_events : list ToBehaviourEvent;
  timeout : N;
  inbound : option RecvTask;
  outbound : option OutboundState;
}.

Definition Handler_new (config : Config) : Handler := {|
  state := Active; pending_in_events := []; pending_out_events := [];
  timeout := timeout_ms config; inbound := None; outbound := None;
|}.

Definition handle_established_connection (s : Behaviour) : result Handler unit :=
  Ok (Handler_new (config s)).

Definition set_state (v : State) (h : Handler) : Handler :=
  {| state := v; pending_in_events := pending_in_events h; pending_out_events := pending_out_events h;
     timeout := timeout h; inbound := inbound h; outbound := outbound h |}.
Definition set_in (v : list FromBehaviourEvent) (h : Handler) : Handler :=
  {| state := state h; pending_in_events := v; pending_out_events := pending_out_events h;
     timeout := timeout h; inbound := inbound h; outbound := outbound h |}.
Definition set_pending_out (v : list ToBehaviourEvent) (h : Handler) : Handler :=
  {| state := state h; pending_in_events := pending_in_events h; pending_out_events := v;
     timeout := timeout h; inbound := inbound h; outbound := outbound h |}.
Definition push_to_behaviour (ev : ToBehaviourEvent) (h : Handler) : Handler :=
  set_pending_out (pending_out_events h ++ [ev]) h.
Definition set_inbound (v : option RecvTask) (h : Handler) : Handler :=
  {| state := state h; pending_in_events := pending_in_events h; pending_out_events := pending_out_events h;
     timeout := timeout h; inbound := v; outbound := outbound h |}.
Definition set_outbound (v : option OutboundState) (h : Handler) : Handler :=
  {| state := state h; pending_in_events := pending_in_events h; pending_out_events := pending_out_events h;
     timeout := timeout h; inbound := inbound h; outbound := v |}.

Definition listen_protocol : string := PROTOCOL_NAME.
Definition connection_keep_alive (h : Handler) : bool := true.
Definition on_behaviour_event (event : FromBehaviourEvent) (h : Handler) : Handler :=
  set_in (pending_in_events h ++ [event]) h.

Record HandlerCx := {
  cx_timer : PollCx;
  cx_recv : RecvTask → Poll (result (St * bytes) IoError);
  cx_send : nat → SendTask → Poll (result (St * N) IoError);
}.

Definition PollResult : Type := ConnectionHandlerEvent ToBehaviourEvent.

Definition poll_inbound (cx : HandlerCx) (h : Handler) : option PollResult * Handler :=
  match inbound h with
  | None => (None, h)
  | Some fut =>
      match cx_recv cx fut with
      | Ready (Ok (stream, bs)) =>
          (Some (NotifyBehaviour (HIncomingMessage bs)), set_inbound (Some {| rt_stream := stream |}) h)
      | Ready (Err e) =>
          (None, set_inbound None (push_to_behaviour (HError (IO ("IO Error: " +:+ io_debug e))) h))
      | Pending => (None, h)
      end
  end.

Definition progress_in_events (ev : FromBehaviourEvent) (stream : St) (h : Handler) : outcome Handler :=
  match ev with
  | PostMessage m callback =>
      bs ← as_bytes m;
      Return (set_outbound (Some (Busy {| st_stream := stream; st_buf := bs |} callback
                                       (delay_new (timeout h)))) h)
  end.

Definition OutLoop : Type := nat * Handler * list (Sent Answer).

Definition poll_outbound_body (cx : HandlerCx) (st : OutLoop)
    : outcome (OutLoop + (option PollResult * Handler * list (Sent Answer))) :=
  let '(k, h, sent) := st in
  let taken := outbound h in
  let h := set_outbound None h in
  match taken with
  | Some (Busy task callback timer) =>
      match cx_send cx k task with
      | Pending =>
          let '(ready, timer) := delay_poll (cx_timer cx) timer in
          if ready : bool then
            Return (inr (None, h, sent ++ handle_callback_sender (AnsSend (Err Timeout)) callback))
          else Return (inr (None, set_outbound (Some (Busy task callback timer)) h, sent))
      | Ready (Err e) =>
          Return (inr (Some (NotifyBehaviour (HError (IO (io_display e)))), h, sent ++ [Dropped callback]))
      | Ready (Ok (stream, rtt)) =>
          Return (inl (S k, set_outbound (Some (Idle stream)) h,
                       sent ++ handle_callback_sender (AnsSend (Ok rtt)) callback))
      end
  | Some (Idle stream) =>
      match pending_in_events h with
      | [] => Return (inr (None, set_outbound (Some (Idle stream)) h, sent))
      | ev :: evs =>
          h ← progress_in_events ev stream (set_in evs h);
          Return (inl (k, h, sent))
      end
  | Some OpenStream => Return (inr (None, set_outbound (Some OpenStream) h, sent))
  | None => Return (inr (Some (OutboundSubstreamRequest PROTOCOL_NAME),
                         set_outbound (Some OpenStream) h, sent))
  end.

Definition outbound_fuel (h : Handler) : nat := 3 + 2 * length (pending_in_events h).

Definition poll_outbound (cx : HandlerCx) (h : Handler)
    : outcome (option PollResult * Handler * list (Sent Answer)) :=
  loop (poll_outbound_body cx) (outbound_fuel h) (0, h, []).

Definition poll_active (cx : HandlerCx) (h : Handler)
    : outcome (Poll PollResult * Handler * list (Sent Answer)) :=
  match poll_inbound cx h with
  | (Some ev, h) => Return (Ready ev, h, [])
  | (None, h) =>
      '(r, h, sent) ← poll_outbound cx h;
      match r with
      | Some ev => Return (Ready ev, h, sent)
      | None =>
          match pending_out_events h with
          | ev :: evs => Return (Ready (NotifyBehaviour ev), set_pending_out evs h, sent)
          | [] => Return (Pending, h, sent)
          end
      end
  end.

Definition handler_poll (cx : HandlerCx) (h : Handler)
    : outcome (Poll PollResult * Handler * list (Sent Answer)) :=
  match state h with
  | Inactive true => Return (Pending, h, [])
  | Inactive false =>
      Return (Ready (NotifyBehaviour HUnsupported), set_state (Inactive true) h, [])
  | Active => poll_active cx h
  end.

Definition drop_outbound (o : option OutboundState) : list (Sent Answer) :=
  match o with Some (Busy _ cb _) => [Dropped cb] | _ => [] end.

Definition on_dial_upgrade_error (error : StreamUpgradeError) (h : Handler)
    : Handler * list (Sent Answer) :=
  let dropped := drop_outbound (outbound h) in
  let h := set_outbound None h in
  match error with
  | NegotiationFailed => (set_state (Inactive false) h, dropped)
  | _ => (h, dropped)
  end.

Definition on_connection_event (event : ConnectionEvent St) (h : Handler)
    : outcome (Handler * list (Sent Answer)) :=
  match event with
  | FullyNegotiatedInbound stream =>
      Return (push_to_behaviour HInboundNegotiated (set_inbound (Some {| rt_stream := stream |}) h), [])
  | FullyNegotiatedOutbound stream =>
      Return (push_to_behaviour HOutboundNegotiated (set_outbound (Some (Idle stream)) h),
              drop_outbound (outbound h))
  | AddressChange _ => Return (h, [])
  | DialUpgradeError e => Return (on_dial_upgrade_error e h)
  | LocalProtocolsChange | RemoteProtocolsChange => Return (h, [])
  | ListenUpgradeError | UncoveredConnectionEvent =>
      Panic "not implemented: New branch not covered"
  end.
End handler.
Arguments Handler {P} St.
Arguments OutboundState {P} St.
Arguments HandlerCx {P} St.

(** ** The behaviour's queue of requests *)
Section props.
Context {P : Platform} {json : Json Message}.

(** A request that is answered without a handler. *)
Definition immediate (peers : gset PeerId) (ev : InEvent) : option (Sent Answer) :=
  match ev with
  | SendMessage peer _ cb =>
      if decide (peer ∈ peers) then None else Some (Answered cb (AnsSend (Err (PeerNotFound peer))))
  | ListConnected cb => Some (Answered cb (AnsListConnected (hs_iter peers)))
  end.

Lemma take_in_events_spec peers evs r rest sent :
  take_in_events peers evs = (r, rest, sent) →
  ∃ done, Some <$> sent = immediate peers <$> done ∧
    ((r = None ∧ rest = [] ∧ evs = done) ∨
     (∃ peer m cb, peer ∈ peers ∧ r = Some (NotifyHandler peer Any (PostMessage m cb)) ∧
        evs = done ++ SendMessage peer m cb :: rest)).
Proof.
  revert r rest sent. induction evs as [|ev evs IH]; intros r rest sent; simpl.
  { intros [= <- <- <-]. exists []. split; [done|by left]. }
  destruct ev as [peer m cb|cb]; [destruct (decide (peer ∈ peers)) as [Hin|Hin]|].
  - intros [= <- <- <-]. exists []. split; [done|]. right. by exists peer, m, cb.
  - destruct (take_in_events peers evs) as [[r' rest'] sent'] eqn:E. intros [= <- <- <-].
    destruct (IH _ _ _ eq_refl) as (done & Hd & H). exists (SendMessage peer m cb :: done). split.
    + simpl. rewrite decide_False by done. by f_equal.
    + destruct H as [(-> & -> & ->)|(p & m' & cb' & Hp & -> & ->)]; [by left|].
      right. by exists p, m', cb'.
  - destruct (take_in_events peers evs) as [[r' rest'] sent'] eqn:E. intros [= <- <- <-].
    destruct (IH _ _ _ eq_refl) as (done & Hd & H). exists (ListConnected cb :: done). split.
    + simpl. by f_equal.
    + destruct H as [(-> & -> & ->)|(p & m' & cb' & Hp & -> & ->)]; [by left|].
      right. by exists p, m', cb'.
Qed.

(** A poll of the messaging behaviour works its requests off in order and
    loses none.  With nothing to report, it answers a prefix of the requests at
    once (lists, and messages to peers that are not connected); then either
    the queue is empty, or the next request was a message to a connected peer,
    which is handed to that peer's handler with its callback. *)
Theorem poll_answers_in_order s r s' sent :
  out_events s = [] → poll s = (r, s', sent) →
  ∃ done, Some <$> sent = immediate (connected_peers s) <$> done ∧
    connected_peers s' = connected_peers s ∧ out_events s' = [] ∧
    ((r = Pending ∧ in_events s = done ∧ in_events s' = []) ∨
     (∃ peer m cb, peer ∈ connected_peers s ∧
        r = Ready (NotifyHandler peer Any (PostMessage m cb)) ∧
        in_events s = done ++ SendMessage peer m cb :: in_events s')).
Proof.
  intros Ho. unfold poll, handle_in_events. rewrite Ho.
  destruct (take_in_events (connected_peers s) (in_events s)) as [[r' rest] sent'] eqn:E.
  destruct (take_in_events_spec _ _ _ _ _ E) as (done & Hd & H).
  destruct r' as [ev|]; intros [= <- <- <-]; exists done; simpl; (split; [done|]); split_and!; try done.
  - right. destruct H as [[[=] _]|(p & m & cb & Hp & [= ->] & ->)]. by exists p, m, cb.
  - left. destruct H as [(_ & -> & ->)|(p & m & cb & _ & [=] & _)]. done.
Qed.

(** The sender named by an incoming message is the one the message itself
    claims: whatever peer the message came from, the event reports the field
    of the decoded message. *)
Theorem incoming_sender_is_claimed {laws : JsonLaws Message} peer m bs s :
  as_bytes m = Return bs →
  on_connection_handler_event peer (HIncomingMessage bs) s = push_out (IncomingMessage (from m) m) s.
Proof.
  unfold as_bytes. destruct (to_vec m) as [bs'|] eqn:E; [|done]. intros [= <-].
  unfold on_connection_handler_event, on_handler_event. by rewrite (json_roundtrip _ _ E).
Qed.
End props.

Arguments as_bytes : simpl never.

(** ** The handler's callbacks *)
Section handler_props.
Context {P : Platform} {json : Json Message} {laws : JsonLaws Message} {St : Type}.

Definition event_callback (ev : FromBehaviourEvent) : Callback := match ev with PostMessage _ cb => cb end.
Definition busy_callback (o : option (OutboundState St)) : list Callback :=
  match o with Some (Busy _ cb _) => [cb] | _ => [] end.
Definition callbacks (h : Handler St) : list Callback :=
  busy_callback (outbound h) ++ (event_callback <$> pending_in_events h).
Definition sent_callback (a : Sent Answer) : Callback :=
  match a with Answered cb _ => cb | Dropped cb => cb end.

Lemma as_bytes_returns m : ∃ bs, as_bytes m = Return bs.
Proof. unfold as_bytes. destruct (to_vec_ok m) as [bs ->]. by eexists. Qed.

Lemma poll_outbound_accounts cx (h : Handler St) :
  ∃ r h' sent, poll_outbound cx h = Return (r, h', sent) ∧
    callbacks h = (sent_callback <$> sent) ++ callbacks h' ∧ state h' = state h ∧
    inbound h' = inbound h.
Proof.
  destruct (loop_returns (poll_outbound_body cx)
    (λ '(k, h1, sent), callbacks h = (sent_callback <$> sent) ++ callbacks h1 ∧ state h1 = state h ∧
        inbound h1 = inbound h)
    (λ '(k, h1, _), 2 * length (pending_in_events h1) + length (busy_callback (outbound h1)))
    (λ '(r, h', sent), callbacks h = (sent_callback <$> sent) ++ callbacks h' ∧ state h' = state h ∧
        inbound h' = inbound h))
    with (fuel := outbound_fuel h) (s := (0, h, [] : list (Sent Answer)))
    as ([[r h'] sent] & Hloop & H).
  - intros [[k h1] sent] (Hc & Hs & Hi). unfold poll_outbound_body.
    destruct (outbound h1) as [[|stream|task cb timer]|] eqn:Hout.
    + right. eexists. split; [done|]. split_and!; try done.
      rewrite Hc. unfold callbacks. by rewrite Hout.
    + destruct (pending_in_events h1) as [|[m cb] evs] eqn:Hev; simpl; rewrite Hev.
      * right. eexists. split; [done|]. split_and!; try done.
        rewrite Hc. unfold callbacks. simpl. by rewrite Hout, Hev.
      * left. unfold progress_in_events. destruct (as_bytes_returns m) as [bs ->]. simpl. eexists. split; [done|].
        simpl. split; [|lia]. split_and!; try done.
        rewrite Hc. unfold callbacks. simpl. by rewrite Hout, Hev.
    + destruct (cx_send cx k task) as [[[stream rtt]|e]|].
      * left. eexists. split; [done|]. split; [|simpl; lia]. split_and!; try done.
        rewrite Hc, fmap_app, <-app_assoc. unfold callbacks. by rewrite Hout.
      * right. eexists. split; [done|]. split_and!; try done.
        rewrite Hc, fmap_app, <-app_assoc. unfold callbacks. by rewrite Hout.
      * destruct (delay_poll (cx_timer cx) timer) as [[] timer']; right; eexists; (split; [done|]);
          split_and!; try done; rewrite Hc; unfold callbacks; rewrite Hout; simpl;
          [by rewrite fmap_app, <-app_assoc|done].
    + right. eexists. split; [done|]. split_and!; try done.
      rewrite Hc. unfold callbacks. by rewrite Hout.
  - done.
  - unfold outbound_fuel. destruct (outbound h) as [[]|]; simpl; lia.
  - exists r, h', sent. split; [exact Hloop|exact H].
Qed.

(** A poll of the messaging handler returns, and every callback is
    accounted for in order: those of the messages that were sent, failed or
    timed out are answered or dropped exactly once, the rest is kept. *)
Theorem handler_poll_accounts cx (h : Handler St) :
  ∃ r h' sent, handler_poll cx h = Return (r, h', sent) ∧
    callbacks h = (sent_callback <$> sent) ++ callbacks h'.
Proof.
  unfold handler_poll. destruct (state h) as [[]|]; [by eexists _, _, _..|].
  unfold poll_active.
  assert (Hin : ∀ r h1, poll_inbound cx h = (r, h1) → callbacks h1 = callbacks h).
  { unfold poll_inbound. intros r h1 H. repeat case_match; by simplify_eq/=. }
  destruct (poll_inbound cx h) as [[ev|] h1] eqn:E; specialize (Hin _ _ eq_refl).
  { eexists _, _, _. split; [done|]. by rewrite Hin. }
  destruct (poll_outbound_accounts cx h1) as (r & h2 & sent & -> & Hc & _). simpl.
  rewrite Hin in Hc. destruct r as [ev|]; [by eexists _, _, _|].
  destruct (pending_out_events h2); by eexists _, _, _.
Qed.
End handler_props.

(** ** Witnesses *)
Section witnesses.
#[local] Existing Instance demo_platform.

Definition demo_message : Message := {| time := 1; from := 5%N; to := 6%N; msg := "hi" |}.
Definition demo_cb (n : N) : Callback := {| cb_id := n; cb_open := true |}.

(** An encoding that is not JSON, but satisfies the laws: numbers in unary. *)
Definition unary (n : N) : bytes := replicate (N.to_nat n) Byte.x00 ++ [Byte.x01].
Fixpoint read_unary (n : N) (bs : bytes) : option (N * bytes) :=
  match bs with
  | [] => None
  | Byte.x00 :: bs => read_unary (n + 1) bs
  | _ :: bs => Some (n, bs)
  end.

Lemma read_unary_app k n rest :
  read_unary n ((replicate k Byte.x00 ++ [Byte.x01]) ++ rest) = Some ((n + N.of_nat k)%N, rest).
Proof.
  revert n. induction k as [|k IH]; intros n; simpl; [by rewrite N.add_0_r|].
  rewrite IH. do 2 f_equal. lia.
Qed.

Lemma read_unary_ok n rest : read_unary 0 (unary n ++ rest) = Some (n, rest).
Proof. unfold unary. rewrite read_unary_app. do 2 f_equal. lia. Qed.

#[export] Instance demo_json : Json Message := {|
  JsonError := ();
  json_display := λ _, "expected value";
  to_vec := λ m, Ok (unary (time m) ++ unary (from m) ++ unary (to m) ++ String.list_byte_of_string (msg m));
  from_slice := λ bs,
    match read_unary 0 bs with
    | Some (time, bs) =>
        match read_unary 0 bs with
        | Some (from, bs) =>
            match read_unary 0 bs with
            | Some (to, bs) =>
                Ok {| time := time; from := from; to := to; msg := String.string_of_list_byte bs |}
            | None => Err ()
            end
        | None => Err ()
        end
    | None => Err ()
    end;
|}.

#[export] Instance demo_json_laws : JsonLaws Message.
Proof.
  split; [by eexists|]. intros [t f d m] bs [= <-]. cbv [from_slice demo_json].
  by rewrite !read_unary_ok, String.string_of_list_byte_of_string.
Qed.

Definition demo_state : Behaviour := {|
  config := Config_default; out_events := [];
  in_events := [SendMessage (8%N : @PeerId demo_platform) demo_message (demo_cb 0); ListConnected (demo_cb 1);
                SendMessage (6%N : @PeerId demo_platform) demo_message (demo_cb 2); ListConnected (demo_cb 3)];
  connected_peers := {[ (6%N : @PeerId demo_platform) ]};
|}.

Lemma poll_answers_in_order_witness :
  out_events demo_state = [] ∧
  ∃ r s' sent, poll demo_state = (r, s', sent) ∧
  ∃ done, Some <$> sent = immediate (connected_peers demo_state) <$> done ∧
    connected_peers s' = connected_peers demo_state ∧ out_events s' = [] ∧
    ((r = Pending ∧ in_events demo_state = done ∧ in_events s' = []) ∨
     (∃ peer m cb, peer ∈ connected_peers demo_state ∧
        r = Ready (NotifyHandler peer Any (PostMessage m cb)) ∧
        in_events demo_state = done ++ SendMessage peer m cb :: in_events s')).
Proof.
  split; [reflexivity|]. destruct (poll demo_state) as [[r s'] sent] eqn:E.
  exists r, s', sent. split; [reflexivity|].
  exact (poll_answers_in_order demo_state r s' sent eq_refl E).
Defined.

Lemma incoming_sender_is_claimed_witness :
  ∃ bs, as_bytes demo_message = Return bs ∧
    on_connection_handler_event (9%N : @PeerId demo_platform) (HIncomingMessage bs) demo_state =
      push_out (IncomingMessage (from demo_message) demo_message) demo_state.
Proof.
  eexists. split; [reflexivity|].
  exact (incoming_sender_is_claimed (9%N : @PeerId demo_platform) demo_message _ demo_state eq_refl).
Defined.
Definition demo_handler : Handler N := {|
  state := Active; pending_in_events := [PostMessage demo_message (demo_cb 1); PostMessage demo_message (demo_cb 2)];
  pending_out_events := []; timeout := 1000; inbound := None; outbound := Some (Idle 8%N);
|}.
Definition demo_cx : HandlerCx N := {|
  cx_timer := (0%N : @PollCx demo_platform);
  cx_recv := λ _, Pending;
  cx_send := λ k _, match k with O => Ready (Ok (8%N, 5%N)) | S _ => Pending end;
|}.

Lemma handler_poll_accounts_witness :
  ∃ r h' sent, handler_poll demo_cx demo_handler = Return (r, h', sent) ∧
    callbacks demo_handler = (sent_callback <$> sent) ++ callbacks h'.
Proof. exact (handler_poll_accounts demo_cx demo_handler). Defined.
End witnesses.
End Messaging.
