(* ===== verification/Template.v ===== *)
(** * The protocol template ([protocols/template])

    Module [Template]: the crate a new protocol starts from.  Its events are
    empty types and what is to be written is [todo!()], which panics; what is
    there already is the configuration, the errors, the bookkeeping of connected
    peers and the handler's state machine. *)

From stdpp Require Import base gmap sets list strings.
From Stdlib Require Import Lia NArith.
From S2P Require Import Prelude Std Core.

Module Template.

Definition PROTOCOL_NAME : string := "TODO".
Definition TODO : string := "not yet implemented".

(** ** config.rs, error.rs *)
Record Config := { timeout_ms : N }.
Definition Config_new : Config := {| timeout_ms := 60 * 1000 |}.
Definition with_timeout (self : Config) (timeout : N) : Config := {| timeout_ms := timeout |}.
Definition Config_default : Config := Config_new.

Inductive Error := UnrecognizedMessage (msg : string) | IO (msg : string) | Channel.
Definition Error_fmt (e : Error) : string :=
  match e with
  | UnrecognizedMessage msg => msg
  | IO msg => msg
  | Channel => "Callback channel closed unexpectedly"
  end.

Section template.
Context {P : Platform}.

Inductive SendError := ConnectionClosed | VerifierMismatch | PeerNotFound (peer : PeerId) | Timeout.
Definition SendError_fmt (e : SendError) : string :=
  match e with
  | ConnectionClosed => "Connection Closed"
  | VerifierMismatch => "Message verifier mismatch"
  | Timeout => "Message timed out"
  | PeerNotFound peer => "Peer " +:+ peer_display peer +:+ " not connected"
  end.

(** ** lib.rs, and the events between behaviour and handler: none yet *)
Inductive InEvent := .
Inductive OutEvent := .
Inductive FromBehaviourEvent := .
Inductive ToBehaviourEvent := .

(** ** behaviour.rs *)
Record Behaviour := {
  config : Config;
  out_events : list OutEvent;
  in_events : list InEvent;
  connected_peers : gset PeerId;
}.

Definition new (config : Config) : Behaviour :=
  {| config := config; out_events := []; in_events := []; connected_peers := ∅ |}.
Definition push_event (msg : InEvent) (s : Behaviour) : Behaviour :=
  {| config := config s; out_events := out_events s; in_events := in_events s ++ [msg];
     connected_peers := connected_peers s |}.
Definition set_connected (v : gset PeerId) (s : Behaviour) : Behaviour :=
  {| config := config s; out_events := out_events s; in_events := in_events s; connected_peers := v |}.

Definition on_connection_handler_event (peer_id : PeerId) (event : ToBehaviourEvent) (s : Behaviour)
    : outcome Behaviour := Panic TODO.

Definition poll (s : Behaviour) : outcome (Behaviour * Poll (ToSwarm OutEvent FromBehaviourEvent)) :=
  match out_events s with
  | ev :: evs =>
      Return ({| config := config s; out_events := evs; in_events := in_events s;
                 connected_peers := connected_peers s |}, Ready (GenerateEvent ev))
  | [] =>
      match in_events s with
      | _ :: _ => Panic TODO
      | [] => Return (s, Pending)
      end
  end.

Definition on_swarm_event (event : FromSwarm) (s : Behaviour) : Behaviour :=
  match event with
  | FromSwarmConnectionClosed info =>
      if (cc_remaining_established info <? 1)%N
      then set_connected (connected_peers s ∖ {[cc_peer_id info]}) s
      else s
  | FromSwarmOther => s
  end.

(** ** handler.rs *)
Section handler.
Context {St : Type}.

Inductive State := Inactive (reported : bool) | Active.

(** The futures: what they were started with is not known, only their answers. *)
Inductive OutboundState := OpenStream | Idle (stream : St) | Busy (task id : N).

Record Handler := {
  state : State;
  pending_in_events : list FromBehaviourEvent;
  pending_out_events : list ToBehaviourEvent;
  timeout : N;
  inbound : option N;
  outbound : option OutboundState;
}.

Definition Handler_new (config : Config) : Handler :=
  {| state := Active; pending_in_events := []; pending_out_events := [];
     timeout := timeout_ms config; inbound := None; outbound := None |}.

Definition set_state (v : State) (h : Handler) : Handler :=
  {| state := v; pending_in_events := pending_in_events h; pending_out_events := pending_out_events h;
     timeout := timeout h; inbound := inbound h; outbound := outbound h |}.
Definition set_outbound (v : option OutboundState) (h : Handler) : Handler :=
  {| state := state h; pending_in_events := pending_in_events h; pending_out_events := pending_out_events h;
     timeout := timeout h; inbound := inbound h; outbound := v |}.

(** Both kinds of connection. *)
Definition handle_established_connection (peer : PeerId) (s : Behaviour) : result Handler unit * Behaviour :=
  (Ok (Handler_new (config s)), set_connected ({[peer]} ∪ connected_peers s) s).

Definition error_debug (e : StreamUpgradeError) : string :=
  match e with UpgradeTimeout => "Timeout" | NegotiationFailed => "NegotiationFailed" | UpgradeOther debug => debug end.

Definition on_dial_upgrade_error (error : StreamUpgradeError) (h : Handler) : outcome Handler :=
  let h := set_outbound None h in
  match error with
  | NegotiationFailed => Return (set_state (Inactive false) h)
  | e => if negb (contains "Timeout" (error_debug e)) then Panic TODO else Return h
  end.

Definition listen_protocol : string := PROTOCOL_NAME.
Definition on_behaviour_event (event : FromBehaviourEvent) (h : Handler) : Handler :=
  {| state := state h; pending_in_events := pending_in_events h ++ [event];
     pending_out_events := pending_out_events h; timeout := timeout h; inbound := inbound h;
     outbound := outbound h |}.
Definition connection_keep_alive (h : Handler) : bool := true.

(** What the futures answer in one poll. *)
Record HandlerCx := {
  cx_recv : N → Poll (result (St * bytes) IoError);
  cx_send : N → Poll (result (St * N) IoError);
}.

Definition PollResult : Type := ConnectionHandlerEvent ToBehaviourEvent.

(** The loop of the outbound side: it breaks, or a stream is asked for. *)
Definition poll_outbound_body (cx : HandlerCx) (h : Handler)
    : outcome (Handler + (option PollResult * Handler)) :=
  let taken := outbound h in
  let h := set_outbound None h in
  match taken with
  | Some (Busy task id) =>
      match cx_send cx task with
      | Pending => Return (inl h)
      | Ready (Ok (stream, rtt)) => Return (inl (set_outbound (Some (Idle stream)) h))
      | Ready (Err e) => Panic TODO
      end
  | Some (Idle stream) =>
      match pending_in_events h with
      | _ :: _ => Panic TODO
      | [] => Return (inr (None, set_outbound (Some (Idle stream)) h))
      end
  | Some OpenStream => Return (inr (None, set_outbound (Some OpenStream) h))
  | None => Return (inr (Some (OutboundSubstreamRequest PROTOCOL_NAME), set_outbound (Some OpenStream) h))
  end.

Definition handler_poll (cx : HandlerCx) (h : Handler) : outcome (Poll PollResult * Handler) :=
  match state h with
  | Inactive true => Return (Pending, h)
  | Inactive false => Panic TODO
  | Active =>
      ' _ ← match inbound h with
            | None => Return ()
            | Some fut => match cx_recv cx fut with Pending => Return () | Ready _ => Panic TODO end
            end;
      ' (r, h) ← loop (poll_outbound_body cx) 3 h;
      match r with
      | Some ev => Return (Ready ev, h)
      | None =>
          match pending_out_events h with
          | ev :: evs =>
              Return (Ready (NotifyBehaviour ev),
                      {| state := state h; pending_in_events := pending_in_events h; pending_out_events := evs;
                         timeout := timeout h; inbound := inbound h; outbound := outbound h |})
          | [] => Return (Pending, h)
          end
      end
  end.

(** Negotiated streams are dropped. *)
Definition on_connection_event (event : ConnectionEvent St) (h : Handler) : outcome Handler :=
  match event with
  | FullyNegotiatedInbound _ | FullyNegotiatedOutbound _ => Return h
  | DialUpgradeError e => on_dial_upgrade_error e h
  | AddressChange _ | ListenUpgradeError => Return h
  | LocalProtocolsChange | RemoteProtocolsChange => Return h
  | UncoveredConnectionEvent => Panic "not implemented: New branch not covered"
  end.
End handler.
Arguments Handler St : clear implicits.
Arguments HandlerCx St : clear implicits.

(** ** What a handler does in its life *)
Section props.
Context {St : Type}.

Inductive Op := OpPoll (cx : HandlerCx St) | OpEvent (ev : ConnectionEvent St).

Fixpoint run (ops : list Op) (h : Handler St) : outcome (list (Poll PollResult) * Handler St) :=
  match ops with
  | [] => Return ([], h)
  | OpPoll cx :: ops =>
      ' (p, h) ← handler_poll cx h;
      ' (ps, h) ← run ops h;
      Return (p :: ps, h)
  | OpEvent ev :: ops => h ← on_connection_event ev h; run ops h
  end.

(** The reference: [asks] says that the next poll asks for a stream. *)
Definition timed_out (ev : ConnectionEvent St) : bool :=
  match ev with DialUpgradeError e => contains "Timeout" (error_debug e) | _ => false end.
Fixpoint expected (asks : bool) (ops : list Op) : list (Poll PollResult) :=
  match ops with
  | [] => []
  | OpPoll _ :: ops =>
      (if asks : bool then Ready (OutboundSubstreamRequest PROTOCOL_NAME) else Pending) :: expected false ops
  | OpEvent ev :: ops => expected (asks || timed_out ev) ops
  end.

Definition harmless (op : Op) : Prop :=
  match op with
  | OpPoll _ => True
  | OpEvent (DialUpgradeError NegotiationFailed) | OpEvent UncoveredConnectionEvent => False
  | OpEvent (DialUpgradeError e) => contains "Timeout" (error_debug e) = true
  | OpEvent _ => True
  end.

Definition waiting (asks : bool) (h : Handler St) : Prop :=
  state h = Active ∧ inbound h = None ∧ outbound h = if asks then None else Some OpenStream.

Lemma handler_poll_waiting cx asks h : waiting asks h →
  ∃ h', handler_poll cx h =
      Return (if asks then Ready (OutboundSubstreamRequest PROTOCOL_NAME) else Pending, h') ∧ waiting false h'.
Proof.
  destruct h as [st ins outs T inb outb]. unfold waiting. simpl. intros (-> & -> & ->).
  destruct outs as [|[]], ins as [|[]]. unfold handler_poll. simpl.
  destruct asks; simpl; by eexists.
Qed.

Lemma on_connection_event_waiting ev asks h : harmless (OpEvent ev) → waiting asks h →
  ∃ h', on_connection_event ev h = Return h' ∧ waiting (asks || timed_out ev) h'.
Proof.
  intros Hev (Hs & Hi & Ho). destruct ev as [| | |e| | | |]; try done; simpl;
    try (exists h; rewrite orb_false_r; by split_and!).
  unfold on_dial_upgrade_error. simpl in Hev. rewrite orb_comm. destruct e; try done; rewrite Hev; simpl;
    (eexists; split; [done|]; by split_and!).
Qed.

(** A handler made from the template asks for a stream once, and again after
    every attempt that timed out; otherwise it is pending, drops the streams it
    gets, and never panics. *)
Theorem template_handler_runs ops asks h :
  Forall harmless ops → waiting asks h →
  ∃ h', run ops h = Return (expected asks ops, h').
Proof.
  intros Hops. revert asks h. induction Hops as [|op ops Hop _ IH]; intros asks h Hw; [by exists h|].
  destruct op as [cx|ev]; simpl.
  - destruct (handler_poll_waiting cx asks h Hw) as (h1 & -> & Hw1). simpl.
    destruct (IH false h1 Hw1) as (h' & ->). by exists h'.
  - destruct (on_connection_event_waiting ev asks h Hop Hw) as (h1 & -> & Hw1). simpl.
    destruct (IH _ h1 Hw1) as (h' & ->). by exists h'.
Qed.

(** A failed negotiation makes the next poll panic. *)
Lemma negotiation_failure_panics (cx : HandlerCx St) (h : Handler St) :
  (h ← on_connection_event (DialUpgradeError NegotiationFailed) h; handler_poll cx h) = Panic TODO.
Proof. done. Qed.
End props.
End template.
End Template.
