(* ===== verification/Advertise.v ===== *)
(** * The advertise protocol ([owlnest-advertise])

    Module [Advertise]: a provider keeps a bounded set of peers that asked to be
    advertised and answers queries with it.  Behaviour and connection handler,
    modelled like [Messaging]. *)

From stdpp Require Import base gmap sets list strings pretty.
From Stdlib Require Import Lia NArith.
From S2P Require Import Prelude Std Core Stream Messaging.

Module Advertise.

Definition PROTOCOL_NAME : string := "/owlnest/advertise/0.0.1".

(** ** config.rs *)
Record Config := { timeout_ms : N; max_advertise_capacity : N }.
Definition Config_default : Config := {| timeout_ms := 30 * 1000; max_advertise_capacity := 32 |}.
Definition Config_new : Config := Config_default.
Definition with_timeout (self : Config) (timeout : N) : Config :=
  {| timeout_ms := timeout; max_advertise_capacity := max_advertise_capacity self |}.

(** ** lib.rs *)
Section data.
Context {P : Platform}.

Inductive Error :=
| ConnectionClosed
| VerifierMismatch
| NotProviding (peer : PeerId)
| Timeout
| UnrecognizedMessage (msg : string)
| IO (msg : string)
| Channel.

Definition Error_fmt (e : Error) : string :=
  match e with
  | ConnectionClosed => "Connection Closed"
  | VerifierMismatch => "Message verifier mismatch"
  | Timeout => "Message timed out"
  | NotProviding peer => "Peer " +:+ peer_display peer +:+ " is not providing"
  | UnrecognizedMessage msg => msg
  | IO msg => msg
  | Channel => "Callback channel closed unexpectedly"
  end.

Inductive OutEvent :=
| QueryAnswered (from : PeerId) (list : option (list PeerId))
| RemoteAdvertisementResult (from : PeerId) (result : result unit unit)
| ProviderState (state : bool)
| AdvertisedPeerChanged (peer : PeerId) (changed : bool)
| OutError (e : Error).

Inductive InEvent :=
| SetProviderState (target_state : bool) (callback : Callback)
| GetProviderState (callback : Callback)
| QueryAdvertisedPeer (peer : PeerId)
| SetRemoteAdvertisement (remote : PeerId) (state : bool) (callback : Callback)
| RemoveAdvertised (peer : PeerId)
| ClearAdvertised
| ListAdvertised (callback : Callback)
| ListConnected (callback : Callback).

(** handler.rs: the events between behaviour and handler, and the packets. *)
Inductive FromBehaviour :=
| HQueryAdvertisedPeer
| HAnswerAdvertisedPeer (r : option (list PeerId))
| HSetAdvertiseSelf (state : bool).

Inductive ToBehaviour :=
| IncomingQuery
| HQueryAnswered (result : option (list PeerId))
| IncomingAdvertiseReq (state : bool)
| HError (e : Error)
| HInboundNegotiated
| HOutboundNegotiated.

Inductive Packet :=
| PAdvertiseSelf (state : bool)
| PQueryAdvertisedPeer
| PAnswerAdvertisedPeer (r : option (list PeerId)).

Definition from_Packet (value : Packet) : ToBehaviour :=
  match value with
  | PAdvertiseSelf b => IncomingAdvertiseReq b
  | PQueryAdvertisedPeer => IncomingQuery
  | PAnswerAdvertisedPeer r => HQueryAnswered r
  end.

Inductive Answer :=
| AnsState (b : bool)
| AnsUnit
| AnsPeers (peers : list PeerId).

(** ** behaviour.rs *)
Record Behaviour := {
  config : Config;
  pending_out_events : list OutEvent;
  in_events : list InEvent;
  advertised_peers : gset PeerId;
  pending_query_answer : list PeerId;
  connected_peers : gset PeerId;
  is_providing : bool;
}.

Definition new (config : Config) : Behaviour := {|
  config := config; pending_out_events := []; in_events := []; advertised_peers := ∅;
  pending_query_answer := []; connected_peers := ∅; is_providing := false;
|}.

Definition set_out (v : list OutEvent) (s : Behaviour) : Behaviour :=
  {| config := config s; pending_out_events := v; in_events := in_events s;
     advertised_peers := advertised_peers s; pending_query_answer := pending_query_answer s;
     connected_peers := connected_peers s; is_providing := is_providing s |}.
Definition set_in (v : list InEvent) (s : Behaviour) : Behaviour :=
  {| config := config s; pending_out_events := pending_out_events s; in_events := v;
     advertised_peers := advertised_peers s; pending_query_answer := pending_query_answer s;
     connected_peers := connected_peers s; is_providing := is_providing s |}.
Definition set_advertised (v : gset PeerId) (s : Behaviour) : Behaviour :=
  {| config := config s; pending_out_events := pending_out_events s; in_events := in_events s;
     advertised_peers := v; pending_query_answer := pending_query_answer s;
     connected_peers := connected_peers s; is_providing := is_providing s |}.
Definition set_queries (v : list PeerId) (s : Behaviour) : Behaviour :=
  {| config := config s; pending_out_events := pending_out_events s; in_events := in_events s;
     advertised_peers := advertised_peers s; pending_query_answer := v;
     connected_peers := connected_peers s; is_providing := is_providing s |}.
Definition set_connected (v : gset PeerId) (s : Behaviour) : Behaviour :=
  {| config := config s; pending_out_events := pending_out_events s; in_events := in_events s;
     advertised_peers := advertised_peers s; pending_query_answer := pending_query_answer s;
     connected_peers := v; is_providing := is_providing s |}.
Definition set_provider_status (status : bool) (s : Behaviour) : Behaviour :=
  {| config := config s; pending_out_events := pending_out_events s; in_events := in_events s;
     advertised_peers := advertised_peers s; pending_query_answer := pending_query_answer s;
     connected_peers := connected_peers s; is_providing := status |}.

Definition push_event (ev : InEvent) (s : Behaviour) : Behaviour := set_in (in_events s ++ [ev]) s.
Definition push_out (ev : OutEvent) (s : Behaviour) : Behaviour := set_out (pending_out_events s ++ [ev]) s.
Definition is_advertising (peer : PeerId) (s : Behaviour) : bool := bool_decide (peer ∈ advertised_peers s).
Definition get_provider_status (s : Behaviour) : bool := is_providing s.
Definition remove_advertised (peer_id : PeerId) (s : Behaviour) : bool * Behaviour :=
  (bool_decide (peer_id ∈ advertised_peers s), set_advertised (advertised_peers s ∖ {[peer_id]}) s).
Definition clear_advertised (s : Behaviour) : Behaviour := set_advertised ∅ s.
Definition new_pending_query (peer : PeerId) (s : Behaviour) : Behaviour :=
  set_queries (pending_query_answer s ++ [peer]) s.

Definition on_connection_handler_event (peer_id : PeerId) (event : ToBehaviour) (s : Behaviour)
    : Behaviour :=
  match event with
  | IncomingQuery => set_queries (pending_query_answer s ++ [peer_id]) s
  | IncomingAdvertiseReq true =>
      if (N.of_nat (size (advertised_peers s)) <=? max_advertise_capacity (config s))%N
      then set_advertised ({[peer_id]} ∪ advertised_peers s) s
      else s
  | IncomingAdvertiseReq false => set_advertised (advertised_peers s ∖ {[peer_id]}) s
  | HQueryAnswered result => push_out (QueryAnswered peer_id result) s
  | HError e => push_out (OutError e) s
  | HInboundNegotiated => s
  | HOutboundNegotiated => set_connected ({[peer_id]} ∪ connected_peers s) s
  end.

(** [while let Some(ev) = self.in_events.pop_front()]. *)
Fixpoint handle_events (evs : list InEvent) (s : Behaviour)
    : option (ToSwarm OutEvent FromBehaviour) * Behaviour * list (Sent Answer) :=
  match evs with
  | [] => (None, set_in [] s, [])
  | ev :: evs =>
      match ev with
      | QueryAdvertisedPeer peer =>
          if decide (peer ∈ connected_peers s)
          then (Some (NotifyHandler peer Any HQueryAdvertisedPeer), set_in evs s, [])
          else handle_events evs (push_out (OutError (NotProviding peer)) s)
      | GetProviderState callback =>
          (Some (GenerateEvent (ProviderState (is_providing s))), set_in evs s,
           handle_callback_sender (AnsState (is_providing s)) callback)
      | SetRemoteAdvertisement remote state callback =>
          (Some (NotifyHandler remote Any (HSetAdvertiseSelf state)), set_in evs s,
           handle_callback_sender AnsUnit callback)
      | SetProviderState target_state callback =>
          (Some (GenerateEvent (ProviderState target_state)),
           set_in evs (set_provider_status target_state s),
           handle_callback_sender (AnsState target_state) callback)
      | RemoveAdvertised peer =>
          let '(result, s) := remove_advertised peer s in
          (Some (GenerateEvent (AdvertisedPeerChanged peer result)), set_in evs s, [])
      | ListAdvertised callback =>
          let '(r, s', sent) := handle_events evs s in
          (r, s', handle_callback_sender (AnsPeers (hs_iter (advertised_peers s))) callback ++ sent)
      | ClearAdvertised => handle_events evs (clear_advertised s)
      | ListConnected callback =>
          let '(r, s', sent) := handle_events evs s in
          (r, s', handle_callback_sender (AnsPeers (hs_iter (connected_peers s))) callback ++ sent)
      end
  end.

Definition handle_in_event (s : Behaviour)
    : option (ToSwarm OutEvent FromBehaviour) * Behaviour * list (Sent Answer) :=
  handle_events (in_events s) s.

Definition poll (s : Behaviour) : Poll (ToSwarm OutEvent FromBehaviour) * Behaviour * list (Sent Answer) :=
  match pending_query_answer s with
  | peer_id :: rest =>
      let answer := if is_providing s then Some (hs_iter (advertised_peers s)) else None in
      (Ready (NotifyHandler peer_id Any (HAnswerAdvertisedPeer answer)), set_queries rest s, [])
  | [] =>
      match handle_in_event s with
      | (Some ev, s, sent) => (Ready ev, s, sent)
      | (None, s, sent) =>
          match pending_out_events s with
          | ev :: evs => (Ready (GenerateEvent ev), set_out evs s, sent)
          | [] => (Pending, s, sent)
          end
      end
  end.

Definition on_swarm_event (event : FromSwarm) (s : Behaviour) : Behaviour :=
  match event with
  | FromSwarmConnectionClosed closed =>
      if (cc_remaining_established closed <? 1)%N then
        let s := set_advertised (advertised_peers s ∖ {[cc_peer_id closed]}) s in
        set_connected (connected_peers s ∖ {[cc_peer_id closed]}) s
      else s
  | FromSwarmOther => s
  end.

(** ** Everything that can happen to the behaviour *)
Inductive Op :=
| OpPush (ev : InEvent)
| OpHandler (peer_id : PeerId) (ev : ToBehaviour)
| OpSwarm (ev : FromSwarm)
| OpPoll
| OpSetProvider (status : bool)
| OpRemoveAdvertised (peer : PeerId)
| OpClearAdvertised
| OpNewQuery (peer : PeerId).

Definition step (op : Op) (s : Behaviour) : Behaviour :=
  match op with
  | OpPush ev => push_event ev s
  | OpHandler peer ev => on_connection_handler_event peer ev s
  | OpSwarm ev => on_swarm_event ev s
  | OpPoll => (poll s).1.2
  | OpSetProvider b => set_provider_status b s
  | OpRemoveAdvertised p => (remove_advertised p s).2
  | OpClearAdvertised => clear_advertised s
  | OpNewQuery p => new_pending_query p s
  end.

Definition run (ops : list Op) (s : Behaviour) : Behaviour := foldl (λ s op, step op s) s ops.
End data.

(** ** The set of advertised peers *)
Section props.
Context {P : Platform}.

Lemma handle_events_advertised evs s r s' sent :
  handle_events evs s = (r, s', sent) →
  advertised_peers s' ⊆ advertised_peers s ∧ config s' = config s.
Proof.
  revert s r s' sent. induction evs as [|ev evs IH]; intros s r s' sent; simpl; [by intros [= _ <- _]|].
  destruct ev as [| |peer| |peer| | |].
  - by intros [= _ <- _].
  - by intros [= _ <- _].
  - case_decide; [by intros [= _ <- _]|]. intros Hr. apply IH in Hr as [? ?]. done.
  - by intros [= _ <- _].
  - intros [= _ <- _]. simpl. split; [set_solver|done].
  - intros Hr. apply IH in Hr as [Hs ?]. simpl in *. split; [set_solver|done].
  - destruct (handle_events evs s) as [[r1 s1] l1] eqn:E. intros [= _ <- _]. by eapply IH.
  - destruct (handle_events evs s) as [[r1 s1] l1] eqn:E. intros [= _ <- _]. by eapply IH.
Qed.

Lemma poll_advertised s : advertised_peers (poll s).1.2 ⊆ advertised_peers s ∧ config (poll s).1.2 = config s.
Proof.
  unfold poll, handle_in_event. destruct (pending_query_answer s); [|done].
  destruct (handle_events (in_events s) s) as [[[ev|] s1] sent] eqn:E;
    apply handle_events_advertised in E as [? ?]; [done|]. by destruct (pending_out_events s1).
Qed.

(** What one step does to the set: it grows by one peer, at its own request and
    below the check of the capacity, or it shrinks. *)
Lemma step_advertised op s :
  config (step op s) = config s ∧
  (advertised_peers (step op s) ⊆ advertised_peers s ∨
   ∃ peer, op = OpHandler peer (IncomingAdvertiseReq true) ∧
     (N.of_nat (size (advertised_peers s)) ≤ max_advertise_capacity (config s))%N ∧
     advertised_peers (step op s) = {[peer]} ∪ advertised_peers s).
Proof.
  destruct op as [ev|peer ev|ev| |b|p| |p]; simpl; try (split; [done|]; by left).
  - destruct ev as [| |[]| | |]; try (split; [done|]; by left).
    + simpl. destruct (N.leb_spec (N.of_nat (size (advertised_peers s))) (max_advertise_capacity (config s))).
      * split; [done|]. right. by exists peer.
      * split; [done|]. by left.
    + split; [done|]. left. simpl. set_solver.
  - destruct ev as [info|]; [|split; [done|]; by left]. simpl.
    destruct (_ <? 1)%N; (split; [done|]); left; simpl; set_solver.
  - destruct (poll_advertised s). split; [done|]. by left.
  - split; [done|]. left. simpl. set_solver.
Qed.

(** C36: the set of advertised peers is bounded in every run: by the configured
    capacity and one more (the capacity is compared with [<=] before the
    insertion). *)
Theorem advertised_bounded cfg ops :
  (N.of_nat (size (advertised_peers (run ops (new cfg)))) ≤ max_advertise_capacity cfg + 1)%N.
Proof.
  assert (H : ∀ s, config s = cfg → (N.of_nat (size (advertised_peers s)) ≤ max_advertise_capacity cfg + 1)%N →
    (N.of_nat (size (advertised_peers (run ops s))) ≤ max_advertise_capacity cfg + 1)%N).
  { induction ops as [|op ops IH]; intros s Hc Hle; [done|]. simpl.
    destruct (step_advertised op s) as [Hc' Hs]. apply IH; [congruence|].
    destruct Hs as [Hsub|(peer & _ & Hcap & ->)].
    - apply subseteq_size in Hsub. lia.
    - rewrite Hc in Hcap. pose proof (size_union_alt {[peer]} (advertised_peers s)) as Hu.
      rewrite Hu, size_singleton. pose proof (subseteq_size (advertised_peers s ∖ {[peer]}) (advertised_peers s)).
      assert (size (advertised_peers s ∖ {[peer]}) ≤ size (advertised_peers s)) by (apply subseteq_size; set_solver).
      lia. }
  apply H; [done|]. change (advertised_peers (new cfg)) with (∅ : gset PeerId). rewrite size_empty. lia.
Qed.

(** The bound is reached.  Of any sequence of distinct peers that ask to be
    advertised, exactly the first [capacity + 1] are. *)
Theorem capacity_plus_one_advertised cfg peers :
  NoDup peers →
  advertised_peers (run ((λ p, OpHandler p (IncomingAdvertiseReq true)) <$> peers) (new cfg)) =
    list_to_set (take (S (N.to_nat (max_advertise_capacity cfg))) peers).
Proof.
  intros Hnd. set (cap := max_advertise_capacity cfg).
  assert (H : ∀ pre post s, peers = pre ++ post → config s = cfg →
    advertised_peers s = list_to_set (take (S (N.to_nat cap)) pre) →
    advertised_peers (run ((λ p, OpHandler p (IncomingAdvertiseReq true)) <$> post) s) =
      list_to_set (take (S (N.to_nat cap)) peers)).
  { intros pre post. revert pre. induction post as [|p post IH]; intros pre s Hp Hc Ha; simpl.
    { by rewrite Ha, Hp, app_nil_r. }
    apply (IH (pre ++ [p])); [by rewrite <-app_assoc|..].
    - by destruct (_ <=? _)%N.
    - assert (Hndp : NoDup (take (S (N.to_nat cap)) pre)).
      { rewrite Hp in Hnd. apply NoDup_app in Hnd as [Hnd _]. eapply sublist_NoDup; [done|apply sublist_take]. }
      rewrite Hc. fold cap. rewrite Ha, size_list_to_set by done. rewrite length_take.
      destruct (N.leb_spec (N.of_nat (S (N.to_nat cap) `min` length pre)) cap) as [Hle|Hgt].
      + simpl. rewrite !take_ge by (rewrite ?length_app; simpl; lia).
        rewrite list_to_set_app_L. simpl. set_solver.
      + rewrite Ha, take_app_le by lia. done. }
  by apply (H []).
Qed.

(** Queries are answered first, in order, and only a provider discloses
    peers: a poll with a query pending answers the oldest one, with the advertised
    peers if this node is a provider and with nothing otherwise. *)
Theorem query_answered_first s peer rest :
  pending_query_answer s = peer :: rest →
  ∃ answer, poll s = (Ready (NotifyHandler peer Any (HAnswerAdvertisedPeer answer)), set_queries rest s, []) ∧
    (is_providing s = false → answer = None) ∧
    (is_providing s = true → ∃ l, answer = Some l ∧ NoDup l ∧ ∀ p, p ∈ l ↔ p ∈ advertised_peers s).
Proof.
  intros Hq. unfold poll. rewrite Hq. eexists. split; [done|].
  split; intros ->; [done|]. eexists. split; [done|]. split.
  - rewrite hs_iter_perm. apply NoDup_elements.
  - intros p. by rewrite elem_of_hs_iter.
Qed.
End props.

(** ** handler.rs *)
Section handler.
Context {P : Platform} {json : Messaging.Json Packet} {St : Type}.

Definition as_bytes (self : Packet) : outcome bytes :=
  match Messaging.to_vec self with
  | Ok bs => Return bs
  | Err _ => Panic "called `Result::unwrap()` on an `Err` value"
  end.

Inductive State := Inactive (reported : bool) | Active.
Definition State_default : State := Active.

Record RecvTask := { rt_stream : St }.
Record SendTask := { st_stream : St; st_buf : bytes }.

Inductive OutboundState :=
| OpenStream
| Idle (stream : St)
| Busy (task : SendTask) (timer : Delay).

Record Handler := {
  state : State;
  h_in_events : list FromBehaviour;
  h_out_events : list ToBehaviour;
  timeout : N;
  inbound : option RecvTask;
  outbound : option OutboundState;
}.

(** The configuration of the behaviour does not reach the handler: the timeout
    is twenty seconds. *)
Definition Handler_default : Handler := {|
  timeout := 20 * 1000; h_in_events := []; h_out_events := []; state := State_default;
  inbound := None; outbound := None;
|}.
Definition Handler_new : Handler := Handler_default.
Definition handle_established_connection (s : Behaviour) : result Handler unit := Ok Handler_new.

Definition set_state (v : State) (h : Handler) : Handler :=
  {| state := v; h_in_events := h_in_events h; h_out_events := h_out_events h; timeout := timeout h;
     inbound := inbound h; outbound := outbound h |}.
Definition set_h_in (v : list FromBehaviour) (h : Handler) : Handler :=
  {| state := state h; h_in_events := v; h_out_events := h_out_events h; timeout := timeout h;
     inbound := inbound h; outbound := outbound h |}.
Definition set_h_out (v : list ToBehaviour) (h : Handler) : Handler :=
  {| state := state h; h_in_events := h_in_events h; h_out_events := v; timeout := timeout h;
     inbound := inbound h; outbound := outbound h |}.
Definition push_to_behaviour (ev : ToBehaviour) (h : Handler) : Handler :=
  set_h_out (h_out_events h ++ [ev]) h.
Definition set_inbound (v : option RecvTask) (h : Handler) : Handler :=
  {| state := state h; h_in_events := h_in_events h; h_out_events := h_out_events h; timeout := timeout h;
     inbound := v; outbound := outbound h |}.
Definition set_outbound (v : option OutboundState) (h : Handler) : Handler :=
  {| state := state h; h_in_events := h_in_events h; h_out_events := h_out_events h; timeout := timeout h;
     inbound := inbound h; outbound := v |}.

Definition listen_protocol : string := PROTOCOL_NAME.
Definition connection_keep_alive (h : Handler) : bool := true.
Definition on_behaviour_event (event : FromBehaviour) (h : Handler) : Handler :=
  set_h_in (h_in_events h ++ [event]) h.

Record HandlerCx := {
  cx_timer : PollCx;
  cx_recv : RecvTask → Poll (result (St * bytes) IoError);
  cx_send : nat → SendTask → Poll (result (St * N) IoError);
}.

Definition PollResult : Type := ConnectionHandlerEvent ToBehaviour.

Definition poll_inbound (cx : HandlerCx) (h : Handler) : Handler :=
  match inbound h with
  | None => h
  | Some fut =>
      match cx_recv cx fut with
      | Pending => h
      | Ready (Err e) =>
          set_inbound None (push_to_behaviour (HError (IO ("IO Error: " +:+ io_debug e))) h)
      | Ready (Ok (stream, bs)) =>
          let h := set_inbound (Some {| rt_stream := stream |}) h in
          match Messaging.from_slice bs with
          | Ok packet => push_to_behaviour (from_Packet packet) h
          | Err e => push_to_behaviour (HError (UnrecognizedMessage
              ("Unrecognized message: " +:+ Messaging.json_display e +:+ ", raw data: " +:+ utf8_lossy bs))) h
          end
      end
  end.

(** The packet an event of the behaviour is sent as. *)
Definition outgoing (ev : FromBehaviour) : Packet :=
  match ev with
  | HQueryAdvertisedPeer => PQueryAdvertisedPeer
  | HAnswerAdvertisedPeer result => PAnswerAdvertisedPeer result
  | HSetAdvertiseSelf state => PAdvertiseSelf state
  end.

Definition poll_outbound_body (cx : HandlerCx) (st : nat * Handler)
    : outcome ((nat * Handler) + (option PollResult * Handler)) :=
  let '(k, h) := st in
  let taken := outbound h in
  let h := set_outbound None h in
  match taken with
  | Some (Busy task timer) =>
      match cx_send cx k task with
      | Pending =>
          let '(ready, timer) := delay_poll (cx_timer cx) timer in
          if ready : bool then Return (inl (S k, push_to_behaviour (HError Timeout) h))
          else Return (inr (None, set_outbound (Some (Busy task timer)) h))
      | Ready (Ok (stream, rtt)) => Return (inl (S k, set_outbound (Some (Idle stream)) h))
      | Ready (Err e) =>
          Return (inl (S k, push_to_behaviour (HError (IO ("IO Error: " +:+ io_debug e))) h))
      end
  | Some (Idle stream) =>
      match h_in_events h with
      | [] => Return (inr (None, set_outbound (Some (Idle stream)) h))
      | ev :: evs =>
          bs ← as_bytes (outgoing ev);
          Return (inl (k, set_outbound (Some (Busy {| st_stream := stream; st_buf := bs |}
                                                   (delay_new (timeout h)))) (set_h_in evs h)))
      end
  | Some OpenStream => Return (inr (None, set_outbound (Some OpenStream) h))
  | None => Return (inr (Some (OutboundSubstreamRequest PROTOCOL_NAME), set_outbound (Some OpenStream) h))
  end.

Definition outbound_fuel (h : Handler) : nat := 3 + 2 * length (h_in_events h).

Definition poll_outbound (cx : HandlerCx) (h : Handler) : outcome (option PollResult * Handler) :=
  loop (poll_outbound_body cx) (outbound_fuel h) (0, h).

(** A state that has not been reported yet is marked as reported, and polling
    goes on as if the handler were active. *)
Definition handler_poll (cx : HandlerCx) (h : Handler) : outcome (Poll PollResult * Handler) :=
  let go h :=
    '(r, h) ← poll_outbound cx (poll_inbound cx h);
    match r with
    | Some ev => Return (Ready ev, h)
    | None =>
        match h_out_events h with
        | ev :: evs => Return (Ready (NotifyBehaviour ev), set_h_out evs h)
        | [] => Return (Pending, h)
        end
    end in
  match state h with
  | Inactive true => Return (Pending, h)
  | Inactive false => go (set_state (Inactive true) h)
  | Active => go h
  end.

Definition on_dial_upgrade_error (error : StreamUpgradeError) (h : Handler) : Handler :=
  let h := set_outbound None h in
  match error with
  | NegotiationFailed => set_state (Inactive false) h
  | _ => h
  end.

Definition on_connection_event (event : ConnectionEvent St) (h : Handler) : outcome Handler :=
  match event with
  | FullyNegotiatedInbound stream =>
      Return (push_to_behaviour HInboundNegotiated (set_inbound (Some {| rt_stream := stream |}) h))
  | FullyNegotiatedOutbound stream =>
      Return (push_to_behaviour HOutboundNegotiated (set_outbound (Some (Idle stream)) h))
  | DialUpgradeError e => Return (on_dial_upgrade_error e h)
  | LocalProtocolsChange | RemoteProtocolsChange => Return h
  | AddressChange _ | ListenUpgradeError | UncoveredConnectionEvent =>
      Panic "not implemented: New branch not covered"
  end.
End handler.
Arguments Handler {P} St.
Arguments OutboundState {P} St.
Arguments HandlerCx {P} St.
Arguments as_bytes : simpl never.

Section handler_props.
Context {P : Platform} {json : Messaging.Json Packet} {laws : Messaging.JsonLaws Packet} {St : Type}.

Definition busy (o : option (OutboundState St)) : nat := match o with Some (Busy _ _) => 1 | _ => 0 end.

(** A poll of the advertise handler returns: it does not panic and its loop
    ends.  The queue of the behaviour's events loses a prefix, in order; reports
    are only appended. *)
Theorem advertise_poll_outbound_returns cx (h : Handler St) :
  ∃ r h' done reports, poll_outbound cx h = Return (r, h') ∧
    h_in_events h = done ++ h_in_events h' ∧ h_out_events h' = h_out_events h ++ reports ∧
    state h' = state h ∧ inbound h' = inbound h.
Proof.
  destruct (loop_returns (poll_outbound_body cx)
    (λ '(k, h1), ∃ done reports, h_in_events h = done ++ h_in_events h1 ∧
       h_out_events h1 = h_out_events h ++ reports ∧ state h1 = state h ∧ inbound h1 = inbound h)
    (λ '(k, h1), 2 * length (h_in_events h1) + busy (outbound h1))
    (λ '(r, h'), ∃ done reports, h_in_events h = done ++ h_in_events h' ∧
       h_out_events h' = h_out_events h ++ reports ∧ state h' = state h ∧ inbound h' = inbound h))
    with (fuel := outbound_fuel h) (s := (0, h)) as ([r h'] & Hloop & done & reports & H).
  - intros [k h1] (done & reports & Hd & Hr & Hs & Hi). unfold poll_outbound_body.
    destruct (outbound h1) as [[|stream|task timer]|] eqn:Hout.
    + right. eexists. split; [done|]. by exists done, reports.
    + simpl. destruct (h_in_events h1) as [|ev evs] eqn:Hev.
      * right. eexists. split; [done|]. exists done, reports. simpl. by rewrite Hev.
      * left. unfold as_bytes. destruct (Messaging.to_vec_ok (outgoing ev)) as [bs ->]. simpl.
        eexists. split; [done|]. split; [|simpl; lia].
        exists (done ++ [ev]), reports. simpl. by rewrite <-app_assoc.
    + destruct (cx_send cx k task) as [[[stream rtt]|e]|].
      * left. eexists. split; [done|]. split; [|simpl; lia]. by exists done, reports.
      * left. eexists. split; [done|]. split; [|simpl; lia].
        eexists done, (reports ++ [_]). simpl. by rewrite Hr, app_assoc.
      * destruct (delay_poll (cx_timer cx) timer) as [[] timer'].
        -- left. eexists. split; [done|]. split; [|simpl; lia].
           eexists done, (reports ++ [_]). simpl. by rewrite Hr, app_assoc.
        -- right. eexists. split; [done|]. by exists done, reports.
    + right. eexists. split; [done|]. by exists done, reports.
  - exists [], []. by rewrite app_nil_r.
  - unfold outbound_fuel. destruct (outbound h) as [[]|]; simpl; lia.
  - by exists r, h', done, reports.
Qed.

(** A peer that does not support the protocol is never reported: after a
    failed negotiation the next poll asks for a stream once more, and from then
    on every poll is pending. *)
Theorem unsupported_asks_again cx cx' (h : Handler St) :
  inbound h = None →
  let h1 := on_dial_upgrade_error NegotiationFailed h in
  ∃ h2, handler_poll cx h1 = Return (Ready (OutboundSubstreamRequest PROTOCOL_NAME), h2) ∧
        handler_poll cx' h2 = Return (Pending, h2).
Proof.
  intros Hin h1. eexists. unfold handler_poll at 1. simpl. unfold poll_inbound. simpl. rewrite Hin.
  split; [reflexivity|]. reflexivity.
Qed.
End handler_props.

(** ** Witnesses *)
Section witnesses.
#[local] Existing Instance demo_platform.

Lemma capacity_plus_one_advertised_witness :
  advertised_peers (run ((λ p : @PeerId demo_platform, OpHandler p (IncomingAdvertiseReq true)) <$>
      [1%N; 2%N; 3%N; 4%N]) (new {| timeout_ms := 1; max_advertise_capacity := 2 |})) =
    list_to_set (take 3 [1%N; 2%N; 3%N; 4%N]).
Proof.
  assert (Hnd : NoDup [1%N; 2%N; 3%N; 4%N]) by (apply (bool_decide_unpack _); vm_compute; exact I).
  exact (capacity_plus_one_advertised (P := demo_platform)
           {| timeout_ms := 1; max_advertise_capacity := 2 |} [1%N; 2%N; 3%N; 4%N] Hnd).
Defined.

Definition asked : Behaviour := set_queries [(4%N : @PeerId demo_platform)] (new Config_default).

Lemma query_answered_first_witness :
  ∃ answer, poll asked = (Ready (NotifyHandler (4%N : @PeerId demo_platform) Any (HAnswerAdvertisedPeer answer)),
                          set_queries [] asked, []) ∧
    (is_providing asked = false → answer = None) ∧
    (is_providing asked = true → ∃ l, answer = Some l ∧ NoDup l ∧ ∀ p, p ∈ l ↔ p ∈ advertised_peers asked).
Proof. exact (query_answered_first asked (4%N : @PeerId demo_platform) [] eq_refl). Defined.

(** A codec for the packets without peers, in one byte each; the lists of peers
    in unary. *)
Definition packet_bytes (p : Packet) : bytes :=
  match p with
  | PAdvertiseSelf false => [Byte.x00]
  | PAdvertiseSelf true => [Byte.x01]
  | PQueryAdvertisedPeer => [Byte.x02]
  | PAnswerAdvertisedPeer None => [Byte.x03]
  | PAnswerAdvertisedPeer (Some l) => Byte.x04 :: concat (Messaging.unary <$> l)
  end.
Fixpoint read_all (fuel : nat) (bs : bytes) : list N :=
  match fuel with
  | O => []
  | S fuel => match Messaging.read_unary 0 bs with
              | Some (n, bs) => n :: read_all fuel bs
              | None => []
              end
  end.

Lemma read_all_ok l fuel : length l ≤ fuel → read_all fuel (concat (Messaging.unary <$> l)) = l.
Proof.
  revert l. induction fuel as [|fuel IH]; intros [|n l] H; simpl in *; try done; [lia|].
  rewrite Messaging.read_unary_ok. f_equal. apply IH. lia.
Qed.

Lemma unary_list_length l : length l ≤ length (concat (Messaging.unary <$> l)).
Proof.
  induction l as [|n l IH]; csimpl; [lia|]. rewrite length_app.
  assert (1 ≤ length (Messaging.unary n)); [|lia].
  unfold Messaging.unary. rewrite length_app. simpl. lia.
Qed.

#[export] Instance packet_json : Messaging.Json Packet := {|
  Messaging.JsonError := ();
  Messaging.json_display := λ _, "expected value";
  Messaging.to_vec := λ p, Ok (packet_bytes p);
  Messaging.from_slice := λ bs,
    match bs with
    | Byte.x00 :: _ => Ok (PAdvertiseSelf false)
    | Byte.x01 :: _ => Ok (PAdvertiseSelf true)
    | Byte.x02 :: _ => Ok PQueryAdvertisedPeer
    | Byte.x03 :: _ => Ok (PAnswerAdvertisedPeer None)
    | Byte.x04 :: bs => Ok (PAnswerAdvertisedPeer (Some (read_all (length bs) bs)))
    | _ => Err ()
    end;
|}.

#[export] Instance packet_json_laws : Messaging.JsonLaws Packet.
Proof.
  split; [by eexists|]. intros p bs [= <-]. destruct p as [[]| |[l|]]; try done.
  cbv [Messaging.from_slice packet_json packet_bytes]. by rewrite read_all_ok by apply unary_list_length.
Qed.

Definition demo_handler : Handler N := {|
  state := Active; h_in_events := [HSetAdvertiseSelf true; HQueryAdvertisedPeer]; h_out_events := [];
  timeout := 1000; inbound := None; outbound := Some (Idle 8%N);
|}.
Definition demo_cx : HandlerCx N := {|
  cx_timer := (0%N : @PollCx demo_platform);
  cx_recv := λ _, Pending;
  cx_send := λ k _, match k with O => Ready (Ok (8%N, 5%N)) | S _ => Pending end;
|}.

Lemma advertise_poll_outbound_returns_witness :
  ∃ r h' done reports, poll_outbound demo_cx demo_handler = Return (r, h') ∧
    h_in_events demo_handler = done ++ h_in_events h' ∧
    h_out_events h' = h_out_events demo_handler ++ reports ∧
    state h' = state demo_handler ∧ inbound h' = inbound demo_handler.
Proof. exact (advertise_poll_outbound_returns demo_cx demo_handler). Defined.

Lemma unsupported_asks_again_witness :
  ∃ h2, handler_poll demo_cx (on_dial_upgrade_error NegotiationFailed demo_handler) =
          Return (Ready (OutboundSubstreamRequest PROTOCOL_NAME), h2) ∧
        handler_poll demo_cx h2 = Return (Pending, h2).
Proof. exact (unsupported_asks_again demo_cx demo_cx demo_handler eq_refl). Defined.
End witnesses.
End Advertise.
