(* ===== verification/Memcache.v ===== *)
(** * The in-memory cache ([memcache])

    Module [Memcache]: [MapStore] and [SetStore], the task that owns a map and
    the calls of the cloneable managers, as steps of an actor with a bounded
    mailbox; the test of [lib.rs]. *)

From stdpp Require Import base gmap sets list strings.
From Stdlib Require Import Lia NArith.
From S2P Require Import Prelude Std.

Module Memcache.

(** ** store.rs: maps *)
Section map_store.
Context {V Regex : Type} (is_match : Regex → string → bool).

Inductive MapOps :=
| GetSingle (key : string) (tx : Callback)
| GetAll (tx : Callback)
| Lookup (pattern : Regex) (tx : Callback)
| Set_ (key : string) (value : V) (tx : Callback)
| TryInsert (key : string) (value : V) (tx : Callback)
| Delete (key : string) (tx : Callback).

Inductive MapResult :=
| Inserted
| FoundValue (v : option V)
| FoundKV (kv : option (gmap string V))
| Modified (v : V)
| Deleted (v : V)
| Failed.

(** A [MapStore] is its map; the receiver is the mailbox of the actor below. *)
Definition MapStore_new : gmap string V := ∅.
Definition MapStore_with_map (map : gmap string V) : gmap string V := map.

Definition handle_op (op : MapOps) (map : gmap string V) : gmap string V * Sent MapResult :=
  match op with
  | Set_ k v tx =>
      match map !! k with
      | Some old => (<[k := v]> map, Answered tx (Modified old))
      | None => (<[k := v]> map, Answered tx Inserted)
      end
  | TryInsert k v tx =>
      match map !! k with
      | Some _ => (map, Answered tx Failed)
      | None => (<[k := v]> map, Answered tx Inserted)
      end
  | Delete k tx =>
      match map !! k with
      | Some v => (delete k map, Answered tx (Deleted v))
      | None => (map, Answered tx Failed)
      end
  | GetSingle k tx =>
      match map !! k with
      | Some v => (map, Answered tx (FoundValue (Some v)))
      | None => (map, Answered tx (FoundValue None))
      end
  | Lookup pattern tx =>
      let found := filter (λ '(k, _), is_match pattern k = true) map in
      if decide (found = ∅) then (map, Answered tx (FoundKV None))
      else (map, Answered tx (FoundKV (Some found)))
  | GetAll tx => (map, Answered tx (FoundKV (Some map)))
  end.
End map_store.
Arguments MapOps : clear implicits.
Arguments MapResult : clear implicits.

(** ** store.rs: sets *)
Section set_store.
Context {T : Type} {T_eq : EqDecision T} {T_countable : Countable T} (into_iter : gset T → list T).

Inductive SetOps :=
| Find (v : T) (tx : Callback)
| SetTryInsert (v : T) (tx : Callback)
| SetDelete (v : T) (tx : Callback)
| Dump (tx : Callback).

Inductive SetResult :=
| SetInserted
| SetFailed
| SetDeleted
| Found
| NotFound
| Dumped (l : list T).

Definition SetStore_new : gset T := ∅.
Definition SetStore_with_set (set : gset T) : gset T := set.

Definition handle_ops (op : SetOps) (set : gset T) : gset T * Sent SetResult :=
  match op with
  | Find v tx => (set, Answered tx (if decide (v ∈ set) then Found else NotFound))
  | Dump tx => (set, Answered tx (Dumped (into_iter set)))
  | SetTryInsert v tx =>
      if decide (v ∈ set) then (set, Answered tx SetFailed)
      else ({[v]} ∪ set, Answered tx SetInserted)
  | SetDelete v tx =>
      if decide (v ∈ set) then (set ∖ {[v]}, Answered tx SetDeleted)
      else (set, Answered tx SetFailed)
  end.
End set_store.
Arguments SetOps : clear implicits.
Arguments SetResult : clear implicits.

(** ** manager.rs: the task that owns a map, and its callers *)
Section actor.
Context {V Regex : Type} (is_match : Regex → string → bool).

(** The store, the channel (a bounded queue) and the answers given so far. *)
Record MapManager := {
  store : gmap string V;
  mailbox : list (MapOps V Regex);
  buffer : nat;
  replies : list (Sent (MapResult V));
}.

Definition MapManager_new (buffer : nat) : MapManager :=
  {| store := MapStore_new; mailbox := []; buffer := buffer; replies := [] |}.
Definition MapManager_from (map : gmap string V) : MapManager :=
  {| store := MapStore_with_map map; mailbox := []; buffer := 8; replies := [] |}.

(** The operations the calls of a manager send. *)
Definition map_get_single (key : string) (tx : Callback) : MapOps V Regex := GetSingle key tx.
Definition map_get_all (tx : Callback) : MapOps V Regex := GetAll tx.
Definition map_set (key : string) (value : V) (tx : Callback) : MapOps V Regex := Set_ key value tx.
Definition map_try_insert (key : string) (value : V) (tx : Callback) : MapOps V Regex := TryInsert key value tx.
Definition map_delete (key : string) (tx : Callback) : MapOps V Regex := Delete key tx.
Definition map_lookup (pattern : Regex) (tx : Callback) : MapOps V Regex := Lookup pattern tx.

(** [self.sender.send(op).await]: waits while the channel is full. *)
Definition send (op : MapOps V Regex) (m : MapManager) : option MapManager :=
  if Nat.ltb (length (mailbox m)) (buffer m) then
    Some {| store := store m; mailbox := mailbox m ++ [op]; buffer := buffer m; replies := replies m |}
  else None.

(** One turn of [while let Some(op) = store.receiver.recv().await]. *)
Definition actor_turn (m : MapManager) : option MapManager :=
  match mailbox m with
  | [] => None
  | op :: ops =>
      let '(s, reply) := handle_op is_match op (store m) in
      Some {| store := s; mailbox := ops; buffer := buffer m; replies := replies m ++ [reply] |}
  end.

(** Callers and the task run in any order; [calls] are the operations sent. *)
Inductive reachable (m0 : MapManager) : list (MapOps V Regex) → MapManager → Prop :=
| reach_init : reachable m0 [] m0
| reach_send calls m op m' : reachable m0 calls m → send op m = Some m' → reachable m0 (calls ++ [op]) m'
| reach_turn calls m m' : reachable m0 calls m → actor_turn m = Some m' → reachable m0 calls m'.

(** ** Sequential specification: the value of one key after a history *)
Definition effect (key : string) (op : MapOps V Regex) (cur : option V) : option V :=
  match op with
  | Set_ k v _ => if decide (k = key) then Some v else cur
  | TryInsert k v _ => if decide (k = key) then (match cur with Some w => Some w | None => Some v end) else cur
  | Delete k _ => if decide (k = key) then None else cur
  | _ => cur
  end.
Definition value_after (key : string) (calls : list (MapOps V Regex)) (init : option V) : option V :=
  foldl (λ cur op, effect key op cur) init calls.

(** What a call must be answered after a history of calls on an empty map. *)
Definition expected (calls : list (MapOps V Regex)) (op : MapOps V Regex) (reply : Sent (MapResult V)) : Prop :=
  let val key := value_after key calls None in
  match op with
  | GetSingle k tx => reply = Answered tx (FoundValue (val k))
  | GetAll tx => ∃ m, reply = Answered tx (FoundKV (Some m)) ∧ ∀ k, m !! k = val k
  | Lookup p tx =>
      ((∀ k, is_match p k = true → val k = None) ∧ reply = Answered tx (FoundKV None)) ∨
      (∃ m, m ≠ ∅ ∧ reply = Answered tx (FoundKV (Some m)) ∧
         ∀ k, m !! k = if is_match p k then val k else None)
  | Set_ k _ tx => reply = Answered tx (match val k with Some old => Modified old | None => Inserted end)
  | TryInsert k _ tx => reply = Answered tx (match val k with Some _ => Failed | None => Inserted end)
  | Delete k tx => reply = Answered tx (match val k with Some v => Deleted v | None => Failed end)
  end.

Lemma handle_op_effect op m key :
  (handle_op is_match op m).1 !! key = effect key op (m !! key).
Proof.
  destruct op as [k tx|tx|p tx|k v tx|k v tx|k tx]; simpl.
  - by destruct (m !! k).
  - done.
  - by case_decide.
  - destruct (m !! k); simpl; by at_key k key.
  - destruct (m !! k) eqn:E; simpl; at_key k key; by rewrite ?E.
  - destruct (m !! k) eqn:E; simpl; at_key k key; by rewrite ?E.
Qed.

Lemma handle_op_expected calls op m :
  (∀ k, m !! k = value_after k calls None) → expected calls op (handle_op is_match op m).2.
Proof.
  intros Hm. destruct op as [k tx|tx|p tx|k v tx|k v tx|k tx]; simpl; rewrite <-?Hm.
  - by destruct (m !! k).
  - by exists m.
  - case_decide as Hf; simpl; [left|right].
    + split; [|done]. intros k Hk. rewrite <-Hm. destruct (m !! k) as [v|] eqn:E; [|done].
      assert (filter (λ '(k, _), is_match p k = true) m !! k = Some v) as H
        by (by apply map_lookup_filter_Some).
      by rewrite Hf in H.
    + exists (filter (λ '(k, _), is_match p k = true) m). split; [done|]. split; [done|]. intros k. rewrite <-Hm.
      destruct (is_match p k) eqn:E.
      * destruct (m !! k) as [v|] eqn:Ev; [by apply map_lookup_filter_Some|].
        apply map_lookup_filter_None. by left.
      * apply map_lookup_filter_None. right. intros v _ H. congruence.
  - by destruct (m !! k).
  - by destruct (m !! k).
  - by destruct (m !! k).
Qed.

(** The calls answered so far, with their answers, and the store they lead to. *)
Lemma reachable_answers b calls m :
  reachable (MapManager_new b) calls m →
  ∃ done, calls = done ++ mailbox m ∧ length (replies m) = length done ∧
    (∀ k, store m !! k = value_after k done None) ∧
    (∀ i op r, done !! i = Some op → replies m !! i = Some r → expected (take i done) op r) ∧
    buffer m = b ∧ length (mailbox m) ≤ b.
Proof.
  induction 1 as [|calls m op m' _ IH Hs|calls m m' _ IH Ht].
  - exists []. split_and!; simpl; try done; lia.
  - destruct IH as (done & -> & Hlen & Hst & Hans & Hb & Hle). unfold send in Hs.
    destruct (Nat.ltb_spec (length (mailbox m)) (buffer m)); [|done]. injection Hs as <-. simpl.
    exists done. rewrite <-app_assoc, length_app. simpl. split_and!; try done. lia.
  - destruct IH as (done & -> & Hlen & Hst & Hans & Hb & Hle). unfold actor_turn in Ht.
    destruct (mailbox m) as [|op ops] eqn:Em; [done|].
    pose proof (handle_op_effect op (store m)) as Heff. pose proof (handle_op_expected done op _ Hst) as Hexp.
    destruct (handle_op is_match op (store m)) as [s reply]. injection Ht as <-. simpl in *.
    exists (done ++ [op]). rewrite <-app_assoc, !length_app. simpl. split_and!; try done; [lia| | |lia].
    + intros k. unfold value_after. rewrite foldl_app. simpl. by rewrite Heff, Hst.
    + intros i op' r Hi Hr. destruct (decide (i < length done)) as [Hlt|Hge].
      * rewrite lookup_app_l in Hi by done. rewrite lookup_app_l in Hr by lia.
        rewrite take_app_le by lia. eauto.
      * assert (i = length done) as ->.
        { apply lookup_lt_Some in Hi. rewrite length_app in Hi. simpl in Hi. lia. }
        rewrite take_app_length.
        rewrite lookup_app_r in Hi by done. rewrite Nat.sub_diag in Hi. injection Hi as <-.
        rewrite lookup_app_r in Hr by lia. rewrite Hlen, Nat.sub_diag in Hr. by injection Hr as <-.
Qed.

(** C12: the cache is linearizable.  However callers and the owning task
    interleave, the calls are answered in the order they entered the channel,
    and each answer is the one the sequential specification gives after the
    calls before it; what is not answered yet is in the mailbox, which never
    holds more than its capacity. *)
Theorem cache_linearizable b calls m :
  reachable (MapManager_new b) calls m →
  ∃ done, calls = done ++ mailbox m ∧ length (replies m) = length done ∧ length (mailbox m) ≤ b ∧
    ∀ i op r, done !! i = Some op → replies m !! i = Some r → expected (take i done) op r.
Proof. intros H. destruct (reachable_answers b calls m H) as (done & ? & ? & _ & ? & _ & ?). by exists done. Qed.
End actor.
Arguments MapManager : clear implicits.

(** ** manager.rs: sets *)
Section set_manager.
Context {T : Type}.
Definition find (v : T) (tx : Callback) : SetOps T := Find v tx.
Definition try_insert (v : T) (tx : Callback) : SetOps T := SetTryInsert v tx.
Definition dump (tx : Callback) : SetOps T := Dump tx.
Definition set_delete (v : T) (tx : Callback) : SetOps T := SetDelete v tx.
End set_manager.

Section set_props.
Context {T : Type} {T_eq : EqDecision T} {T_countable : Countable T} (into_iter : gset T → list T).

(** After an insertion or a deletion [Find] sees it. *)
Lemma handle_ops_find op v tx set :
  (handle_ops into_iter (Find v tx) (handle_ops into_iter op set).1).2 =
    Answered tx (match op with
                 | SetTryInsert w _ => if decide (v = w ∨ v ∈ set) then Found else NotFound
                 | SetDelete w _ => if decide (v ≠ w ∧ v ∈ set) then Found else NotFound
                 | _ => if decide (v ∈ set) then Found else NotFound
                 end).
Proof.
  destruct op as [w tx'|w tx'|w tx'|tx']; simpl; try done; f_equal; apply decide_ext;
    (destruct (decide (w ∈ set)); simpl; set_solver).
Qed.
End set_props.

(** ** lib.rs: the test, on a manager and its clone

    One caller waits for each answer in turn, so the task takes each operation as
    it comes; the managers share the store. *)
Section test.
Context {Regex : Type} (is_match : Regex → string → bool) (tx : Callback).

#[local] Instance map_result_eq_dec : EqDecision (MapResult string).
Proof. solve_decision. Defined.

(** [manager.op(..).await]. *)
Definition wait_answer (op : Callback → MapOps string Regex) (m : MapManager string Regex)
    : outcome (MapResult string * MapManager string Regex) :=
  match send (op tx) m with
  | None => OutOfFuel
  | Some m =>
      match actor_turn is_match m with
      | None => OutOfFuel
      | Some m =>
          match last (replies m) with
          | Some (Answered _ r) => Return (r, m)
          | _ => Panic "Actor has been killed"
          end
      end
  end.
Definition ask_eq (op : Callback → MapOps string Regex) (r : MapResult string) (m : MapManager string Regex)
    : outcome (MapManager string Regex) :=
  ' (got, m) ← wait_answer op m;
  _ ← assert (bool_decide (got = r));
  Return m.

Definition it_works : outcome () :=
  let manager := MapManager_new 8 in
  manager ← ask_eq (map_try_insert "ping" "PONG") Inserted manager;
  manager ← ask_eq (map_try_insert "ping" "PONG") Failed manager;
  manager ← ask_eq (map_try_insert "123" "abc") Inserted manager;
  manager ← ask_eq (map_get_single "123") (FoundValue (Some "abc")) manager;
  manager ← ask_eq (map_set "123" "def") (Modified "abc") manager;
  manager ← ask_eq (map_get_single "123") (FoundValue (Some "def")) manager;
  _ ← ask_eq (map_delete "ping") (Deleted "PONG") manager;
  Return ().

Lemma it_works_passes : it_works = Return ().
Proof. vm_compute. reflexivity. Qed.
End test.

(** ** Witness *)
Section witnesses.
Definition demo_cb (n : N) : Callback := {| cb_id := n; cb_open := true |}.
Definition demo_match (p k : string) : bool := bool_decide (p = k).
Definition demo_manager : MapManager string string :=
  {| store := {["ping" := "PONG"]}; mailbox := [map_try_insert "ping" "x" (demo_cb 1)]; buffer := 8;
     replies := [Answered (demo_cb 0) Inserted] |}.

Lemma demo_reachable :
  reachable demo_match (MapManager_new 8)
    [map_try_insert "ping" "PONG" (demo_cb 0); map_try_insert "ping" "x" (demo_cb 1)] demo_manager.
Proof.
  eapply (reach_send _ _ [map_try_insert "ping" "PONG" (demo_cb 0)]
           {| store := {["ping" := "PONG"]}; mailbox := []; buffer := 8; replies := [Answered (demo_cb 0) Inserted] |});
    [|reflexivity].
  eapply reach_turn; [|].
  - eapply (reach_send _ _ []); [apply reach_init|reflexivity].
  - reflexivity.
Qed.

Lemma cache_linearizable_witness :
  ∃ done, [map_try_insert "ping" "PONG" (demo_cb 0); map_try_insert "ping" "x" (demo_cb 1)] =
            done ++ mailbox demo_manager ∧
    length (replies demo_manager) = length done ∧ length (mailbox demo_manager) ≤ 8 ∧
    ∀ i op r, done !! i = Some op → replies demo_manager !! i = Some r → expected demo_match (take i done) op r.
Proof. exact (cache_linearizable demo_match 8 _ demo_manager demo_reachable). Defined.
End witnesses.
End Memcache.
