(* ===== verification/Concurrent.v ===== *)
(** * Methods on concurrent maps

    A method of a store that takes [&self] is a sequence of atomic operations on
    concurrent maps ([dashmap]): a program ([prog]), run at once ([run]) or
    interleaved with another one ([interleave]).  The stores of [GossipTopics]
    and [MessagingHandle] are written with it. *)

From stdpp Require Import base list strings relations.
From S2P Require Import Prelude.

Module Concurrent.
Section prog.
Context {S : Type}.

(** An atomic operation on the maps changes the store and goes on with what it
    saw; [unreachable!()] is a panic. *)
Inductive prog (A : Type) : Type :=
| Ret (a : A)
| Unreachable
| Atomic (upd : S → S) (k : S → prog A).
Arguments Ret {A} a.
Arguments Unreachable {A}.
Arguments Atomic {A} upd k.

Fixpoint pbind {A B} (p : prog A) (f : A → prog B) : prog B :=
  match p with
  | Ret a => f a
  | Unreachable => Unreachable
  | Atomic upd k => Atomic upd (λ s, pbind (k s) f)
  end.

Definition UNREACHABLE : string := "internal error: entered unreachable code".
Fixpoint run {A} (p : prog A) (s : S) : outcome (A * S) :=
  match p with
  | Ret a => Return (a, s)
  | Unreachable => Panic UNREACHABLE
  | Atomic upd k => run (k s) (upd s)
  end.

(** One atomic operation of one of two methods that are being executed. *)
Inductive interleave {A B} : prog A * prog B * S → prog A * prog B * S → Prop :=
| interleave_left upd k q s : interleave (Atomic upd k, q, s) (k s, q, upd s)
| interleave_right upd k p s : interleave (p, Atomic upd k, s) (p, k s, upd s).
End prog.
Arguments prog S A : clear implicits.
Arguments Ret {S A} a.
Arguments Unreachable {S A}.
Arguments Atomic {S A} upd k.

(** Run the next operation of one thread, its outcome computed. *)
Ltac left_step := eapply rtc_l; [apply interleave_left|]; cbn beta.
Ltac right_step := eapply rtc_l; [apply interleave_right|]; cbn beta.
End Concurrent.
