(* ===== verification/Calls.v ===== *)
(** * Calls of a handle ([owlnest-macro/src/lib.rs], [owlnest/src/utils/mod.rs])

    Module [Calls]: what the macros put into the methods of every handle.  A
    method sends a request, then waits for its callback
    ([generate_handler_method!]) or listens to the events of the swarm until one
    answers it ([listen_event!]), possibly for a limited time
    ([future_timeout!]).  The caller's view of the rest of the program is what
    was sent on callbacks so far and what its subscription received so far. *)

From stdpp Require Import base gmap sets list strings.
From Stdlib Require Import Lia NArith.
From S2P Require Import Prelude Std Core.

Module Calls.

(** ** Callbacks *)
Definition sent_callback {A} (r : Sent A) : Callback :=
  match r with Answered cb _ => cb | Dropped cb => cb end.

(** [handle_callback!]: the receiver of a callback, after the given traffic. *)
Fixpoint handle_callback {A} (id : N) (sent : list (Sent A)) : outcome (Poll A) :=
  match sent with
  | [] => Return Pending
  | r :: sent =>
      if decide (cb_id (sent_callback r) = id) then
        match r with
        | Answered _ a => Return (Ready a)
        | Dropped _ => Panic CALLBACK_CLEAR
        end
      else handle_callback id sent
  end.

(** [send_swarm!]: the receiver of the request channel is alive or not. *)
Definition send_swarm (alive : bool) : outcome unit :=
  if alive then Return tt else Panic SWARM_RECEIVER_KEPT_ALIVE.

(** The answers of a server are one sum; the callback of a request has one type
    of it. *)
Definition as_type {A B} (get : A → option B) (p : Poll A) : outcome (Poll B) :=
  match p with
  | Ready a => b ← expect (get a) "answer of another type"; Return (Ready b)
  | Pending => Return Pending
  end.

(** A generated method with a return type, and one without; [serve] is what the
    task that receives the request does with it. *)
Definition handler_method {Ev A B S} (serve : Ev → S → outcome (S * list (Sent A)))
    (variant : Callback → Ev) (get : A → option B) (alive : bool) (tx : Callback) (s : S)
    : outcome (Poll B * S) :=
  _ ← send_swarm alive;
  ' (s, sent) ← serve (variant tx) s;
  p ← handle_callback (cb_id tx) sent;
  b ← as_type get p;
  Return (b, s).

Definition handler_method_silent {Ev A S} (serve : Ev → S → outcome (S * list (Sent A)))
    (ev : Ev) (alive : bool) (s : S) : outcome S :=
  _ ← send_swarm alive;
  ' (s, _) ← serve ev s;
  Return s.

Lemma handle_callback_head {A} (a : A) cb sent :
  handle_callback (cb_id cb) (Answered cb a :: sent) = Return (Ready a).
Proof. simpl. by rewrite decide_True. Qed.

Lemma handle_callback_skip {A} id (sent1 sent2 : list (Sent A)) :
  Forall (λ r, cb_id (sent_callback r) ≠ id) sent1 →
  handle_callback id (sent1 ++ sent2) = handle_callback id sent2.
Proof. induction 1; simpl; [done|]. by rewrite decide_False. Qed.

(** ** Events *)

(** What [listener.recv()] gives: an event, or an error that ends the loop: the
    channel is closed, or events were dropped because the listener is slow. *)
Inductive Recv (E : Type) :=
| Got (e : E)
| RecvError.
Arguments Got {E} e.
Arguments RecvError {E}.

Definition UNREACHABLE : string := "internal error: entered unreachable code".

(** [listen_event!]: [ops] goes on with the locals ([inl]) or returns ([inr]);
    an event no arm matches leaves the locals as they are. *)
Fixpoint listen_event {E L R} (ops : E → L → L + R) (received : list (Recv E)) (l : L)
    : outcome (Poll R) :=
  match received with
  | [] => Return Pending
  | RecvError :: _ => Panic UNREACHABLE
  | Got e :: received =>
      match ops e l with
      | inl l => listen_event ops received l
      | inr r => Return (Ready r)
      end
  end.

(** [future_timeout!]: [fut] is the future at the deadline, or now. *)
Definition future_timeout {R} (fut : outcome (Poll R)) (elapsed : bool)
    : outcome (Poll (result R error.OperationError)) :=
  p ← fut;
  match p with
  | Ready r => Return (Ready (Ok r))
  | Pending =>
      if elapsed then Return (Ready (Err error.operation_error_from_elapsed)) else Return Pending
  end.

(** A task that only folds events into a state it shares:
    [while let Ok(ev) = listener.recv().await]. *)
Fixpoint listener_task {E S} (f : E → S → S) (received : list (Recv E)) (s : S) : S :=
  match received with
  | [] | RecvError :: _ => s
  | Got e :: received => listener_task f received (f e s)
  end.

Lemma listener_task_got {E S} (f : E → S → S) evs s :
  listener_task f (Got <$> evs) s = foldl (λ s e, f e s) s evs.
Proof. revert s. induction evs as [|e evs IH]; intros s; [done|]. apply IH. Qed.

(** The arms that answer at once or ignore the event. *)
Definition answer_with {E R} (f : E → option R) : E → unit → unit + R :=
  λ e _, match f e with Some r => inr r | None => inl tt end.

(** Such a listener answers with the first event that is an answer. *)
Lemma listen_first {E R} (f : E → option R) evs :
  listen_event (answer_with f) (Got <$> evs) tt =
  Return (match head (omap f evs) with Some r => Ready r | None => Pending end).
Proof.
  induction evs as [|e evs IH]; [done|]. simpl. unfold answer_with at 1.
  destruct (f e); [done|]. exact IH.
Qed.

(** Once answered, later events change nothing; an error after the answer
    neither. *)
Lemma listen_stable {E L R} (ops : E → L → L + R) received received' l r :
  listen_event ops received l = Return (Ready r) →
  listen_event ops (received ++ received') l = Return (Ready r).
Proof.
  revert l. induction received as [|[e|] received IH]; intros l; simpl; [done| |done].
  destruct (ops e l); [apply IH|done].
Qed.

(** With the events split anywhere, listening to the second part goes on where
    the first part ended. *)
Lemma listen_app {E L R} (ops : E → L → L + R) evs1 evs2 l :
  (∃ r, listen_event ops (Got <$> evs1) l = Return (Ready r) ∧
        listen_event ops (Got <$> (evs1 ++ evs2)) l = Return (Ready r)) ∨
  (∃ l', listen_event ops (Got <$> evs1) l = Return Pending ∧
         listen_event ops (Got <$> (evs1 ++ evs2)) l = listen_event ops (Got <$> evs2) l').
Proof.
  revert l. induction evs1 as [|e evs1 IH]; intros l; simpl; [by right; exists l|].
  destruct (ops e l) as [l'|r]; [apply IH|by left; exists r].
Qed.
End Calls.
