(* ===== verification/GossipTopics.v ===== *)
(** * The topic and message stores of gossipsub ([protocols/gossipsub.rs], [store] and [mem_store])

    Module [GossipTopics].  The methods of [MemTopicStore] are programs of atomic
    operations ([Concurrent]).  The store refines a map from topics to an optional name and
    the participants; the refinement is of whole methods. *)

From stdpp Require Import base gmap sets list strings fin_maps.
From Stdlib Require Import Lia NArith.
From S2P Require Import Prelude Std Concurrent.
Import Concurrent.

Module GossipTopics.

(** What the sources take from libp2p's gossipsub: the topic hash is a string
    in a wrapper, messages are opaque; concurrent maps and sets are iterated in
    some order. *)
Class TopicTypes := {
  TopicHash : Type;
  TopicHash_eq_dec :: EqDecision TopicHash;
  TopicHash_countable :: Countable TopicHash;
  from_raw : string → TopicHash;
  into_string : TopicHash → string;
  from_raw_into_string t : from_raw (into_string t) = t;
  into_string_from_raw s : into_string (from_raw s) = s;
  Message : Type;
  dm_iter : ∀ A : Type, gmap TopicHash A → list (TopicHash * A);
  dm_iter_perm : ∀ A (m : gmap TopicHash A), dm_iter A m ≡ₚ map_to_list m;
  ds_iter : gset TopicHash → list TopicHash;
  ds_iter_perm : ∀ s, ds_iter s ≡ₚ elements s;
}.
Arguments dm_iter {_ A} _.

Section stores.
Context {P : Platform} {T : TopicTypes}.

(** ** mem_store::MemTopicStore *)
Record MemTopicStore := {
  populated : gmap TopicHash (string * gset PeerId);
  vacant : gmap TopicHash (gset PeerId);
  subscribed : gset TopicHash;
}.
Definition MemTopicStore_default : MemTopicStore :=
  {| populated := ∅; vacant := ∅; subscribed := ∅ |}.
Definition set_populated (v : gmap TopicHash (string * gset PeerId)) (s : MemTopicStore) : MemTopicStore :=
  {| populated := v; vacant := vacant s; subscribed := subscribed s |}.
Definition set_vacant (v : gmap TopicHash (gset PeerId)) (s : MemTopicStore) : MemTopicStore :=
  {| populated := populated s; vacant := v; subscribed := subscribed s |}.
Definition set_subscribed (v : gset TopicHash) (s : MemTopicStore) : MemTopicStore :=
  {| populated := populated s; vacant := vacant s; subscribed := v |}.

(** The atomic operations the methods use. *)
#[local] Abbreviation prog := (Concurrent.prog MemTopicStore).
Definition vacant_remove {A} (h : TopicHash) (k : option (gset PeerId) → prog A) : prog A :=
  Atomic (λ s, set_vacant (delete h (vacant s)) s) (λ s, k (vacant s !! h)).
Definition vacant_insert {A} (h : TopicHash) (l : gset PeerId) (k : prog A) : prog A :=
  Atomic (λ s, set_vacant (<[h := l]> (vacant s)) s) (λ _, k).
Definition vacant_get {A} (h : TopicHash) (k : option (gset PeerId) → prog A) : prog A :=
  Atomic id (λ s, k (vacant s !! h)).
Definition populated_insert {A} (h : TopicHash) (v : string * gset PeerId) (k : prog A) : prog A :=
  Atomic (λ s, set_populated (<[h := v]> (populated s)) s) (λ _, k).
Definition populated_get {A} (h : TopicHash) (k : option (string * gset PeerId) → prog A) : prog A :=
  Atomic id (λ s, k (populated s !! h)).
(** [get_mut], with what is done to the entry while it is locked. *)
Definition vacant_get_mut {A} (h : TopicHash) (f : gset PeerId → gset PeerId)
    (k : option (gset PeerId) → prog A) : prog A :=
  Atomic (λ s, set_vacant (alter f h (vacant s)) s) (λ s, k (vacant s !! h)).
Definition populated_get_mut {A} (h : TopicHash) (f : gset PeerId → gset PeerId)
    (k : option (string * gset PeerId) → prog A) : prog A :=
  Atomic (λ s, set_populated (alter (λ '(n, l), (n, f l)) h (populated s)) s) (λ s, k (populated s !! h)).
Definition subscribed_contains {A} (h : TopicHash) (k : bool → prog A) : prog A :=
  Atomic id (λ s, k (bool_decide (h ∈ subscribed s))).
Definition subscribed_insert {A} (h : TopicHash) (k : prog A) : prog A :=
  Atomic (λ s, set_subscribed ({[h]} ∪ subscribed s) s) (λ _, k).
Definition subscribed_remove {A} (h : TopicHash) (k : bool → prog A) : prog A :=
  Atomic (λ s, set_subscribed (subscribed s ∖ {[h]}) s) (λ s, k (bool_decide (h ∈ subscribed s))).

(** ** impl TopicStore for MemTopicStore *)
Definition insert_topic (topic_string : string) (topic_hash : TopicHash) : prog bool :=
  vacant_remove topic_hash (λ removed,
    match removed with
    | Some list => populated_insert topic_hash (topic_string, list) (Ret false)
    | None =>
        populated_get topic_hash (λ present,
          match present with
          | None => populated_insert topic_hash (topic_string, ∅) (Ret true)
          | Some _ => Ret false
          end)
    end).

Definition insert_hash (topic_hash : TopicHash) : prog bool :=
  vacant_get topic_hash (λ v,
    match v with
    | Some _ => Ret false
    | None =>
        populated_get topic_hash (λ p,
          match p with
          | Some _ => Ret false
          | None => vacant_insert topic_hash ∅ (Ret true)
          end)
    end).

Definition try_map (topic_hash : TopicHash) (s : MemTopicStore) : option string :=
  fst <$> populated s !! topic_hash.

Definition readable_topics (s : MemTopicStore) : list (TopicHash * string) :=
  (λ '(h, (name, _)), (h, name)) <$> dm_iter (populated s).

Definition hash_topics (s : MemTopicStore) : list TopicHash := fst <$> dm_iter (vacant s).

Definition participants (topic_hash : TopicHash) (s : MemTopicStore) : option (list PeerId) :=
  match populated s !! topic_hash with
  | Some (_, list) => Some (hs_iter list)
  | None => hs_iter <$> vacant s !! topic_hash
  end.

Definition join_topic (peer : PeerId) (topic_hash : TopicHash) : prog bool :=
  pbind (insert_hash topic_hash) (λ _,
    vacant_get_mut topic_hash (λ l, {[peer]} ∪ l) (λ v,
      match v with
      | Some list => Ret (bool_decide (peer ∉ list))
      | None =>
          populated_get_mut topic_hash (λ l, {[peer]} ∪ l) (λ p,
            match p with
            | Some (_, list) => Ret (bool_decide (peer ∉ list))
            | None => Unreachable
            end)
      end)).

Definition leave_topic (peer : PeerId) (topic_hash : TopicHash) : prog bool :=
  vacant_get_mut topic_hash (λ l, l ∖ {[peer]}) (λ v,
    match v with
    | Some list => Ret (bool_decide (peer ∈ list))
    | None =>
        populated_get_mut topic_hash (λ l, l ∖ {[peer]}) (λ p,
          match p with
          | Some (_, list) => Ret (bool_decide (peer ∈ list))
          | None => Ret false
          end)
    end).

Definition subscribe_topic (topic : TopicHash) (topic_string : option string) : prog bool :=
  pbind (match topic_string with
         | Some topic_string => insert_topic topic_string topic
         | None => insert_hash topic
         end) (λ _,
    subscribed_contains topic (λ present,
      if present : bool then Ret false else subscribed_insert topic (Ret true))).

Definition unsubscribe_topic (topic_hash : TopicHash) : prog bool :=
  subscribed_remove topic_hash (λ present, Ret present).

Definition subscribed_topics (s : MemTopicStore) : list TopicHash := ds_iter (subscribed s).

(** ** mem_store::MemMessageStore *)
Inductive MessageRecord := Remote (m : Message) | Local (bs : bytes).

Definition MemMessageStore : Type := gmap TopicHash (list MessageRecord).
Definition MemMessageStore_default : MemMessageStore := ∅.

Definition get_messages (topic_hash : TopicHash) (s : MemMessageStore) : option (list MessageRecord) :=
  s !! topic_hash.
Definition insert_message (topic : TopicHash) (message : MessageRecord) (s : MemMessageStore)
    : MemMessageStore :=
  match s !! topic with
  | Some l => <[topic := l ++ [message]]> s
  | None => <[topic := [message]]> s
  end.
Definition clear_message (topic : option TopicHash) (s : MemMessageStore) : MemMessageStore :=
  match topic with None => ∅ | Some topic => delete topic s end.
End stores.

(** ** Specification: topics with an optional name and participants *)
Section spec.
Context {P : Platform} {T : TopicTypes}.
#[local] Abbreviation prog := (Concurrent.prog MemTopicStore).

Inductive StoreOp :=
| InsertTopic (name : string) (h : TopicHash)
| InsertHash (h : TopicHash)
| JoinTopic (peer : PeerId) (h : TopicHash)
| LeaveTopic (peer : PeerId) (h : TopicHash)
| SubscribeTopic (h : TopicHash) (name : option string)
| UnsubscribeTopic (h : TopicHash).

Definition op_prog (op : StoreOp) : prog bool :=
  match op with
  | InsertTopic name h => insert_topic name h
  | InsertHash h => insert_hash h
  | JoinTopic peer h => join_topic peer h
  | LeaveTopic peer h => leave_topic peer h
  | SubscribeTopic h name => subscribe_topic h name
  | UnsubscribeTopic h => unsubscribe_topic h
  end.

Fixpoint run_ops (ops : list StoreOp) (s : MemTopicStore) : outcome (list bool * MemTopicStore) :=
  match ops with
  | [] => Return ([], s)
  | op :: ops =>
      ' (b, s) ← run (op_prog op) s;
      ' (bs, s) ← run_ops ops s;
      Return (b :: bs, s)
  end.

Record Topics := {
  known : gmap TopicHash (option string * gset PeerId);
  subs : gset TopicHash;
}.
Definition Topics_empty : Topics := {| known := ∅; subs := ∅ |}.
Definition set_known (h : TopicHash) (v : option string * gset PeerId) (t : Topics) : Topics :=
  {| known := <[h := v]> (known t); subs := subs t |}.

Definition spec_insert_topic (name : string) (h : TopicHash) (t : Topics) : bool * Topics :=
  match known t !! h with
  | None => (true, set_known h (Some name, ∅) t)
  | Some (None, ps) => (false, set_known h (Some name, ps) t)
  | Some (Some _, _) => (false, t)
  end.
Definition spec_insert_hash (h : TopicHash) (t : Topics) : bool * Topics :=
  match known t !! h with
  | None => (true, set_known h (None, ∅) t)
  | Some _ => (false, t)
  end.
Definition spec_join (peer : PeerId) (h : TopicHash) (t : Topics) : bool * Topics :=
  let '(name, ps) := default (None, ∅) (known t !! h) in
  (bool_decide (peer ∉ ps), set_known h (name, {[peer]} ∪ ps) t).
Definition spec_leave (peer : PeerId) (h : TopicHash) (t : Topics) : bool * Topics :=
  match known t !! h with
  | None => (false, t)
  | Some (name, ps) => (bool_decide (peer ∈ ps), set_known h (name, ps ∖ {[peer]}) t)
  end.
Definition spec_op (op : StoreOp) (t : Topics) : bool * Topics :=
  match op with
  | InsertTopic name h => spec_insert_topic name h t
  | InsertHash h => spec_insert_hash h t
  | JoinTopic peer h => spec_join peer h t
  | LeaveTopic peer h => spec_leave peer h t
  | SubscribeTopic h name =>
      let t := (match name with Some name => spec_insert_topic name h t | None => spec_insert_hash h t end).2 in
      (bool_decide (h ∉ subs t), {| known := known t; subs := {[h]} ∪ subs t |})
  | UnsubscribeTopic h => (bool_decide (h ∈ subs t), {| known := known t; subs := subs t ∖ {[h]} |})
  end.
Fixpoint spec_ops (ops : list StoreOp) (t : Topics) : list bool * Topics :=
  match ops with
  | [] => ([], t)
  | op :: ops => let '(b, t) := spec_op op t in let '(bs, t) := spec_ops ops t in (b :: bs, t)
  end.

(** What a store means, and its invariant: no topic is in both maps, and what
    is subscribed is known. *)
Definition topic_of (s : MemTopicStore) (h : TopicHash) : option (option string * gset PeerId) :=
  match populated s !! h with
  | Some (name, ps) => Some (Some name, ps)
  | None => (λ ps, (None, ps)) <$> vacant s !! h
  end.
Definition abs (s : MemTopicStore) : Topics := {|
  known := ((λ '(name, ps), (Some name, ps)) <$> populated s) ∪ ((λ ps, (None, ps)) <$> vacant s);
  subs := subscribed s;
|}.
Definition store_ok (s : MemTopicStore) : Prop :=
  (∀ h, populated s !! h = None ∨ vacant s !! h = None) ∧
  (∀ h, h ∈ subscribed s → is_Some (topic_of s h)).

Lemma known_abs s h : known (abs s) !! h = topic_of s h.
Proof.
  unfold abs, topic_of. simpl. rewrite lookup_union, !lookup_fmap.
  destruct (populated s !! h) as [[n l]|], (vacant s !! h); done.
Qed.

(** A specification state is the meaning of a store when it has its topics. *)
Lemma abs_intro s t : (∀ h, known t !! h = topic_of s h) → subs t = subscribed s → t = abs s.
Proof.
  intros Hk Hs. destruct t as [k sb]. unfold abs. f_equal; [|done].
  apply map_eq. intros h. rewrite (Hk h : k !! h = _). symmetry. apply (known_abs s h).
Qed.

(** A method refines an operation of the specification. *)
Definition refines (p : prog bool) (spec : Topics → bool * Topics) : Prop :=
  ∀ s, store_ok s → ∃ b s', run p s = Return (b, s') ∧ store_ok s' ∧ spec (abs s) = (b, abs s').

(** Changing one topic's entry, or the store by [f], keeps the invariant. *)
Lemma store_ok_update s s' h v :
  store_ok s → (∀ k, topic_of s' k = if decide (h = k) then Some v else topic_of s k) →
  (∀ k, h ≠ k → populated s' !! k = populated s !! k ∧ vacant s' !! k = vacant s !! k) →
  (populated s' !! h = None ∨ vacant s' !! h = None) →
  subscribed s' = subscribed s →
  store_ok s' ∧ set_known h v (abs s) = abs s'.
Proof.
  intros [Hd Hs] Ht Hk Hh Hsub. split; [split|].
  - intros k. destruct (decide (h = k)) as [->|Hne]; [done|]. destruct (Hk k Hne) as [-> ->]. apply Hd.
  - intros k. rewrite Hsub, Ht. intros Hin. case_decide; [by eexists|]. by apply Hs.
  - apply abs_intro; [|done]. intros k. unfold set_known. cbn [known]. rewrite Ht. at_key h k; [done|].
    by rewrite known_abs.
Qed.

Lemma refines_update s s' h v (b : bool) :
  store_ok s → (∀ k, topic_of s' k = if decide (h = k) then Some v else topic_of s k) →
  (∀ k, h ≠ k → populated s' !! k = populated s !! k ∧ vacant s' !! k = vacant s !! k) →
  (populated s' !! h = None ∨ vacant s' !! h = None) →
  subscribed s' = subscribed s →
  store_ok s' ∧ (b, set_known h v (abs s)) = (b, abs s').
Proof.
  intros. destruct (store_ok_update s s' h v) as [? ->]; done.
Qed.

Lemma insert_topic_refines name h : refines (insert_topic name h) (spec_insert_topic name h).
Proof.
  intros s Hok. unfold insert_topic, spec_insert_topic. rewrite known_abs. unfold topic_of. simpl.
  destruct (vacant s !! h) as [l|] eqn:Ev; simpl.
  - destruct (proj1 Hok h) as [Ep|]; [|congruence]. rewrite Ep. simpl.
    eexists _, _. split; [done|].
    apply (refines_update s _ h); [done| | | |done].
    + intros k. unfold topic_of. simpl. at_key h k; done.
    + intros k Hne. simpl. at_key h k; done.
    + right. simpl. by rewrite lookup_delete_eq.
  - destruct (populated s !! h) as [[n l]|] eqn:Ep; simpl; eexists _, _; (split; [done|]).
    + assert (set_vacant (delete h (vacant s)) s = s) as -> by
        (destruct s; unfold set_vacant; simpl in *; f_equal; by apply delete_id).
      done.
    + apply (refines_update s _ h); [done| | | |done].
      * intros k. unfold topic_of. simpl. at_key h k; done.
      * intros k Hne. simpl. at_key h k; done.
      * right. simpl. by rewrite lookup_delete_eq.
Qed.

Lemma insert_hash_refines h : refines (insert_hash h) (spec_insert_hash h).
Proof.
  intros s Hok. unfold insert_hash, spec_insert_hash. rewrite known_abs. unfold topic_of. simpl.
  destruct (vacant s !! h) as [l|] eqn:Ev; simpl.
  - destruct (proj1 Hok h) as [Ep|]; [|congruence]. rewrite Ep. simpl. by eexists _, _.
  - destruct (populated s !! h) as [[n l]|] eqn:Ep; simpl; eexists _, _; (split; [done|]); [done|].
    apply (refines_update s _ h); [done| | | |done].
    + intros k. unfold topic_of. simpl. at_key h k; by rewrite ?Ep.
    + intros k Hne. simpl. at_key h k; done.
    + by left.
Qed.

Lemma run_pbind {A B} (p : prog A) (f : A → prog B) s :
  run (pbind p f) s = ' (a, s') ← run p s; run (f a) s'.
Proof. revert s. induction p as [a| |upd k IH]; intros s; simpl; [done|done|]. apply IH. Qed.

(** Changing the participants of a known topic. *)
Lemma edit_topic_refines h (f : gset PeerId → gset PeerId) (r : gset PeerId → bool) (d : prog bool) s name ps :
  store_ok s → topic_of s h = Some (name, ps) →
  ∃ s', run (vacant_get_mut h f (λ v,
          match v with
          | Some l => Ret (r l)
          | None => populated_get_mut h f (λ p, match p with Some (_, l) => Ret (r l) | None => d end)
          end)) s = Return (r ps, s') ∧ store_ok s' ∧ set_known h (name, f ps) (abs s) = abs s'.
Proof.
  intros Hok Ht. pose proof (proj1 Hok h) as Hd. unfold topic_of in Ht. simpl.
  destruct (vacant s !! h) as [l|] eqn:Ev; simpl.
  - destruct Hd as [Ep|]; [|congruence]. rewrite Ep in Ht. injection Ht as <- <-.
    eexists. split; [done|]. apply (store_ok_update s _ h); [done| | | |done].
    + intros k. unfold topic_of. simpl. at_key h k; by rewrite ?Ep, ?Ev.
    + intros k Hne. simpl. at_key h k; done.
    + by left.
  - destruct (populated s !! h) as [[n l]|] eqn:Ep; [|done]. injection Ht as <- <-. simpl.
    eexists. split; [done|]. apply (store_ok_update s _ h); [done| | | |done].
    + intros k. unfold topic_of. simpl. at_key h k; by rewrite ?Ep, ?Ev.
    + intros k Hne. simpl. at_key h k; done.
    + right. simpl. by rewrite lookup_alter_eq, Ev.
Qed.

Lemma join_topic_refines peer h : refines (join_topic peer h) (spec_join peer h).
Proof.
  intros s Hok. unfold join_topic. rewrite run_pbind.
  destruct (insert_hash_refines h s Hok) as (b & s1 & -> & Hok1 & Hs). cbn [obind].
  unfold spec_insert_hash in Hs. unfold spec_join.
  destruct (known (abs s) !! h) as [[name ps]|] eqn:E; apply (f_equal snd) in Hs; cbn [snd] in Hs.
  - destruct (edit_topic_refines h (λ l, {[peer]} ∪ l) (λ l, bool_decide (peer ∉ l)) Unreachable s1 name ps Hok1)
      as (s2 & -> & Hok2 & Ha); [by rewrite <-known_abs, <-Hs|].
    eexists _, _. split; [done|]. split; [done|]. simpl. by rewrite Hs, Ha.
  - destruct (edit_topic_refines h (λ l, {[peer]} ∪ l) (λ l, bool_decide (peer ∉ l)) Unreachable s1 None ∅ Hok1)
      as (s2 & -> & Hok2 & Ha); [rewrite <-known_abs, <-Hs; simpl; apply lookup_insert_eq|].
    eexists _, _. split; [done|]. split; [done|]. simpl. rewrite <-Ha, <-Hs. unfold set_known. simpl.
    by rewrite insert_insert_eq.
Qed.

Lemma leave_topic_refines peer h : refines (leave_topic peer h) (spec_leave peer h).
Proof.
  intros s Hok. unfold spec_leave. destruct (known (abs s) !! h) as [[name ps]|] eqn:E; rewrite known_abs in E.
  - destruct (edit_topic_refines h (λ l, l ∖ {[peer]}) (λ l, bool_decide (peer ∈ l)) (Ret false) s name ps Hok E)
      as (s2 & Hr & Hok2 & Ha).
    exists (bool_decide (peer ∈ ps)), s2. split; [exact Hr|]. split; [done|]. by rewrite Ha.
  - unfold topic_of in E. unfold leave_topic. simpl.
    destruct (populated s !! h) as [[]|] eqn:Ep; [done|]. destruct (vacant s !! h) eqn:Ev; [done|]. simpl. rewrite Ep. simpl.
    eexists _, _. split; [done|].
    assert (set_populated (alter (λ '(n, l), (n, l ∖ {[peer]})) h (populated s))
              (set_vacant (alter (λ l, l ∖ {[peer]}) h (vacant s)) s) = s) as Hs.
    { destruct s as [p v sb]. unfold set_populated, set_vacant. simpl in *. f_equal.
      - apply map_eq. intros k. at_key h k; by rewrite ?Ep.
      - apply map_eq. intros k. at_key h k; by rewrite ?Ev. }
    by rewrite Hs.
Qed.

Lemma subscribe_topic_refines h name : refines (subscribe_topic h name) (spec_op (SubscribeTopic h name)).
Proof.
  intros s Hok. unfold subscribe_topic. rewrite run_pbind.
  set (p := match name with Some n => insert_topic n h | None => insert_hash h end).
  set (sp := match name with Some n => spec_insert_topic n h | None => spec_insert_hash h end).
  assert (refines p sp) as Hp by (subst p sp; destruct name; [apply insert_topic_refines|apply insert_hash_refines]).
  destruct (Hp s Hok) as (b & s1 & -> & Hok1 & Hs). cbn [obind].
  assert (∃ v, known (abs s1) !! h = Some v) as [v Hv].
  { subst sp. destruct name; unfold spec_insert_topic, spec_insert_hash in Hs;
      destruct (known (abs s) !! h) as [[[?|] ?]|] eqn:E; apply (f_equal snd) in Hs; cbn [snd] in Hs;
      rewrite <-Hs; eauto; eexists; apply lookup_insert_eq. }
  rewrite known_abs in Hv.
  assert (spec_op (SubscribeTopic h name) (abs s) =
    (bool_decide (h ∉ subscribed s1), {| known := known (abs s1); subs := {[h]} ∪ subscribed s1 |})) as ->.
  { simpl. subst sp. destruct name; by rewrite Hs. }
  destruct Hok1 as [Hd1 Hs1]. simpl. destruct (decide (h ∈ subscribed s1)) as [Hin|Hout].
  - rewrite (bool_decide_eq_true_2 (h ∈ _)) by done. rewrite (bool_decide_eq_false_2 (h ∉ _)) by auto.
    eexists _, _. split; [done|]. split; [done|]. f_equal. apply abs_intro; [apply known_abs|].
    simpl. set_solver.
  - rewrite (bool_decide_eq_false_2 (h ∈ _)) by done. rewrite (bool_decide_eq_true_2 (h ∉ _)) by auto.
    eexists _, _. split; [done|]. split; [split; [done|]|].
    + intros k. simpl. intros [->%elem_of_singleton|Hk]%elem_of_union; [by exists v|]. by apply (Hs1 k).
    + done.
Qed.

Lemma op_refines op : refines (op_prog op) (spec_op op).
Proof.
  destruct op; simpl; [apply insert_topic_refines|apply insert_hash_refines|apply join_topic_refines|
    apply leave_topic_refines|apply subscribe_topic_refines|].
  intros s [Hd Hs]. eexists _, _. split; [done|]. split; [split; [done|]|].
  - intros k. simpl. intros [Hk _]%elem_of_difference. by apply (Hs k).
  - done.
Qed.

Lemma run_ops_refine ops : ∀ s, store_ok s →
  ∃ bs s', run_ops ops s = Return (bs, s') ∧ store_ok s' ∧ spec_ops ops (abs s) = (bs, abs s').
Proof.
  induction ops as [|op ops IH]; intros s Hok; simpl; [by eexists _, _|].
  destruct (op_refines op s Hok) as (b & s1 & -> & Hok1 & ->). cbn [obind].
  destruct (IH s1 Hok1) as (bs & s2 & -> & Hok2 & ->). by eexists _, _.
Qed.

Lemma abs_default : store_ok MemTopicStore_default ∧ abs MemTopicStore_default = Topics_empty.
Proof.
  split; [split|].
  - intros h. by left.
  - intros h. simpl. set_solver.
  - symmetry. apply abs_intro; [|done]. intros h. unfold topic_of. simpl. by rewrite !lookup_empty.
Qed.

(** ** The queries of a store, in terms of what it means *)
Lemma queries_ok s : store_ok s →
  (∀ h, try_map h s = mbind fst (known (abs s) !! h)) ∧
  (∀ h, match known (abs s) !! h with
        | Some (_, ps) => ∃ l, participants h s = Some l ∧ l ≡ₚ elements ps
        | None => participants h s = None
        end) ∧
  (∀ h n, (h, n) ∈ readable_topics s ↔ ∃ ps, known (abs s) !! h = Some (Some n, ps)) ∧
  (∀ h, h ∈ hash_topics s ↔ ∃ ps, known (abs s) !! h = Some (None, ps)) ∧
  subscribed_topics s ≡ₚ elements (subs (abs s)).
Proof.
  intros [Hd Hs]. split_and!.
  - intros h. rewrite known_abs. unfold try_map, topic_of.
    destruct (populated s !! h) as [[n l]|]; [done|]. by destruct (vacant s !! h).
  - intros h. rewrite known_abs. unfold participants, topic_of.
    destruct (populated s !! h) as [[n l]|]; [eexists; split; [done|apply hs_iter_perm]|].
    destruct (vacant s !! h); simpl; [eexists; split; [done|apply hs_iter_perm]|done].
  - intros h n. rewrite known_abs. unfold readable_topics, topic_of. rewrite list_elem_of_fmap. split.
    + intros ([h' [n' l]] & [= -> ->] & Hin). rewrite dm_iter_perm, elem_of_map_to_list in Hin.
      rewrite Hin. by exists l.
    + intros [ps Hps]. exists (h, (n, ps)). split; [done|]. rewrite dm_iter_perm. apply elem_of_map_to_list.
      destruct (populated s !! h) as [[n' l]|]; [by injection Hps as -> ->|]. by destruct (vacant s !! h).
  - intros h. rewrite known_abs. unfold hash_topics, topic_of. rewrite list_elem_of_fmap. split.
    + intros ([h' l] & -> & Hin). rewrite dm_iter_perm, elem_of_map_to_list in Hin. simpl.
      destruct (Hd h') as [->|]; [|congruence]. rewrite Hin. by exists l.
    + intros [ps Hps]. exists (h, ps). split; [done|]. rewrite dm_iter_perm. apply elem_of_map_to_list.
      destruct (populated s !! h) as [[n' l]|]; [done|]. destruct (vacant s !! h); [by injection Hps as ->|done].
  - apply ds_iter_perm.
Qed.

(** C11: the topic store implements a map from topics to an optional name and
    the participants.  Any sequence of calls of its methods, each finished
    before the next, returns; its answers and the resulting contents are those
    of the specification, and every query is answered from them: names,
    participants, the named and the nameless topics, the subscriptions.  In
    particular no topic is ever listed as both named and nameless. *)
Theorem topic_store_refines ops :
  ∃ answers s, run_ops ops MemTopicStore_default = Return (answers, s) ∧
    let t := (spec_ops ops Topics_empty).2 in
    answers = (spec_ops ops Topics_empty).1 ∧
    (∀ h, try_map h s = mbind fst (known t !! h)) ∧
    (∀ h, match known t !! h with
          | Some (_, ps) => ∃ l, participants h s = Some l ∧ l ≡ₚ elements ps
          | None => participants h s = None
          end) ∧
    (∀ h n, (h, n) ∈ readable_topics s ↔ ∃ ps, known t !! h = Some (Some n, ps)) ∧
    (∀ h, h ∈ hash_topics s ↔ ∃ ps, known t !! h = Some (None, ps)) ∧
    subscribed_topics s ≡ₚ elements (subs t).
Proof.
  destruct abs_default as [Hok Ha].
  destruct (run_ops_refine ops _ Hok) as (bs & s & Hr & Hok' & Hs). rewrite Ha in Hs.
  exists bs, s. split; [done|]. rewrite Hs. cbn [fst snd]. split; [done|]. by apply queries_ok.
Qed.
End spec.

(** ** Two threads *)
Section threads.
Context {P : Platform} {T : TopicTypes}.

(** The methods of the topic store are not atomic.  While a topic known by
    its hash is being given its name there is a moment when it is in neither
    map: a peer that joins the topic just then makes [join_topic] reach
    [unreachable!()], and a second subscription leaves the topic in both maps,
    named and nameless at once. *)
Theorem naming_a_topic_races peer name h l s :
  vacant s !! h = Some l → populated s !! h = None → h ∈ subscribed s →
  (∃ q s', rtc interleave (join_topic peer h, insert_topic name h, s) (Unreachable, q, s')) ∧
  (∃ s', rtc interleave (subscribe_topic h (Some name), subscribe_topic h None, s)
           (Ret false, Ret false, s') ∧
         (h, name) ∈ readable_topics s' ∧ h ∈ hash_topics s').
Proof.
  intros Hv Hp Hs. split.
  - eexists _, _. unfold join_topic, insert_hash, insert_topic. cbn [pbind vacant_get].
    left_step. rewrite Hv. cbn [pbind].
    right_step. left_step. cbn. rewrite lookup_delete_eq.
    left_step. cbn. rewrite Hp. apply rtc_refl.
  - eexists. split.
    + unfold subscribe_topic, insert_hash, insert_topic. cbn [pbind vacant_get vacant_remove].
      left_step. rewrite Hv. cbn [pbind populated_insert].
      right_step. cbn. rewrite lookup_delete_eq.
      right_step. cbn. rewrite Hp.
      left_step. right_step. left_step. cbn. rewrite bool_decide_eq_true_2 by done.
      right_step. cbn. rewrite bool_decide_eq_true_2 by done. apply rtc_refl.
    + unfold readable_topics, hash_topics. rewrite !list_elem_of_fmap. split.
      * exists (h, (name, l)). split; [done|]. rewrite dm_iter_perm. apply elem_of_map_to_list. cbn.
        by rewrite lookup_insert_eq.
      * exists (h, ∅). split; [done|]. rewrite dm_iter_perm. apply elem_of_map_to_list. cbn.
        by rewrite lookup_insert_eq.
Qed.
End threads.

(** ** The test of the stores (module [mem_store::test]) *)
Section test.
Context {P : Platform} {T : TopicTypes}.

Definition is_nameless (h : TopicHash) (s : MemTopicStore) : bool :=
  bool_decide (populated s !! h = None) && bool_decide (is_Some (vacant s !! h)).
Definition is_named (h : TopicHash) (s : MemTopicStore) : bool :=
  bool_decide (is_Some (populated s !! h)) && bool_decide (vacant s !! h = None).

Definition fallthrough_and_promote_when_string_is_available : outcome () :=
  let store := MemTopicStore_default in
  let string := "this is a topic hash" in
  let hash := from_raw string in
  ' (b, store) ← run (insert_hash hash) store;
  _ ← assert b;
  _ ← assert (is_nameless hash store);
  ' (b, store) ← run (insert_topic string hash) store;
  _ ← assert (negb b);
  _ ← assert (is_named hash store);
  ' (b, store) ← run (insert_hash hash) store;
  _ ← assert (negb b);
  _ ← assert (is_named hash store);
  let string := "this is also a topic hash" in
  let hash := from_raw string in
  ' (b, store) ← run (subscribe_topic hash None) store;
  _ ← assert b;
  _ ← assert (is_nameless hash store);
  ' (b, store) ← run (subscribe_topic hash (Some string)) store;
  _ ← assert (negb b);
  _ ← assert (is_named hash store);
  ' (b, store) ← run (subscribe_topic hash None) store;
  _ ← assert (negb b);
  assert (is_named hash store).

Lemma promotion_by_insert name h s :
  vacant s !! h = None → populated s !! h = None →
  ∃ s1 s2, run (insert_hash h) s = Return (true, s1) ∧ is_nameless h s1 = true ∧
    run (insert_topic name h) s1 = Return (false, s2) ∧ is_named h s2 = true ∧
    run (insert_hash h) s2 = Return (false, s2) ∧ subscribed s2 = subscribed s ∧
    ∀ k, k ≠ h → vacant s2 !! k = vacant s !! k ∧ populated s2 !! k = populated s !! k.
Proof.
  intros Hv Hp. eexists _, _. unfold insert_hash, insert_topic, is_nameless, is_named. cbn.
  rewrite Hv. cbn. rewrite Hp. cbn. split; [reflexivity|]. cbn.
  rewrite Hp, !lookup_insert_eq. cbn. split; [done|]. split; [reflexivity|]. cbn.
  rewrite lookup_insert_eq, lookup_delete_eq. cbn. split; [done|]. rewrite lookup_insert_eq. split; [done|]. split; [done|].
  intros k Hk. by rewrite lookup_delete_ne, !lookup_insert_ne.
Qed.
Lemma promotion_by_subscribe name h s :
  vacant s !! h = None → populated s !! h = None → h ∉ subscribed s →
  ∃ s1 s2, run (subscribe_topic h None) s = Return (true, s1) ∧ is_nameless h s1 = true ∧
    run (subscribe_topic h (Some name)) s1 = Return (false, s2) ∧ is_named h s2 = true ∧
    run (subscribe_topic h None) s2 = Return (false, s2).
Proof.
  intros Hv Hp Hs. eexists _, _. unfold subscribe_topic, insert_hash, insert_topic, is_nameless, is_named. cbn.
  rewrite Hv. cbn. rewrite Hp. cbn. rewrite bool_decide_eq_false_2 by done. cbn. split; [reflexivity|]. cbn.
  rewrite Hp, !lookup_insert_eq. cbn. split; [done|].
  rewrite bool_decide_eq_true_2 by set_solver. cbn. split; [reflexivity|]. cbn.
  rewrite lookup_insert_eq, lookup_delete_eq. cbn. split; [done|].
  rewrite lookup_insert_eq. cbn. rewrite bool_decide_eq_true_2 by set_solver. done.
Qed.

(** The test passes. *)
Lemma promotion_test_passes : fallthrough_and_promote_when_string_is_available = Return ().
Proof.
  unfold fallthrough_and_promote_when_string_is_available.
  set (h1 := from_raw "this is a topic hash"). set (h2 := from_raw "this is also a topic hash").
  assert (Hne : h2 ≠ h1) by (intros E%(f_equal into_string); unfold h1, h2 in E; by rewrite !into_string_from_raw in E).
  destruct (promotion_by_insert "this is a topic hash" h1 MemTopicStore_default)
    as (s1 & s2 & -> & E1 & H2 & E2 & H3 & Hsub & Hother); [apply lookup_empty..|].
  cbn [obind assert]. rewrite E1. cbn [obind assert]. rewrite H2. cbn [obind assert negb]. rewrite E2.
  cbn [obind assert]. rewrite H3. cbn [obind assert negb]. rewrite E2. cbn [obind assert].
  destruct (Hother h2 Hne) as [Hv Hp].
  destruct (promotion_by_subscribe "this is also a topic hash" h2 s2) as (s3 & s4 & -> & E3 & H4 & E4 & H5).
  { rewrite Hv. apply lookup_empty. }
  { rewrite Hp. apply lookup_empty. }
  { rewrite Hsub. set_solver. }
  cbn [obind assert]. rewrite E3. cbn [obind assert]. rewrite H4. cbn [obind assert negb]. rewrite E4.
  cbn [obind assert]. rewrite H5. cbn [obind assert negb]. by rewrite E4.
Qed.
End test.

(** ** Witness *)
Section witnesses.
#[local] Existing Instance demo_platform.

Definition demo_types : TopicTypes := {|
  TopicHash := string;
  TopicHash_eq_dec := stdpp.strings.String.eq_dec;
  TopicHash_countable := stdpp.strings.String.countable;
  from_raw := λ s, s;
  into_string := λ t, t;
  from_raw_into_string := λ t, eq_refl;
  into_string_from_raw := λ s, eq_refl;
  Message := bytes;
  dm_iter := λ A m, map_to_list m;
  dm_iter_perm := λ A m, reflexivity _;
  ds_iter := λ s, elements s;
  ds_iter_perm := λ s, reflexivity _;
|}.
#[local] Existing Instance demo_types.

Definition demo_topic : @TopicHash demo_types := "topic".
Definition demo_store : MemTopicStore := {|
  populated := ∅;
  vacant := {[ demo_topic := ∅ ]};
  subscribed := {[ demo_topic ]};
|}.

Lemma naming_a_topic_races_witness :
  (∃ q s', rtc interleave (join_topic (7%N : @PeerId demo_platform) demo_topic,
                           insert_topic "name" demo_topic, demo_store) (Unreachable, q, s')) ∧
  (∃ s', rtc interleave (subscribe_topic demo_topic (Some "name"),
                         subscribe_topic demo_topic None, demo_store) (Ret false, Ret false, s') ∧
         (demo_topic, "name") ∈ readable_topics s' ∧ demo_topic ∈ hash_topics s').
Proof.
  apply (naming_a_topic_races (7%N : @PeerId demo_platform) "name" demo_topic ∅ demo_store).
  - reflexivity.
  - reflexivity.
  - apply elem_of_singleton_2. reflexivity.
Defined.
End witnesses.
End GossipTopics.
