(* ===== verification/Gossipsub.v ===== *)
(** * Gossipsub: configuration, requests and handle ([protocols/gossipsub.rs])

    Module [Gossipsub].  libp2p's behaviour is an interface ([GossipBehaviour])
    with the laws the handle relies on ([GossipLaws]); a call of the handle is
    the request it sends, what the swarm task does with it, the reply, and the
    update of the stores. *)

From stdpp Require Import base gmap sets list strings fin_maps.
From Stdlib Require Import Lia NArith QArith.
From S2P Require Import Prelude Std Core Concurrent GossipTopics.
Import Concurrent GossipTopics.

Module Gossipsub.

(** ** config *)
Module config.
Inductive ValidationMode := Strict | Permissive | Anonymous | None_.
Inductive Store := Volatile.

Record Config := {
  validation_mode : ValidationMode;
  max_transmit_size : N;
  history_length : N;
  history_gossip : N;
  mesh_n : N;
  mesh_n_low : N;
  mesh_n_high : N;
  retain_scores : N;
  gossip_lazy : N;
  gossip_factor : Q;
  heartbeat_interval_ms : N;
  duplicate_cache_time_ms : N;
  allow_self_origin : bool;
  gossip_retransimission : N;
  max_messages_per_rpc : option N;
  max_ihave_length : N;
  max_ihave_messages : N;
  store : Store;
}.

Definition Config_default : Config := {|
  validation_mode := Strict;
  max_transmit_size := 65536;
  history_length := 5;
  history_gossip := 3;
  mesh_n := 6;
  mesh_n_low := 5;
  mesh_n_high := 12;
  retain_scores := 4;
  gossip_lazy := 6;
  gossip_factor := 1 # 4;
  heartbeat_interval_ms := 1000;
  duplicate_cache_time_ms := 60 * 1000;
  allow_self_origin := false;
  gossip_retransimission := 3;
  max_messages_per_rpc := None;
  max_ihave_length := 5000;
  max_ihave_messages := 10;
  store := Volatile;
|}.

(** The conversion to libp2p's configuration: what its builder is told, in
    order.  [build] is libp2p's. *)
Inductive LValidationMode := LStrict | LPermissive | LAnonymous | LNone.
Definition from_ValidationMode (value : ValidationMode) : LValidationMode :=
  match value with Strict => LStrict | Permissive => LPermissive | Anonymous => LAnonymous | None_ => LNone end.
Inductive Setting :=
| SHistoryLength (n : N) | SHistoryGossip (n : N) | SMeshN (n : N) | SMeshNLow (n : N) | SMeshNHigh (n : N)
| SRetainScores (n : N) | SGossipLazy (n : N) | SGossipFactor (q : Q) | SHeartbeatInterval (ms : N)
| SDuplicateCacheTime (ms : N) | SAllowSelfOrigin (b : bool) | SGossipRetransimission (n : N)
| SMaxMessagesPerRpc (n : option N) | SMaxIhaveLength (n : N) | SMaxIhaveMessages (n : N)
| SValidationMode (m : LValidationMode) | SMaxTransmitSize (n : N).
Definition settings (value : Config) : list Setting :=
  [SHistoryLength (history_length value); SHistoryGossip (history_gossip value); SMeshN (mesh_n value);
   SMeshNLow (mesh_n_low value); SMeshNHigh (mesh_n_high value); SRetainScores (retain_scores value);
   SGossipLazy (gossip_lazy value); SGossipFactor (gossip_factor value);
   SHeartbeatInterval (heartbeat_interval_ms value); SDuplicateCacheTime (duplicate_cache_time_ms value);
   SAllowSelfOrigin (allow_self_origin value); SGossipRetransimission (gossip_retransimission value);
   SMaxMessagesPerRpc (max_messages_per_rpc value); SMaxIhaveLength (max_ihave_length value);
   SMaxIhaveMessages (max_ihave_messages value); SValidationMode (from_ValidationMode (validation_mode value));
   SMaxTransmitSize (max_transmit_size value)].
Class ConfigBuilder := { LConfig : Type; build : list Setting → result LConfig string }.
Definition into_config `{ConfigBuilder} (value : Config) : outcome LConfig :=
  match build (settings value) with Ok c => Return c | Err e => Panic ("Correct paramaters: " +:+ e) end.
End config.

(** ** HashType *)
Inductive HashType := Sha256 | Identity.

Definition HashType_from_str (s : string) : result HashType unit :=
  if decide (s = "sha256") then Ok Sha256
  else if decide (s = "identity") then Ok Identity
  else Err tt.

(** clap's [ValueEnum] names the variants in kebab case. *)
Definition HashType_fmt (t : HashType) : string :=
  match t with Sha256 => "sha256" | Identity => "identity" end.

Lemma HashType_roundtrip t : HashType_from_str (HashType_fmt t) = Ok t.
Proof. by destruct t. Qed.

(** ** libp2p's behaviour *)
Class GossipBehaviour {P : Platform} {T : TopicTypes} := {
  MessageId : Type;
  SubscriptionError : Type;
  PublishError : Type;
  sha256_hash : string → TopicHash;
  identity_hash : string → TopicHash;
  Behaviour : Type;
  subscribe : TopicHash → Behaviour → result bool SubscriptionError * Behaviour;
  unsubscribe : TopicHash → Behaviour → bool * Behaviour;
  publish : TopicHash → bytes → Behaviour → result MessageId PublishError * Behaviour;
  mesh_peers : TopicHash → Behaviour → list PeerId;
  all_peers : Behaviour → list (PeerId * list TopicHash);
  blacklist_peer : PeerId → Behaviour → Behaviour;
  remove_blacklisted_peer : PeerId → Behaviour → Behaviour;
}.

(** libp2p documents the answers of [subscribe] and [unsubscribe] by what was
    subscribed before; nothing else changes the subscriptions. *)
Class GossipLaws {P : Platform} {T : TopicTypes} (G : GossipBehaviour) := {
  topics : Behaviour → gset TopicHash;
  subscribe_law h b :
    match subscribe h b with
    | (Ok true, b') => (h ∉ topics b) ∧ topics b' = {[h]} ∪ topics b
    | (Ok false, b') => h ∈ topics b ∧ topics b' = topics b
    | (Err _, b') => topics b' = topics b
    end;
  unsubscribe_law h b :
    (unsubscribe h b).1 = bool_decide (h ∈ topics b) ∧
    topics (unsubscribe h b).2 = topics b ∖ {[h]};
  publish_law h m b : topics (publish h m b).2 = topics b;
  blacklist_law p b : topics (blacklist_peer p b) = topics b;
  unblacklist_law p b : topics (remove_blacklisted_peer p b) = topics b;
}.

Section gossipsub.
Context {P : Platform} {T : TopicTypes} {G : GossipBehaviour}.

Definition HashType_hash (t : HashType) (topic_string : string) : TopicHash :=
  match t with
  | Sha256 => sha256_hash topic_string
  | Identity => identity_hash topic_string
  end.

(** ** cli: the arguments that name a topic *)
Inductive SubUnsubCommand :=
| ByString (topic_string : string) (hash_type : HashType)
| ByHash (topic_hash : string).
Definition SubUnsubCommand_destruct (c : SubUnsubCommand) : TopicHash :=
  match c with
  | ByHash topic_hash => from_raw topic_hash
  | ByString topic_string hash_type => HashType_hash hash_type topic_string
  end.

Inductive PublishCommand :=
| PublishByString (topic_string : string) (hash_type : HashType) (message : string)
| PublishByHash (topic_hash : string) (message : string).
Definition PublishCommand_destruct (c : PublishCommand) : TopicHash * bytes :=
  match c with
  | PublishByHash topic_hash message => (from_raw topic_hash, String.list_byte_of_string message)
  | PublishByString topic_string hash_type message =>
      (HashType_hash hash_type topic_string, String.list_byte_of_string message)
  end.

(** ** serde_types::TopicHash *)
Record SerdeTopicHash := { hash : string }.
Definition serde_from_raw (hash : string) : SerdeTopicHash := {| hash := hash |}.
Definition serde_into_string (self : SerdeTopicHash) : string := hash self.
Definition serde_as_str (self : SerdeTopicHash) : string := hash self.
Definition serde_from_topic (value : TopicHash) : SerdeTopicHash := {| hash := into_string value |}.
Definition topic_from_serde (value : SerdeTopicHash) : TopicHash := from_raw (hash value).

Lemma serde_topic_roundtrip t s :
  topic_from_serde (serde_from_topic t) = t ∧ serde_from_topic (topic_from_serde s) = s.
Proof.
  unfold topic_from_serde, serde_from_topic. simpl. split; [apply from_raw_into_string|].
  destruct s. simpl. by rewrite into_string_from_raw.
Qed.

(** ** InEvent, map_in_event *)
Inductive InEvent :=
| ESubscribeTopic (topic : TopicHash) (callback : Callback)
| EUnsubscribeTopic (topic : TopicHash) (callback : Callback)
| PublishMessage (topic : TopicHash) (message : bytes) (callback : Callback)
| MeshPeersOfTopic (topic : TopicHash) (callback : Callback)
| AllPeersWithTopic (callback : Callback)
| BanPeer (peer : PeerId)
| UnbanPeer (peer : PeerId).

Inductive Answer :=
| AnsSubscribe (r : result bool SubscriptionError)
| AnsUnsubscribe (r : bool)
| AnsPublish (r : result MessageId PublishError)
| AnsPeers (l : list PeerId)
| AnsAllPeers (l : list (PeerId * list TopicHash)).

Definition map_in_event (behav : Behaviour) (ev : InEvent) : Behaviour * list (Sent Answer) :=
  match ev with
  | ESubscribeTopic topic_hash callback =>
      let '(result, behav) := subscribe topic_hash behav in
      (behav, handle_callback_sender (AnsSubscribe result) callback)
  | EUnsubscribeTopic topic_hash callback =>
      let '(result, behav) := unsubscribe topic_hash behav in
      (behav, handle_callback_sender (AnsUnsubscribe result) callback)
  | MeshPeersOfTopic topic callback =>
      (behav, handle_callback_sender (AnsPeers (mesh_peers topic behav)) callback)
  | AllPeersWithTopic callback =>
      (behav, handle_callback_sender (AnsAllPeers (all_peers behav)) callback)
  | PublishMessage topic message callback =>
      let '(result, behav) := publish topic message behav in
      (behav, handle_callback_sender (AnsPublish result) callback)
  | BanPeer peer => (blacklist_peer peer behav, [])
  | UnbanPeer peer => (remove_blacklisted_peer peer behav, [])
  end.

(** ** Handle

    The stores the handle shares, and the behaviour inside the swarm task. *)
Record World := {
  behav : Behaviour;
  topic_store : MemTopicStore;
  message_store : MemMessageStore;
}.
Definition Handle_new (config : config.Config) (b : Behaviour) : World :=
  match config.store config with
  | config.Volatile =>
      {| behav := b; topic_store := MemTopicStore_default; message_store := MemMessageStore_default |}
  end.
Definition set_behav (b : Behaviour) (w : World) : World :=
  {| behav := b; topic_store := topic_store w; message_store := message_store w |}.
Definition set_topics (t : MemTopicStore) (w : World) : World :=
  {| behav := behav w; topic_store := t; message_store := message_store w |}.
Definition set_messages (m : MemMessageStore) (w : World) : World :=
  {| behav := behav w; topic_store := topic_store w; message_store := m |}.

(** [send_swarm!] then [handle_callback!]: the swarm task handles the request;
    a reply that is never sent is a panic. *)
Definition call {A} (get : Answer → option A) (ev : Callback → InEvent) (tx : Callback) (w : World)
    : outcome (A * World) :=
  let '(b, sent) := map_in_event (behav w) (ev tx) in
  match sent with
  | [Answered _ answer] => a ← expect (get answer) CALLBACK_CLEAR; Return (a, set_behav b w)
  | _ => Panic CALLBACK_CLEAR
  end.
Definition get_subscribe (a : Answer) := match a with AnsSubscribe r => Some r | _ => None end.
Definition get_unsubscribe (a : Answer) := match a with AnsUnsubscribe r => Some r | _ => None end.
Definition get_publish (a : Answer) := match a with AnsPublish r => Some r | _ => None end.
Definition get_peers (a : Answer) := match a with AnsPeers l => Some l | _ => None end.
Definition get_all_peers (a : Answer) := match a with AnsAllPeers l => Some l | _ => None end.

Definition handle_subscribe_topic_hash (topic_hash : TopicHash) (tx : Callback) (w : World)
    : outcome (result bool SubscriptionError * World) :=
  ' (result, w) ← call get_subscribe (ESubscribeTopic topic_hash) tx w;
  match result with
  | Ok true =>
      ' (_, t) ← run (subscribe_topic topic_hash None) (topic_store w);
      Return (result, set_topics t w)
  | _ => Return (result, w)
  end.

Definition handle_subscribe_topic (H : string → TopicHash) (topic_string : string) (tx : Callback) (w : World)
    : outcome (result bool SubscriptionError * World) :=
  let topic_hash := H topic_string in
  ' (result, w) ← handle_subscribe_topic_hash topic_hash tx w;
  match result with
  | Ok true =>
      ' (_, t) ← run (subscribe_topic topic_hash (Some topic_string)) (topic_store w);
      Return (result, set_topics t w)
  | _ => Return (result, w)
  end.

Definition handle_unsubscribe_topic_hash (topic_hash : TopicHash) (tx : Callback) (w : World)
    : outcome (bool * World) :=
  ' (result, w) ← call get_unsubscribe (EUnsubscribeTopic topic_hash) tx w;
  if result : bool then
    ' (_, t) ← run (unsubscribe_topic topic_hash) (topic_store w);
    Return (result, set_topics t w)
  else Return (result, w).

Definition handle_unsubscribe_topic (H : string → TopicHash) (topic_string : string) (tx : Callback) (w : World)
    : outcome (bool * World) := handle_unsubscribe_topic_hash (H topic_string) tx w.

Definition publish_message (topic_hash : TopicHash) (message : bytes) (tx : Callback) (w : World)
    : outcome (result MessageId PublishError * World) :=
  ' (result, w) ← call get_publish (PublishMessage topic_hash message) tx w;
  match result with
  | Ok _ => Return (result, set_messages (insert_message topic_hash (Local message) (message_store w)) w)
  | Err _ => Return (result, w)
  end.

Definition ban_peer (peer : PeerId) (w : World) : World :=
  set_behav (map_in_event (behav w) (BanPeer peer)).1 w.
Definition unban_peer (peer : PeerId) (w : World) : World :=
  set_behav (map_in_event (behav w) (UnbanPeer peer)).1 w.
Definition mesh_peers_of_topic (topic : TopicHash) (tx : Callback) (w : World)
    : outcome (list PeerId * World) :=
  call get_peers (MeshPeersOfTopic topic) tx w.
Definition all_peers_with_topic (tx : Callback) (w : World)
    : outcome (list (PeerId * list TopicHash) * World) := call get_all_peers AllPeersWithTopic tx w.

(** ** Any sequence of calls, one after the other *)
Inductive HandleOp :=
| CallSubscribe (H : string → TopicHash) (topic_string : string)
| CallSubscribeHash (h : TopicHash)
| CallUnsubscribe (H : string → TopicHash) (topic_string : string)
| CallUnsubscribeHash (h : TopicHash)
| CallPublish (h : TopicHash) (message : bytes)
| CallBan (peer : PeerId)
| CallUnban (peer : PeerId)
| CallMeshPeers (h : TopicHash)
| CallAllPeers.

(** cli: the commands and the calls they make; a topic given by its text is
    subscribed by its hash. *)
Inductive Command :=
| CSubscribe (c : SubUnsubCommand)
| CUnsubscribe (c : SubUnsubCommand)
| CPublish (c : PublishCommand)
| CBan (peer : PeerId)
| CUnban (peer : PeerId)
| CAllPeersWithTopic
| CMeshPeersOfTopic (c : SubUnsubCommand).
Definition handle_gossipsub (command : Command) : HandleOp :=
  match command with
  | CSubscribe c => CallSubscribeHash (SubUnsubCommand_destruct c)
  | CUnsubscribe c => CallUnsubscribeHash (SubUnsubCommand_destruct c)
  | CPublish c => let '(topic_hash, message) := PublishCommand_destruct c in CallPublish topic_hash message
  | CBan peer => CallBan peer
  | CUnban peer => CallUnban peer
  | CAllPeersWithTopic => CallAllPeers
  | CMeshPeersOfTopic c => CallMeshPeers (SubUnsubCommand_destruct c)
  end.

Inductive Reply :=
| RSubscribe (r : result bool SubscriptionError)
| RUnsubscribe (r : bool)
| RPublish (r : result MessageId PublishError)
| RPeers (l : list PeerId)
| RAllPeers (l : list (PeerId * list TopicHash))
| RNone.

Definition with_reply {A} (f : A → Reply) (m : outcome (A * World)) : outcome (Reply * World) :=
  ' (a, w) ← m; Return (f a, w).
Definition exec (tx : Callback) (op : HandleOp) (w : World) : outcome (Reply * World) :=
  match op with
  | CallSubscribe H s => with_reply RSubscribe (handle_subscribe_topic H s tx w)
  | CallSubscribeHash h => with_reply RSubscribe (handle_subscribe_topic_hash h tx w)
  | CallUnsubscribe H s => with_reply RUnsubscribe (handle_unsubscribe_topic H s tx w)
  | CallUnsubscribeHash h => with_reply RUnsubscribe (handle_unsubscribe_topic_hash h tx w)
  | CallPublish h m => with_reply RPublish (publish_message h m tx w)
  | CallBan p => Return (RNone, ban_peer p w)
  | CallUnban p => Return (RNone, unban_peer p w)
  | CallMeshPeers h => with_reply RPeers (mesh_peers_of_topic h tx w)
  | CallAllPeers => with_reply RAllPeers (all_peers_with_topic tx w)
  end.
Fixpoint exec_all (ops : list (Callback * HandleOp)) (w : World) : outcome (list Reply * World) :=
  match ops with
  | [] => Return ([], w)
  | (tx, op) :: ops =>
      ' (r, w) ← exec tx op w;
      ' (rs, w) ← exec_all ops w;
      Return (r :: rs, w)
  end.

(** cli: a command with what it prints.  [printable] is the crate's text of a
    list, the other texts are libp2p's. *)
Class GossipTexts := {
  topic_display : TopicHash → string;
  message_id_display : MessageId → string;
  subscription_error_debug : SubscriptionError → string;
  publish_error_debug : PublishError → string;
  printable : list string → string;
}.
Inductive Printed := Line (s : string) | Table (rows : list (list string)).
Definition quoted `{!GossipTexts} (h : TopicHash) : string :=
  String (Ascii.ascii_of_nat 34) (topic_display h +:+ String (Ascii.ascii_of_nat 34) EmptyString).
Definition subscribe_text `{!GossipTexts} (h : TopicHash) (result : result bool SubscriptionError) : string :=
  match result with
  | Ok true => "Successfully subscribed to the topic " +:+ quoted h
  | Ok false => "Already subscribed to the topic " +:+ quoted h
  | Err e => "Unable to subscribe to the topic: " +:+ subscription_error_debug e
  end.
Definition unsubscribe_text `{!GossipTexts} (h : TopicHash) (result : bool) : string :=
  if result then "Successfully unsubscribed from the topic " +:+ quoted h
  else "Topic " +:+ quoted h +:+ " not subscribed previously.".
Definition publish_text `{!GossipTexts} (result : result MessageId PublishError) : string :=
  match result with
  | Ok v => "Message published with Id " +:+ message_id_display v
  | Err e => "Unable to publish to the topic: " +:+ publish_error_debug e
  end.
Definition handle_gossipsub_cli `{!GossipTexts} (command : Command) (tx : Callback) (w : World)
    : outcome (Printed * World) :=
  match command with
  | CSubscribe command =>
      let topic_hash := SubUnsubCommand_destruct command in
      ' (result, w) ← handle_subscribe_topic_hash topic_hash tx w;
      Return (Line (subscribe_text topic_hash result), w)
  | CUnsubscribe command =>
      let topic_hash := SubUnsubCommand_destruct command in
      ' (result, w) ← handle_unsubscribe_topic_hash topic_hash tx w;
      Return (Line (unsubscribe_text topic_hash result), w)
  | CPublish command =>
      let '(topic_hash, message) := PublishCommand_destruct command in
      ' (result, w) ← publish_message topic_hash message tx w;
      Return (Line (publish_text result), w)
  | CBan peer => Return (Line "OK", ban_peer peer w)
  | CUnban peer => Return (Line "OK", unban_peer peer w)
  | CAllPeersWithTopic =>
      ' (list, w) ← all_peers_with_topic tx w;
      Return (Table (["Peer ID"; "Subscribed Topics"] ::
        ((λ '(peer, topics), [peer_display peer; printable (topic_display <$> topics)]) <$> list)), w)
  | CMeshPeersOfTopic command =>
      let topic_hash := SubUnsubCommand_destruct command in
      ' (list, w) ← mesh_peers_of_topic topic_hash tx w;
      Return (Table [["Peers associated with topic" +:+ newline +:+ topic_display topic_hash;
                      printable (peer_display <$> list)]], w)
  end.

(** The messages published on a topic: the calls that were answered [Ok]. *)
Definition published_by (h : TopicHash) (op : HandleOp) (r : Reply) : list MessageRecord :=
  match op, r with
  | CallPublish h' m, RPublish (Ok _) => if decide (h' = h) then [Local m] else []
  | _, _ => []
  end.
Fixpoint published (h : TopicHash) (ops : list (Callback * HandleOp)) (rs : list Reply) : list MessageRecord :=
  match ops, rs with
  | (_, op) :: ops, r :: rs => published_by h op r ++ published h ops rs
  | _, _ => []
  end.
End gossipsub.

Section mirror.
Context {P : Platform} {T : TopicTypes} {G : GossipBehaviour} {L : GossipLaws G}.

Definition log (h : TopicHash) (w : World) : list MessageRecord := default [] (get_messages h (message_store w)).

(** The stores follow the behaviour. *)
Definition mirrors (w : World) : Prop :=
  store_ok (topic_store w) ∧ subscribed (topic_store w) = topics (behav w) ∧
  (∀ h, get_messages h (message_store w) ≠ Some []).

Lemma insert_message_log h h' m (s : MemMessageStore) :
  get_messages h (insert_message h' m s) =
    if decide (h' = h) then Some (default [] (get_messages h s) ++ [m]) else get_messages h s.
Proof.
  unfold get_messages, insert_message. destruct (decide (h' = h)) as [->|Hne].
  - destruct (s !! h) as [l|]; apply (lookup_insert_eq (M := gmap TopicHash)).
  - destruct (s !! h'); by apply (lookup_insert_ne (M := gmap TopicHash)).
Qed.

Lemma subscribe_store h name s : store_ok s →
  ∃ b s', run (subscribe_topic h name) s = Return (b, s') ∧ store_ok s' ∧ subscribed s' = {[h]} ∪ subscribed s.
Proof.
  intros Hok. destruct (op_refines (SubscribeTopic h name) s Hok) as (b & s' & Hr & Hok' & Hs).
  exists b, s'. split; [done|]. split; [done|].
  apply (f_equal (λ x, subs x.2)) in Hs. simpl in Hs. rewrite <-Hs.
  destruct name; simpl; unfold spec_insert_topic, spec_insert_hash;
    destruct (known (abs s) !! h) as [[[?|] ?]|]; done.
Qed.

Lemma unsubscribe_store h s : store_ok s →
  ∃ b s', run (unsubscribe_topic h) s = Return (b, s') ∧ store_ok s' ∧ subscribed s' = subscribed s ∖ {[h]}.
Proof.
  intros Hok. destruct (op_refines (UnsubscribeTopic h) s Hok) as (b & s' & Hr & Hok' & Hs).
  exists b, s'. split; [done|]. split; [done|]. by apply (f_equal (λ x, subs x.2)) in Hs.
Qed.

(** A request that is answered: the behaviour's answer and its new state. *)
Lemma call_subscribe h tx w r b : subscribe h (behav w) = (r, b) →
  call get_subscribe (ESubscribeTopic h) tx w = Return (r, set_behav b w).
Proof. intros E. unfold call. simpl. by rewrite E. Qed.
Lemma call_unsubscribe h tx w r b : unsubscribe h (behav w) = (r, b) →
  call get_unsubscribe (EUnsubscribeTopic h) tx w = Return (r, set_behav b w).
Proof. intros E. unfold call. simpl. by rewrite E. Qed.
Lemma call_publish h m tx w r b : publish h m (behav w) = (r, b) →
  call get_publish (PublishMessage h m) tx w = Return (r, set_behav b w).
Proof. intros E. unfold call. simpl. by rewrite E. Qed.

(** What one call guarantees. *)
Definition call_ok (op : HandleOp) (w : World) (m : outcome (Reply * World)) : Prop :=
  ∃ r w', m = Return (r, w') ∧ mirrors w' ∧ ∀ h, log h w' = log h w ++ published_by h op r.

Lemma subscribe_hash_ok h tx w : mirrors w →
  ∃ r w', handle_subscribe_topic_hash h tx w = Return (r, w') ∧ mirrors w' ∧
    message_store w' = message_store w ∧ (r = Ok true → h ∈ subscribed (topic_store w')).
Proof.
  intros (Hok & Hsub & Hm). unfold handle_subscribe_topic_hash.
  pose proof (subscribe_law h (behav w)) as Hlaw.
  destruct (subscribe h (behav w)) as [r b'] eqn:E. rewrite (call_subscribe h tx w r b' E). cbn [obind].
  destruct r as [[]|e].
  - destruct (subscribe_store h None (topic_store w) Hok) as (x & s' & Hr & Hok' & Hs).
    change (topic_store (set_behav b' w)) with (topic_store w). rewrite Hr. cbn [obind].
    destruct Hlaw as [_ Ht]. eexists _, _. split; [done|]. unfold mirrors; split_and!; simpl; try done.
    + by rewrite Hs, Hsub, Ht.
    + intros _. rewrite Hs. set_solver.
  - destruct Hlaw as [_ Ht]. eexists _, _. split; [done|]. unfold mirrors; split_and!; simpl; try done. by rewrite Ht.
  - eexists _, _. split; [done|]. unfold mirrors; split_and!; simpl; try done. by rewrite Hlaw.
Qed.

Lemma subscribe_ok H s tx w : mirrors w →
  ∃ r w', handle_subscribe_topic H s tx w = Return (r, w') ∧ mirrors w' ∧ message_store w' = message_store w.
Proof.
  intros Hw. unfold handle_subscribe_topic.
  destruct (subscribe_hash_ok (H s) tx w Hw) as (r & w1 & -> & (Hok & Hsub & Hm) & Hl & Hin). cbn [obind].
  destruct r as [[]|e]; try (by eexists _, _).
  destruct (subscribe_store (H s) (Some s) (topic_store w1) Hok) as (x & s' & -> & Hok' & Hs). cbn [obind].
  eexists _, _. split; [done|]. unfold mirrors; split_and!; simpl; try done.
  rewrite Hs, <-Hsub. specialize (Hin eq_refl). set_solver.
Qed.

Lemma unsubscribe_ok h tx w : mirrors w →
  ∃ r w', handle_unsubscribe_topic_hash h tx w = Return (r, w') ∧ mirrors w' ∧ message_store w' = message_store w.
Proof.
  intros (Hok & Hsub & Hm). unfold handle_unsubscribe_topic_hash.
  pose proof (unsubscribe_law h (behav w)) as [Hr Ht].
  destruct (unsubscribe h (behav w)) as [r b'] eqn:E. rewrite (call_unsubscribe h tx w r b' E). cbn [obind fst snd] in *.
  subst r. case_bool_decide as Hin.
  - destruct (unsubscribe_store h (topic_store w) Hok) as (x & s' & Hr & Hok' & Hs).
    change (topic_store (set_behav b' w)) with (topic_store w). rewrite Hr. cbn [obind].
    eexists _, _. split; [done|]. unfold mirrors; split_and!; simpl; try done. by rewrite Hs, Hsub, Ht.
  - eexists _, _. split; [done|]. unfold mirrors; split_and!; simpl; try done. rewrite Hsub, Ht. set_solver.
Qed.

(** A call that leaves the messages alone. *)
Lemma call_ok_silent {A} (f : A → Reply) op w m :
  (∀ h a, published_by h op (f a) = []) →
  (∃ a w', m = Return (a, w') ∧ mirrors w' ∧ message_store w' = message_store w) →
  call_ok op w (with_reply f m).
Proof.
  intros Hp (a & w' & -> & Hw & Hm). exists (f a), w'. split; [done|]. split; [done|].
  intros h. unfold log. by rewrite Hm, Hp, app_nil_r.
Qed.

Lemma exec_ok tx op w : mirrors w → call_ok op w (exec tx op w).
Proof.
  intros Hw. destruct op as [H s|h|H s|h|h m|p|p|h|]; cbn [exec].
  - apply call_ok_silent; [done|by apply subscribe_ok].
  - apply call_ok_silent; [done|].
    destruct (subscribe_hash_ok h tx w Hw) as (r & w' & ? & ? & ? & _). by exists r, w'.
  - apply call_ok_silent; [done|by apply unsubscribe_ok].
  - apply call_ok_silent; [done|by apply unsubscribe_ok].
  - destruct Hw as (Hok & Hsub & Hm). unfold publish_message, with_reply.
    pose proof (publish_law h m (behav w)) as Ht. destruct (publish h m (behav w)) as [r b'] eqn:E.
    rewrite (call_publish h m tx w r b' E). cbn [obind snd] in *. destruct r as [i|e]; cbn [obind].
    + eexists _, _. split; [done|]. split; [unfold mirrors; split_and!; simpl; [done|by rewrite Ht|]|].
      * intros k. rewrite insert_message_log. case_decide; [|done].
        by destruct (default [] (get_messages k (message_store w))).
      * intros k. unfold log. simpl. rewrite insert_message_log. case_decide; [done|by rewrite app_nil_r].
    + eexists _, _. split; [done|]. split; [unfold mirrors; split_and!; simpl; [done|by rewrite Ht|done]|].
      intros k. simpl. by rewrite app_nil_r.
  - eexists _, _. split; [done|]. destruct Hw as (Hok & Hsub & Hm). split.
    + unfold mirrors; split_and!; simpl; try done. by rewrite blacklist_law.
    + intros k. simpl. by rewrite app_nil_r.
  - eexists _, _. split; [done|]. destruct Hw as (Hok & Hsub & Hm). split.
    + unfold mirrors; split_and!; simpl; try done. by rewrite unblacklist_law.
    + intros k. simpl. by rewrite app_nil_r.
  - apply call_ok_silent; [done|]. eexists _, _. split; [reflexivity|]. by destruct w.
  - apply call_ok_silent; [done|]. eexists _, _. split; [reflexivity|]. by destruct w.
Qed.

(** A command changes what the call it stands for changes. *)
Lemma cli_runs_call `{!GossipTexts} command tx w p w' :
  handle_gossipsub_cli command tx w = Return (p, w') →
  ∃ r, exec tx (handle_gossipsub command) w = Return (r, w').
Proof.
  destruct command as [c|c|c|q|q| |c]; simpl; unfold with_reply;
    try (intros [= <- <-]; by eexists);
    [destruct (handle_subscribe_topic_hash _ _ _) as [[r ?]| |]
    |destruct (handle_unsubscribe_topic_hash _ _ _) as [[r ?]| |]
    |destruct (PublishCommand_destruct c); simpl; destruct (publish_message _ _ _ _) as [[r ?]| |]];
    simpl; try done; intros [= <- <-]; by eexists.
Qed.

(** What the shell says of a subscription is so, in the store and in libp2p. *)
Lemma printed_subscription_is_so `{!GossipTexts} c tx w : mirrors w →
  let h := SubUnsubCommand_destruct c in
  ∃ r w', handle_gossipsub_cli (CSubscribe c) tx w = Return (Line (subscribe_text h r), w') ∧
    match r with
    | Ok true => h ∉ topics (behav w) ∧ h ∈ subscribed_topics (topic_store w')
    | Ok false => h ∈ subscribed_topics (topic_store w) ∧ topic_store w' = topic_store w
    | Err _ => topic_store w' = topic_store w
    end.
Proof.
  intros Hw h. destruct (subscribe_hash_ok h tx w Hw) as (r & w' & Hr & Hw' & Hm & Hin).
  exists r, w'. split; [by simpl; fold h; rewrite Hr|].
  destruct Hw as (_ & Hsub & _). unfold handle_subscribe_topic_hash in Hr.
  pose proof (subscribe_law h (behav w)) as Hlaw.
  destruct (subscribe h (behav w)) as [r0 b'] eqn:E. rewrite (call_subscribe h tx w r0 b' E) in Hr. cbn [obind] in Hr.
  destruct r0 as [[]|e].
  - destruct (run _ _) as [[x t]| |]; simplify_eq/=. split; [apply Hlaw|].
    unfold subscribed_topics. rewrite ds_iter_perm, elem_of_elements. by apply Hin.
  - simplify_eq/=. split; [|done]. unfold subscribed_topics. rewrite ds_iter_perm, elem_of_elements, Hsub. apply Hlaw.
  - by simplify_eq/=.
Qed.

Lemma exec_all_ok ops : ∀ w, mirrors w →
  ∃ rs w', exec_all ops w = Return (rs, w') ∧ mirrors w' ∧ ∀ h, log h w' = log h w ++ published h ops rs.
Proof.
  induction ops as [|[tx op] ops IH]; intros w Hw; simpl.
  - eexists _, _. split; [done|]. split; [done|]. intros h. by rewrite app_nil_r.
  - destruct (exec_ok tx op w Hw) as (r & w1 & -> & Hw1 & Hl1). cbn [obind].
    destruct (IH w1 Hw1) as (rs & w2 & -> & Hw2 & Hl2). cbn [obind].
    eexists _, _. split; [done|]. split; [done|]. intros h. simpl. by rewrite Hl2, Hl1, app_assoc.
Qed.

(** C21: the stores of the gossipsub handle follow the behaviour.  Whatever is
    called, one call after the other, every call returns; afterwards the topics
    the store lists as subscribed are exactly the behaviour's subscriptions, and
    the messages stored for a topic are those whose publication was answered
    [Ok], in order; a topic without any has no entry. *)
Theorem stores_follow_behaviour config b ops :
  topics b = ∅ →
  ∃ replies w, exec_all ops (Handle_new config b) = Return (replies, w) ∧
    (∀ h, h ∈ subscribed_topics (topic_store w) ↔ h ∈ topics (behav w)) ∧
    ∀ h, get_messages h (message_store w) =
           match published h ops replies with [] => None | l => Some l end.
Proof.
  intros Hb. assert (mirrors (Handle_new config b)) as Hw.
  { unfold Handle_new. destruct (config.store config). split; [apply abs_default|].
    split; [simpl; by rewrite Hb|]. intros h. assert (get_messages h MemMessageStore_default = None) as E by apply (lookup_empty (M := gmap TopicHash)). simpl. by rewrite E. }
  destruct (exec_all_ok ops _ Hw) as (rs & w & -> & (Hok & Hsub & Hm) & Hl).
  exists rs, w. split; [done|]. split.
  - intros h. unfold subscribed_topics. by rewrite ds_iter_perm, elem_of_elements, Hsub.
  - intros h. specialize (Hl h). specialize (Hm h). unfold log in Hl.
    assert (get_messages h (message_store (Handle_new config b)) = None) as E.
    { unfold Handle_new. destruct (config.store config). apply (lookup_empty (M := gmap TopicHash)). }
    rewrite E in Hl. simpl in Hl. rewrite <-Hl. destruct (get_messages h (message_store w)) as [[]|]; done.
Qed.
End mirror.

(** ** Witness: a behaviour that is its set of subscriptions *)
Section witnesses.
#[local] Existing Instance demo_platform.
#[local] Existing Instance demo_types.

Definition demo_gossip : GossipBehaviour := {|
  MessageId := N;
  SubscriptionError := unit;
  PublishError := unit;
  sha256_hash := λ s, ("h" ++ s : string);
  identity_hash := λ s, s;
  Behaviour := gset TopicHash;
  subscribe := λ h b, if decide (h ∈ b) then (Ok false, b) else (Ok true, {[h]} ∪ b);
  unsubscribe := λ h b, (bool_decide (h ∈ b), b ∖ {[h]});
  publish := λ h m b, (if decide (h ∈ b) then Ok 1%N else Err tt, b);
  mesh_peers := λ _ _, [];
  all_peers := λ _, [];
  blacklist_peer := λ _ b, b;
  remove_blacklisted_peer := λ _ b, b;
|}.
#[local] Existing Instance demo_gossip.

Definition demo_laws : GossipLaws demo_gossip.
Proof.
  refine {| topics := λ b : @Behaviour demo_platform demo_types demo_gossip, b |}; simpl; try done.
  intros h b. case_decide; by simpl.
Defined.
#[local] Existing Instance demo_laws.

Definition demo_cb : Callback := {| cb_id := 1; cb_open := true |}.
Definition demo_ops : list (Callback * HandleOp) :=
  [(demo_cb, CallSubscribe sha256_hash "news"); (demo_cb, CallPublish (sha256_hash "news") [Byte.x01]);
   (demo_cb, CallPublish (identity_hash "other") []); (demo_cb, CallUnsubscribeHash (sha256_hash "news"))].

Lemma stores_follow_behaviour_witness :
  ∃ replies w, exec_all demo_ops (Handle_new config.Config_default (∅ : gset TopicHash)) = Return (replies, w) ∧
    (∀ h, h ∈ subscribed_topics (topic_store w) ↔ h ∈ topics (behav w)) ∧
    ∀ h, get_messages h (message_store w) =
           match published h demo_ops replies with [] => None | l => Some l end.
Proof. exact (stores_follow_behaviour config.Config_default (∅ : gset TopicHash) demo_ops eq_refl). Defined.
End witnesses.
End Gossipsub.
