(* ===== verification/MessagingHandle.v ===== *)
(** * The handle of the messaging protocol ([net/p2p/protocols/messaging.rs])

    Module [MessagingHandle]: the message store and its methods, the task of the
    handle that fills it from the swarm's events, the calls of the handle and
    the command line.  The behaviour and its events are those of [Messaging]. *)

From stdpp Require Import base gmap sets list strings fin_maps relations.
From Stdlib Require Import Lia NArith.
From S2P Require Import Prelude Std Core Concurrent Calls Messaging.
Import Concurrent Calls.

Module MessagingHandle.
Section store.
Context {P : Platform}.

(** ** store::MemMessageStore *)
#[local] Abbreviation Message := Messaging.Message.
#[local] Abbreviation MemMessageStore := (gmap PeerId (list Message)).
Definition MemMessageStore_default : MemMessageStore := ∅.

(** The atomic operations of the map: [get], [insert], [get_mut] with what is
    done to the entry while it is locked. *)
Definition store_get {A} (p : PeerId) (k : option (list Message) → prog MemMessageStore A)
    : prog MemMessageStore A := Atomic id (λ s : MemMessageStore, k (s !! p)).
Definition store_insert {A} (p : PeerId) (l : list Message) (k : prog MemMessageStore A)
    : prog MemMessageStore A := Atomic (insert p l) (λ _, k).
Definition store_get_mut {A} (p : PeerId) (f : list Message → list Message) (k : prog MemMessageStore A)
    : prog MemMessageStore A := Atomic (alter f p) (λ _, k).

Definition insert_empty_record (peer_id : PeerId) : prog MemMessageStore () :=
  store_get peer_id (λ entry,
    match entry with
    | None => store_insert peer_id [] (Ret ())
    | Some _ => Ret ()
    end).

Definition push_message (remote : PeerId) (message : Message) : prog MemMessageStore () :=
  store_get remote (λ entry,
    match entry with
    | None => store_insert remote [message] (Ret ())
    | Some _ => store_get_mut remote (λ l, l ++ [message]) (Ret ())
    end).

Definition get_messages (peer_id : PeerId) (s : MemMessageStore) : option (list Message) :=
  s !! peer_id.
(** The order in which a [DashMap] is iterated is its own. *)
Definition list_all_peers (iter : MemMessageStore → list (PeerId * list Message)) (s : MemMessageStore)
    : list PeerId := fst <$> iter s.
Definition clear_message (peer_id : option PeerId) (s : MemMessageStore) : MemMessageStore :=
  match peer_id with
  | None => fmap (λ _, []) s
  | Some p => alter (λ _, []) p s
  end.
Definition empty_store (s : MemMessageStore) : MemMessageStore := ∅.

(** ** Handle *)

(** The task spawned by [Handle::new]: every incoming message is pushed under
    the sender the event names. *)
Definition on_event (ev : Messaging.OutEvent) (s : MemMessageStore) : MemMessageStore :=
  match ev with
  | Messaging.IncomingMessage from msg =>
      match run (push_message from msg) s with Return (_, s') => s' | _ => s end
  | _ => s
  end.

(** ** Any sequence of finished calls *)
Inductive StoreOp :=
| Event (ev : Messaging.OutEvent)
| InsertEmpty (p : PeerId)
| Push (p : PeerId) (m : Message)
| Clear (p : option PeerId)
| Empty.

Definition exec (op : StoreOp) (s : MemMessageStore) : outcome MemMessageStore :=
  match op with
  | Event ev => Return (on_event ev s)
  | InsertEmpty p => ' (_, s) ← run (insert_empty_record p) s; Return s
  | Push p m => ' (_, s) ← run (push_message p m) s; Return s
  | Clear p => Return (clear_message p s)
  | Empty => Return (empty_store s)
  end.
Definition exec_all (ops : list StoreOp) (s : MemMessageStore) : outcome MemMessageStore :=
  fold_outcome exec ops s.

(** ** Specification: the history of the calls *)
Definition after_last (f : StoreOp → bool) (ops : list StoreOp) : list StoreOp :=
  foldl (λ acc op, if f op then [] else acc ++ [op]) [] ops.
Definition pushed_by (p : PeerId) (op : StoreOp) : list Message :=
  match op with
  | Event (Messaging.IncomingMessage from m) => if decide (from = p) then [m] else []
  | Push q m => if decide (q = p) then [m] else []
  | _ => []
  end.
Definition makes_record (p : PeerId) (op : StoreOp) : bool :=
  match op with
  | InsertEmpty q => bool_decide (q = p)
  | _ => negb (Nat.eqb (length (pushed_by p op)) 0)
  end.
Definition is_empty (op : StoreOp) : bool := match op with Empty => true | _ => false end.
Definition clears (p : PeerId) (op : StoreOp) : bool :=
  match op with
  | Clear None | Empty => true
  | Clear (Some q) => bool_decide (q = p)
  | _ => false
  end.
Definition history (p : PeerId) (ops : list StoreOp) : option (list Message) :=
  if existsb (makes_record p) (after_last is_empty ops)
  then Some (concat (pushed_by p <$> after_last (clears p) ops))
  else None.

Lemma after_last_snoc f ops op :
  after_last f (ops ++ [op]) = if f op then [] else after_last f ops ++ [op].
Proof. unfold after_last. by rewrite foldl_app. Qed.

Lemma run_push p m (s : MemMessageStore) :
  run (push_message p m) s = Return ((), <[p := default [] (get_messages p s) ++ [m]]> s).
Proof.
  unfold push_message, get_messages. cbn. destruct (s !! p) as [l|] eqn:E; [|done].
  cbn. do 2 f_equal. apply map_eq. intros q.
  destruct (decide (q = p)) as [->|].
  - rewrite lookup_insert_eq, lookup_alter_eq, E. done.
  - rewrite lookup_insert_ne, lookup_alter_ne by done. done.
Qed.

Lemma run_insert_empty p (s : MemMessageStore) :
  run (insert_empty_record p) s = Return ((), <[p := default [] (get_messages p s)]> s).
Proof.
  unfold insert_empty_record, get_messages. cbn. destruct (s !! p) as [l|] eqn:E; [|done].
  cbn. do 2 f_equal. symmetry. by apply insert_id.
Qed.

Lemma clear_suffix p ops : ∃ l, after_last is_empty ops = l ++ after_last (clears p) ops.
Proof.
  induction ops as [|op ops [l IH]] using rev_ind; [by exists []|]. rewrite !after_last_snoc.
  destruct (is_empty op) eqn:He, (clears p op) eqn:Hc.
  - by exists [].
  - by destruct op.
  - rewrite IH, <-app_assoc. exists (l ++ after_last (clears p) ops ++ [op]). by rewrite app_nil_r.
  - rewrite IH. exists l. by rewrite app_assoc.
Qed.

Lemma no_record p ops : existsb (makes_record p) ops = false → concat (pushed_by p <$> ops) = [].
Proof.
  induction ops as [|op ops IH]; [done|]. cbn. rewrite orb_false_iff. intros [Hr Hn].
  rewrite IH by done. rewrite app_nil_r. destruct (pushed_by p op) as [|m l] eqn:E; [done|].
  unfold makes_record in Hr. rewrite E in Hr. destruct op; try done.
Qed.

(** One more call, in the history. *)
Lemma history_pushed p ops : existsb (makes_record p) (after_last is_empty ops) = false →
  concat (pushed_by p <$> after_last (clears p) ops) = [].
Proof.
  intros H. apply no_record. destruct (clear_suffix p ops) as [l Hl].
  rewrite Hl, existsb_app, orb_false_iff in H. apply H.
Qed.

Lemma history_default p ops : default [] (history p ops) = concat (pushed_by p <$> after_last (clears p) ops).
Proof. unfold history. destruct existsb eqn:E; [done|]. simpl. by rewrite history_pushed. Qed.

Lemma history_clear p ops op : clears p op = true → is_empty op = false → makes_record p op = false →
  history p (ops ++ [op]) = (λ _, []) <$> history p ops.
Proof.
  intros Hc He Hm. unfold history. rewrite !after_last_snoc, Hc, He, existsb_app. simpl.
  rewrite Hm, !orb_false_r. by destruct existsb.
Qed.

Lemma history_push p ops op : clears p op = false → is_empty op = false →
  history p (ops ++ [op]) =
  if makes_record p op then Some (default [] (history p ops) ++ pushed_by p op) else history p ops.
Proof.
  intros Hc He. unfold history at 1. rewrite !after_last_snoc, Hc, He, existsb_app, fmap_app, concat_app.
  simpl. rewrite orb_false_r, app_nil_r, <-history_default.
  destruct (makes_record p op) eqn:Hm.
  - by rewrite orb_true_r.
  - rewrite orb_false_r. assert (concat (pushed_by p <$> [op]) = []) as Hn
      by (apply no_record; simpl; by rewrite Hm).
    simpl in Hn. rewrite app_nil_r in Hn. rewrite Hn, app_nil_r. unfold history. by destruct existsb.
Qed.

Lemma history_empty p ops : history p (ops ++ [Empty]) = None.
Proof. unfold history. by rewrite after_last_snoc. Qed.

Definition agrees (s : MemMessageStore) (ops : list StoreOp) : Prop := ∀ p, get_messages p s = history p ops.

Lemma push_agrees s ops op q l : agrees s ops →
  (∀ p, clears p op = false) → is_empty op = false →
  (∀ p, makes_record p op = bool_decide (q = p)) →
  (∀ p, q = p → pushed_by p op = l) →
  agrees (<[q := default [] (get_messages q s) ++ l]> s) (ops ++ [op]).
Proof.
  intros Ha Hc He Hm Hp p. rewrite history_push, Hm by done. unfold get_messages.
  case_bool_decide as Hq; [subst q|].
  - rewrite lookup_insert_eq, Hp by done. f_equal. f_equal. f_equal. apply Ha.
  - rewrite lookup_insert_ne by done. apply Ha.
Qed.

Lemma exec_agrees s ops op : agrees s ops → ∃ s', exec op s = Return s' ∧ agrees s' (ops ++ [op]).
Proof.
  intros Ha. destruct op as [ev|q|q m|[q|]|].
  - eexists; split; [done|]. unfold on_event. destruct ev as [from msg| | | |];
      try (intros p; rewrite history_push by done; apply Ha).
    rewrite run_push. apply push_agrees; try done; intros p; simpl.
    + unfold makes_record. simpl. destruct decide; case_bool_decide; done.
    + intros ->. by rewrite decide_True.
  - cbn [exec]. rewrite run_insert_empty. eexists; split; [done|].
    rewrite <-(app_nil_r (default _ _)). apply push_agrees; done.
  - cbn [exec]. rewrite run_push. eexists; split; [done|]. apply push_agrees; try done; intros p; simpl.
    + unfold makes_record. simpl. destruct decide; case_bool_decide; done.
    + intros ->. by rewrite decide_True.
  - eexists; split; [done|]. intros p. unfold get_messages, clear_message. destruct (decide (q = p)) as [->|].
    + rewrite lookup_alter_eq, history_clear; [f_equal; apply Ha|simpl; by case_bool_decide|done|done].
    + rewrite lookup_alter_ne, history_push; [apply Ha|simpl; by case_bool_decide|done|done].
  - eexists; split; [done|]. intros p. unfold get_messages, clear_message.
    rewrite lookup_fmap, history_clear; [f_equal; apply Ha|done..].
  - eexists; split; [done|]. intros p. rewrite history_empty. apply lookup_empty.
Qed.

Lemma exec_all_agrees ops : ∃ s, exec_all ops MemMessageStore_default = Return s ∧ agrees s ops.
Proof.
  induction ops as [|op ops (s & Hs & Ha)] using rev_ind.
  { exists ∅. split; [done|]. intros p. apply lookup_empty. }
  destruct (exec_agrees s ops op Ha) as (s' & He & Ha'). exists s'. split; [|done].
  unfold exec_all in *. rewrite fold_outcome_app, Hs. cbn. by rewrite He.
Qed.

(** C22: what the message store holds.  After any sequence of finished calls and
    received events, a peer has a record exactly if one was made since the store
    was last emptied, and its messages are those pushed under it since its
    record was last cleared, in order; calls about other peers do not matter. *)
Theorem message_store_is_history iter ops :
  (∀ s : MemMessageStore, iter s ≡ₚ map_to_list s) →
  ∃ s, exec_all ops MemMessageStore_default = Return s ∧
    (∀ p, get_messages p s = history p ops) ∧
    (∀ p, p ∈ list_all_peers iter s ↔ is_Some (history p ops)).
Proof.
  intros Hi. destruct (exec_all_agrees ops) as (s & Hs & Ha). exists s. split; [done|]. split; [done|].
  intros p. rewrite <-(Ha p). unfold list_all_peers, get_messages. rewrite list_elem_of_fmap. split.
  - intros ([q l] & -> & Hq). rewrite Hi in Hq. apply elem_of_map_to_list in Hq. by eexists.
  - intros [l Hl]. exists (p, l). split; [done|]. rewrite Hi. by apply elem_of_map_to_list.
Qed.

(** [push_message] is not atomic: when two messages are pushed under a peer
    that has no record yet, one of them can be lost. *)
Theorem first_messages_race p m1 m2 s : get_messages p s = None →
  ∃ s', rtc interleave (push_message p m1, push_message p m2, s) (Ret (), Ret (), s') ∧
    get_messages p s' = Some [m2].
Proof.
  unfold get_messages. intros Hn. eexists. split.
  - unfold push_message, store_get, store_insert. left_step. rewrite Hn. right_step. cbn [id]. rewrite Hn.
    left_step. right_step. apply rtc_refl.
  - apply lookup_insert_eq.
Qed.
End store.

(** ** Calls of the handle *)
Section handle.
Context {P : Platform}.

(** [Handle]: the shared store, the counter of [next_id], and the behaviour the
    requests go to. *)
Record Handle := {
  behav : Messaging.Behaviour;
  message_store : gmap PeerId (list Messaging.Message);
  counter : N;
}.
Definition Handle_new (config : Messaging.Config) : Handle :=
  {| behav := Messaging.new config; message_store := MemMessageStore_default; counter := 0 |}.
(** [fetch_add] wraps around. *)
Definition next_id (h : Handle) : N * Handle :=
  (counter h, {| behav := behav h; message_store := message_store h;
                 counter := ((counter h + 1) mod U64)%N |}).

(** A request waits in the queue of the behaviour; its answer comes later. *)
Definition serve (ev : Messaging.InEvent) (s : Messaging.Behaviour)
    : outcome (Messaging.Behaviour * list (Sent Messaging.Answer)) :=
  Return (Messaging.push_event ev s, []).
Definition get_send (a : Messaging.Answer) : option (result N Messaging.SendError) :=
  match a with Messaging.AnsSend r => Some r | _ => None end.
Definition get_connected (a : Messaging.Answer) : option (list PeerId) :=
  match a with Messaging.AnsListConnected l => Some l | _ => None end.
Definition send_message (alive : bool) (peer_id : PeerId) (message : Messaging.Message) (tx : Callback)
    (s : Messaging.Behaviour) : outcome (Poll (result N Messaging.SendError) * Messaging.Behaviour) :=
  handler_method serve (Messaging.SendMessage peer_id message) get_send alive tx s.
Definition list_connected (alive : bool) (tx : Callback) (s : Messaging.Behaviour)
    : outcome (Poll (list PeerId) * Messaging.Behaviour) :=
  handler_method serve Messaging.ListConnected get_connected alive tx s.

(** The swarm polls the behaviour until it is pending. *)
Fixpoint drain (fuel : nat) (s : Messaging.Behaviour)
    : list (ToSwarm Messaging.OutEvent Messaging.FromBehaviourEvent) * Messaging.Behaviour *
      list (Sent Messaging.Answer) :=
  match fuel with
  | O => ([], s, [])
  | S fuel =>
      match Messaging.poll s with
      | (Ready ev, s, sent) =>
          let '(evs, s, sent') := drain fuel s in (ev :: evs, s, sent ++ sent')
      | (Pending, s, sent) => ([], s, sent)
      end
  end.

(** What becomes of a request: an answer, or a message for a handler. *)
Definition posted (peers : gset PeerId) (ev : Messaging.InEvent)
    : option (ToSwarm Messaging.OutEvent Messaging.FromBehaviourEvent) :=
  match ev with
  | Messaging.SendMessage peer m cb =>
      if decide (peer ∈ peers) then Some (NotifyHandler peer Any (Messaging.PostMessage m cb)) else None
  | Messaging.ListConnected _ => None
  end.

Lemma drain_spec fuel : ∀ s evs s' sent,
  Messaging.out_events s = [] → length (Messaging.in_events s) < fuel →
  drain fuel s = (evs, s', sent) →
  sent = omap (Messaging.immediate (Messaging.connected_peers s)) (Messaging.in_events s) ∧
  evs = omap (posted (Messaging.connected_peers s)) (Messaging.in_events s) ∧
  Messaging.in_events s' = [].
Proof.
  induction fuel as [|fuel IH]; intros s evs s' sent Ho Hf; [lia|]. simpl.
  destruct (Messaging.poll s) as [[r s1] sent1] eqn:Ep.
  unfold Messaging.poll, Messaging.handle_in_events in Ep. rewrite Ho in Ep.
  destruct (Messaging.take_in_events _ _) as [[r1 rest] sent2] eqn:Et.
  destruct (Messaging.take_in_events_spec _ _ _ _ _ Et) as (dn & Hd & H).
  assert (Hsent : ∀ d (l : list (Sent Messaging.Answer)),
    Some <$> l = Messaging.immediate (Messaging.connected_peers s) <$> d →
    l = omap (Messaging.immediate (Messaging.connected_peers s)) d ∧
    omap (posted (Messaging.connected_peers s)) d = []).
  { clear. induction d as [|ev d IHd]; intros [|a l] E; try done. cbn in E.
    injection E as E1 E2. destruct (IHd l E2) as [-> Hp]. cbn. rewrite <-E1. split; [done|].
    destruct ev as [peer m cb|cb]; cbn in E1 |- *; [|done]. by destruct decide. }
  destruct (Hsent dn sent2 Hd) as [-> Hp].
  destruct H as [(-> & -> & Hin)|(peer & m & cb & Hin & -> & Hev)]; injection Ep as <- <- <-.
  - intros [= <- <- <-]. rewrite Hin, Hp. by split_and!.
  - destruct (drain fuel _) as [[evs1 s2] sent3] eqn:Ed. intros [= <- <- <-].
    assert (length rest < fuel) as Hlt by (rewrite Hev, length_app in Hf; cbn in Hf; lia).
    apply IH in Ed as (-> & -> & Hn); [|done|done].
    cbn [Messaging.connected_peers Messaging.in_events]. rewrite Hev, !omap_app. cbn.
    rewrite decide_True, Hp by done. split_and!; try done. by destruct decide.
Qed.

(** Every request to the messaging behaviour is settled.  Whatever waits in
    the queue, once the swarm has polled the behaviour until it is pending the
    queue is empty, each message to a connected peer is with the handler of that
    peer, in order, and every other caller has its answer: the one of a
    caller whose callback no earlier request uses is what its method returns. *)
Theorem calls_are_settled s pre ev post cb a :
  Messaging.out_events s = [] → Messaging.in_events s = pre ++ ev :: post →
  Messaging.immediate (Messaging.connected_peers s) ev = Some (Answered cb a) →
  Forall (λ r, cb_id (sent_callback r) ≠ cb_id cb)
    (omap (Messaging.immediate (Messaging.connected_peers s)) pre) →
  ∃ s' sent, drain (S (length (Messaging.in_events s))) s =
      (omap (posted (Messaging.connected_peers s)) (Messaging.in_events s), s', sent) ∧
    Messaging.in_events s' = [] ∧ handle_callback (cb_id cb) sent = Return (Ready a).
Proof.
  intros Ho Hin Himm Hf. destruct (drain _ s) as [[evs s'] sent] eqn:Ed.
  apply drain_spec in Ed as (-> & -> & Hn); [|done|lia].
  eexists s', _. split; [done|]. split; [done|]. rewrite Hin, omap_app. cbn. rewrite Himm.
  rewrite handle_callback_skip by done. apply handle_callback_head.
Qed.

(** Anyone writes anyone's history.  A message that arrives from [peer] is
    filed under the sender its text claims: the behaviour reports it, and the
    handle's task pushes it, under [from m], whoever [peer] is. *)
Theorem claimed_sender_is_stored {json : Messaging.Json Messaging.Message} {laws : Messaging.JsonLaws Messaging.Message}
    peer m bs s store :
  Messaging.as_bytes m = Return bs → Messaging.out_events s = [] →
  ∃ s', Messaging.poll (Messaging.on_connection_handler_event peer (Messaging.HIncomingMessage bs) s) =
      (Ready (GenerateEvent (Messaging.IncomingMessage (Messaging.from m) m)), s', []) ∧
    get_messages (Messaging.from m)
      (listener_task on_event [Got (Messaging.IncomingMessage (Messaging.from m) m)] store) =
    Some (default [] (get_messages (Messaging.from m) store) ++ [m]).
Proof.
  intros Hb Ho. unfold Messaging.as_bytes in Hb. destruct (Messaging.to_vec m) as [bs'|] eqn:E; [|done].
  injection Hb as <-. unfold Messaging.on_connection_handler_event, Messaging.on_handler_event.
  rewrite (Messaging.json_roundtrip _ _ E). unfold Messaging.poll, Messaging.push_out. cbn [Messaging.out_events].
  rewrite Ho. eexists. split; [done|]. cbn [listener_task]. unfold on_event.
  rewrite run_push. unfold get_messages. apply lookup_insert_eq.
Qed.

(** ** cli *)
Inductive Command := CSend (peer_id : PeerId) (message : string).

(** [handle_messaging]: the call it makes, and the line it prints. *)
Definition cli_message (now_ms : N) (ident : PeerId) (command : Command) : PeerId * Messaging.Message :=
  match command with
  | CSend peer_id message => (peer_id, Messaging.Message_new now_ms ident peer_id message)
  end.
Definition cli_output (result : result N Messaging.SendError) : string :=
  match result with
  | Ok _ => "Message has been successfully sent"
  | Err e => "Error occurred when sending message: " +:+ Messaging.SendError_fmt e
  end.
(** [setup]: the line printed for an event. *)
Definition cli_incoming (ev : Messaging.OutEvent) : option string :=
  match ev with
  | Messaging.IncomingMessage from msg =>
      Some ("Incoming message from " +:+ peer_display from +:+ ": " +:+ Messaging.msg msg)
  | _ => None
  end.
End handle.

(** ** Witnesses *)
Section witnesses.
#[local] Existing Instance demo_platform.
#[local] Abbreviation peer n := (n%N : @PeerId demo_platform).

Definition demo_ops : list StoreOp :=
  [Event (Messaging.IncomingMessage (peer 5) Messaging.demo_message); InsertEmpty (peer 6);
   Push (peer 5) Messaging.demo_message; Clear (Some (peer 5)); Push (peer 5) Messaging.demo_message].

Lemma message_store_is_history_witness :
  ∃ s, exec_all demo_ops MemMessageStore_default = Return s ∧
    (∀ p, get_messages p s = history p demo_ops) ∧
    (∀ p, p ∈ list_all_peers map_to_list s ↔ is_Some (history p demo_ops)).
Proof. exact (message_store_is_history map_to_list demo_ops (λ s, reflexivity _)). Defined.

Lemma first_messages_race_witness :
  ∃ s', rtc interleave (push_message (peer 5) Messaging.demo_message, push_message (peer 5) Messaging.demo_message,
                        MemMessageStore_default) (Ret (), Ret (), s') ∧
    get_messages (peer 5) s' = Some [Messaging.demo_message].
Proof. exact (first_messages_race (peer 5) Messaging.demo_message Messaging.demo_message MemMessageStore_default eq_refl). Defined.

Lemma calls_are_settled_witness :
  ∃ s' sent, drain 5 Messaging.demo_state =
      (omap (posted (Messaging.connected_peers Messaging.demo_state)) (Messaging.in_events Messaging.demo_state),
       s', sent) ∧
    Messaging.in_events s' = [] ∧
    handle_callback 3 sent = Return (Ready (Messaging.AnsListConnected [peer 6])).
Proof.
  exact (calls_are_settled Messaging.demo_state
    [Messaging.SendMessage (peer 8) Messaging.demo_message (Messaging.demo_cb 0);
     Messaging.ListConnected (Messaging.demo_cb 1);
     Messaging.SendMessage (peer 6) Messaging.demo_message (Messaging.demo_cb 2)]
    (Messaging.ListConnected (Messaging.demo_cb 3)) [] (Messaging.demo_cb 3) _ eq_refl eq_refl
    ltac:(vm_compute; reflexivity) ltac:(vm_compute; repeat constructor; discriminate)).
Defined.

#[local] Existing Instance Messaging.demo_json.
#[local] Existing Instance Messaging.demo_json_laws.
Lemma claimed_sender_is_stored_witness :
  ∃ bs s', Messaging.as_bytes Messaging.demo_message = Return bs ∧
    Messaging.poll (Messaging.on_connection_handler_event (peer 9) (Messaging.HIncomingMessage bs)
                      (Messaging.new Messaging.Config_default)) =
      (Ready (GenerateEvent (Messaging.IncomingMessage (peer 5) Messaging.demo_message)), s', []) ∧
    get_messages (peer 5)
      (listener_task on_event [Got (Messaging.IncomingMessage (peer 5) Messaging.demo_message)]
         MemMessageStore_default) = Some [Messaging.demo_message].
Proof.
  assert (∃ bs, Messaging.as_bytes Messaging.demo_message = Return bs) as [bs Hb] by (eexists; reflexivity).
  destruct (claimed_sender_is_stored (peer 9) Messaging.demo_message bs (Messaging.new Messaging.Config_default)
              MemMessageStore_default Hb eq_refl) as (s' & H1 & H2).
  exists bs, s'. split; [exact Hb|]. split; [exact H1|exact H2].
Defined.
End witnesses.
End MessagingHandle.
