(* ===== verification/MessagingTransfer.v ===== *)
(** * Messages, end to end

    Module [MessagingTransfer]: the messaging protocol of two connected nodes.
    A message waits in the sender's behaviour, is posted to its handler, crosses
    the stream as a frame of the universal protocol, and comes out of the
    receiver's handler, behaviour and handle's store, while the checksum lets the
    sender's handler answer the caller.  The steps are those of [Messaging],
    [UniversalProtocol] and [MessagingHandle]. *)

From stdpp Require Import base gmap sets list strings fin_maps.
From Stdlib Require Import Lia NArith.
From S2P Require Import Prelude Std Core Stream Wire BlobProtocol UniversalProtocol Concurrent Messaging MessagingHandle.
Import Wire.

Module MessagingTransfer.
Section transfer.
Context {P : Platform} {json : Messaging.Json Messaging.Message} {laws : Messaging.JsonLaws Messaging.Message}.
Context {St : Type} {io : AsyncIO St} {rel : ReliableIO St} {net : Network St}.
Abbreviation Message := Messaging.Message.
Abbreviation Answer := Messaging.Answer.

(** ** One message *)
Record Sender := { s_behav : Messaging.Behaviour; s_handler : Messaging.Handler St }.
Record Receiver := {
  r_behav : Messaging.Behaviour; r_handler : Messaging.Handler St; r_store : gmap PeerId (list Message) }.

(** The poll contexts: nothing has happened yet, the receiver's future is
    done, the sender's first future is done. *)
Definition cx_waiting (timer : PollCx) : Messaging.HandlerCx St :=
  {| Messaging.cx_timer := timer; Messaging.cx_recv := λ _, Pending; Messaging.cx_send := λ _ _, Pending |}.
Definition cx_received (timer : PollCx) (r : Poll (result (St * bytes) IoError)) : Messaging.HandlerCx St :=
  {| Messaging.cx_timer := timer; Messaging.cx_recv := λ _, r; Messaging.cx_send := λ _ _, Pending |}.
Definition cx_sent (timer : PollCx) (r : Poll (result (St * N) IoError)) : Messaging.HandlerCx St :=
  {| Messaging.cx_timer := timer; Messaging.cx_recv := λ _, Pending;
     Messaging.cx_send := λ k _, match k with O => r | S _ => Pending end |}.

(** The sender's behaviour is polled, what it has for its handler is posted,
    and the handler starts to send. *)
Definition post (timer : PollCx) (a : Sender) : outcome (Sender * list (Sent Answer)) :=
  let '(r, behav, sent) := Messaging.poll (s_behav a) in
  match r with
  | Ready (NotifyHandler _ _ ev) =>
      ' (_, handler, sent') ←
        Messaging.handler_poll (cx_waiting timer) (Messaging.on_behaviour_event ev (s_handler a));
      Return ({| s_behav := behav; s_handler := handler |}, sent ++ sent')
  | _ => Return ({| s_behav := behav; s_handler := s_handler a |}, sent)
  end.

(** The receiver's handler is polled, its behaviour is told and polled, the
    swarm's event reaches the task of the handle. *)
Definition receive (timer : PollCx) (from : PeerId) (r : Poll (result (St * bytes) IoError)) (b : Receiver)
    : outcome Receiver :=
  ' (p, handler, _) ← Messaging.handler_poll (cx_received timer r) (r_handler b);
  match p with
  | Ready (NotifyBehaviour ev) =>
      let '(p, behav, _) := Messaging.poll (Messaging.on_connection_handler_event from ev (r_behav b)) in
      Return {| r_behav := behav; r_handler := handler;
                r_store := match p with
                           | Ready (GenerateEvent ev) => MessagingHandle.on_event ev (r_store b)
                           | _ => r_store b
                           end |}
  | _ => Return {| r_behav := r_behav b; r_handler := handler; r_store := r_store b |}
  end.

(** A message goes its way, if both handlers are at work on their streams. *)
Definition deliver (timer : PollCx) (fuel : nat) (from : PeerId) (elapsed : N) (a : Sender) (b : Receiver)
    : outcome (Sender * Receiver * list (Sent Answer)) :=
  ' (a, sent) ← post timer a;
  match Messaging.outbound (s_handler a), Messaging.inbound (r_handler b) with
  | Some (Messaging.Busy task _ _), Some fut =>
      ' (ra, rb) ← universal_exchange fuel elapsed (Messaging.st_buf task) (Messaging.st_stream task) (Messaging.rt_stream fut);
      b ← receive timer from rb b;
      ' (_, handler, sent') ← Messaging.handler_poll (cx_sent timer ra) (s_handler a);
      Return ({| s_behav := s_behav a; s_handler := handler |}, b, sent ++ sent')
  | _, _ => Return (a, b, sent)
  end.

(** Messages one after the other, each with its time. *)
Fixpoint deliver_all (timer : PollCx) (fuel : nat) (from : PeerId) (times : list N) (a : Sender) (b : Receiver)
    : outcome (Sender * Receiver * list (Sent Answer)) :=
  match times with
  | [] => Return (a, b, [])
  | elapsed :: times =>
      ' (a, b, sent) ← deliver timer fuel from elapsed a b;
      ' (a, b, sent') ← deliver_all timer fuel from times a b;
      Return (a, b, sent ++ sent')
  end.

(** ** Sides that are ready for the next message *)

(** What waits are messages for [peer]; the handler has its stream. *)
Definition sender_ready (peer : PeerId) (timeout : N) (waiting : list (Message * Callback)) (a : Sender) : Prop :=
  Messaging.out_events (s_behav a) = [] ∧
  Messaging.in_events (s_behav a) = (λ '(m, cb), Messaging.SendMessage peer m cb) <$> waiting ∧
  peer ∈ Messaging.connected_peers (s_behav a) ∧
  Messaging.state (s_handler a) = Messaging.Active ∧
  Messaging.pending_in_events (s_handler a) = [] ∧ Messaging.pending_out_events (s_handler a) = [] ∧
  Messaging.timeout (s_handler a) = timeout ∧
  ∃ s, Messaging.outbound (s_handler a) = Some (Messaging.Idle s) ∧ quiet s.

Definition receiver_ready (b : Receiver) : Prop :=
  Messaging.out_events (r_behav b) = [] ∧ Messaging.state (r_handler b) = Messaging.Active ∧
  ∃ s, Messaging.inbound (r_handler b) = Some {| Messaging.rt_stream := s |} ∧ quiet s.

(** A sender in the middle of a message. *)
Definition sending (peer : PeerId) (timeout : N) (waiting : list (Message * Callback)) (task : Messaging.SendTask)
    (cb : Callback) (a : Sender) : Prop :=
  ∃ d, Messaging.outbound (s_handler a) = Some (Messaging.Busy task cb d) ∧
    sender_ready peer timeout waiting
      {| s_behav := s_behav a;
         s_handler := Messaging.set_outbound (Some (Messaging.Idle (Messaging.st_stream task))) (s_handler a) |}.

Definition starts (timer : PollCx) (timeout : N) : Prop := (delay_poll timer (delay_new timeout)).1 = false.

(** Nothing arrives at the handler of the sender. *)
Lemma no_inbound cx (h : Messaging.Handler St) :
  Messaging.cx_recv cx = (λ _, Pending) → Messaging.poll_inbound cx h = (None, h).
Proof. intros E. unfold Messaging.poll_inbound. rewrite E. by destruct (Messaging.inbound h). Qed.

Lemma post_ok timer peer timeout m cb waiting bs a :
  sender_ready peer timeout ((m, cb) :: waiting) a → starts timer timeout → Messaging.as_bytes m = Return bs →
  ∃ a' s, post timer a = Return (a', []) ∧
    sending peer timeout waiting {| Messaging.st_stream := s; Messaging.st_buf := bs |} cb a'.
Proof.
  destruct a as [[cfg outs ins peers] [st pin pout T inb outb]]. unfold sender_ready, starts. simpl.
  intros (-> & -> & Hp & -> & -> & -> & -> & s & -> & Hq) Htimer Hb.
  unfold post, Messaging.poll, Messaging.handle_in_events. simpl. rewrite decide_True by done.
  unfold Messaging.handler_poll, Messaging.poll_active. rewrite no_inbound by done. simpl.
  unfold Messaging.poll_outbound. cbn -[Messaging.as_bytes]. rewrite Hb. cbn.
  destruct (delay_poll timer (delay_new timeout)) as [ready d]. simpl in Htimer. subst ready. cbn.
  eexists _, s. split; [done|]. exists d. split; [done|]. unfold sender_ready. simpl. split_and!; try done.
  by exists s.
Qed.

Lemma receive_ok timer from b m bs s :
  Messaging.out_events (r_behav b) = [] → Messaging.state (r_handler b) = Messaging.Active →
  is_Some (Messaging.inbound (r_handler b)) → quiet s → Messaging.as_bytes m = Return bs →
  ∃ b', receive timer from (Ready (Ok (s, bs))) b = Return b' ∧ receiver_ready b' ∧
    r_store b' = MessagingHandle.on_event (Messaging.IncomingMessage (Messaging.from m) m) (r_store b).
Proof.
  destruct b as [[cfg outs ins peers] [st pin pout T inb outb] store]. simpl. intros -> -> [fut ->] Hq Hb.
  unfold receive, Messaging.handler_poll, Messaging.poll_active, Messaging.poll_inbound. simpl.
  unfold Messaging.as_bytes in Hb. destruct (Messaging.to_vec m) as [bs'|] eqn:E; [|done]. injection Hb as <-.
  rewrite (Messaging.json_roundtrip _ _ E). simpl. eexists. split; [done|].
  split; [|done]. split; [done|]. split; [done|]. by exists s.
Qed.

Lemma sent_ok timer peer timeout waiting task cb a s rtt :
  sending peer timeout waiting task cb a → quiet s →
  ∃ p h, Messaging.handler_poll (cx_sent timer (Ready (Ok (s, rtt)))) (s_handler a) =
      Return (p, h, [Answered cb (Messaging.AnsSend (Ok rtt))]) ∧
    sender_ready peer timeout waiting {| s_behav := s_behav a; s_handler := h |}.
Proof.
  destruct a as [[cfg outs ins peers] [st pin pout T inb outb]]. unfold sending, sender_ready. simpl.
  intros (d & -> & -> & -> & Hp & -> & -> & -> & -> & _) Hq.
  unfold Messaging.handler_poll, Messaging.poll_active. rewrite no_inbound by done. simpl.
  eexists _, _. split; [done|]. simpl. split_and!; try done. by exists s.
Qed.

(** A message that can be sent in one frame. *)
Definition fits (fuel : nat) (m : Message) : Prop :=
  ∃ bs, Messaging.as_bytes m = Return bs ∧ bs ≠ [] ∧ (N.of_nat (length bs) ≤ UNIVERSAL_MAX)%N ∧ length bs < fuel.

Lemma deliver_ok timer fuel from peer timeout elapsed m cb waiting a b :
  sender_ready peer timeout ((m, cb) :: waiting) a → receiver_ready b → starts timer timeout → fits fuel m →
  ∃ a' b', deliver timer fuel from elapsed a b =
      Return (a', b', [Answered cb (Messaging.AnsSend (Ok elapsed))]) ∧
    sender_ready peer timeout waiting a' ∧ receiver_ready b' ∧
    r_store b' = MessagingHandle.on_event (Messaging.IncomingMessage (Messaging.from m) m) (r_store b).
Proof.
  intros Ha (Hbo & Hbs & sb & Hbi & Hqb) Htimer (bs & Hbytes & Hne & Hmax & Hfuel). unfold deliver.
  destruct (post_ok timer peer timeout m cb waiting bs a Ha Htimer Hbytes) as (a1 & sa & -> & Hsend). cbn [obind].
  pose proof Hsend as (d & -> & (_ & _ & _ & _ & _ & _ & _ & s' & Hs' & Hqa)). simpl in Hs'. injection Hs' as <-.
  rewrite Hbi. cbn [Messaging.st_buf Messaging.st_stream Messaging.rt_stream].
  destruct (universal_exchange_ok fuel elapsed bs sa sb Hqa Hqb Hne Hmax Hfuel) as (sa' & sb' & -> & Hqa' & Hqb').
  cbn [obind].
  destruct (receive_ok timer from b m bs sb') as (b' & -> & Hb' & Hstore); [done..|by rewrite Hbi|done|done|].
  cbn [obind].
  destruct (sent_ok timer peer timeout waiting _ cb a1 sa' elapsed Hsend Hqa') as (p & h & -> & Ha').
  cbn [obind]. eexists _, _. by split_and!.
Qed.

(** Messages arrive, in order and once.  A sender whose behaviour has
    messages for a connected peer queued, its handler idle on its stream, and a
    receiver that listens: once each message was delivered, whatever the sizes of
    the streams' reads and writes, each caller was answered with the time of its
    own message, in order, nothing is queued any more, the receiver's store has
    exactly the new messages behind what it held, each under the sender it names
    and in the order they were sent, and both sides are ready for more. *)
Theorem messages_arrive_in_order timer fuel from peer timeout jobs a b :
  sender_ready peer timeout (fst <$> jobs) a → receiver_ready b → starts timer timeout →
  Forall (λ job, fits fuel job.1.1) jobs →
  ∃ a' b', deliver_all timer fuel from (snd <$> jobs) a b =
      Return (a', b', (λ job, Answered job.1.2 (Messaging.AnsSend (Ok job.2))) <$> jobs) ∧
    sender_ready peer timeout [] a' ∧ receiver_ready b' ∧
    ∀ p, default [] (MessagingHandle.get_messages p (r_store b')) =
      default [] (MessagingHandle.get_messages p (r_store b)) ++
      filter (λ m, Messaging.from m = p) (fst ∘ fst <$> jobs).
Proof.
  intros Ha Hb Htimer Hfits. revert a b Ha Hb.
  induction Hfits as [|[[m cb] elapsed] jobs Hm Hfits IH]; intros a b Ha Hb.
  { exists a, b. split_and!; try done. intros p. by rewrite app_nil_r. }
  destruct (deliver_ok timer fuel from peer timeout elapsed m cb jobs.*1 a b Ha Hb Htimer Hm)
    as (a1 & b1 & Hd & Ha1 & Hb1 & Hstore).
  destruct (IH a1 b1 Ha1 Hb1) as (a' & b' & Hall & Ha' & Hb' & Hget).
  exists a', b'. cbn [fmap list_fmap deliver_all snd]. rewrite Hd. cbn [obind]. rewrite Hall. cbn [obind].
  split_and!; try done. intros p. rewrite Hget, Hstore. unfold MessagingHandle.on_event.
  rewrite MessagingHandle.run_push. unfold MessagingHandle.get_messages. cbn [compose fst].
  rewrite filter_cons. destruct (decide (Messaging.from m = p)) as [->|Hne].
  - rewrite lookup_insert_eq. unfold MessagingHandle.get_messages. simpl. by rewrite <-app_assoc.
  - by rewrite lookup_insert_ne.
Qed.
End transfer.

(** ** Witness: two messages over pipes that move a byte at a time *)
Section witnesses.
#[local] Existing Instance demo_platform.
#[local] Existing Instance Messaging.demo_json.
#[local] Existing Instance Messaging.demo_json_laws.
#[local] Abbreviation peer n := (n%N : @PeerId demo_platform).

Definition demo_stream : Pipe := {| p_in := []; p_out := []; p_step := λ _, 1; p_calls := 0 |}.
Definition reply : Messaging.Message := {| Messaging.time := 2; Messaging.from := peer 5; Messaging.to := peer 6; Messaging.msg := "bye" |}.
Definition demo_jobs : list (Messaging.Message * Callback * N) :=
  [(Messaging.demo_message, Messaging.demo_cb 0, 3%N); (reply, Messaging.demo_cb 1, 4%N)].
Definition demo_sender : Sender := {|
  s_behav := {| Messaging.config := Messaging.Config_default; Messaging.out_events := [];
    Messaging.in_events := [Messaging.SendMessage (peer 6) Messaging.demo_message (Messaging.demo_cb 0);
                            Messaging.SendMessage (peer 6) reply (Messaging.demo_cb 1)];
    Messaging.connected_peers := {[ peer 6 ]} |};
  s_handler := Messaging.set_outbound (Some (Messaging.Idle demo_stream))
                 (Messaging.Handler_new Messaging.Config_default) |}.
Definition demo_receiver : Receiver := {|
  r_behav := Messaging.new Messaging.Config_default;
  r_handler := Messaging.set_inbound (Some {| Messaging.rt_stream := demo_stream |})
                 (Messaging.Handler_new Messaging.Config_default);
  r_store := MessagingHandle.MemMessageStore_default |}.

Lemma messages_arrive_in_order_witness :
  ∃ a' b', deliver_all (0%N : @PollCx demo_platform) 100 (peer 5) [3%N; 4%N] demo_sender demo_receiver =
      Return (a', b', [Answered (Messaging.demo_cb 0) (Messaging.AnsSend (Ok 3%N));
                       Answered (Messaging.demo_cb 1) (Messaging.AnsSend (Ok 4%N))]) ∧
    default [] (MessagingHandle.get_messages (peer 5) (r_store b')) = [Messaging.demo_message; reply].
Proof.
  destruct (messages_arrive_in_order (0%N : @PollCx demo_platform) 100 (peer 5) (peer 6) 30000 demo_jobs
    demo_sender demo_receiver) as (a' & b' & Hd & _ & _ & Hs).
  - repeat (split; [first [done|vm_compute; done|set_solver]|]). by exists demo_stream.
  - split_and!; try done. by exists demo_stream.
  - done.
  - apply Forall_cons_2; [|apply Forall_cons_2; [|apply Forall_nil_2]]; eexists; (split; [reflexivity|]); (split; [done|split; [vm_compute; done|vm_compute; lia]]).
  - exists a', b'. split; [exact Hd|]. exact (Hs (peer 5)).
Defined.
End witnesses.
End MessagingTransfer.
