(* ===== verification/MessagingNetwork.v ===== *)
(** * Messages in a network

    Module [MessagingNetwork]: nodes that connect, disconnect and send each other
    messages, in any order.  The abstract state is the set of links and the log
    of the delivered messages; the behaviours, the handlers of the connections,
    the wire and the stores of the handles implement it.  A delivery is that of
    [MessagingTransfer]. *)

From stdpp Require Import base gmap sets list strings fin_maps fin_map_dom.
From Stdlib Require Import Lia NArith.
From S2P Require Import Prelude Std Core Stream Wire BlobProtocol UniversalProtocol Concurrent Messaging.
From S2P Require Import MessagingHandle MessagingTransfer.
Import Wire MessagingTransfer.

Module MessagingNetwork.
Section network.
Context {P : Platform} {json : Messaging.Json Messaging.Message} {laws : Messaging.JsonLaws Messaging.Message}.
Context {St : Type} {io : AsyncIO St} {rel : ReliableIO St} {net : Network St}.
Context (timer : PollCx) (fuel : nat) (elapsed : N).
Abbreviation Message := Messaging.Message.
Abbreviation Answer := Messaging.Answer.
Abbreviation Handler := (Messaging.Handler St).

(** A node: the behaviour in its swarm, the store of its handle. *)
Record Node := { n_behav : Messaging.Behaviour; n_store : gmap PeerId (list Message) }.
(** [conns !! (x, y)]: the handler, at [x], of its connection with [y]. *)
Record Net := { nodes : gmap PeerId Node; conns : gmap (PeerId * PeerId) Handler }.

Inductive Act :=
| Connect (x y : PeerId) (hx hy : Handler)
| Disconnect (x y : PeerId)
| Send (x y : PeerId) (m : Message) (callback : Callback).

Definition with_behav (s : Messaging.Behaviour) (a : Node) : Node := {| n_behav := s; n_store := n_store a |}.

(** The stream for sending to [peer] is there: the behaviour is told, and the
    event it has for the application is handed out. *)
Definition negotiated (peer : PeerId) (a : Node) : Node :=
  with_behav (Messaging.poll (Messaging.on_connection_handler_event peer Messaging.HOutboundNegotiated (n_behav a))).1.2 a.
Definition closed (peer : PeerId) (a : Node) : Node :=
  with_behav (Messaging.on_swarm_event
    (FromSwarmConnectionClosed {| cc_peer_id := peer; cc_remaining_established := 0 |}) (n_behav a)) a.

Definition connect (x y : PeerId) (hx hy : Handler) (n : Net) : Net :=
  match nodes n !! x, nodes n !! y, conns n !! (x, y) with
  | Some a, Some b, None =>
      if decide (x = y) then n else
      {| nodes := <[y := negotiated x b]> (<[x := negotiated y a]> (nodes n));
         conns := <[(y, x) := hy]> (<[(x, y) := hx]> (conns n)) |}
  | _, _, _ => n
  end.
Definition disconnect (x y : PeerId) (n : Net) : Net :=
  match nodes n !! x, nodes n !! y, conns n !! (x, y) with
  | Some a, Some b, Some _ =>
      {| nodes := <[y := closed x b]> (<[x := closed y a]> (nodes n));
         conns := delete (y, x) (delete (x, y) (conns n)) |}
  | _, _, _ => n
  end.
(** The caller's request at [x]; the behaviour is polled, what it posts crosses. *)
Definition send (x y : PeerId) (m : Message) (cb : Callback) (n : Net) : outcome (Net * list (Sent Answer)) :=
  match nodes n !! x with
  | None => Return (n, [])
  | Some a =>
      let s := Messaging.push_event (Messaging.SendMessage y m cb) (n_behav a) in
      match nodes n !! y, conns n !! (x, y), conns n !! (y, x) with
      | Some b, Some hx, Some hy =>
          ' (a', b', sent) ← deliver timer fuel x elapsed {| s_behav := s; s_handler := hx |}
              {| r_behav := n_behav b; r_handler := hy; r_store := n_store b |};
          Return ({| nodes := <[y := {| n_behav := r_behav b'; n_store := r_store b' |}]>
                              (<[x := with_behav (s_behav a') a]> (nodes n));
                     conns := <[(y, x) := r_handler b']> (<[(x, y) := s_handler a']> (conns n)) |}, sent)
      | _, _, _ =>
          let '(_, s, sent) := Messaging.poll s in
          Return ({| nodes := <[x := with_behav s a]> (nodes n); conns := conns n |}, sent)
      end
  end.

Definition act (x : Act) (n : Net) : outcome (Net * list (Sent Answer)) :=
  match x with
  | Connect x y hx hy => Return (connect x y hx hy n, [])
  | Disconnect x y => Return (disconnect x y n, [])
  | Send x y m cb => send x y m cb n
  end.
Fixpoint run_acts (acts : list Act) (n : Net) : outcome (Net * list (list (Sent Answer))) :=
  match acts with
  | [] => Return (n, [])
  | x :: acts =>
      ' (n, sent) ← act x n;
      ' (n, sents) ← run_acts acts n;
      Return (n, sent :: sents)
  end.

(** ** The abstract network *)
Record Spec := { links : gset (PeerId * PeerId); log : list (PeerId * Message) }.
Definition spec_act (all : gset PeerId) (x : Act) (s : Spec) : Spec * list (Sent Answer) :=
  match x with
  | Connect x y _ _ =>
      (if decide (x ∈ all ∧ y ∈ all ∧ x ≠ y)
       then {| links := {[(x, y); (y, x)]} ∪ links s; log := log s |} else s, [])
  | Disconnect x y => ({| links := links s ∖ {[(x, y); (y, x)]}; log := log s |}, [])
  | Send x y m cb =>
      if decide (x ∈ all) then
        if decide ((x, y) ∈ links s)
        then ({| links := links s; log := log s ++ [(y, m)] |}, [Answered cb (Messaging.AnsSend (Ok elapsed))])
        else (s, [Answered cb (Messaging.AnsSend (Err (Messaging.PeerNotFound y)))])
      else (s, [])
  end.
Fixpoint spec_acts (all : gset PeerId) (acts : list Act) (s : Spec) : Spec * list (list (Sent Answer)) :=
  match acts with
  | [] => (s, [])
  | x :: acts =>
      let '(s, sent) := spec_act all x s in
      let '(s, sents) := spec_acts all acts s in (s, sent :: sents)
  end.
(** What [y] was sent by messages that name [p]. *)
Definition received (y p : PeerId) (log : list (PeerId * Message)) : list Message :=
  filter (λ m, Messaging.from m = p) (snd <$> filter (λ e, e.1 = y) log).

(** ** Connections at rest *)
Definition conn_ready (h : Handler) : Prop :=
  Messaging.state h = Messaging.Active ∧ Messaging.pending_in_events h = [] ∧ Messaging.pending_out_events h = [] ∧
  starts timer (Messaging.timeout h) ∧
  ∃ si so, Messaging.inbound h = Some {| Messaging.rt_stream := si |} ∧
    Messaging.outbound h = Some (Messaging.Idle so) ∧ quiet si ∧ quiet so.

Definition node_ready (peers : PeerId → Prop) (a : Node) : Prop :=
  Messaging.out_events (n_behav a) = [] ∧ Messaging.in_events (n_behav a) = [] ∧
  ∀ p, p ∈ Messaging.connected_peers (n_behav a) ↔ peers p.

(** One delivery, with both ends of the connection. *)
Lemma deliver_ready from y m cb s hx b hy st :
  Messaging.out_events s = [] → Messaging.in_events s = [Messaging.SendMessage y m cb] →
  y ∈ Messaging.connected_peers s → conn_ready hx → conn_ready hy → Messaging.out_events b = [] → fits fuel m →
  ∃ s' hx' hy', deliver timer fuel from elapsed {| s_behav := s; s_handler := hx |}
        {| r_behav := b; r_handler := hy; r_store := st |} =
      Return ({| s_behav := s'; s_handler := hx' |},
              {| r_behav := b; r_handler := hy';
                 r_store := MessagingHandle.on_event (Messaging.IncomingMessage (Messaging.from m) m) st |},
              [Answered cb (Messaging.AnsSend (Ok elapsed))]) ∧
    Messaging.out_events s' = [] ∧ Messaging.in_events s' = [] ∧
    Messaging.connected_peers s' = Messaging.connected_peers s ∧ conn_ready hx' ∧ conn_ready hy'.
Proof.
  destruct s as [cfg outs ins peers], hx as [st1 pin pout T inb outb], b as [cfg' outs' ins' peers'].
  destruct hy as [st1' pin' pout' T' inb' outb']. unfold conn_ready, starts. simpl.
  intros -> -> Hy (-> & -> & -> & Htimer & si & so & -> & -> & Hqi & Hqo)
    (-> & -> & -> & Htimer' & si' & so' & -> & -> & Hqi' & Hqo') -> (bs & Hb & Hne & Hmax & Hfuel).
  unfold deliver, post, Messaging.poll, Messaging.handle_in_events. simpl. rewrite decide_True by done.
  unfold Messaging.handler_poll, Messaging.poll_active. rewrite no_inbound by done. simpl.
  unfold Messaging.poll_outbound. cbn -[Messaging.as_bytes]. rewrite Hb. cbn.
  pose proof Htimer as Hstarts. destruct (delay_poll timer (delay_new T)) as [ready d] eqn:Hd.
  simpl in Htimer. subst ready. cbn.
  destruct (universal_exchange_ok fuel elapsed bs so si' Hqo Hqi' Hne Hmax Hfuel) as (so2 & si2 & -> & Hqo2 & Hqi2).
  cbn [obind]. unfold Messaging.as_bytes in Hb. destruct (Messaging.to_vec m) as [bs'|] eqn:E; [|done]. injection Hb as <-.
  unfold receive, Messaging.handler_poll, Messaging.poll_active, Messaging.poll_inbound. simpl.
  rewrite (Messaging.json_roundtrip _ _ E). simpl.
  eexists _, _, _. split; [reflexivity|]. simpl. rewrite Hd. split_and!; try done; [by exists si, so2|by exists si2, so'].
Qed.
(** ** The nodes implement it *)
Record implements (all : gset PeerId) (s : Spec) (n : Net) : Prop := {
  im_nodes : dom (nodes n) = all;
  im_conns : dom (conns n) = links s;
  im_handlers : map_Forall (λ _ h, conn_ready h) (conns n);
  im_behavs : map_Forall (λ x a, node_ready (λ p, (x, p) ∈ links s) a) (nodes n);
  im_stores : map_Forall (λ y a, ∀ p, default [] (MessagingHandle.get_messages p (n_store a)) = received y p (log s)) (nodes n);
  im_links : ∀ x y, (x, y) ∈ links s → (y, x) ∈ links s ∧ x ∈ all ∧ x ≠ y;
}.
Definition act_ok (x : Act) : Prop :=
  match x with
  | Connect _ _ hx hy => conn_ready hx ∧ conn_ready hy
  | Disconnect _ _ => True
  | Send _ _ m _ => fits fuel m
  end.

Lemma negotiated_ready (peers peers' : PeerId → Prop) p a :
  node_ready peers a → (∀ q, peers' q ↔ q = p ∨ peers q) → node_ready peers' (negotiated p a).
Proof.
  destruct a as [[cfg outs ins conn] st]. unfold node_ready, negotiated. simpl. intros (-> & -> & Hc) Hp. simpl.
  split_and!; try done. intros q. rewrite Hp, <-Hc. set_solver.
Qed.
Lemma closed_ready (peers peers' : PeerId → Prop) p a :
  node_ready peers a → (∀ q, peers' q ↔ q ≠ p ∧ peers q) → node_ready peers' (closed p a).
Proof.
  destruct a as [[cfg outs ins conn] st]. unfold node_ready, closed. simpl. intros (-> & -> & Hc) Hp. simpl.
  split_and!; try done. intros q. rewrite Hp, <-Hc. set_solver.
Qed.
Lemma node_ready_ext (peers peers' : PeerId → Prop) a :
  node_ready peers a → (∀ q, peers' q ↔ peers q) → node_ready peers' a.
Proof. intros (? & ? & Hc) Hp. split_and!; try done. intros q. by rewrite Hp. Qed.

(** Two nodes change, the others keep their peers. *)
Lemma map_Forall_two {A} (Q Q' : PeerId → A → Prop) (m : gmap PeerId A) x y a b :
  map_Forall Q m → Q' x a → Q' y b → (∀ z c, z ≠ x → z ≠ y → Q z c → Q' z c) →
  map_Forall Q' (<[y := b]> (<[x := a]> m)).
Proof.
  intros Hm Ha Hb Hother z c. destruct (decide (z = y)) as [->|Hy]; [rewrite lookup_insert_eq; by intros [= <-]|].
  rewrite lookup_insert_ne by done. destruct (decide (z = x)) as [->|Hx]; [rewrite lookup_insert_eq; by intros [= <-]|].
  rewrite lookup_insert_ne by done. intros Hc. apply Hother; [done..|]. by apply Hm.
Qed.

Lemma received_snoc y p l z m :
  received y p (l ++ [(z, m)]) = received y p l ++ (if decide (z = y ∧ Messaging.from m = p) then [m] else []).
Proof.
  unfold received. rewrite filter_app, fmap_app, filter_app. f_equal. rewrite filter_cons. cbn [fst].
  destruct (decide (z = y)) as [->|Hne]; [|by rewrite decide_False by (by intros [??])].
  cbn. destruct (decide (Messaging.from m = p)); [by rewrite decide_True|].
  by rewrite decide_False by (by intros [??]).
Qed.

Lemma stored p m (st : gmap PeerId (list Message)) :
  default [] (MessagingHandle.get_messages p (MessagingHandle.on_event (Messaging.IncomingMessage (Messaging.from m) m) st)) =
  default [] (MessagingHandle.get_messages p st) ++ (if decide (Messaging.from m = p) then [m] else []).
Proof.
  unfold MessagingHandle.on_event. rewrite MessagingHandle.run_push. unfold MessagingHandle.get_messages.
  destruct (decide (Messaging.from m = p)) as [->|Hne]; [by rewrite lookup_insert_eq|].
  by rewrite lookup_insert_ne, app_nil_r.
Qed.

Lemma connect_implements all s n x y hx hy :
  implements all s n → conn_ready hx → conn_ready hy →
  implements all (spec_act all (Connect x y hx hy) s).1 (connect x y hx hy n).
Proof.
  intros Him Hhx Hhy. pose proof Him as []. unfold connect. cbn [spec_act].
  destruct (nodes n !! x) as [a|] eqn:Ha.
  2: { rewrite decide_False; [done|]. intros (Hx & _). rewrite <-im_nodes0 in Hx. apply not_elem_of_dom in Ha. done. }
  destruct (nodes n !! y) as [b|] eqn:Hb.
  2: { rewrite decide_False; [done|]. intros (_ & Hy & _). rewrite <-im_nodes0 in Hy. apply not_elem_of_dom in Hb. done. }
  pose proof (elem_of_dom_2 _ _ _ Ha) as Hx. pose proof (elem_of_dom_2 _ _ _ Hb) as Hy. rewrite im_nodes0 in Hx, Hy.
  destruct (conns n !! (x, y)) as [h|] eqn:Hc.
  { apply elem_of_dom_2 in Hc. rewrite im_conns0 in Hc. pose proof (im_links0 _ _ Hc) as (Hc' & _ & Hne).
    rewrite decide_True by done. cbn [fst]. replace ({[(x, y); (y, x)]} ∪ links s) with (links s) by set_solver. by destruct s. }
  destruct (decide (x = y)) as [->|Hne]; [by rewrite decide_False by naive_solver|]. rewrite decide_True by done. cbn [fst].
  split; cbn [nodes conns links log].
  - rewrite !dom_insert_L. set_solver.
  - rewrite !dom_insert_L. set_solver.
  - by repeat apply map_Forall_insert_2.
  - eapply map_Forall_two; [exact im_behavs0|..].
    + eapply negotiated_ready; [by apply (im_behavs0 x)|]. intros q. set_solver.
    + eapply negotiated_ready; [by apply (im_behavs0 y)|]. intros q. set_solver.
    + intros z c Hzx Hzy Hz. eapply node_ready_ext; [exact Hz|]. intros q. set_solver.
  - eapply map_Forall_two; [exact im_stores0|..]; [exact (im_stores0 x a Ha)|exact (im_stores0 y b Hb)|done].
  - intros u v [[[= -> ->]%elem_of_singleton|[= -> ->]%elem_of_singleton]%elem_of_union|Huv]%elem_of_union.
    + set_solver.
    + set_solver.
    + apply im_links0 in Huv as (? & ? & ?). set_solver.
Qed.
Lemma disconnect_implements all s n x y :
  implements all s n → implements all (spec_act all (Disconnect x y) s).1 (disconnect x y n).
Proof.
  intros Him. pose proof Him as []. unfold disconnect. cbn [spec_act fst].
  assert (Hsame : (x, y) ∉ links s → implements all {| links := links s ∖ {[(x, y); (y, x)]}; log := log s |} n).
  { intros Hxy. replace (links s ∖ {[(x, y); (y, x)]}) with (links s); [by destruct s|].
    assert ((y, x) ∉ links s) by (intros Hc; by apply im_links0 in Hc as [? _]). set_solver. }
  destruct (nodes n !! x) as [a|] eqn:Ha.
  2: { apply Hsame. intros Hc. apply im_links0 in Hc as (_ & Hx & _). rewrite <-im_nodes0 in Hx. by apply not_elem_of_dom in Ha. }
  destruct (nodes n !! y) as [b|] eqn:Hb.
  2: { apply Hsame. intros Hc. apply im_links0 in Hc as (Hc & _). apply im_links0 in Hc as (_ & Hy & _).
       rewrite <-im_nodes0 in Hy. by apply not_elem_of_dom in Hb. }
  destruct (conns n !! (x, y)) as [h|] eqn:Hc; [|apply Hsame; rewrite <-im_conns0; by apply not_elem_of_dom].
  apply elem_of_dom_2 in Hc. rewrite im_conns0 in Hc. pose proof (im_links0 _ _ Hc) as (_ & Hx & Hne).
  apply elem_of_dom_2 in Ha as Hxa. apply elem_of_dom_2 in Hb as Hyb. rewrite im_nodes0 in Hxa, Hyb.
  split; cbn [nodes conns links log].
  - rewrite !dom_insert_L. set_solver.
  - rewrite !dom_delete_L. set_solver.
  - by repeat apply map_Forall_delete.
  - eapply map_Forall_two; [exact im_behavs0|..].
    + eapply closed_ready; [by apply (im_behavs0 x)|]. intros q. set_solver.
    + eapply closed_ready; [by apply (im_behavs0 y)|]. intros q. set_solver.
    + intros z c Hzx Hzy Hz. eapply node_ready_ext; [exact Hz|]. intros q. set_solver.
  - eapply map_Forall_two; [exact im_stores0|..]; [exact (im_stores0 x a Ha)|exact (im_stores0 y b Hb)|done].
  - intros u v (Huv & Hn)%elem_of_difference. apply im_links0 in Huv as (? & ? & ?). set_solver.
Qed.

(** Nobody to send to: the caller is told at once. *)
Lemma send_refused all s n x y m cb a :
  implements all s n → nodes n !! x = Some a → (x, y) ∉ links s →
  ∃ a', Messaging.poll (Messaging.push_event (Messaging.SendMessage y m cb) (n_behav a)) =
      (Pending, n_behav a', [Answered cb (Messaging.AnsSend (Err (Messaging.PeerNotFound y)))]) ∧
    a' = with_behav (n_behav a') a ∧ implements all s {| nodes := <[x := a']> (nodes n); conns := conns n |}.
Proof.
  intros [] Ha Hxy. pose proof (im_behavs0 _ _ Ha) as (Ho & Hi & Hp).
  exists a. split.
  - unfold Messaging.poll, Messaging.handle_in_events. destruct a as [[cfg outs ins peers] st]. simpl in *. subst outs ins.
    simpl. rewrite decide_False; [done|]. by rewrite Hp.
  - split; [by destruct a|]. rewrite insert_id by done. destruct n. by split.
Qed.

(** Somebody to send to. *)
Lemma send_delivered all s n x y m cb a :
  implements all s n → fits fuel m → nodes n !! x = Some a → (x, y) ∈ links s →
  ∃ n', send x y m cb n = Return (n', [Answered cb (Messaging.AnsSend (Ok elapsed))]) ∧
    implements all {| links := links s; log := log s ++ [(y, m)] |} n'.
Proof.
  intros [] Hfits Ha Hxy. unfold send. rewrite Ha. pose proof (im_links0 _ _ Hxy) as (Hyx & Hx & Hne).
  pose proof (im_links0 _ _ Hyx) as (_ & Hy & _). pose proof Hxy as Hl. pose proof Hyx as Hr.
  pose proof Hy as Hyd. rewrite <-im_nodes0 in Hyd. apply elem_of_dom in Hyd as [b Hb].
  rewrite <-im_conns0 in Hl, Hr. apply elem_of_dom in Hl as [hx Hhx]. apply elem_of_dom in Hr as [hy Hhy].
  rewrite Hb, Hhx, Hhy.
  pose proof (im_behavs0 _ _ Ha) as (Hao & Hai & Hap). pose proof (im_behavs0 _ _ Hb) as (Hbo & Hbi & Hbp).
  destruct (deliver_ready x y m cb (Messaging.push_event (Messaging.SendMessage y m cb) (n_behav a)) hx (n_behav b) hy (n_store b))
    as (s' & hx' & hy' & -> & Ho' & Hi' & Hp' & Hhx' & Hhy'); try done.
  { cbn. by rewrite Hai. }
  { cbn. by apply Hap. }
  { by apply (im_handlers0 _ _ Hhx). }
  { by apply (im_handlers0 _ _ Hhy). }
  cbn [obind r_behav r_store r_handler s_behav s_handler]. eexists. split; [reflexivity|].
  split; cbn [nodes conns links log]; try done.
  - rewrite !dom_insert_L. set_solver.
  - rewrite !dom_insert_L. set_solver.
  - by repeat apply map_Forall_insert_2.
  - eapply map_Forall_two; [exact im_behavs0|..]; [|by split_and!|done].
    unfold node_ready. cbn [n_behav with_behav]. rewrite Hp'. by split_and!.
  - eapply map_Forall_two; [exact im_stores0|..]; cbn [n_store with_behav].
    + intros p. rewrite received_snoc, decide_False by naive_solver. rewrite app_nil_r. exact (im_stores0 x a Ha p).
    + intros p. rewrite stored, received_snoc. f_equal; [exact (im_stores0 y b Hb p)|].
      destruct (decide (Messaging.from m = p)); [by rewrite decide_True|by rewrite decide_False by naive_solver].
    + intros z c _ Hzy Hz p. rewrite received_snoc, decide_False by naive_solver. by rewrite app_nil_r.
Qed.

Lemma send_implements all s n x y m cb :
  implements all s n → fits fuel m →
  let '(s', sent) := spec_act all (Send x y m cb) s in
  ∃ n', send x y m cb n = Return (n', sent) ∧ implements all s' n'.
Proof.
  intros Him Hfits. cbn [spec_act]. destruct (nodes n !! x) as [a|] eqn:Ha.
  - apply elem_of_dom_2 in Ha as Hx. rewrite (im_nodes _ _ _ Him) in Hx. rewrite decide_True by done.
    destruct (decide ((x, y) ∈ links s)) as [Hxy|Hxy]; [by eapply send_delivered|].
    destruct (send_refused all s n x y m cb a Him Ha Hxy) as (a' & Hp & Ea & Him').
    assert (Hnone : conns n !! (x, y) = None) by (apply not_elem_of_dom; by rewrite (im_conns _ _ _ Him)).
    unfold send. rewrite Ha, Hnone, Hp, <-Ea. eexists. split; [by destruct (nodes n !! y)|done].
  - rewrite decide_False by (rewrite <-(im_nodes _ _ _ Him); by apply not_elem_of_dom).
    unfold send. rewrite Ha. by exists n.
Qed.

Lemma net_act_implements all s n x :
  implements all s n → act_ok x →
  let '(s', sent) := spec_act all x s in ∃ n', act x n = Return (n', sent) ∧ implements all s' n'.
Proof.
  intros Him Hok. destruct x as [x y hx hy|x y|x y m cb].
  - destruct Hok. eexists. split; [reflexivity|]. by apply connect_implements.
  - eexists. split; [reflexivity|]. by apply disconnect_implements.
  - by apply send_implements.
Qed.

Lemma acts_implement all acts : ∀ s n,
  implements all s n → Forall act_ok acts →
  let '(s', sents) := spec_acts all acts s in ∃ n', run_acts acts n = Return (n', sents) ∧ implements all s' n'.
Proof.
  induction acts as [|x acts IH]; intros s n Him Hok; [by exists n|].
  apply Forall_cons in Hok as [Hx Hok]. cbn [spec_acts run_acts].
  pose proof (net_act_implements all s n x Him Hx) as Hact. destruct (spec_act all x s) as [s1 sent].
  destruct Hact as (n1 & -> & Him1). cbn [obind]. specialize (IH s1 n1 Him1 Hok).
  destruct (spec_acts all acts s1) as [s2 sents]. destruct IH as (n2 & -> & Him2). cbn [obind]. by exists n2.
Qed.

(** Nodes that have just been started. *)
Definition fresh_node (cfg : Messaging.Config) : Node :=
  {| n_behav := Messaging.new cfg; n_store := MessagingHandle.MemMessageStore_default |}.
Definition fresh_net (cfgs : gmap PeerId Messaging.Config) : Net := {| nodes := fresh_node <$> cfgs; conns := ∅ |}.
Definition no_links : Spec := {| links := ∅; log := [] |}.

Lemma fresh_implements cfgs : implements (dom cfgs) no_links (fresh_net cfgs).
Proof.
  split; cbn; try done.
  - apply dom_fmap_L.
  - intros x a Ha. rewrite lookup_fmap in Ha. destruct (cfgs !! x); [|done]. injection Ha as <-. by split_and!.
  - intros x a Ha p. rewrite lookup_fmap in Ha. destruct (cfgs !! x); [|done]. by injection Ha as <-.
Qed.

(** C5: a network of nodes delivers messages.  From nodes that have just been
    started, however they connect, disconnect and send each other messages: every
    request returns; a message to a connected peer is answered with the time it
    took, one to any other peer is refused; the store of each node holds, for
    each name, exactly the messages that were delivered to the node and name it
    as their sender, in the order of their delivery, whoever sent them. *)
Theorem network_delivers cfgs acts :
  Forall act_ok acts →
  let '(s, sents) := spec_acts (dom cfgs) acts no_links in
  ∃ n, run_acts acts (fresh_net cfgs) = Return (n, sents) ∧ dom (nodes n) = dom cfgs ∧
    ∀ y b, nodes n !! y = Some b → ∀ p,
      default [] (MessagingHandle.get_messages p (n_store b)) = received y p (log s).
Proof.
  intros Hok. pose proof (acts_implement _ acts _ _ (fresh_implements cfgs) Hok) as Hrun. destruct (spec_acts (dom cfgs) acts no_links) as [s sents].
  destruct Hrun as (n & Hrun & []). exists n. split_and!; [done|done|]. intros y b Hb. exact (im_stores0 y b Hb).
Qed.
(** ** The test of the repository ([messaging.rs], module [test])

    The watcher of the test and the task that fills the store hear the same
    events; the watcher's message is the last one of the store. *)
Section test.
Context (cb : N → Callback) (now : N → N).

Definition eq_message (lhs rhs : Message) : bool :=
  bool_decide (Messaging.from lhs = Messaging.from rhs) && bool_decide (Messaging.to lhs = Messaging.to rhs) &&
  bool_decide (Messaging.msg lhs = Messaging.msg rhs).
Definition test_message (k : N) (from to : PeerId) : Message :=
  Messaging.Message_new (now k) from to "Test MESSAGE 测试信息。".
Definition watched (from to : PeerId) (n : Net) : outcome Message :=
  b ← expect (nodes n !! to) "no such node";
  expect (last (default [] (MessagingHandle.get_messages from (n_store b)))) "called `Option::unwrap()` on a `None` value".
Definition single_send_recv (k : N) (from to : PeerId) (n : Net) : outcome Net :=
  ' (n, sent) ← act (Send from to (test_message k from to) (cb k)) n;
  match sent with
  | [Answered _ (Messaging.AnsSend (Ok _))] =>
      m ← watched from to n;
      _ ← assert (bool_decide (Messaging.from m = from) && eq_message m (test_message (k + 1) from to));
      Return n
  | _ => Panic "called `Result::unwrap()` on an `Err` value"
  end.
Definition is_connected (x y : PeerId) (n : Net) : bool :=
  match nodes n !! x with Some a => bool_decide (y ∈ Messaging.connected_peers (n_behav a)) | None => false end.
Definition test_sigle_send_recv (peer1 peer2 : PeerId) (h1 h2 : Handler) (n : Net) : outcome () :=
  ' (n, _) ← act (Connect peer2 peer1 h2 h1) n;
  _ ← assert (is_connected peer2 peer1 n && is_connected peer1 peer2 n);
  n ← single_send_recv 0 peer1 peer2 n;
  n ← single_send_recv 2 peer2 peer1 n;
  Return ().

Lemma single_send_recv_passes all s n k x y :
  implements all s n → (x, y) ∈ links s → fits fuel (test_message k x y) →
  ∃ s' n', single_send_recv k x y n = Return n' ∧ implements all s' n' ∧ links s' = links s.
Proof.
  intros Him Hxy Hfits. pose proof (im_links _ _ _ Him _ _ Hxy) as (Hyx & Hx & _).
  pose proof (im_links _ _ _ Him _ _ Hyx) as (_ & Hy & _).
  pose proof Hx as Hxd. rewrite <-(im_nodes _ _ _ Him) in Hxd. apply elem_of_dom in Hxd as [a Ha].
  destruct (send_delivered all s n x y (test_message k x y) (cb k) a Him Hfits Ha Hxy) as (n' & Hs & Him').
  eexists _, n'. split; [|split; [exact Him'|done]].
  unfold single_send_recv. cbn [act]. rewrite Hs. cbn [obind]. unfold watched.
  pose proof Hy as Hyd. rewrite <-(im_nodes _ _ _ Him') in Hyd. apply elem_of_dom in Hyd as [b Hb].
  rewrite Hb. cbn [expect obind]. rewrite (im_stores _ _ _ Him' _ _ Hb). cbn [log].
  rewrite received_snoc, decide_True by done. rewrite last_snoc. cbn [expect obind].
  unfold eq_message. cbn [test_message Messaging.Message_new Messaging.from Messaging.to Messaging.msg].
  by rewrite !bool_decide_eq_true_2.
Qed.

(** It passes, whatever the connection. *)
Lemma messaging_test_passes cfgs peer1 peer2 h1 h2 :
  peer1 ∈ dom cfgs → peer2 ∈ dom cfgs → peer1 ≠ peer2 → conn_ready h1 → conn_ready h2 →
  (∀ k x y, fits fuel (test_message k x y)) →
  test_sigle_send_recv peer1 peer2 h1 h2 (fresh_net cfgs) = Return ().
Proof.
  intros H1 H2 Hne Hh1 Hh2 Hfits. unfold test_sigle_send_recv. cbn [act].
  pose proof (connect_implements (dom cfgs) no_links (fresh_net cfgs) peer2 peer1 h2 h1 (fresh_implements cfgs) Hh2 Hh1) as Him.
  cbn [spec_act] in Him. rewrite decide_True in Him by done. cbn [fst obind] in *.
  set (n := connect _ _ _ _ _) in *. set (s := {| links := _; log := _ |}) in *.
  assert (Hconn : ∀ x y, (x, y) ∈ links s → is_connected x y n = true).
  { intros x y Hxy. pose proof (im_links _ _ _ Him _ _ Hxy) as (_ & Hx & _). unfold is_connected.
    rewrite <-(im_nodes _ _ _ Him) in Hx. apply elem_of_dom in Hx as [a Ha]. rewrite Ha.
    apply bool_decide_eq_true_2. by apply (im_behavs _ _ _ Him _ _ Ha). }
  assert (H21 : (peer2, peer1) ∈ links s) by set_solver. assert (H12 : (peer1, peer2) ∈ links s) by set_solver.
  rewrite (Hconn _ _ H21), (Hconn _ _ H12). cbn [andb assert obind].
  destruct (single_send_recv_passes _ s n 0 peer1 peer2 Him H12 (Hfits _ _ _)) as (s1 & n1 & -> & Him1 & E1). cbn [obind].
  destruct (single_send_recv_passes _ s1 n1 2 peer2 peer1 Him1) as (s2 & n2 & -> & _ & _); [by rewrite E1|done|done].
Qed.
End test.
End network.

(** ** Witness: three nodes, one connection, which is closed at the end *)
Section witnesses.
#[local] Existing Instance demo_platform.
#[local] Existing Instance Messaging.demo_json.
#[local] Existing Instance Messaging.demo_json_laws.
#[local] Abbreviation peer n := (n%N : @PeerId demo_platform).
#[local] Abbreviation cx0 := (0%N : @PollCx demo_platform).

Definition demo_conn : Messaging.Handler Pipe :=
  Messaging.set_inbound (Some {| Messaging.rt_stream := demo_stream |})
    (Messaging.set_outbound (Some (Messaging.Idle demo_stream)) (Messaging.Handler_new Messaging.Config_default)).
Definition demo_cfgs : gmap (@PeerId demo_platform) Messaging.Config :=
  {[ peer 5 := Messaging.Config_default; peer 6 := Messaging.Config_default; peer 7 := Messaging.Config_default ]}.
Definition demo_acts : list (@Act demo_platform Pipe) :=
  [Connect (peer 5) (peer 6) demo_conn demo_conn; Send (peer 5) (peer 6) Messaging.demo_message (Messaging.demo_cb 0);
   Send (peer 6) (peer 5) reply (Messaging.demo_cb 1); Send (peer 5) (peer 7) reply (Messaging.demo_cb 2);
   Send (peer 5) (peer 6) reply (Messaging.demo_cb 3); Disconnect (peer 6) (peer 5);
   Send (peer 5) (peer 6) reply (Messaging.demo_cb 4)].

Lemma demo_conn_ready : conn_ready cx0 demo_conn.
Proof. split_and!; try reflexivity. exists demo_stream, demo_stream. by split_and!. Qed.

Lemma demo_acts_fit : Forall (act_ok cx0 100) demo_acts.
Proof.
  assert (Hfit : ∀ m bs, Messaging.as_bytes m = Return bs → (length bs <? 100) = true → bs ≠ [] → fits 100 m).
  { intros m bs Hm Hl%Nat.ltb_lt Hne. exists bs. split; [done|]. split; [done|]. split; [|done].
    apply N.le_trans with 100%N; [lia|by vm_compute]. }
  assert (H1 : fits 100 Messaging.demo_message) by (eapply Hfit; [reflexivity|by vm_compute|done]).
  assert (H2 : fits 100 reply) by (eapply Hfit; [reflexivity|by vm_compute|done]).
  repeat apply Forall_cons_2; try apply Forall_nil_2; try exact I; try exact H1; try exact H2.
  exact (conj demo_conn_ready demo_conn_ready).
Qed.

Lemma network_delivers_witness :
  ∃ n, run_acts cx0 100 9 demo_acts (fresh_net demo_cfgs) = Return (n,
      [[]; [Answered (Messaging.demo_cb 0) (Messaging.AnsSend (Ok 9%N))];
       [Answered (Messaging.demo_cb 1) (Messaging.AnsSend (Ok 9%N))];
       [Answered (Messaging.demo_cb 2) (Messaging.AnsSend (Err (Messaging.PeerNotFound (peer 7))))];
       [Answered (Messaging.demo_cb 3) (Messaging.AnsSend (Ok 9%N))]; [];
       [Answered (Messaging.demo_cb 4) (Messaging.AnsSend (Err (Messaging.PeerNotFound (peer 6))))]]) ∧
    ∀ b, nodes n !! peer 6 = Some b →
      default [] (MessagingHandle.get_messages (peer 5) (n_store b)) = [Messaging.demo_message; reply].
Proof.
  destruct (network_delivers cx0 100 9 demo_cfgs demo_acts demo_acts_fit) as (n & Hrun & _ & Hst).
  exists n. split; [exact Hrun|]. intros b Hb. exact (Hst _ b Hb (peer 5)).
Defined.
End witnesses.
End MessagingNetwork.
