(* ===== verification/AdvertiseHandle.v ===== *)
(** * The handle of the advertise protocol ([net/p2p/protocols/advertise.rs])

    Module [AdvertiseHandle]: the calls of the handle, with the events they
    listen for and their timeouts, and the commands.  The behaviour and its
    events are those of [Advertise]. *)

From stdpp Require Import base gmap sets list strings fin_maps.
From Stdlib Require Import Lia NArith.
From S2P Require Import Prelude Std Core Calls Advertise.
Import Calls.

Module AdvertiseHandle.
Section handle.
Context {P : Platform}.

(** ** Handle *)
Record Handle := { behav : Advertise.Behaviour; counter : N }.
Definition Handle_new (config : Advertise.Config) : Handle :=
  {| behav := Advertise.new config; counter := 0 |}.
(** [fetch_add] wraps around. *)
Definition next_id (h : Handle) : N * Handle :=
  (counter h, {| behav := behav h; counter := ((counter h + 1) mod U64)%N |}).

(** A request waits in the queue of the behaviour. *)
Definition serve (ev : Advertise.InEvent) (s : Advertise.Behaviour)
    : outcome (Advertise.Behaviour * list (Sent Advertise.Answer)) :=
  Return (Advertise.push_event ev s, []).

(** The two arms of the listener of [query_advertised_peer]. *)
Definition query_answer (relay : PeerId) (ev : Advertise.OutEvent)
    : option (result (option (list PeerId)) Advertise.Error) :=
  match ev with
  | Advertise.QueryAnswered from list => if decide (from = relay) then Some (Ok list) else None
  | Advertise.OutError (Advertise.NotProviding peer) =>
      if decide (peer = relay) then Some (Err (Advertise.NotProviding peer)) else None
  | _ => None
  end.

(** [received]: what the subscription, made before the request was sent, has
    received; [elapsed]: whether ten seconds have passed. *)
Definition query_advertised_peer (alive : bool) (relay : PeerId)
    (received : list (Recv Advertise.OutEvent)) (elapsed : bool) (s : Advertise.Behaviour)
    : outcome (Poll (result (option (list PeerId)) Advertise.Error) * Advertise.Behaviour) :=
  s ← handler_method_silent serve (Advertise.QueryAdvertisedPeer relay) alive s;
  r ← future_timeout (listen_event (answer_with (query_answer relay)) received tt) elapsed;
  Return (match r with
          | Ready (Ok v) => Ready v
          | Ready (Err _) => Ready (Err Advertise.Timeout)
          | Pending => Pending
          end, s).

Definition changed_answer (peer_id : PeerId) (ev : Advertise.OutEvent) : option bool :=
  match ev with
  | Advertise.AdvertisedPeerChanged target state => if decide (target = peer_id) then Some state else None
  | _ => None
  end.
Definition remove_advertised (alive : bool) (peer_id : PeerId)
    (received : list (Recv Advertise.OutEvent)) (elapsed : bool) (s : Advertise.Behaviour)
    : outcome (Poll (result bool error.OperationError) * Advertise.Behaviour) :=
  s ← handler_method_silent serve (Advertise.RemoveAdvertised peer_id) alive s;
  r ← future_timeout (listen_event (answer_with (changed_answer peer_id)) received tt) elapsed;
  Return (r, s).

Definition get_peers (a : Advertise.Answer) : option (list PeerId) :=
  match a with Advertise.AnsPeers l => Some l | _ => None end.
Definition get_state (a : Advertise.Answer) : option bool :=
  match a with Advertise.AnsState b => Some b | _ => None end.
Definition get_unit (a : Advertise.Answer) : option unit :=
  match a with Advertise.AnsUnit => Some tt | _ => None end.

Definition list_connected (alive : bool) (tx : Callback) (s : Advertise.Behaviour) :=
  handler_method serve Advertise.ListConnected get_peers alive tx s.
Definition list_advertised (alive : bool) (tx : Callback) (s : Advertise.Behaviour) :=
  handler_method serve Advertise.ListAdvertised get_peers alive tx s.
Definition provider_state (alive : bool) (tx : Callback) (s : Advertise.Behaviour) :=
  handler_method serve Advertise.GetProviderState get_state alive tx s.
Definition clear_advertised (alive : bool) (s : Advertise.Behaviour) : outcome Advertise.Behaviour :=
  handler_method_silent serve Advertise.ClearAdvertised alive s.
Definition set_provider_state (alive : bool) (target_state : bool) (tx : Callback) (s : Advertise.Behaviour) :=
  handler_method serve (Advertise.SetProviderState target_state) get_state alive tx s.
Definition set_remote_advertisement (alive : bool) (remote : PeerId) (state : bool) (tx : Callback)
    (s : Advertise.Behaviour) :=
  handler_method serve (Advertise.SetRemoteAdvertisement remote state) get_unit alive tx s.

(** ** The behaviour, polled until it is pending *)
Fixpoint drain (fuel : nat) (s : Advertise.Behaviour)
    : list (ToSwarm Advertise.OutEvent Advertise.FromBehaviour) * Advertise.Behaviour *
      list (Sent Advertise.Answer) :=
  match fuel with
  | O => ([], s, [])
  | S fuel =>
      match Advertise.poll s with
      | (Ready ev, s, sent) =>
          let '(evs, s, sent') := drain fuel s in (ev :: evs, s, sent ++ sent')
      | (Pending, s, sent) => ([], s, sent)
      end
  end.
Definition events (evs : list (ToSwarm Advertise.OutEvent Advertise.FromBehaviour)) : list Advertise.OutEvent :=
  omap (λ ev, match ev with GenerateEvent e => Some e | _ => None end) evs.
Definition commands (evs : list (ToSwarm Advertise.OutEvent Advertise.FromBehaviour))
    : list (PeerId * Advertise.FromBehaviour) :=
  omap (λ ev, match ev with NotifyHandler p Any h => Some (p, h) | _ => None end) evs.

(** ** Specification: the requests, one after the other

    What a request does to the advertised peers and the provider state, and its
    effects: an event handed out at once, an error reported at the end, a
    command to a handler, an answer. *)
Definition View : Type := gset PeerId * bool.
Definition view (s : Advertise.Behaviour) : View := (Advertise.advertised_peers s, Advertise.is_providing s).

Inductive Effect :=
| EGen (e : Advertise.OutEvent)
| EErr (e : Advertise.OutEvent)
| ETell (p : PeerId) (h : Advertise.FromBehaviour)
| EAns (a : Sent Advertise.Answer).

Definition view_after (ev : Advertise.InEvent) (v : View) : View :=
  match ev with
  | Advertise.SetProviderState target_state _ => (v.1, target_state)
  | Advertise.RemoveAdvertised peer => (v.1 ∖ {[peer]}, v.2)
  | Advertise.ClearAdvertised => (∅, v.2)
  | _ => v
  end.
Definition effect_of (connected : gset PeerId) (ev : Advertise.InEvent) (v : View) : list Effect :=
  match ev with
  | Advertise.QueryAdvertisedPeer peer =>
      if decide (peer ∈ connected) then [ETell peer Advertise.HQueryAdvertisedPeer]
      else [EErr (Advertise.OutError (Advertise.NotProviding peer))]
  | Advertise.GetProviderState cb => [EAns (Answered cb (Advertise.AnsState v.2)); EGen (Advertise.ProviderState v.2)]
  | Advertise.SetRemoteAdvertisement remote state cb =>
      [EAns (Answered cb Advertise.AnsUnit); ETell remote (Advertise.HSetAdvertiseSelf state)]
  | Advertise.SetProviderState target_state cb =>
      [EAns (Answered cb (Advertise.AnsState target_state)); EGen (Advertise.ProviderState target_state)]
  | Advertise.RemoveAdvertised peer => [EGen (Advertise.AdvertisedPeerChanged peer (bool_decide (peer ∈ v.1)))]
  | Advertise.ListAdvertised cb => [EAns (Answered cb (Advertise.AnsPeers (hs_iter v.1)))]
  | Advertise.ClearAdvertised => []
  | Advertise.ListConnected cb => [EAns (Answered cb (Advertise.AnsPeers (hs_iter connected)))]
  end.
Fixpoint effects (connected : gset PeerId) (evs : list Advertise.InEvent) (v : View) : list Effect :=
  match evs with
  | [] => []
  | ev :: evs => effect_of connected ev v ++ effects connected evs (view_after ev v)
  end.
Definition views (evs : list Advertise.InEvent) (v : View) : View := foldl (λ v ev, view_after ev v) v evs.

Definition gens (l : list Effect) := omap (λ e, match e with EGen e => Some e | _ => None end) l.
Definition errs (l : list Effect) := omap (λ e, match e with EErr e => Some e | _ => None end) l.
Definition tells (l : list Effect) := omap (λ e, match e with ETell p h => Some (p, h) | _ => None end) l.
Definition answers (l : list Effect) := omap (λ e, match e with EAns a => Some a | _ => None end) l.

Lemma effects_app c evs1 evs2 v :
  effects c (evs1 ++ evs2) v = effects c evs1 v ++ effects c evs2 (views evs1 v).
Proof.
  revert v. induction evs1 as [|ev evs1 IH]; intros v; [done|]. simpl. by rewrite IH, app_assoc.
Qed.

(** What [handle_in_event] did with the requests it took. *)
Definition taken (r : option (ToSwarm Advertise.OutEvent Advertise.FromBehaviour)) (l : list Effect) : Prop :=
  match r with
  | None => gens l = [] ∧ tells l = []
  | Some (GenerateEvent e) => gens l = [e] ∧ tells l = []
  | Some (NotifyHandler p Any h) => gens l = [] ∧ tells l = [(p, h)]
  | Some _ => False
  end.

Lemma handle_events_spec evs : ∀ s r s' sent, Advertise.handle_events evs s = (r, s', sent) →
  ∃ dn, evs = dn ++ Advertise.in_events s' ∧
    (r = None → Advertise.in_events s' = []) ∧ (is_Some r → dn ≠ []) ∧
    length (errs (effects (Advertise.connected_peers s) dn (view s))) + length (option_list r) ≤ length dn ∧
    view s' = views dn (view s) ∧
    sent = answers (effects (Advertise.connected_peers s) dn (view s)) ∧
    Advertise.pending_out_events s' =
      Advertise.pending_out_events s ++ errs (effects (Advertise.connected_peers s) dn (view s)) ∧
    Advertise.connected_peers s' = Advertise.connected_peers s ∧
    Advertise.pending_query_answer s' = Advertise.pending_query_answer s ∧
    taken r (effects (Advertise.connected_peers s) dn (view s)).
Proof.
  induction evs as [|ev evs IH]; intros s r s' sent H; simpl in H.
  { injection H as <- <- <-. exists []. simpl. rewrite app_nil_r. split_and!; try done; try lia; by intros [? [=]]. }
  destruct ev as [t cb|cb|peer|remote st cb|peer| |cb|cb].
  1,2,4,5: injection H as <- <- <-;
    match goal with |- ∃ _, ?ev :: _ = _ ∧ _ => exists [ev] end; simpl; rewrite ?app_nil_r; split_and!; try done; lia.
  - destruct (decide (peer ∈ Advertise.connected_peers s)) as [Hp|Hp].
    + injection H as <- <- <-. exists [Advertise.QueryAdvertisedPeer peer]. simpl. rewrite decide_True by done. simpl.
      rewrite ?app_nil_r. split_and!; try done; try lia.
    + apply IH in H as (dn & -> & Hn & Hs & Hl & Hv & Ha & Ho & Hc & Hq & Ht).
      exists (Advertise.QueryAdvertisedPeer peer :: dn). simpl. rewrite decide_False by done. simpl.
      cbn [Advertise.push_out Advertise.set_out Advertise.connected_peers Advertise.pending_out_events] in *.
      change (view (Advertise.push_out ?e s)) with (view s) in *.
      rewrite <-app_assoc in Ho. split_and!; try done; lia.
  - apply IH in H as (dn & -> & Hn & Hs & Hl & Hv & Ha & Ho & Hc & Hq & Ht).
    exists (Advertise.ClearAdvertised :: dn). simpl.
    change (view (Advertise.clear_advertised s)) with (∅ : gset PeerId, Advertise.is_providing s) in *.
    split_and!; try done. exact (le_S _ _ Hl).
  - destruct (Advertise.handle_events evs s) as [[r1 s1] sent1] eqn:E. injection H as <- <- <-.
    apply IH in E as (dn & -> & Hn & Hs & Hl & Hv & Ha & Ho & Hc & Hq & Ht).
    exists (Advertise.ListAdvertised cb :: dn). simpl. split_and!; try done; try lia; by rewrite Ha.
  - destruct (Advertise.handle_events evs s) as [[r1 s1] sent1] eqn:E. injection H as <- <- <-.
    apply IH in E as (dn & -> & Hn & Hs & Hl & Hv & Ha & Ho & Hc & Hq & Ht).
    exists (Advertise.ListConnected cb :: dn). simpl. split_and!; try done; try lia; by rewrite Ha.
Qed.

Definition backlog (s : Advertise.Behaviour) : nat :=
  length (Advertise.pending_query_answer s) + length (Advertise.in_events s) +
  length (Advertise.pending_out_events s).
Definition query_answers (s : Advertise.Behaviour) : list (PeerId * Advertise.FromBehaviour) :=
  (λ p, (p, Advertise.HAnswerAdvertisedPeer
              (if Advertise.is_providing s then Some (hs_iter (Advertise.advertised_peers s)) else None)))
  <$> Advertise.pending_query_answer s.
Definition todo (s : Advertise.Behaviour) : list Effect :=
  effects (Advertise.connected_peers s) (Advertise.in_events s) (view s).

(** The queues are empty and everything in them has been dealt with. *)
Definition settled (s : Advertise.Behaviour)
    (r : list (ToSwarm Advertise.OutEvent Advertise.FromBehaviour) * Advertise.Behaviour *
         list (Sent Advertise.Answer)) : Prop :=
  let '(evs, s', sent) := r in
  backlog s' = 0 ∧ view s' = views (Advertise.in_events s) (view s) ∧
  sent = answers (todo s) ∧
  events evs = gens (todo s) ++ Advertise.pending_out_events s ++ errs (todo s) ∧
  commands evs = query_answers s ++ tells (todo s).

Lemma drain_step_query s p rest : Advertise.pending_query_answer s = p :: rest →
  ∀ fuel r, settled (Advertise.set_queries rest s) r →
  drain fuel (Advertise.set_queries rest s) = r → settled s (drain (S fuel) s).
Proof.
  intros Hq fuel [[evs s'] sent] H Hd. simpl. unfold Advertise.poll. rewrite Hq, Hd.
  destruct H as (Hb & Hv & Ha & He & Hc). split_and!; try done. cbn [commands omap list_omap].
  change (omap _ evs) with (commands evs). rewrite Hc. unfold query_answers. by rewrite Hq.
Qed.

Lemma gens_app l1 l2 : gens (l1 ++ l2) = gens l1 ++ gens l2. Proof. apply omap_app. Qed.
Lemma errs_app l1 l2 : errs (l1 ++ l2) = errs l1 ++ errs l2. Proof. apply omap_app. Qed.
Lemma tells_app l1 l2 : tells (l1 ++ l2) = tells l1 ++ tells l2. Proof. apply omap_app. Qed.
Lemma answers_app l1 l2 : answers (l1 ++ l2) = answers l1 ++ answers l2. Proof. apply omap_app. Qed.

(** Only events are left. *)
Lemma drain_outs fuel : ∀ s outs,
  Advertise.pending_query_answer s = [] → Advertise.in_events s = [] →
  Advertise.pending_out_events s = outs → length outs < fuel →
  ∃ evs s', drain fuel s = (evs, s', []) ∧ backlog s' = 0 ∧ view s' = view s ∧
    events evs = outs ∧ commands evs = [].
Proof.
  induction fuel as [|f IH]; intros s outs Hq Hi Ho Hf; [lia|]. simpl.
  unfold Advertise.poll, Advertise.handle_in_event. rewrite Hq, Hi. cbn. rewrite Ho.
  destruct outs as [|e outs].
  - eexists [], _. split_and!; try done. unfold backlog. simpl. by rewrite Hq, Ho.
  - destruct (IH (Advertise.set_out outs (Advertise.set_in [] s)) outs) as (evs & s2 & -> & Hb & Hv & He & Hc);
      try done; [simpl in Hf; lia|].
    exists (GenerateEvent e :: evs), s2. split_and!; try done. cbn. by f_equal.
Qed.

(** A poll that hands out what a request asked for. *)
Lemma drain_ready s s1 r ev l evs s2 sent2 : r = Some ev → taken r l →
  todo s = l ++ todo s1 → Advertise.pending_query_answer s = [] → Advertise.pending_query_answer s1 = [] →
  Advertise.pending_out_events s1 = Advertise.pending_out_events s ++ errs l →
  views (Advertise.in_events s1) (view s1) = views (Advertise.in_events s) (view s) →
  settled s1 (evs, s2, sent2) → settled s (ev :: evs, s2, answers l ++ sent2).
Proof.
  intros -> Ht Htodo Hq Hq1 Ho Hv (Hb2 & Hv2 & -> & He & Hcm).
  unfold settled, query_answers in *. rewrite Hq1 in Hcm. rewrite Hq, Htodo, answers_app, gens_app, errs_app, tells_app.
  simpl in Hcm |- *. split_and!; [done|by rewrite Hv2|done| |].
  - destruct ev as [e| | | |p [] h| | | | | |]; try done; destruct Ht as [Hg Ht]; cbn;
      change (omap _ evs) with (events evs); rewrite He, Hg, Ho; cbn; by rewrite <-!app_assoc.
  - destruct ev as [e| | | |p [] h| | | | | |]; try done; destruct Ht as [Hg Ht]; cbn;
      change (omap _ evs) with (commands evs); rewrite Hcm, Ht; done.
Qed.

(** A poll that found no such request; then only events are left. *)
Lemma drain_last s s1 fuel : todo s1 = [] → Advertise.pending_query_answer s = [] →
  Advertise.pending_query_answer s1 = [] → Advertise.in_events s1 = [] → taken None (todo s) →
  Advertise.pending_out_events s1 = Advertise.pending_out_events s ++ errs (todo s) →
  view s1 = views (Advertise.in_events s) (view s) → length (Advertise.pending_out_events s1) ≤ fuel →
  settled s (match Advertise.pending_out_events s1 with
             | e :: outs => let '(evs, s', sent') := drain fuel (Advertise.set_out outs s1) in
                            (GenerateEvent e :: evs, s', answers (todo s) ++ sent')
             | [] => ([], s1, answers (todo s))
             end).
Proof.
  intros Ht1 Hq Hq1 Hn [Hg Ht] Ho Hv Hf. unfold settled, query_answers.
  destruct (Advertise.pending_out_events s1) as [|e outs] eqn:Ho1.
  - rewrite Hg, Ht, Hq, <-Ho. split_and!; try done. unfold backlog. by rewrite Hq1, Hn, Ho1.
  - destruct (drain_outs fuel (Advertise.set_out outs s1) outs) as (evs & s2 & -> & Hb & Hv2 & He & Hcm);
      try done.
    rewrite Hg, Ht, Hq, app_nil_r. simpl. split_and!; [done|by rewrite Hv2|done|cbn|done].
    change (omap _ evs) with (events evs). by rewrite He, <-Ho.
Qed.

Lemma queue_drain_spec fuel : ∀ s, backlog s < fuel → settled s (drain fuel s).
Proof.
  induction fuel as [|fuel IH]; intros s Hf; [lia|].
  destruct (Advertise.pending_query_answer s) as [|p rest] eqn:Hq.
  2: { eapply drain_step_query; [done| |done]. apply IH. unfold backlog in *. simpl. rewrite Hq in Hf. simpl in Hf. lia. }
  simpl. unfold Advertise.poll, Advertise.handle_in_event. rewrite Hq.
  destruct (Advertise.handle_events (Advertise.in_events s) s) as [[r s1] sent1] eqn:Eh.
  destruct (handle_events_spec _ _ _ _ _ Eh) as (dn & Hin & Hn & _ & Hl & Hv & -> & Ho & Hc & Hq1 & Ht).
  rewrite Hq in Hq1.
  assert (todo s = effects (Advertise.connected_peers s) dn (view s) ++ todo s1) as Htodo.
  { unfold todo. by rewrite Hin, effects_app, Hv, Hc. }
  assert (views (Advertise.in_events s1) (view s1) = views (Advertise.in_events s) (view s)) as Hvs.
  { rewrite Hin, Hv. unfold views. by rewrite foldl_app. }
  set (l := effects (Advertise.connected_peers s) dn (view s)) in *.
  assert (Hlen : length (Advertise.pending_out_events s1) + length (Advertise.in_events s1) +
                 length (option_list r) ≤ fuel).
  { unfold backlog in Hf. rewrite Hq, Hin, length_app in Hf. rewrite Ho, length_app. simpl in Hf. lia. }
  destruct r as [ev|]; simpl in Hlen.
  - assert (backlog s1 < fuel) as Hb by (unfold backlog; rewrite Hq1; simpl; lia).
    specialize (IH s1 Hb). destruct (drain fuel s1) as [[evs s2] sent2].
    by eapply drain_ready.
  - specialize (Hn eq_refl). assert (todo s1 = []) as Ht1 by (unfold todo; by rewrite Hn).
    rewrite Hn in Hvs. rewrite Ht1, app_nil_r in Htodo. rewrite <-Htodo in *.
    pose proof (drain_last s s1 fuel Ht1 Hq Hq1 Hn Ht Ho Hvs ltac:(lia)) as H.
    by destruct (Advertise.pending_out_events s1).
Qed.

(** The advertise behaviour carries out its requests one after the other.
    Polled until it is pending, it empties its queues: peers that asked are
    answered first, with the list as it was; then every request takes effect on
    the state the requests before it left, in order, with the events, the
    commands and the answers the specification gives; events that were waiting
    and the errors of this round come last. *)
Theorem requests_take_effect_in_order s : settled s (drain (S (backlog s)) s).
Proof. apply queue_drain_spec. lia. Qed.

(** What the swarm reports while it works off the queues of [s]. *)
Definition reported (s : Advertise.Behaviour) : list (Recv Advertise.OutEvent) :=
  Got <$> events (drain (S (backlog s)) s).1.1.

Lemma reported_push ev s :
  reported (Advertise.push_event ev s) =
  Got <$> (gens (todo s) ++ gens (effect_of (Advertise.connected_peers s) ev (views (Advertise.in_events s) (view s)))
           ++ Advertise.pending_out_events s ++
           errs (todo s) ++ errs (effect_of (Advertise.connected_peers s) ev (views (Advertise.in_events s) (view s)))).
Proof.
  unfold reported. pose proof (queue_drain_spec _ (Advertise.push_event ev s) (Nat.lt_succ_diag_r _)) as H.
  destruct (drain _ _) as [[evs s'] sent]. destruct H as (_ & _ & _ & He & _). cbn [fst]. rewrite He.
  unfold todo. simpl. rewrite effects_app, gens_app, errs_app. simpl. by rewrite !app_nil_r, <-!app_assoc.
Qed.

Lemma gens_no_answer s relay : omap (query_answer relay) (gens (todo s)) = [].
Proof.
  unfold todo. generalize (view s). induction (Advertise.in_events s) as [|ev evs IH]; intros v; [done|].
  simpl. rewrite gens_app, omap_app, IH, app_nil_r. destruct ev; simpl; try done. by destruct decide.
Qed.

Lemma gens_no_change s p : Advertise.RemoveAdvertised p ∉ Advertise.in_events s →
  omap (changed_answer p) (gens (todo s)) = [].
Proof.
  unfold todo. generalize (view s). induction (Advertise.in_events s) as [|ev evs IH]; intros v Hn; [done|].
  simpl. rewrite gens_app, omap_app, IH, app_nil_r by set_solver.
  destruct ev as [| |peer| |peer| | |]; simpl; try done; [by destruct decide|].
  rewrite decide_False; [done|]. intros ->. apply Hn. left.
Qed.

Lemma errs_not_providing s relay :
  Forall (λ r, r = Err (Advertise.NotProviding relay)) (omap (query_answer relay) (errs (todo s))).
Proof.
  unfold todo. generalize (view s). induction (Advertise.in_events s) as [|ev evs IH]; intros v; [constructor|].
  simpl. rewrite errs_app, omap_app. apply Forall_app. split; [|apply IH].
  destruct ev as [| |peer| |peer| | |]; simpl; try constructor.
  destruct decide; simpl; [constructor|]. destruct decide as [->|]; repeat constructor.
Qed.

Lemma head_app_all {A} (l1 l2 : list A) x : Forall (λ y, y = x) l1 → head (l1 ++ x :: l2) = Some x.
Proof. by destruct 1 as [|y l1 ->]. Qed.

(** The calls that listen for an event report the effect of their own
    request.  Removing an advertisement answers whether the peer was advertised
    when the request was carried out, unless another removal of the same peer
    was already waiting; asking a peer that is not connected for its
    advertisements answers that it is not providing, unless an answer of that
    peer to an earlier query was still waiting.  Neither depends on what else is
    in the queues or on the deadline. *)
Theorem calls_report_their_effect s p elapsed :
  (Advertise.RemoveAdvertised p ∉ Advertise.in_events s →
   let s' := Advertise.push_event (Advertise.RemoveAdvertised p) s in
   remove_advertised true p (reported s') elapsed s =
     Return (Ready (Ok (bool_decide (p ∈ (views (Advertise.in_events s) (view s)).1))), s')) ∧
  (p ∉ Advertise.connected_peers s →
   Forall (λ r, r = Err (Advertise.NotProviding p)) (omap (query_answer p) (Advertise.pending_out_events s)) →
   let s' := Advertise.push_event (Advertise.QueryAdvertisedPeer p) s in
   query_advertised_peer true p (reported s') elapsed s =
     Return (Ready (Err (Advertise.NotProviding p)), s')).
Proof.
  split.
  - intros Hn s'. unfold remove_advertised, handler_method_silent, serve. cbn. unfold s'.
    rewrite reported_push, listen_first, !omap_app, gens_no_change by done. cbn.
    by rewrite decide_True.
  - intros Hc Ho s'. unfold query_advertised_peer, handler_method_silent, serve. cbn. unfold s'.
    rewrite reported_push, listen_first, !omap_app, gens_no_answer. cbn.
    rewrite decide_False by done. cbn. rewrite decide_True by done. rewrite app_assoc, head_app_all; [done|].
    apply Forall_app. split; [done|apply errs_not_providing].
Qed.

(** ** cli *)
Inductive Provider := Start | Stop | State | ListAdvertised | RemoveAdvertise (peer : PeerId) | ClearAdvertised.
Inductive Command :=
| SetRemoteAdvertisement (remote : PeerId) (state : bool)
| QueryAdvertised (remote : PeerId)
| ProviderCommand (c : Provider).

(** What is printed for the answer to a query: a line, or the table's peers. *)
Definition query_output (remote : PeerId) (r : result (option (list PeerId)) Advertise.Error)
    : string + list PeerId :=
  match r with
  | Ok None => inl ("Remote " +:+ peer_display remote +:+ " is not providing")
  | Ok (Some list) => inr list
  | Err _ => inl ("Remote " +:+ peer_display remote +:+ " is not connected or doesn't support `owlput-advertise`.")
  end.
Definition bool_display (b : bool) : string := if b then "true" else "false".
(** The two lines printed for a removal. *)
Definition remove_output (peer : PeerId) (r : result bool error.OperationError) : string * string :=
  (match r with
   | Ok v => "Local provider state is set to: " +:+ bool_display v
   | Err e => "Cannot RemoveAdvertise: " +:+ error.OperationError_fmt e
   end, "Advertisement for peer " +:+ peer_display peer +:+ " is removed").
End handle.

(** ** Witness *)
Section witnesses.
#[local] Existing Instance demo_platform.
#[local] Abbreviation peer n := (n%N : @PeerId demo_platform).

Definition demo_state : Advertise.Behaviour := {|
  Advertise.config := Advertise.Config_default;
  Advertise.pending_out_events := [Advertise.ProviderState true];
  Advertise.in_events := [Advertise.ListAdvertised {| cb_id := 1; cb_open := true |};
                          Advertise.QueryAdvertisedPeer (peer 6)];
  Advertise.advertised_peers := {[ peer 4 ]};
  Advertise.pending_query_answer := [peer 9];
  Advertise.connected_peers := {[ peer 6 ]};
  Advertise.is_providing := true;
|}.

Lemma calls_report_their_effect_witness :
  remove_advertised true (peer 4)
    (reported (Advertise.push_event (Advertise.RemoveAdvertised (peer 4)) demo_state)) true demo_state =
    Return (Ready (Ok true), Advertise.push_event (Advertise.RemoveAdvertised (peer 4)) demo_state) ∧
  query_advertised_peer true (peer 4)
    (reported (Advertise.push_event (Advertise.QueryAdvertisedPeer (peer 4)) demo_state)) true demo_state =
    Return (Ready (Err (Advertise.NotProviding (peer 4))),
            Advertise.push_event (Advertise.QueryAdvertisedPeer (peer 4)) demo_state).
Proof.
  destruct (calls_report_their_effect demo_state (peer 4) true) as [H1 H2]. split.
  - refine (eq_trans (H1 _) _); [|vm_compute; reflexivity].
    intros H. apply elem_of_cons in H as [H|H]; [discriminate H|].
    apply elem_of_cons in H as [H|H]; [discriminate H|]. inversion H.
  - apply H2.
    + apply (bool_decide_unpack _). vm_compute. exact I.
    + repeat constructor.
Defined.
End witnesses.
End AdvertiseHandle.
