(* ===== verification/AdvertiseTransfer.v ===== *)
(** * Discovery, end to end

    Module [AdvertiseTransfer]: the advertise protocol of three nodes.  A packet
    waits in one behaviour, is handed to the handler of a connection, crosses the
    stream as a frame of the universal protocol and reaches the other behaviour;
    a peer that had itself advertised is found by a peer that asks.  The steps
    are those of [Advertise] and [UniversalProtocol]. *)

From stdpp Require Import base gmap sets list strings fin_maps.
From Stdlib Require Import Lia NArith.
From S2P Require Import Prelude Std Core Stream Wire BlobProtocol UniversalProtocol Messaging Advertise.
Import Wire.

Module AdvertiseTransfer.
Section transfer.
Context {P : Platform} {json : Messaging.Json Advertise.Packet} {laws : Messaging.JsonLaws Advertise.Packet}.
Context {St : Type} {io : AsyncIO St} {rel : ReliableIO St} {net : Network St}.
Abbreviation Behaviour := Advertise.Behaviour.
Abbreviation Handler := (Advertise.Handler St).
Abbreviation Answer := Advertise.Answer.

(** ** One packet *)

(** The poll contexts: nothing has happened yet, the receiver's future is
    done, the sender's first future is done. *)
Definition cx_waiting (timer : PollCx) : Advertise.HandlerCx St :=
  {| Advertise.cx_timer := timer; Advertise.cx_recv := λ _, Pending; Advertise.cx_send := λ _ _, Pending |}.
Definition cx_received (timer : PollCx) (r : Poll (result (St * bytes) IoError)) : Advertise.HandlerCx St :=
  {| Advertise.cx_timer := timer; Advertise.cx_recv := λ _, r; Advertise.cx_send := λ _ _, Pending |}.
Definition cx_sent (timer : PollCx) (r : Poll (result (St * N) IoError)) : Advertise.HandlerCx St :=
  {| Advertise.cx_timer := timer; Advertise.cx_recv := λ _, Pending;
     Advertise.cx_send := λ k _, match k with O => r | S _ => Pending end |}.

(** The behaviour is polled; a command for [to] goes to the handler of the
    connection with it, which starts to send. *)
Definition post (timer : PollCx) (to : PeerId) (s : Behaviour) (h : Handler)
    : outcome (Behaviour * Handler * list (Sent Answer)) :=
  let '(r, s, sent) := Advertise.poll s in
  match r with
  | Ready (NotifyHandler p _ ev) =>
      if decide (p = to) then
        ' (_, h) ← Advertise.handler_poll (cx_waiting timer) (Advertise.on_behaviour_event ev h);
        Return (s, h, sent)
      else Return (s, h, sent)
  | _ => Return (s, h, sent)
  end.

(** The handler is polled and its behaviour told. *)
Definition receive (timer : PollCx) (from : PeerId) (r : Poll (result (St * bytes) IoError)) (s : Behaviour)
    (h : Handler) : outcome (Behaviour * Handler) :=
  ' (p, h) ← Advertise.handler_poll (cx_received timer r) h;
  match p with
  | Ready (NotifyBehaviour ev) => Return (Advertise.on_connection_handler_event from ev s, h)
  | _ => Return (s, h)
  end.

(** From one node to another, over the handlers of their connection. *)
Definition cross (timer : PollCx) (fuel : nat) (elapsed : N) (from to : PeerId)
    (a : Behaviour) (ha : Handler) (b : Behaviour) (hb : Handler)
    : outcome (Behaviour * Handler * Behaviour * Handler * list (Sent Answer)) :=
  ' (a, ha, sent) ← post timer to a ha;
  match Advertise.outbound ha, Advertise.inbound hb with
  | Some (Advertise.Busy task _), Some fut =>
      ' (ra, rb) ← universal_exchange fuel elapsed (Advertise.st_buf task) (Advertise.st_stream task) (Advertise.rt_stream fut);
      ' (b, hb) ← receive timer from rb b hb;
      ' (_, ha) ← Advertise.handler_poll (cx_sent timer ra) ha;
      Return (a, ha, b, hb, sent)
  | _, _ => Return (a, ha, b, hb, sent)
  end.

(** ** A connection at rest *)
Definition conn_ready (h : Handler) : Prop :=
  Advertise.state h = Advertise.Active ∧ Advertise.h_in_events h = [] ∧ Advertise.h_out_events h = [] ∧
  ∃ si so, Advertise.inbound h = Some {| Advertise.rt_stream := si |} ∧
    Advertise.outbound h = Some (Advertise.Idle so) ∧ quiet si ∧ quiet so.

(** The time of a request does not run out at once. *)
Definition starts (timer : PollCx) (h : Handler) : Prop :=
  (delay_poll timer (delay_new (Advertise.timeout h))).1 = false.

(** A packet that can be sent in one frame. *)
Definition fits (fuel : nat) (p : Advertise.Packet) : Prop :=
  ∃ bs, Advertise.as_bytes p = Return bs ∧ bs ≠ [] ∧ (N.of_nat (length bs) ≤ UNIVERSAL_MAX)%N ∧ length bs < fuel.

(** A handler with a packet under way. *)
Definition with_task (h : Handler) (d : Delay) (s : St) (bs : bytes) : Handler :=
  Advertise.set_outbound (Some (Advertise.Busy {| Advertise.st_stream := s; Advertise.st_buf := bs |} d)) h.

Lemma packet_posted timer to s s' h ev sent bs :
  Advertise.poll s = (Ready (NotifyHandler to Any ev), s', sent) → conn_ready h → starts timer h →
  Advertise.as_bytes (Advertise.outgoing ev) = Return bs →
  ∃ d so, Advertise.outbound h = Some (Advertise.Idle so) ∧ quiet so ∧
    post timer to s h = Return (s', with_task h d so bs, sent).
Proof.
  intros Hp. unfold post. rewrite Hp, decide_True by done. destruct h as [st ins outs T inb outb].
  unfold conn_ready, starts. simpl. intros (-> & -> & -> & si & so & -> & -> & Hqi & Hqo) Htimer Hb.
  unfold Advertise.handler_poll, Advertise.poll_outbound. cbn -[Advertise.as_bytes]. rewrite Hb. cbn.
  destruct (delay_poll timer (delay_new T)) as [ready d]. simpl in Htimer. subst ready. cbn.
  by exists d, so.
Qed.

Lemma packet_received timer from p bs si s h :
  conn_ready h → quiet si → Advertise.as_bytes p = Return bs →
  ∃ h', receive timer from (Ready (Ok (si, bs))) s h =
      Return (Advertise.on_connection_handler_event from (Advertise.from_Packet p) s, h') ∧
    conn_ready h' ∧ Advertise.timeout h' = Advertise.timeout h.
Proof.
  destruct h as [st ins outs T inb outb]. unfold conn_ready. simpl.
  intros (-> & -> & -> & si' & so & -> & -> & _ & Hqo) Hq Hb.
  unfold receive, Advertise.handler_poll, Advertise.poll_inbound, Advertise.poll_outbound. simpl.
  unfold Advertise.as_bytes in Hb. destruct (Messaging.to_vec p) as [bs'|] eqn:E; [|done]. injection Hb as <-.
  rewrite (Messaging.json_roundtrip _ _ E). cbn -[Advertise.on_connection_handler_event].
  eexists. split; [done|]. cbn. split; [|done]. split_and!; try done. by exists si, so.
Qed.

Lemma packet_sent timer d so so' bs elapsed h :
  conn_ready h → quiet so' →
  ∃ p h', Advertise.handler_poll (cx_sent timer (Ready (Ok (so', elapsed)))) (with_task h d so bs) = Return (p, h') ∧
    conn_ready h' ∧ Advertise.timeout h' = Advertise.timeout h.
Proof.
  destruct h as [st ins outs T inb outb]. unfold conn_ready. simpl.
  intros (-> & -> & -> & si & so0 & -> & -> & Hqi & _) Hq.
  unfold Advertise.handler_poll, Advertise.poll_outbound. cbn.
  eexists _, _. split; [done|]. cbn. split; [|done]. split_and!; try done. by exists si, so'.
Qed.

(** What the behaviour of one node hands out is what the other one is told. *)
Lemma cross_ok timer fuel elapsed from to a a' ha b hb ev sent :
  Advertise.poll a = (Ready (NotifyHandler to Any ev), a', sent) →
  conn_ready ha → conn_ready hb → starts timer ha → fits fuel (Advertise.outgoing ev) →
  ∃ ha' hb', cross timer fuel elapsed from to a ha b hb =
      Return (a', ha', Advertise.on_connection_handler_event from (Advertise.from_Packet (Advertise.outgoing ev)) b,
              hb', sent) ∧
    conn_ready ha' ∧ conn_ready hb' ∧
    Advertise.timeout ha' = Advertise.timeout ha ∧ Advertise.timeout hb' = Advertise.timeout hb.
Proof.
  intros Hp Ha Hb Htimer (bs & Hbytes & Hne & Hmax & Hfuel). unfold cross.
  destruct (packet_posted timer to a a' ha ev sent bs Hp Ha Htimer Hbytes) as (d & so & _ & Hqo & ->). cbn [obind].
  pose proof Hb as (_ & _ & _ & si & sob & Hin & _ & Hqi & _). rewrite Hin. unfold with_task at 1.
  cbn [Advertise.outbound Advertise.set_outbound Advertise.st_buf Advertise.st_stream Advertise.rt_stream].
  destruct (universal_exchange_ok fuel elapsed bs so si Hqo Hqi Hne Hmax Hfuel) as (so' & si' & -> & Hqo' & Hqi').
  cbn [obind].
  destruct (packet_received timer from _ bs si' b hb Hb Hqi' Hbytes) as (hb' & -> & Hb' & HTb). cbn [obind].
  destruct (packet_sent timer d so so' bs elapsed ha Ha Hqo') as (p & ha' & -> & Ha' & HTa). cbn [obind].
  by exists ha', hb'.
Qed.

(** ** Three nodes *)

(** [pa] asks [pb] to be advertised, [pc] asks [pb] whom it advertises, and
    polls for the answer.  [pb] has a handler for each. *)
Definition discover (timer : PollCx) (fuel : nat) (elapsed : N) (pa pb pc : PeerId)
    (a : Behaviour) (ha : Handler) (b : Behaviour) (hba hbc : Handler) (c : Behaviour) (hc : Handler)
    : outcome (list (Sent Answer) * Poll (ToSwarm Advertise.OutEvent Advertise.FromBehaviour)) :=
  ' (_, _, b, _, sent) ← cross timer fuel elapsed pa pb a ha b hba;
  ' (c, hc, b, hbc, _) ← cross timer fuel elapsed pc pb c hc b hbc;
  ' (_, _, c, _, _) ← cross timer fuel elapsed pb pc b hbc c hc;
  Return (sent, (Advertise.poll c).1.1).

(** The peers a node advertises once [pa] asked it to. *)
Definition advertised_with (pa : PeerId) (s : Behaviour) : gset PeerId :=
  if (N.of_nat (size (Advertise.advertised_peers s)) <=? Advertise.max_advertise_capacity (Advertise.config s))%N
  then {[pa]} ∪ Advertise.advertised_peers s else Advertise.advertised_peers s.
Definition answer_of (pa : PeerId) (s : Behaviour) : option (list PeerId) :=
  if Advertise.is_providing s then Some (hs_iter (advertised_with pa s)) else None.

(** Discovery.  When a node's request to be advertised has reached a
    provider, a node that is connected to it and asks gets, in the answer to its
    own query, exactly the peers the provider advertised before and the new one,
    unless the provider was beyond its capacity; a node that is not a provider
    answers that it has nothing to tell.  The caller of the first request is
    answered as soon as the request was handed to the handler. *)
Theorem advertised_peer_is_found timer fuel elapsed pa pb pc cb a ha b hba hbc c hc rest :
  Advertise.pending_query_answer a = [] →
  Advertise.in_events a = Advertise.SetRemoteAdvertisement pb true cb :: rest →
  Advertise.pending_query_answer b = [] →
  Advertise.pending_query_answer c = [] → Advertise.pending_out_events c = [] →
  Advertise.in_events c = [Advertise.QueryAdvertisedPeer pb] → pb ∈ Advertise.connected_peers c →
  Forall conn_ready [ha; hba; hbc; hc] → Forall (starts timer) [ha; hbc; hc] →
  Forall (fits fuel) [Advertise.PAdvertiseSelf true; Advertise.PQueryAdvertisedPeer;
                      Advertise.PAnswerAdvertisedPeer (answer_of pa b)] →
  discover timer fuel elapsed pa pb pc a ha b hba hbc c hc =
    Return ([Answered cb Advertise.AnsUnit],
            Ready (GenerateEvent (Advertise.QueryAnswered pb (answer_of pa b)))) ∧
  ∀ l, answer_of pa b = Some l → NoDup l ∧ ∀ p, p ∈ l ↔ p ∈ advertised_with pa b.
Proof.
  intros Hqa Hia Hqb Hqc Hoc Hic Hconn Hready Htimer Hfits.
  rewrite !Forall_cons in Hready. rewrite !Forall_cons in Htimer. rewrite !Forall_cons in Hfits.
  destruct Hready as (Hha & Hhba & Hhbc & Hhc & _), Htimer as (Ha & Hb & Hc & _), Hfits as (Fs & Fq & Fr & _).
  split.
  2: { unfold answer_of. intros l. destruct (Advertise.is_providing b); [|done]. intros [= <-]. split.
       - rewrite hs_iter_perm. apply NoDup_elements.
       - intros p. by rewrite elem_of_hs_iter. }
  unfold discover.
  destruct (cross_ok timer fuel elapsed pa pb a (Advertise.set_in rest a) ha b hba
    (Advertise.HSetAdvertiseSelf true) [Answered cb Advertise.AnsUnit]) as (? & ? & -> & _); try done.
  { unfold Advertise.poll, Advertise.handle_in_event. by rewrite Hqa, Hia. }
  cbn [obind]. set (b1 := Advertise.on_connection_handler_event pa _ b).
  assert (Hb1 : Advertise.pending_query_answer b1 = [] ∧ Advertise.is_providing b1 = Advertise.is_providing b ∧
    Advertise.advertised_peers b1 = advertised_with pa b).
  { subst b1. unfold advertised_with. cbn. by destruct (_ <=? _)%N. }
  clearbody b1. destruct Hb1 as (Hq1 & Hp1 & Ha1).
  destruct (cross_ok timer fuel elapsed pc pb c (Advertise.set_in [] c) hc b1 hbc
    Advertise.HQueryAdvertisedPeer []) as (hc1 & hbc1 & -> & Hhc1 & Hhbc1 & HTc & HTb); try done.
  { unfold Advertise.poll, Advertise.handle_in_event. rewrite Hqc, Hic. cbn. by rewrite decide_True. }
  cbn [obind].
  destruct (cross_ok timer fuel elapsed pb pc (Advertise.set_queries [pc] b1) (Advertise.set_queries [] b1) hbc1
    (Advertise.set_in [] c) hc1 (Advertise.HAnswerAdvertisedPeer (answer_of pa b)) [])
    as (? & ? & Hcross & _); try done.
  { unfold Advertise.poll, answer_of. cbn. by rewrite Hp1, Ha1. }
  { unfold starts. by rewrite HTb. }
  cbn [Advertise.from_Packet Advertise.outgoing Advertise.on_connection_handler_event] in Hcross |- *.
  rewrite Hq1. cbn [app]. rewrite Hcross. cbn [obind]. do 2 f_equal.
  unfold Advertise.poll, Advertise.handle_in_event. cbn. by rewrite Hqc, Hoc.
Qed.
End transfer.

(** ** Witness: a provider that advertises one peer already *)
Section witnesses.
#[local] Existing Instance demo_platform.
#[local] Existing Instance Advertise.packet_json.
#[local] Existing Instance Advertise.packet_json_laws.
#[local] Abbreviation peer n := (n%N : @PeerId demo_platform).

Definition demo_conn : Advertise.Handler Pipe :=
  let s := {| p_in := []; p_out := []; p_step := λ _, 1; p_calls := 0 |} in
  Advertise.set_inbound (Some {| Advertise.rt_stream := s |})
    (Advertise.set_outbound (Some (Advertise.Idle s)) Advertise.Handler_new).
Definition demo_cb : Callback := {| cb_id := 0; cb_open := true |}.
Definition demo_asker : Advertise.Behaviour :=
  Advertise.push_event (Advertise.SetRemoteAdvertisement (peer 2) true demo_cb) (Advertise.new Advertise.Config_default).
Definition demo_provider : Advertise.Behaviour :=
  Advertise.set_advertised {[ peer 9 ]} (Advertise.set_provider_status true (Advertise.new Advertise.Config_default)).
Definition demo_seeker : Advertise.Behaviour :=
  Advertise.push_event (Advertise.QueryAdvertisedPeer (peer 2))
    (Advertise.set_connected {[ peer 2 ]} (Advertise.new Advertise.Config_default)).

Lemma advertised_peer_is_found_witness :
  ∃ l, discover (0%N : @PollCx demo_platform) 100 5 (peer 1) (peer 2) (peer 3)
      demo_asker demo_conn demo_provider demo_conn demo_conn demo_seeker demo_conn =
    Return ([Answered demo_cb Advertise.AnsUnit],
            Ready (GenerateEvent (Advertise.QueryAnswered (peer 2) (Some l)))) ∧
    peer 1 ∈ l ∧ peer 9 ∈ l.
Proof.
  destruct (advertised_peer_is_found (0%N : @PollCx demo_platform) 100 5 (peer 1) (peer 2) (peer 3) demo_cb
    demo_asker demo_conn demo_provider demo_conn demo_conn demo_seeker demo_conn []) as [H1 H2].
  1-6: reflexivity.
  - vm_compute. done.
  - assert (conn_ready demo_conn) as Hc
      by (repeat (split; [done|]); eexists _, _; by repeat (split; [reflexivity|])).
    by repeat (apply Forall_cons_2; [exact Hc|]).
  - by repeat (apply Forall_cons_2; [reflexivity|]).
  - repeat (apply Forall_cons_2; [eexists; split; [reflexivity|]; split; [done|]; split; [vm_compute; done|vm_compute; lia]|]).
    apply Forall_nil_2.
  - exists (hs_iter (advertised_with (peer 1) demo_provider)). split; [exact H1|].
    destruct (H2 _ eq_refl) as [_ H3]. split; apply H3; vm_compute; done.
Defined.
End witnesses.
End AdvertiseTransfer.
