(* ===== verification/AdvertiseSession.v ===== *)
(** * A provider and its clients, over a whole session, and the test of the
    repository

    Module [AdvertiseSession]: peers connect to a provider, ask to be advertised
    or not to be any more, ask whom it advertises, and leave; the provider is
    started, stopped and edited.  The abstract state is a registry; the
    behaviours, their handlers and the wire between them implement it.  The test
    of [advertise.rs] is a session of this kind. *)

From stdpp Require Import base gmap sets list strings fin_maps fin_map_dom.
From Stdlib Require Import Lia NArith.
From S2P Require Import Prelude Std Core Stream Wire UniversalProtocol Messaging Advertise AdvertiseTransfer.
Import Wire AdvertiseTransfer.

Module AdvertiseSession.
Section session.
Context {P : Platform} {json : Messaging.Json Advertise.Packet} {laws : Messaging.JsonLaws Advertise.Packet}.
Context {St : Type} {io : AsyncIO St} {rel : ReliableIO St} {net : Network St}.
Context (timer : PollCx) (fuel : nat) (elapsed : N).

Abbreviation Behaviour := Advertise.Behaviour.
Abbreviation Handler := (Advertise.Handler St).
Abbreviation Answer := Advertise.Answer.
Abbreviation OutEvent := Advertise.OutEvent.

(** A client: its behaviour, its handler, the provider's handler of the
    connection. *)
Record Client := { c_behav : Behaviour; c_handler : Handler; p_handler : Handler }.
Record Hub := { id : PeerId; provider : Behaviour; clients : gmap PeerId Client }.
Definition with_provider (b : Behaviour) (n : Hub) : Hub := {| id := id n; provider := b; clients := clients n |}.

(** What happens, and what comes of it: answers to callers, events with the node
    whose application hears them. *)
Inductive Act :=
| SetProvider (state : bool) (callback : Callback)
| Remove (peer : PeerId)
| Clear
| Join (peer : PeerId) (client : Client)
| Leave (peer : PeerId)
| Ask (peer : PeerId) (state : bool) (callback : Callback)
| Query (peer : PeerId).
Record Heard := { replies : list (Sent Answer); events : list (PeerId * OutEvent) }.
Definition silence : Heard := {| replies := []; events := [] |}.

Definition event_of (who : PeerId) (p : Poll (ToSwarm OutEvent Advertise.FromBehaviour)) : list (PeerId * OutEvent) :=
  match p with Ready (GenerateEvent e) => [(who, e)] | _ => [] end.

(** A request to the provider's own behaviour. *)
Definition request (ev : Advertise.InEvent) (n : Hub) : Hub * Heard :=
  let '(p, b, sent) := Advertise.poll (Advertise.push_event ev (provider n)) in
  (with_provider b n, {| replies := sent; events := event_of (id n) p |}).

(** A request of a client that crosses. *)
Definition ask (p : PeerId) (c : Client) (state : bool) (cb : Callback) (n : Hub) : outcome (Hub * Heard) :=
  ' (s, h, b, hb, sent) ← cross timer fuel elapsed p (id n)
      (Advertise.push_event (Advertise.SetRemoteAdvertisement (id n) state cb) (c_behav c)) (c_handler c)
      (provider n) (p_handler c);
  let c := {| c_behav := s; c_handler := h; p_handler := hb |} in
  Return ({| id := id n; provider := b; clients := <[p := c]> (clients n) |}, {| replies := sent; events := [] |}).

(** The query crosses, the answer comes back, the client hears of it. *)
Definition query_provider (p : PeerId) (c : Client) (n : Hub) : outcome (Hub * Heard) :=
  ' (s, h, b, hb, sent) ← cross timer fuel elapsed p (id n)
      (Advertise.push_event (Advertise.QueryAdvertisedPeer (id n)) (c_behav c)) (c_handler c)
      (provider n) (p_handler c);
  ' (b, hb, s, h, sent') ← cross timer fuel elapsed (id n) p b hb s h;
  let '(r, s, sent'') := Advertise.poll s in
  let c := {| c_behav := s; c_handler := h; p_handler := hb |} in
  Return ({| id := id n; provider := b; clients := <[p := c]> (clients n) |},
          {| replies := sent ++ sent' ++ sent''; events := event_of p r |}).

Definition act (x : Act) (n : Hub) : outcome (Hub * Heard) :=
  match x with
  | SetProvider state cb => Return (request (Advertise.SetProviderState state cb) n)
  | Remove peer => Return (request (Advertise.RemoveAdvertised peer) n)
  | Clear => Return (request Advertise.ClearAdvertised n)
  | Join peer c =>
      match clients n !! peer with
      | Some _ => Return (n, silence)
      | None => Return ({| id := id n; provider := provider n; clients := <[peer := c]> (clients n) |}, silence)
      end
  | Leave peer =>
      match clients n !! peer with
      | Some _ =>
          let closed := {| cc_peer_id := peer; cc_remaining_established := 0 |} in
          let b := Advertise.on_swarm_event (FromSwarmConnectionClosed closed) (provider n) in
          Return ({| id := id n; provider := b; clients := delete peer (clients n) |}, silence)
      | None => Return (n, silence)
      end
  | Ask peer state cb =>
      match clients n !! peer with Some c => ask peer c state cb n | None => Return (n, silence) end
  | Query peer =>
      match clients n !! peer with Some c => query_provider peer c n | None => Return (n, silence) end
  end.

Fixpoint session (acts : list Act) (n : Hub) : outcome (Hub * list Heard) :=
  match acts with
  | [] => Return (n, [])
  | x :: acts =>
      ' (n, h) ← act x n;
      ' (n, hs) ← session acts n;
      Return (n, h :: hs)
  end.

(** ** The abstract session *)
Record Registry := { providing : bool; ads : gset PeerId; here : gset PeerId }.
Definition set_ads (s : gset PeerId) (r : Registry) : Registry :=
  {| providing := providing r; ads := s; here := here r |}.
Definition told (r : Registry) : option (list PeerId) :=
  if providing r then Some (hs_iter (ads r)) else None.
Definition asked (capacity : N) (p : PeerId) (state : bool) (r : Registry) : gset PeerId :=
  if state then (if (N.of_nat (size (ads r)) <=? capacity)%N then {[p]} ∪ ads r else ads r) else ads r ∖ {[p]}.

Definition spec_act (me : PeerId) (capacity : N) (x : Act) (r : Registry) : Registry * Heard :=
  match x with
  | SetProvider state cb =>
      ({| providing := state; ads := ads r; here := here r |},
       {| replies := [Answered cb (Advertise.AnsState state)]; events := [(me, Advertise.ProviderState state)] |})
  | Remove p =>
      (set_ads (ads r ∖ {[p]}) r,
       {| replies := []; events := [(me, Advertise.AdvertisedPeerChanged p (bool_decide (p ∈ ads r)))] |})
  | Clear => (set_ads ∅ r, silence)
  | Join p _ => ({| providing := providing r; ads := ads r; here := {[p]} ∪ here r |}, silence)
  | Leave p => ({| providing := providing r; ads := ads r ∖ {[p]}; here := here r ∖ {[p]} |}, silence)
  | Ask p state cb =>
      if decide (p ∈ here r)
      then (set_ads (asked capacity p state r) r, {| replies := [Answered cb Advertise.AnsUnit]; events := [] |})
      else (r, silence)
  | Query p =>
      if decide (p ∈ here r)
      then (r, {| replies := []; events := [(p, Advertise.QueryAnswered me (told r))] |})
      else (r, silence)
  end.
Fixpoint spec_session (me : PeerId) (capacity : N) (acts : list Act) (r : Registry) : Registry * list Heard :=
  match acts with
  | [] => (r, [])
  | x :: acts =>
      let '(r, h) := spec_act me capacity x r in
      let '(r, hs) := spec_session me capacity acts r in (r, h :: hs)
  end.

(** ** The nodes implement it *)
Definition client_ready (me : PeerId) (c : Client) : Prop :=
  Advertise.pending_query_answer (c_behav c) = [] ∧ Advertise.in_events (c_behav c) = [] ∧
  Advertise.pending_out_events (c_behav c) = [] ∧ me ∈ Advertise.connected_peers (c_behav c) ∧
  conn_ready (c_handler c) ∧ conn_ready (p_handler c) ∧ starts timer (c_handler c) ∧ starts timer (p_handler c).

Record implements (capacity : N) (r : Registry) (n : Hub) : Prop := {
  im_queries : Advertise.pending_query_answer (provider n) = [];
  im_in : Advertise.in_events (provider n) = [];
  im_out : Advertise.pending_out_events (provider n) = [];
  im_capacity : Advertise.max_advertise_capacity (Advertise.config (provider n)) = capacity;
  im_providing : Advertise.is_providing (provider n) = providing r;
  im_ads : Advertise.advertised_peers (provider n) = ads r;
  im_here : dom (clients n) = here r;
  im_clients : map_Forall (λ _ c, client_ready (id n) c) (clients n);
  im_connected : ads r ⊆ here r;
}.

(** The packets fit in a frame, the answers as long as they name peers of [all]. *)
Definition packets_fit (all : gset PeerId) : Prop :=
  (∀ state, fits fuel (Advertise.PAdvertiseSelf state)) ∧ fits fuel Advertise.PQueryAdvertisedPeer ∧
  fits fuel (Advertise.PAnswerAdvertisedPeer None) ∧
  ∀ l, NoDup l → (∀ p, p ∈ l → p ∈ all) → fits fuel (Advertise.PAnswerAdvertisedPeer (Some l)).
Definition act_ok (me : PeerId) (all : gset PeerId) (x : Act) : Prop :=
  match x with Join p c => p ∈ all ∧ client_ready me c | _ => True end.

Lemma request_implements capacity r n x ev :
  match x with SetProvider s cb => ev = Advertise.SetProviderState s cb | Remove p => ev = Advertise.RemoveAdvertised p
             | Clear => ev = Advertise.ClearAdvertised | _ => False end →
  implements capacity r n →
  let '(r', h) := spec_act (id n) capacity x r in
  ∃ n', request ev n = (n', h) ∧ implements capacity r' n' ∧ id n' = id n.
Proof.
  intros Hx []. unfold request, Advertise.poll, Advertise.handle_in_event, Advertise.push_event.
  cbn [Advertise.pending_query_answer Advertise.set_in Advertise.in_events].
  rewrite im_queries0, im_in0. cbn [app].
  destruct x as [s cb|p| | | | |]; try done; subst ev; simpl.
  - eexists. split; [reflexivity|]. split; [|done]. by split.
  - rewrite im_ads0. eexists. split; [reflexivity|]. split; [|done]. split; try done; simpl; set_solver.
  - rewrite im_out0. eexists. split; [reflexivity|]. split; [|done]. split; try done; simpl; set_solver.
Qed.
(** A client that has sent something is ready again. *)
Lemma client_ready_after me c s h hb :
  client_ready me c → Advertise.pending_query_answer s = [] → Advertise.in_events s = [] →
  Advertise.pending_out_events s = [] → Advertise.connected_peers s = Advertise.connected_peers (c_behav c) →
  conn_ready h → conn_ready hb → Advertise.timeout h = Advertise.timeout (c_handler c) →
  Advertise.timeout hb = Advertise.timeout (p_handler c) →
  client_ready me {| c_behav := s; c_handler := h; p_handler := hb |}.
Proof.
  intros (_ & _ & _ & Hme & _ & _ & Hsh & Hsb) Hq Hi Ho Hc Hh Hhb HT HTb. unfold client_ready, starts in *.
  cbn [c_behav c_handler p_handler]. rewrite HT, HTb, Hc. by split_and!.
Qed.

Lemma ask_implements capacity all r n p c state cb :
  implements capacity r n → packets_fit all → clients n !! p = Some c →
  ∃ n', ask p c state cb n = Return (n', {| replies := [Answered cb Advertise.AnsUnit]; events := [] |}) ∧
    implements capacity (set_ads (asked capacity p state r) r) n' ∧ id n' = id n.
Proof.
  intros [] (Hfits & _) Hc. pose proof (im_clients0 _ _ Hc) as Hready. simpl in Hready.
  pose proof Hready as (Hq & Hi & Ho & Hme & Hh & Hhb & Hsh & Hsb).
  unfold ask. set (s0 := Advertise.push_event _ _).
  destruct (cross_ok timer fuel elapsed p (id n) s0 (Advertise.set_in [] s0) (c_handler c) (provider n) (p_handler c)
    (Advertise.HSetAdvertiseSelf state) [Answered cb Advertise.AnsUnit]) as (h & hb & -> & Hh' & Hhb' & HT & HTb); try done.
  { unfold Advertise.poll, Advertise.handle_in_event, s0, Advertise.push_event. cbn. by rewrite Hq, Hi. }
  { apply Hfits. }
  cbn [obind Advertise.outgoing Advertise.from_Packet]. eexists. split; [reflexivity|]. split; [|done].
  assert (Hphere : p ∈ here r) by (rewrite <-im_here0; by apply elem_of_dom_2 in Hc).
  assert (Hb : ∀ s, Advertise.on_connection_handler_event p (Advertise.IncomingAdvertiseReq s) (provider n) =
    Advertise.set_advertised (asked capacity p s r) (provider n)).
  { intros []; simpl; rewrite ?im_capacity0, ?im_ads0; [|done].
    unfold asked. case_match; [done|]. rewrite <-im_ads0. by destruct (provider n). }
  rewrite Hb. split; cbn [provider clients id Advertise.pending_query_answer Advertise.in_events Advertise.pending_out_events
    Advertise.config Advertise.is_providing Advertise.advertised_peers Advertise.set_advertised set_ads providing ads here]; try done.
  - rewrite dom_insert_L, im_here0. set_solver.
  - apply map_Forall_insert_2; [|done]. by apply (client_ready_after _ c).
  - unfold asked. destruct state; [case_match|]; set_solver.
Qed.

Lemma query_implements capacity all r n p c :
  implements capacity r n → packets_fit all → here r ⊆ all → clients n !! p = Some c →
  ∃ n', query_provider p c n = Return (n', {| replies := []; events := [(p, Advertise.QueryAnswered (id n) (told r))] |}) ∧
    implements capacity r n' ∧ id n' = id n.
Proof.
  intros [] (_ & Hfq & Hfn & Hfa) Hall Hc. pose proof (im_clients0 _ _ Hc) as Hready. simpl in Hready.
  pose proof Hready as (Hq & Hi & Ho & Hme & Hh & Hhb & Hsh & Hsb).
  unfold query_provider. set (s0 := Advertise.push_event _ _).
  destruct (cross_ok timer fuel elapsed p (id n) s0 (Advertise.set_in [] s0) (c_handler c) (provider n) (p_handler c)
    Advertise.HQueryAdvertisedPeer []) as (h & hb & -> & Hh' & Hhb' & HT & HTb); try done.
  { unfold Advertise.poll, Advertise.handle_in_event, s0, Advertise.push_event. cbn. rewrite Hq, Hi. cbn. by rewrite decide_True. }
  cbn [obind Advertise.outgoing Advertise.from_Packet Advertise.on_connection_handler_event]. rewrite im_queries0. cbn [app].
  destruct (cross_ok timer fuel elapsed (id n) p (Advertise.set_queries [p] (provider n)) (Advertise.set_queries [] (provider n))
    hb (Advertise.set_in [] s0) h (Advertise.HAnswerAdvertisedPeer (told r)) [])
    as (hb2 & h2 & -> & Hhb2 & Hh2 & HTb2 & HT2); try done.
  { unfold Advertise.poll, told. cbn. by rewrite im_providing0, im_ads0. }
  { unfold starts. by rewrite HTb. }
  { unfold told. cbn. destruct (providing r); [|exact Hfn]. apply Hfa.
    - rewrite hs_iter_perm. apply NoDup_elements.
    - intros q Hq'%elem_of_hs_iter. set_solver. }
  cbn [obind Advertise.outgoing Advertise.from_Packet Advertise.on_connection_handler_event].
  unfold Advertise.poll, Advertise.handle_in_event, Advertise.push_out. cbn. rewrite Hq, Ho. cbn.
  eexists. split; [reflexivity|]. split; [|done]. split; cbn; try done.
  - apply elem_of_dom_2 in Hc. rewrite dom_insert_L, im_here0. set_solver.
  - apply map_Forall_insert_2; [|done]. apply (client_ready_after _ c); try done; congruence.
Qed.

Lemma act_implements capacity all x r n :
  implements capacity r n → packets_fit all → here r ⊆ all → act_ok (id n) all x →
  let '(r', h) := spec_act (id n) capacity x r in
  ∃ n', act x n = Return (n', h) ∧ implements capacity r' n' ∧ id n' = id n ∧ here r' ⊆ all.
Proof.
  intros Him Hfits Hall Hok. pose proof Him as [].
  destruct x as [s cb|p| |p c|p|p s cb|p]; cbn [act spec_act].
  - destruct (request_implements capacity r n (SetProvider s cb) _ eq_refl Him) as (n' & -> & ? & ?). by exists n'.
  - destruct (request_implements capacity r n (Remove p) _ eq_refl Him) as (n' & -> & ? & ?). by exists n'.
  - destruct (request_implements capacity r n Clear _ eq_refl Him) as (n' & -> & ? & ?). by exists n'.
  - destruct Hok as [Hp Hc]. destruct (clients n !! p) as [c'|] eqn:E.
    + exists n. split; [done|]. apply elem_of_dom_2 in E. rewrite im_here0 in E.
      replace ({[p]} ∪ here r) with (here r) by set_solver. by destruct r.
    + eexists. split; [reflexivity|]. split_and!; [|done|simpl; set_solver].
      split; cbn; try done; [by rewrite dom_insert_L, im_here0|by apply map_Forall_insert_2|set_solver].
  - destruct (clients n !! p) as [c'|] eqn:E.
    + eexists. split; [reflexivity|]. split_and!; [|done|simpl; set_solver].
      split; cbn; try done; [by rewrite im_ads0|by rewrite dom_delete_L, im_here0|by apply map_Forall_delete|set_solver].
    + exists n. split; [done|]. apply not_elem_of_dom in E. rewrite im_here0 in E.
      replace (here r ∖ {[p]}) with (here r) by set_solver. replace (ads r ∖ {[p]}) with (ads r) by set_solver. by destruct r.
  - destruct (clients n !! p) as [c|] eqn:E.
    + pose proof (elem_of_dom_2 _ _ _ E) as Hp. rewrite im_here0 in Hp. rewrite decide_True by done.
      destruct (ask_implements capacity all r n p c s cb Him Hfits E) as (n' & -> & ? & ?). by exists n'.
    + apply not_elem_of_dom in E. rewrite im_here0 in E. rewrite decide_False by done. by exists n.
  - destruct (clients n !! p) as [c|] eqn:E.
    + pose proof (elem_of_dom_2 _ _ _ E) as Hp. rewrite im_here0 in Hp. rewrite decide_True by done.
      destruct (query_implements capacity all r n p c Him Hfits Hall E) as (n' & -> & ? & ?). by exists n'.
    + apply not_elem_of_dom in E. rewrite im_here0 in E. rewrite decide_False by done. by exists n.
Qed.

Lemma session_implements capacity all acts : ∀ r n,
  implements capacity r n → packets_fit all → here r ⊆ all → Forall (act_ok (id n) all) acts →
  let '(r', hs) := spec_session (id n) capacity acts r in
  ∃ n', session acts n = Return (n', hs) ∧ implements capacity r' n' ∧ id n' = id n ∧ here r' ⊆ all.
Proof.
  induction acts as [|x acts IH]; intros r n Him Hfits Hall Hok; [by exists n|].
  apply Forall_cons in Hok as [Hx Hok]. cbn [spec_session session].
  pose proof (act_implements capacity all x r n Him Hfits Hall Hx) as Hact.
  destruct (spec_act (id n) capacity x r) as [r1 h]. destruct Hact as (n1 & -> & Him1 & Hid1 & Hall1). cbn [obind].
  rewrite <-Hid1 in Hok. specialize (IH r1 n1 Him1 Hfits Hall1 Hok). rewrite Hid1 in IH.
  destruct (spec_session (id n) capacity acts r1) as [r2 hs]. destruct IH as (n2 & -> & ? & ? & ?). cbn [obind]. by exists n2.
Qed.

(** A provider that has just been started, alone. *)
Definition alone (me : PeerId) (cfg : Advertise.Config) : Hub :=
  {| id := me; provider := Advertise.new cfg; clients := ∅ |}.
Definition empty_registry : Registry := {| providing := false; ads := ∅; here := ∅ |}.

(** C6: a provider and its clients implement a registry.  From a provider alone,
    whoever joins, leaves, asks to be advertised or not to be any more, and asks
    whom it advertises, and however the provider is started, stopped and edited,
    in any order: every request returns, callers are answered and applications
    hear what the registry says (a query is answered with the advertised peers,
    or with nothing when the provider is stopped), and only connected peers are
    advertised. *)
Theorem provider_implements_registry me cfg all acts :
  packets_fit all → Forall (act_ok me all) acts →
  let '(r, heard) := spec_session me (Advertise.max_advertise_capacity cfg) acts empty_registry in
  ∃ n, session acts (alone me cfg) = Return (n, heard) ∧
    Advertise.is_providing (provider n) = providing r ∧ Advertise.advertised_peers (provider n) = ads r ∧
    ads r ⊆ dom (clients n).
Proof.
  intros Hfits Hok. assert (Him : implements (Advertise.max_advertise_capacity cfg) empty_registry (alone me cfg))
    by (split; simpl; try done; set_solver).
  pose proof (session_implements _ all acts _ _ Him Hfits (empty_subseteq all) Hok) as Hs. cbn [alone id] in Hs.
  destruct (spec_session me _ acts empty_registry) as [r heard]. destruct Hs as (n & Hrun & [] & _).
  exists n. split_and!; try done. by rewrite im_here0.
Qed.
(** ** The test of the repository ([advertise.rs], module [test])

    [peer2] is connected to the provider; the pauses are the polls of the acts. *)
Section test.
Context (cb : N → Callback) (peer2 : PeerId).

Definition state_reply (h : Heard) : outcome bool :=
  match replies h with [Answered _ (Advertise.AnsState b)] => Return b | _ => Panic CALLBACK_CLEAR end.
Definition query_reply (h : Heard) : outcome (option (list PeerId)) :=
  match events h with
  | [(_, Advertise.QueryAnswered _ r)] => Return r
  | _ => Panic "the test returns an error"
  end.
Definition test (n : Hub) : outcome () :=
  ' (n, h) ← act (SetProvider true (cb 0)) n;
  b ← state_reply h;
  _ ← assert b;
  ' (n, _) ← act (Ask peer2 true (cb 1)) n;
  ' (n, h) ← act (Query peer2) n;
  r ← query_reply h;
  peers ← expect r "peer to exist";
  _ ← assert (bool_decide (peer2 ∈ peers));
  ' (n, h) ← act (SetProvider false (cb 2)) n;
  b ← state_reply h;
  _ ← assert (negb b);
  ' (n, h) ← act (Query peer2) n;
  r ← query_reply h;
  _ ← assert (match r with None => true | Some _ => false end);
  ' (n, _) ← act (Ask peer2 false (cb 3)) n;
  ' (n, h) ← act (SetProvider true (cb 4)) n;
  b ← state_reply h;
  _ ← assert b;
  ' (n, h) ← act (Query peer2) n;
  r ← query_reply h;
  peers ← expect r "peer to exist";
  assert (length peers =? 0)%nat.

(** One step of the test. *)
Lemma test_step me cap x r n :
  id n = me → packets_fit {[peer2]} → implements cap r n → here r = {[peer2]} → act_ok me {[peer2]} x →
  ∃ n', act x n = Return (n', (spec_act me cap x r).2) ∧ implements cap (spec_act me cap x r).1 n' ∧ id n' = me.
Proof.
  intros Hid Hfits Hr Hhere Hx. pose proof (act_implements cap {[peer2]} x r n Hr Hfits) as H.
  rewrite Hid, Hhere in H. specialize (H ltac:(set_solver) Hx). destruct (spec_act me cap x r) as [r' h].
  destruct H as (n' & ? & ? & ? & _). by exists n'.
Qed.

#[local] Arguments act : simpl never.

(** It passes, whatever the connection and the configured capacity. *)
Lemma advertise_test_passes me cfg c :
  packets_fit {[peer2]} → client_ready me c →
  test {| id := me; provider := Advertise.new cfg; clients := {[peer2 := c]} |} = Return ().
Proof.
  intros Hfits Hc. set (n := {| id := me |}). set (cap := Advertise.max_advertise_capacity cfg).
  assert (Him : implements cap {| providing := false; ads := ∅; here := {[peer2]} |} n).
  { split; simpl; first [done|by rewrite dom_singleton_L|by apply map_Forall_singleton|set_solver]. }
  pose proof (λ x r n H1 H2 H3 H4, test_step me cap x r n H1 Hfits H2 H3 H4) as Hstep.
  assert (Hin : peer2 ∈ ({[peer2]} : gset PeerId)) by set_solver. unfold test.
  destruct (Hstep (SetProvider true (cb 0)) _ n eq_refl Him eq_refl I) as (n1 & -> & H1 & E1). cbn.
  destruct (Hstep (Ask peer2 true (cb 1)) _ n1 E1 H1 eq_refl I) as (n2 & -> & H2 & E2).
  cbn [spec_act fst snd here] in *. rewrite decide_True in H2 by done. cbn [fst snd obind] in *.
  assert (Hasked : asked cap peer2 true {| providing := true; ads := ∅; here := {[peer2]} |} = {[peer2]}).
  { unfold asked. cbn [ads]. rewrite size_empty. destruct (N.leb_spec (N.of_nat 0) cap); [set_solver|lia]. }
  unfold set_ads in H2. cbn [providing here ads] in H2. rewrite Hasked in H2.
  destruct (Hstep (Query peer2) _ n2 E2 H2 eq_refl I) as (n3 & -> & H3 & E3).
  cbn [spec_act here] in *. rewrite decide_True in H3 |- * by done. cbn [fst snd obind] in *. unfold told. cbn.
  rewrite bool_decide_eq_true_2 by (by apply elem_of_hs_iter). cbn.
  destruct (Hstep (SetProvider false (cb 2)) _ n3 E3 H3 eq_refl I) as (n4 & -> & H4 & E4). cbn.
  destruct (Hstep (Query peer2) _ n4 E4 H4 eq_refl I) as (n5 & -> & H5 & E5).
  cbn [spec_act here fst snd] in *. rewrite decide_True in H5 |- * by done. cbn [fst snd] in *. cbn.
  destruct (Hstep (Ask peer2 false (cb 3)) _ n5 E5 H5 eq_refl I) as (n6 & -> & H6 & E6).
  cbn [spec_act here fst snd] in *. rewrite decide_True in H6 by done. cbn [fst snd obind] in *.
  destruct (Hstep (SetProvider true (cb 4)) _ n6 E6 H6 eq_refl I) as (n7 & -> & H7 & E7). cbn.
  destruct (Hstep (Query peer2) _ n7 E7 H7 eq_refl I) as (n8 & -> & H8 & E8).
  cbn [spec_act here fst snd set_ads] in *. rewrite decide_True by done. cbn.
  rewrite hs_iter_perm. replace (_ ∖ _) with (∅ : gset PeerId) by set_solver. by rewrite elements_empty.
Qed.
End test.
End session.

(** ** Witness: two clients, one of which is advertised until it leaves *)
Section witnesses.
#[local] Existing Instance demo_platform.
#[local] Existing Instance Advertise.packet_json.
#[local] Existing Instance Advertise.packet_json_laws.
#[local] Abbreviation peer n := (n%N : @PeerId demo_platform).
#[local] Abbreviation cx0 := (0%N : @PollCx demo_platform).

Definition demo_client : Client := {|
  c_behav := Advertise.set_connected {[ peer 2 ]} (Advertise.new Advertise.Config_default);
  c_handler := demo_conn; p_handler := demo_conn |}.
Definition demo_session : list Act :=
  [SetProvider true demo_cb; Join (peer 1) demo_client; Join (peer 3) demo_client; Ask (peer 1) true demo_cb;
   Query (peer 3); Remove (peer 5); Leave (peer 1); Query (peer 3); Query (peer 1)].

Lemma demo_client_ready : client_ready cx0 (peer 2) demo_client.
Proof.
  assert (Hc : conn_ready demo_conn) by (repeat (split; [done|]); eexists _, _; by repeat (split; [reflexivity|])).
  unfold client_ready. split_and!; try exact Hc; reflexivity.
Qed.

Lemma demo_packets_fit : packets_fit 100 ({[ peer 1; peer 3 ]} : gset (@PeerId demo_platform)).
Proof.
  assert (Hfit : ∀ p, (length (Advertise.packet_bytes p) <? 100) = true → Advertise.packet_bytes p ≠ [] → fits 100 p).
  { intros p Hl%Nat.ltb_lt Hne. exists (Advertise.packet_bytes p). split; [reflexivity|]. split; [done|]. split; [|done].
    apply N.le_trans with 100%N; [lia|by vm_compute]. }
  split_and!; [by intros []; apply Hfit..|by apply Hfit|by apply Hfit|].
  intros l Hnd Hl. apply Hfit; [|done].
  assert (Hp : ∀ p, p ∈ l → p = peer 1 ∨ p = peer 3).
  { intros p Hp%Hl. apply elem_of_union in Hp as [Hp|Hp]; apply elem_of_singleton in Hp; [by left|by right]. }
  assert (Hlen : length l ≤ 2).
  { change 2 with (length [peer 1; peer 3]). apply submseteq_length, NoDup_submseteq; [done|].
    intros p Hpl. destruct (Hp p Hpl) as [-> | ->]; [left|right; left]. }
  destruct l as [|p [|q [|? ?]]]; [done|..|simpl in Hlen; lia].
  - by destruct (Hp p (list_elem_of_here _ _)) as [-> | ->].
  - destruct (Hp p (list_elem_of_here _ _)) as [-> | ->],
      (Hp q (list_elem_of_further _ _ _ (list_elem_of_here _ _))) as [-> | ->]; done.
Qed.

Lemma provider_implements_registry_witness :
  ∃ n, session cx0 100 5 demo_session (alone (peer 2) Advertise.Config_default) = Return (n,
      [{| replies := [Answered demo_cb (Advertise.AnsState true)]; events := [(peer 2, Advertise.ProviderState true)] |};
       silence; silence; {| replies := [Answered demo_cb Advertise.AnsUnit]; events := [] |};
       {| replies := []; events := [(peer 3, Advertise.QueryAnswered (peer 2) (Some [peer 1]))] |};
       {| replies := []; events := [(peer 2, Advertise.AdvertisedPeerChanged (peer 5) false)] |};
       silence; {| replies := []; events := [(peer 3, Advertise.QueryAnswered (peer 2) (Some []))] |}; silence]) ∧
    Advertise.is_providing (provider n) = true ∧ Advertise.advertised_peers (provider n) = ∅.
Proof.
  destruct (provider_implements_registry cx0 100 5 (peer 2) Advertise.Config_default {[ peer 1; peer 3 ]} demo_session
    demo_packets_fit) as (n & Hrun & Hp & Ha & _).
  - assert (Hin : ∀ p : @PeerId demo_platform, p = peer 1 ∨ p = peer 3 → p ∈ ({[ peer 1; peer 3 ]} : gset (@PeerId demo_platform))).
    { intros p [-> | ->]; apply elem_of_union; [left|right]; by apply elem_of_singleton. }
    repeat apply Forall_cons_2; try exact I; [..|apply Forall_nil_2].
    + exact (conj (Hin _ (or_introl eq_refl)) demo_client_ready).
    + exact (conj (Hin _ (or_intror eq_refl)) demo_client_ready).
  - exists n. split; [exact Hrun|]. split; [exact Hp|]. exact Ha.
Defined.
End witnesses.
End AdvertiseSession.
