(* ===== verification/Kad.v ===== *)
(** * The kad adapter ([net/p2p/protocols/kad.rs])

    Module [Kad]: the configuration and its conversion, the requests and their
    execution, the handle with the table its task keeps, the hooks the swarm
    calls and the commands.  libp2p's kad behaviour is the interface
    [Libp2pKad]; of its configuration only the setters are used. *)

From stdpp Require Import base gmap sets list strings fin_maps.
From Stdlib Require Import Lia NArith Ascii.
From S2P Require Import Prelude Std Core Calls.
Import Calls.

Module Kad.

(** ** config *)
Module config.
Definition K_VALUE : N := 20.
Definition ALPHA_VALUE : N := 3.

Record QueryConfig := {
  timeout : N;
  replication_factor : N;
  parallelism : N;
  disjoint_query_paths : bool;
}.
Definition QueryConfig_default : QueryConfig := {|
  timeout := from_secs 60;
  replication_factor := K_VALUE;
  parallelism := ALPHA_VALUE;
  disjoint_query_paths := false;
|}.

Inductive StoreInserts := Unfiltered | FilterBoth.
Inductive BucketInserts := OnConnected | Manual.
Inductive Caching := Disabled | Enabled (max_peers : N).
End config.

Record Config := {
  max_packet_size : N;
  query_config : config.QueryConfig;
  record_ttl_sec : option N;
  record_replication_interval_sec : option N;
  record_publication_interval_sec : option N;
  record_filtering : config.StoreInserts;
  provider_record_ttl_sec : option N;
  provider_publication_interval_sec : option N;
  kbucket_inserts : config.BucketInserts;
  caching : config.Caching;
  periodic_bootstrap_interval_sec : option N;
}.
Definition Config_default : Config := {|
  max_packet_size := 16 * 1024;
  query_config := config.QueryConfig_default;
  record_ttl_sec := Some (48 * 60 * 60)%N;
  record_replication_interval_sec := Some (60 * 60)%N;
  record_publication_interval_sec := Some (22 * 60 * 60)%N;
  record_filtering := config.Unfiltered;
  provider_publication_interval_sec := Some (12 * 60 * 60)%N;
  provider_record_ttl_sec := Some (48 * 60 * 60)%N;
  kbucket_inserts := config.OnConnected;
  caching := config.Enabled 1;
  periodic_bootstrap_interval_sec := Some (5 * 60)%N;
|}.

Inductive Mode := Client | Server.

(** ** libp2p's kad *)
Class Libp2pKad {P : Platform} := {
  StreamProtocol : Type;
  try_from_owned : string → option StreamProtocol;
  LConfig : Type;
  Config_new : StreamProtocol → LConfig;
  LStoreInserts : Type; LUnfiltered : LStoreInserts; LFilterBoth : LStoreInserts;
  LBucketInserts : Type; LOnConnected : LBucketInserts; LManual : LBucketInserts;
  LCaching : Type; LDisabled : LCaching; LEnabled : N → LCaching;
  set_disjoint_query_paths : bool → LConfig → LConfig;
  set_parallelism : N → LConfig → LConfig;
  set_periodic_bootstrap_interval : option N → LConfig → LConfig;
  set_provider_record_ttl : option N → LConfig → LConfig;
  set_query_timeout : N → LConfig → LConfig;
  set_record_filtering : LStoreInserts → LConfig → LConfig;
  set_record_ttl : option N → LConfig → LConfig;
  set_replication_factor : N → LConfig → LConfig;
  set_caching : LCaching → LConfig → LConfig;
  set_kbucket_inserts : LBucketInserts → LConfig → LConfig;
  set_max_packet_size : N → LConfig → LConfig;
  set_provider_publication_interval : option N → LConfig → LConfig;
  set_replication_interval : option N → LConfig → LConfig;
  set_publication_interval : option N → LConfig → LConfig;
  QueryId : Type; QueryId_eq_dec :: EqDecision QueryId;
  QueryResult : Type;
  NoKnownPeers : Type;
  RoutingUpdate : Type;
  RecordKey : Type;
  RecordKey_new : PeerId → RecordKey;
  Addresses : Type;
  InboundRequestInfo : Type;
  Behaviour : Type;
  get_record : RecordKey → Behaviour → QueryId * Behaviour;
  bootstrap : Behaviour → result QueryId NoKnownPeers * Behaviour;
  add_address : PeerId → Multiaddr → Behaviour → RoutingUpdate * Behaviour;
  remove_address : PeerId → Multiaddr → Behaviour → Behaviour;
  set_mode : option Mode → Behaviour → Behaviour;
}.

Section kad.
Context {P : Platform} {K : Libp2pKad}.

(** ** [From] for the configuration's enums, [into_config] *)
Definition from_StoreInserts (value : config.StoreInserts) : LStoreInserts :=
  match value with config.Unfiltered => LUnfiltered | config.FilterBoth => LFilterBoth end.
Definition from_BucketInserts (value : config.BucketInserts) : LBucketInserts :=
  match value with config.OnConnected => LOnConnected | config.Manual => LManual end.
Definition from_Caching (value : config.Caching) : LCaching :=
  match value with config.Disabled => LDisabled | config.Enabled n => LEnabled n end.

Definition into_config (self : Config) (protocol : string) : outcome LConfig :=
  p ← expect (try_from_owned protocol) "protocol string start with a slash('/')";
  let q := query_config self in
  let c := Config_new p in
  let c := set_disjoint_query_paths (config.disjoint_query_paths q) c in
  let c := set_parallelism (config.parallelism q) c in
  let c := set_periodic_bootstrap_interval (from_secs <$> periodic_bootstrap_interval_sec self) c in
  let c := set_provider_record_ttl (from_secs <$> provider_record_ttl_sec self) c in
  let c := set_query_timeout (config.timeout q) c in
  let c := set_record_filtering (from_StoreInserts (record_filtering self)) c in
  let c := set_record_ttl (from_secs <$> record_ttl_sec self) c in
  let c := set_replication_factor (config.replication_factor q) c in
  let c := set_caching (from_Caching (caching self)) c in
  let c := set_kbucket_inserts (from_BucketInserts (kbucket_inserts self)) c in
  let c := set_max_packet_size (max_packet_size self) c in
  let c := set_provider_publication_interval (from_secs <$> provider_publication_interval_sec self) c in
  let c := set_replication_interval (from_secs <$> record_replication_interval_sec self) c in
  Return (set_publication_interval (from_secs <$> record_publication_interval_sec self) c).

(** ** Requests *)
Inductive InEvent :=
| PeerLookup (peer_id : PeerId) (callback : Callback)
| BootStrap (callback : Callback)
| InsertNode (peer_id : PeerId) (address : Multiaddr) (callback : Callback)
| SetMode (mode : option Mode).

Inductive Answer :=
| AnsQueryId (id : QueryId)
| AnsBootstrap (r : result QueryId NoKnownPeers)
| AnsInsert (r : RoutingUpdate).

Definition map_in_event (ev : InEvent) (behav : Behaviour) : Behaviour * list (Sent Answer) :=
  match ev with
  | PeerLookup peer_id callback =>
      let '(query_id, behav) := get_record (RecordKey_new peer_id) behav in
      (behav, handle_callback_sender (AnsQueryId query_id) callback)
  | BootStrap callback =>
      let '(result, behav) := bootstrap behav in
      (behav, handle_callback_sender (AnsBootstrap result) callback)
  | SetMode mode => (set_mode mode behav, [])
  | InsertNode peer_id address callback =>
      let '(result, behav) := add_address peer_id address behav in
      (behav, handle_callback_sender (AnsInsert result) callback)
  end.
Definition serve (ev : InEvent) (b : Behaviour) : outcome (Behaviour * list (Sent Answer)) :=
  Return (map_in_event ev b).

(** ** Events; only what the sources read of them *)
Inductive OutEvent :=
| InboundRequest (request : InboundRequestInfo)
| OutboundQueryProgressed (id : QueryId) (result : QueryResult) (last : bool)
| RoutingUpdated (peer : PeerId) (is_new_peer : bool) (addresses : Addresses) (old_peer : option PeerId)
| ModeChanged (new_mode : Mode)
| OtherKadEvent.

(** ** Handle *)

(** The task spawned by [Handle::new]. *)
Definition on_event (ev : OutEvent) (tree_map : gmap PeerId Addresses) : gmap PeerId Addresses :=
  match ev with
  | RoutingUpdated peer _ addresses _ => <[peer := addresses]> tree_map
  | _ => tree_map
  end.
Definition tree_map (received : list (Recv OutEvent)) : gmap PeerId Addresses :=
  listener_task on_event received ∅.
Definition lookup (peer_id : PeerId) (received : list (Recv OutEvent)) : option Addresses :=
  tree_map received !! peer_id.
Definition all_records (received : list (Recv OutEvent)) : gmap PeerId Addresses := tree_map received.

(** The body of the listener of [query]. *)
Definition on_progress (query_id : QueryId) (ev : OutEvent) (results : list QueryResult)
    : list QueryResult + list QueryResult :=
  match ev with
  | OutboundQueryProgressed id result last =>
      if decide (query_id = id) then
        let results := results ++ [result] in
        if last : bool then inr results else inl results
      else inl results
  | _ => inl results
  end.

Definition get_query_id (a : Answer) : option QueryId := match a with AnsQueryId id => Some id | _ => None end.
Definition get_bootstrap (a : Answer) : option (result QueryId NoKnownPeers) :=
  match a with AnsBootstrap r => Some r | _ => None end.
Definition get_insert (a : Answer) : option RoutingUpdate := match a with AnsInsert r => Some r | _ => None end.

(** [received]: what the subscription made first has received since. *)
Definition query (alive : bool) (peer_id : PeerId) (tx : Callback) (received : list (Recv OutEvent))
    (b : Behaviour) : outcome (Poll (list QueryResult) * Behaviour) :=
  ' (p, b) ← handler_method serve (PeerLookup peer_id) get_query_id alive tx b;
  match p with
  | Pending => Return (Pending, b)
  | Ready query_id => results ← listen_event (on_progress query_id) received []; Return (results, b)
  end.

Definition new_mode_of (ev : OutEvent) : option Mode :=
  match ev with ModeChanged new_mode => Some new_mode | _ => None end.
Definition handle_set_mode (alive : bool) (mode : option Mode) (received : list (Recv OutEvent)) (elapsed : bool)
    (b : Behaviour) : outcome (Poll (result Mode error.OperationError) * Behaviour) :=
  b ← handler_method_silent serve (SetMode mode) alive b;
  r ← future_timeout (listen_event (answer_with new_mode_of) received tt) elapsed;
  Return (r, b).

Definition handle_bootstrap (alive : bool) (tx : Callback) (b : Behaviour)
    : outcome (Poll (result QueryId NoKnownPeers) * Behaviour) :=
  handler_method serve BootStrap get_bootstrap alive tx b.
Definition insert_node (alive : bool) (peer_id : PeerId) (address : Multiaddr) (tx : Callback) (b : Behaviour)
    : outcome (Poll RoutingUpdate * Behaviour) :=
  handler_method serve (InsertNode peer_id address) get_insert alive tx b.

(** ** The table of the handle *)

(** The addresses an event gives for a peer: the events at a key. *)
Definition update_of (p : PeerId) (ev : OutEvent) : option Addresses :=
  match ev with
  | RoutingUpdated peer _ addresses _ => if decide (peer = p) then Some addresses else None
  | _ => None
  end.

Lemma table_fold evs t p :
  foldl (λ t ev, on_event ev t) t evs !! p =
  match last (omap (update_of p) evs) with Some a => Some a | None => t !! p end.
Proof.
  induction evs as [|ev evs IH] using rev_ind; [done|].
  rewrite foldl_app, omap_app. simpl. destruct ev as [| |peer b a o| |]; simpl; rewrite ?app_nil_r; try done.
  destruct (decide (peer = p)) as [->|]; [by rewrite lookup_insert_eq, last_snoc|].
  by rewrite lookup_insert_ne, app_nil_r.
Qed.

(** The table a kad handle answers look-ups from.  It holds, for each peer,
    the addresses of the last routing update about it, and nothing else: a peer
    is never removed, not even when an update says it was evicted from the
    routing table ([old_peer]), and once the task's subscription fails the
    table stays as it was for ever. *)
Theorem lookup_is_last_update evs p rest :
  lookup p (Got <$> evs) = last (omap (update_of p) evs) ∧
  lookup p ((Got <$> evs) ++ RecvError :: rest) = last (omap (update_of p) evs) ∧
  (is_Some (lookup p (Got <$> evs)) →
   ∀ later, is_Some (lookup p (Got <$> (evs ++ later)))).
Proof.
  assert (∀ evs, lookup p (Got <$> evs) = last (omap (update_of p) evs)) as H.
  { intros l. unfold lookup, tree_map. rewrite listener_task_got, table_fold, lookup_empty.
    by destruct last. }
  split; [apply H|]. split.
  - rewrite <-H. unfold lookup, tree_map. generalize (∅ : gmap PeerId Addresses).
    induction evs as [|ev evs IH]; intros t; [done|]. apply IH.
  - rewrite !H. intros [a Ha] later. rewrite H, omap_app.
    rewrite last_app. destruct (last (omap (update_of p) later)); by eexists.
Qed.

(** ** Queries *)
Definition result_of (id : QueryId) (ev : OutEvent) : option (QueryResult * bool) :=
  match ev with
  | OutboundQueryProgressed id' result last => if decide (id = id') then Some (result, last) else None
  | _ => None
  end.

Lemma on_progress_other id ev l : result_of id ev = None → on_progress id ev l = inl l.
Proof. destruct ev; simpl; try done. by destruct decide. Qed.
Lemma on_progress_mine id ev l r b : result_of id ev = Some (r, b) →
  on_progress id ev l = if b then inr (l ++ [r]) else inl (l ++ [r]).
Proof. destruct ev; simpl; try done. destruct decide; [|done]. by intros [= -> ->]. Qed.

Lemma listen_more id evs l : Forall (λ x, x.2 = false) (omap (result_of id) evs) →
  ∀ rest, listen_event (on_progress id) ((Got <$> evs) ++ rest) l =
          listen_event (on_progress id) rest (l ++ (omap (result_of id) evs).*1).
Proof.
  revert l. induction evs as [|ev evs IH]; intros l Hf rest; [by rewrite app_nil_r|].
  cbn [fmap list_fmap app listen_event]. destruct (result_of id ev) as [[r b]|] eqn:E.
  - cbn in Hf. rewrite E in Hf. apply Forall_cons in Hf as [Hb Hf]. simpl in Hb. subst b.
    rewrite (on_progress_mine _ _ _ _ _ E), IH by done. cbn. rewrite E. cbn. by rewrite <-app_assoc.
  - cbn in Hf. rewrite E in Hf. rewrite on_progress_other by done. rewrite IH by done. cbn. by rewrite E.
Qed.

(** A network query returns every result of its own query and of no other,
    in order, up to and including the one marked last, however the events of
    other queries and of the rest of the node are mixed in; before that it
    waits; and it panics if its subscription fails first. *)
Theorem query_collects peer_id tx evs b id b' :
  get_record (RecordKey_new peer_id) b = (id, b') →
  Forall (λ x, x.2 = false) (omap (result_of id) evs) →
  query true peer_id tx (Got <$> evs) b = Return (Pending, b') ∧
  (∀ rest, query true peer_id tx ((Got <$> evs) ++ RecvError :: rest) b = Panic UNREACHABLE) ∧
  (∀ r rest, query true peer_id tx ((Got <$> evs) ++ Got (OutboundQueryProgressed id r true) :: rest) b =
     Return (Ready ((omap (result_of id) evs).*1 ++ [r]), b')).
Proof.
  intros E Hf.
  assert (∀ received, query true peer_id tx received b =
    obind (listen_event (on_progress id) received []) (λ r, Return (r, b'))) as Hq.
  { intros received. unfold query, handler_method, serve, map_in_event. cbn. rewrite E. cbn.
    by rewrite decide_True. }
  split; [|split].
  - rewrite Hq, <-(app_nil_r (Got <$> evs)), listen_more by done. done.
  - intros rest. by rewrite Hq, listen_more.
  - intros r rest. rewrite Hq, listen_more by done. cbn. by rewrite decide_True.
Qed.

(** [set_mode] reports what the next change of mode is, not its own: it
    returns the mode of the first change after it subscribed, whoever caused it
    and whatever was asked for, and times out if none comes in time. *)
Theorem set_mode_reports_next_change mode evs elapsed b :
  handle_set_mode true mode (Got <$> evs) elapsed b =
  Return (match head (omap new_mode_of evs) with
          | Some m => Ready (Ok m)
          | None => if elapsed then Ready (Err error.OpTimeout) else Pending
          end, set_mode mode b).
Proof.
  unfold handle_set_mode, handler_method_silent, serve. cbn. rewrite listen_first. cbn.
  destruct (head _); [done|]. by destruct elapsed.
Qed.

(** ** Hooks of the swarm *)

Definition kad_add (peer_id : PeerId) (endpoint : ConnectedPoint) (b : Behaviour) : Behaviour :=
  match endpoint with
  | Dialer address => (add_address peer_id address b).2
  | Listener _ send_back_addr => (add_address peer_id send_back_addr b).2
  end.
Definition kad_remove (peer_id : PeerId) (endpoint : ConnectedPoint) (b : Behaviour) : Behaviour :=
  match endpoint with
  | Dialer address => remove_address peer_id address b
  | Listener _ send_back_addr => remove_address peer_id send_back_addr b
  end.

(** ** cli *)
Inductive KadMode := MClient | MServer | MDefault.
Definition from_KadMode (value : KadMode) : option Mode :=
  match value with MClient => Some Client | MServer => Some Server | MDefault => None end.
Definition KadMode_fmt (m : KadMode) : string :=
  match m with MClient => "Client" | MServer => "Server" | MDefault => "Default" end.

Inductive Command :=
| CQuery (peer_id : PeerId)
| CLookup (peer_id : PeerId)
| CBootstrap
| CSetMode (mode : KadMode)
| CInsert (peer_id : PeerId) (address : Multiaddr)
| CInsertDefault.

(** The default nodes, parsed from texts. *)
Definition default_nodes : list (string * string) :=
  [("QmNnooDu7bfjPFoTZYxMNLWUQJyrVwtbZg5gBMjTezGAJN", "/dnsaddr/bootstrap.libp2p.io");
   ("QmQCU2EcMqAqQPR2i9bChDtGNJchTbq5TbXJJ16u19uLTa", "/dnsaddr/bootstrap.libp2p.io");
   ("QmbLHAnMoJPWSCR5Zhtx6BHJX9KiKNN6tpvbUcqanj75Nb", "/dnsaddr/bootstrap.libp2p.io");
   ("QmcZf59bWwK5XFi76CZX8cbJ4BhTzzA3gU1ZjYZcYW3dwt", "/dnsaddr/bootstrap.libp2p.io");
   ("QmaCpDMGvV2BGHeYERUEnRQAwe3N8SzbUtfsmvsqQLuvuJ", "/ip4/104.131.131.82/tcp/4001")].

(** What is printed when a call has returned. *)
Definition bootstrap_output (r : result QueryId NoKnownPeers) : string :=
  match r with Err _ => "No known peer in the DHT" | Ok _ => "Bootstrap started" end.
Definition set_mode_output (mode : KadMode) (r : result Mode error.OperationError) : string :=
  match r with
  | Err _ => "Timeout reached for setting kad mode"
  | Ok _ => "Mode for kad has been set to " +:+ KadMode_fmt mode
  end.
End kad.

(** ** Witness: a kad behaviour that counts its queries and keeps addresses *)
Section witnesses.
#[local] Existing Instance demo_platform.

#[export] Instance demo_kad : @Libp2pKad demo_platform := {|
  StreamProtocol := string;
  try_from_owned := λ s, match s with String a _ => if decide (a = "/"%char) then Some s else None | _ => None end;
  LConfig := list string;
  Config_new := λ p, [p];
  LStoreInserts := bool; LUnfiltered := true; LFilterBoth := false;
  LBucketInserts := bool; LOnConnected := true; LManual := false;
  LCaching := option N; LDisabled := None; LEnabled := Some;
  set_disjoint_query_paths := λ _ c, c; set_parallelism := λ _ c, c;
  set_periodic_bootstrap_interval := λ _ c, c; set_provider_record_ttl := λ _ c, c;
  set_query_timeout := λ _ c, c; set_record_filtering := λ _ c, c; set_record_ttl := λ _ c, c;
  set_replication_factor := λ _ c, c; set_caching := λ _ c, c; set_kbucket_inserts := λ _ c, c;
  set_max_packet_size := λ _ c, c; set_provider_publication_interval := λ _ c, c;
  set_replication_interval := λ _ c, c; set_publication_interval := λ _ c, c;
  QueryId := N; QueryId_eq_dec := N.eq_dec;
  QueryResult := string; NoKnownPeers := unit; RoutingUpdate := bool;
  RecordKey := N; RecordKey_new := λ p : @PeerId demo_platform, (p : N);
  Addresses := list string;
  InboundRequestInfo := unit;
  Behaviour := N * gset (N * string);
  get_record := λ _ '(n, t), (n, ((n + 1)%N, t));
  bootstrap := λ '(n, t), (Ok n, ((n + 1)%N, t));
  add_address := λ (p : @PeerId demo_platform) (a : string) '(n, t), (true, (n, {[((p : N), a)]} ∪ t));
  remove_address := λ (p : @PeerId demo_platform) (a : string) '(n, t), (n, t ∖ {[((p : N), a)]});
  set_mode := λ _ b, b;
|}.

Definition demo_cb : Callback := {| cb_id := 1; cb_open := true |}.
Definition demo_events : list OutEvent :=
  [OutboundQueryProgressed (7%N : QueryId) ("a" : QueryResult) false;
   OutboundQueryProgressed (8%N : QueryId) ("other" : QueryResult) true; OtherKadEvent].

Lemma query_collects_witness :
  let b : Behaviour := (7%N, ∅) in
  query true (5%N : @PeerId demo_platform) demo_cb (Got <$> demo_events) b = Return (Pending, (8%N, ∅)) ∧
  (∀ rest, query true (5%N : @PeerId demo_platform) demo_cb ((Got <$> demo_events) ++ RecvError :: rest) b =
     Panic UNREACHABLE) ∧
  (∀ r rest, query true (5%N : @PeerId demo_platform) demo_cb
     ((Got <$> demo_events) ++ Got (OutboundQueryProgressed (7%N : QueryId) r true) :: rest) b =
     Return (Ready (["a" : QueryResult] ++ [r]), (8%N, ∅))).
Proof.
  exact (query_collects (5%N : @PeerId demo_platform) demo_cb demo_events (7%N, ∅) (7%N : QueryId) (8%N, ∅)
           eq_refl ltac:(vm_compute; repeat constructor)).
Defined.
End witnesses.
End Kad.
