(* ===== verification/BlobHandle.v ===== *)
(** * The handle of the blob protocol ([net/p2p/protocols/blob.rs])

    Module [BlobHandle]: the calls of the handle, with the files they open, and
    the commands.  The behaviour is [BlobBehaviour]'s, the file system [Files]'s. *)

From stdpp Require Import base gmap sets list strings fin_maps.
From Stdlib Require Import Lia NArith.
From S2P Require Import Prelude Std Core Files Calls BlobTypes BlobBehaviour.
Import Files Calls.

Module BlobHandle.

Section handle.
Context {P : Platform}.

Definition get_send_file (a : Answer) : option (result N FileSendError.t) :=
  match a with AnsSendFile r => Some r | _ => None end.
Definition get_accept (a : Answer) : option (result Duration FileRecvError.t) :=
  match a with AnsAcceptFile r => Some r | _ => None end.
Definition get_cancel (a : Answer) : option (result unit CancellationError) :=
  match a with AnsCancel r => Some r | _ => None end.
Definition get_recv_infos (a : Answer) : option (list RecvInfo.t) :=
  match a with AnsListRecv l => Some l | _ => None end.
Definition get_send_infos (a : Answer) : option (list SendInfo.t) :=
  match a with AnsListSend l => Some l | _ => None end.
Definition get_connected (a : Answer) : option (list PeerId) :=
  match a with AnsListConnected l => Some l | _ => None end.

(** [.map_err(|e| match e.kind() ..)] of [send_file]. *)
Definition open_error (e : ErrorKind) : FileSendError.t :=
  match e with
  | NotFound => FileSendError.FileNotFound
  | PermissionDenied => FileSendError.PermissionDenied
  | e => FileSendError.OtherFsError e
  end.

(** [later]: what is sent on callbacks after the request was handled;
    [elapsed]: whether a second has passed. *)
Definition send_file (now : N) (alive : bool) (to : PeerId) (path : string) (tx : Callback)
    (later : list (Sent Answer)) (elapsed : bool) (fs : Fs) (s : Behaviour)
    : outcome (Poll (result N FileSendError.t) * Behaviour) :=
  if is_dir path fs then Return (Ready (Err FileSendError.IsDirectory), s)
  else
    match open_read path fs with
    | Err e => Return (Ready (Err (open_error e)), s)
    | Ok file =>
        _ ← send_swarm alive;
        ' (s, sent) ← push_event now (SendFile file path to tx) s;
        r ← future_timeout (p ← handle_callback (cb_id tx) (sent ++ later); as_type get_send_file p) elapsed;
        Return (match r with
                | Ready (Ok r) => Ready r
                | Ready (Err e) => Ready (Err (FileSendError.Operation e))
                | Pending => Pending
                end, s)
    end.

Definition recv_file (now : N) (alive : bool) (recv_id : N) (path_to_write : string) (tx : Callback)
    (later : list (Sent Answer)) (fs : Fs) (s : Behaviour)
    : outcome (Poll (result Duration FileRecvError.t) * Behaviour * Fs) :=
  match create_new path_to_write fs with
  | (Err e, fs) => Return (Ready (Err (FileRecvError.FsError path_to_write e)), s, fs)
  | (Ok file, fs) =>
      _ ← send_swarm alive;
      ' (s, sent) ← push_event now (AcceptFile file recv_id path_to_write tx) s;
      p ← handle_callback (cb_id tx) (sent ++ later);
      r ← as_type get_accept p;
      Return (r, s, fs)
  end.

Definition cancel_send (now : N) (alive : bool) (local_send_id : N) (tx : Callback) (s : Behaviour) :=
  handler_method (push_event now) (CancelSend local_send_id) get_cancel alive tx s.
Definition cancel_recv (now : N) (alive : bool) (local_recv_id : N) (tx : Callback) (s : Behaviour) :=
  handler_method (push_event now) (CancelRecv local_recv_id) get_cancel alive tx s.
Definition list_pending_recv (now : N) (alive : bool) (tx : Callback) (s : Behaviour) :=
  handler_method (push_event now) ListRecv get_recv_infos alive tx s.
Definition list_pending_send (now : N) (alive : bool) (tx : Callback) (s : Behaviour) :=
  handler_method (push_event now) ListSend get_send_infos alive tx s.
Definition list_connected (now : N) (alive : bool) (tx : Callback) (s : Behaviour) :=
  handler_method (push_event now) ListConnected get_connected alive tx s.

(** ** What a call to [send_file] does *)

(** The callbacks sent later are not this call's. *)
Definition silent (tx : Callback) (later : list (Sent Answer)) : Prop :=
  Forall (λ r, cb_id (sent_callback r) ≠ cb_id tx) later.

Lemma handle_callback_silent tx later : silent tx later → handle_callback (cb_id tx) later = Return Pending.
Proof. intros H. by rewrite <-(app_nil_r later), handle_callback_skip. Qed.

Lemma send_file_refused now alive to path tx later elapsed fs s e :
  is_dir path fs = false → open_read path fs = Err e →
  send_file now alive to path tx later elapsed fs s = Return (Ready (Err (open_error e)), s).
Proof. intros Hd Ho. unfold send_file. by rewrite Hd, Ho. Qed.

(** The request was handed to the behaviour: what the rest of the call does. *)
Lemma send_file_pushed now to path tx later elapsed fs s f s' sent :
  is_dir path fs = false → open_read path fs = Ok f →
  push_event now (SendFile f path to tx) s = Return (s', sent) →
  send_file now true to path tx later elapsed fs s =
  (r ← future_timeout (p ← handle_callback (cb_id tx) (sent ++ later); as_type get_send_file p) elapsed;
   Return (match r with
           | Ready (Ok r) => Ready r
           | Ready (Err e) => Ready (Err (FileSendError.Operation e))
           | Pending => Pending
           end, s'))%outcome.
Proof. intros Hd Ho Hp. unfold send_file. rewrite Hd, Ho. cbn [send_swarm obind]. by rewrite Hp. Qed.

Lemma get_file_size f n : File.metadata_len f = Ok n → n = N.of_nat (length (f_bytes f)).
Proof. unfold File.metadata_len. destruct (f_metadata f); [|done]. by intros [= <-]. Qed.

(** What [send_file] answers.  A directory and a file that cannot be opened
    are refused before anything is asked of the swarm.  For a peer that is not
    connected the answer is [PeerNotFound], and no transfer is recorded (an ID
    is used up).  If the size of the file cannot be read, the caller panics: its
    callback is dropped.  Otherwise the transfer is recorded as pending with the
    size of the file and the caller waits for the handler; when a second passes
    first the caller gets a timeout, and the transfer stays pending. *)
Theorem send_file_answers now to path tx later elapsed fs s f :
  is_dir path fs = false → open_read path fs = Ok f → silent tx later → cb_open tx = true →
  (send_counter s + 1 < U64)%N → is_Some (file_name path) →
  match bool_decide (to ∈ connected_peers s), File.metadata_len f with
  | false, _ =>
      ∃ s', send_file now true to path tx later elapsed fs s =
              Return (Ready (Err FileSendError.PeerNotFound), s') ∧
            pending_send s' = pending_send s ∧ send_counter s' = (send_counter s + 1)%N
  | true, Err _ => send_file now true to path tx later elapsed fs s = Panic CALLBACK_CLEAR
  | true, Ok n =>
      n = N.of_nat (length (f_bytes f)) ∧
      ∃ s' v, send_file now true to path tx later elapsed fs s =
              Return (if elapsed then Ready (Err (FileSendError.Operation error.OpTimeout)) else Pending, s') ∧
            pending_send s' = <[send_counter s := v]> (pending_send s) ∧
            PendingSend.bytes_total v = n ∧ PendingSend.remote v = to ∧ PendingSend.file v = f
  end.
Proof.
  intros Hd Ho Hl Hopen Hc [name Hname].
  assert (next_send_id s = Return (send_counter s, set_send_counter (send_counter s + 1) s)) as Hid.
  { unfold next_send_id. by rewrite u64_add_small. }
  case_bool_decide as Hin.
  - destruct (File.metadata_len f) as [n|k] eqn:Hm.
    + split; [by apply get_file_size|]. eexists _, _. split.
      * erewrite send_file_pushed; [|done|done|].
        2: { cbn. unfold BlobBehaviour.send_file. rewrite Hid. cbn. rewrite decide_True, Hm by done. cbn.
             rewrite Hname. cbn. reflexivity. }
        cbn [app]. rewrite handle_callback_silent by done. cbn. by destruct elapsed.
      * cbn. split; [reflexivity|done].
    + erewrite send_file_pushed; [|done|done|].
      2: { cbn. unfold BlobBehaviour.send_file. rewrite Hid. cbn. rewrite decide_True, Hm by done. reflexivity. }
      cbn. by rewrite decide_True.
  - eexists. split.
    + erewrite send_file_pushed; [|done|done|].
      2: { cbn. unfold BlobBehaviour.send_file. rewrite Hid. cbn. rewrite decide_False by done.
           unfold send_expect. rewrite Hopen. reflexivity. }
      cbn. rewrite decide_True by done. reflexivity.
    + done.
Qed.

(** What [recv_file] answers, and what it leaves on disk.  If anything
    exists at the path, a directory too, it is an error and nothing changes.
    Otherwise an empty file is created first: it stays behind when no pending
    receive has the ID, and becomes the file of the transfer otherwise. *)
Theorem recv_file_answers now recv_id path tx later fs s :
  refuse fs path = None → silent tx later →
  match nodes fs !! path, pending_recv s !! recv_id with
  | Some _, _ =>
      recv_file now true recv_id path tx later fs s =
        Return (Ready (Err (FileRecvError.FsError path AlreadyExists)), s, fs)
  | None, None =>
      ∃ fs', recv_file now true recv_id path tx later fs s =
               Return (Ready (Err (FileRecvError.PendingRecvNotFound recv_id)), s, fs') ∧
             nodes fs' = <[path := Regular (empty_file path fs)]> (nodes fs)
  | None, Some v =>
      ∃ s' fs' r, recv_file now true recv_id path tx later fs s = Return (Pending, s', fs') ∧
             nodes fs' = <[path := Regular (empty_file path fs)]> (nodes fs) ∧
             pending_recv s' = delete recv_id (pending_recv s) ∧
             ongoing_recv s' = <[PendingRecv.remote_send_id v := r]> (ongoing_recv s) ∧
             OngoingFileRecv.file_handle r = empty_file path fs ∧
             OngoingFileRecv.bytes_total r = PendingRecv.bytes_total v ∧ OngoingFileRecv.bytes_received r = 0%N
  end.
Proof.
  intros Hr Hl. unfold recv_file, create_new. rewrite Hr. destruct (nodes fs !! path) as [n|]; [done|].
  cbn. unfold accept_pending_recv. destruct (pending_recv s !! recv_id) as [v|].
  - eexists _, _, _. rewrite handle_callback_silent by done. by split_and!.
  - eexists. cbn. by rewrite decide_True.
Qed.

(** ** cli *)
Inductive Command :=
| CSend (remote : PeerId) (file_path : string)
| CListSend
| CListRecv
| CRecv (local_recv_id : N) (path_to_write : string)
| CCancelSend (local_send_id : N)
| CCancelRecv (local_recv_id : N).

(** The columns [Pending Send] and [Ongoing Send] of the table. *)
Definition print_pending (l : list SendInfo.t) : list SendInfo.t := filter (λ v, SendInfo.started v = false) l.
Definition print_started (l : list SendInfo.t) : list SendInfo.t := filter (λ v, SendInfo.started v = false) l.

(** The column of ongoing sends shows the pending ones, and never an ongoing one. *)
Lemma ongoing_sends_are_not_shown s :
  print_started (list_send s) = print_pending (list_send s) ∧
  Forall (λ v, SendInfo.started v = false) (print_started (list_send s)).
Proof.
  split; [done|]. apply Forall_forall. intros v Hv. by apply list_elem_of_filter in Hv as [Hv _].
Qed.
End handle.

(** ** Witnesses *)
Section witnesses.
#[local] Existing Instance demo_platform.
#[local] Abbreviation peer n := (n%N : @PeerId demo_platform).

Definition demo_file : File :=
  {| f_bytes := [Byte.x01; Byte.x02]; f_pos := 0; f_metadata := Ok (); f_os := λ _, OsUpTo 1; f_calls := 0 |}.
Definition demo_fs : Fs := {|
  nodes := {[ "a.txt" := Regular demo_file; "dl" := Directory ]};
  refuse := λ p, if decide (p = "secret") then Some PermissionDenied else None;
  fresh_os := λ _ _, OsUpTo 1;
|}.
Definition demo_cb : Callback := {| cb_id := 1; cb_open := true |}.
Definition demo_state : Behaviour :=
  set_connected_peers {[ peer 6 ]} (new Config_default).

Lemma send_file_answers_witness :
  ∃ s' v, send_file 5 true (peer 6) "a.txt" demo_cb [] true demo_fs demo_state =
      Return (Ready (Err (FileSendError.Operation error.OpTimeout)), s') ∧
    pending_send s' = <[send_counter demo_state := v]> (pending_send demo_state) ∧
    PendingSend.bytes_total v = 2%N ∧ PendingSend.remote v = peer 6 ∧ PendingSend.file v = demo_file.
Proof.
  exact (proj2 (send_file_answers 5 (peer 6) "a.txt" demo_cb [] true demo_fs demo_state demo_file
    eq_refl eq_refl (List.Forall_nil _) eq_refl eq_refl ltac:(eexists; vm_compute; reflexivity))).
Defined.

Lemma recv_file_answers_witness :
  ∃ fs', recv_file 5 true 3 "new.txt" demo_cb [] demo_fs demo_state =
      Return (Ready (Err (FileRecvError.PendingRecvNotFound 3)), demo_state, fs') ∧
    nodes fs' = <["new.txt" := Regular (empty_file "new.txt" demo_fs)]> (nodes demo_fs).
Proof.
  exact (recv_file_answers 5 3 "new.txt" demo_cb [] demo_fs demo_state eq_refl (List.Forall_nil _)).
Defined.
End witnesses.
End BlobHandle.
