(* ===== verification/Adapters.v ===== *)
(** * Adapters of libp2p's protocols ([net/p2p/protocols])

    Modules [Mdns], [AutoNat], [RelayServer], [RelayClient], [Identify]: the
    configurations and their conversions, the requests and their execution, the
    handles and the commands of [mdns.rs], [autonat.rs], [relay_server.rs],
    [relay_client.rs] and [identify.rs].  libp2p's behaviours are interfaces. *)

From stdpp Require Import base gmap sets list strings pretty.
From Stdlib Require Import Lia NArith.
From S2P Require Import Prelude Std Core Calls Kad.
Import Calls.

(** ** mdns.rs *)
Module Mdns.
Record Config := { ttl : N; query_interval : N; enable_ipv6 : bool }.
Definition Config_default : Config :=
  {| ttl := from_secs (6 * 60); query_interval := from_secs (5 * 60); enable_ipv6 := false |}.

(** [libp2p::mdns::Config] has the same public fields. *)
Record LConfig := { l_ttl : N; l_query_interval : N; l_enable_ipv6 : bool }.
Definition from_Config (value : Config) : LConfig :=
  {| l_ttl := ttl value; l_query_interval := query_interval value; l_enable_ipv6 := enable_ipv6 value |}.

Class Libp2pMdns {P : Platform} := {
  Behaviour : Type;
  discovered_nodes : Behaviour → list PeerId;
}.

Section mdns.
Context {P : Platform} {M : Libp2pMdns}.

Inductive InEvent :=
| ListDiscoveredNodes (callback : Callback)
| HasNode (peer : PeerId) (callback : Callback).
Inductive Answer := AnsNodes (l : list PeerId) | AnsBool (b : bool).

Definition map_in_event (ev : InEvent) (behav : Behaviour) : Behaviour * list (Sent Answer) :=
  match ev with
  | ListDiscoveredNodes callback =>
      (behav, handle_callback_sender (AnsNodes (discovered_nodes behav)) callback)
  | HasNode peer callback =>
      let has_node := existsb (λ discovered, bool_decide (discovered = peer)) (discovered_nodes behav) in
      (behav, handle_callback_sender (AnsBool has_node) callback)
  end.

Definition serve (ev : InEvent) (b : Behaviour) : outcome (Behaviour * list (Sent Answer)) :=
  Return (map_in_event ev b).
Definition get_nodes (a : Answer) : option (list PeerId) := match a with AnsNodes l => Some l | _ => None end.
Definition get_bool (a : Answer) : option bool := match a with AnsBool b => Some b | _ => None end.
Definition list_discovered_node (alive : bool) (tx : Callback) (b : Behaviour) :=
  handler_method serve ListDiscoveredNodes get_nodes alive tx b.
Definition has_node (alive : bool) (peer : PeerId) (tx : Callback) (b : Behaviour) :=
  handler_method serve (HasNode peer) get_bool alive tx b.

(** cli: the commands, and the line printed for a peer. *)
Inductive Command := CListDiscovered | CHasNode (peer_id : PeerId).
Definition has_node_output (peer_id : PeerId) (result : bool) : string :=
  "Is peer " +:+ peer_display peer_id +:+ " discovered through mDNS: " +:+ (if result then "true" else "false").

(** [libp2p::mdns::Event]. *)
Inductive OutEvent :=
| Discovered (list : list (PeerId * Multiaddr))
| Expired (list : list (PeerId * Multiaddr)).

(** The addresses go to the kad behaviour, one call each. *)
Definition ev_dispatch {K : Kad.Libp2pKad} (ev : OutEvent) (kad : Kad.Behaviour) : Kad.Behaviour :=
  match ev with
  | Discovered list => foldl (λ kad '(peer, addr), (Kad.add_address peer addr kad).2) kad list
  | Expired list => foldl (λ kad '(peer, addr), Kad.remove_address peer addr kad) kad list
  end.

(** The two requests agree. *)
Lemma has_node_iff peer tx b :
  has_node true peer tx b = Return (Ready (bool_decide (peer ∈ discovered_nodes b)), b) ∧
  list_discovered_node true tx b = Return (Ready (discovered_nodes b), b).
Proof.
  unfold has_node, list_discovered_node, handler_method, serve. cbn. rewrite !decide_True by done. cbn.
  split; [|done]. do 3 f_equal. apply eq_true_iff_eq. rewrite existsb_exists, bool_decide_eq_true. split.
  - intros (x & Hx & ->%bool_decide_eq_true). by apply list_elem_of_In.
  - intros H. exists peer. split; [by apply list_elem_of_In|by apply bool_decide_eq_true].
Qed.
End mdns.
End Mdns.

(** ** autonat.rs *)
Module AutoNat.
Record Config := {
  timeout_sec : N; boot_delay_sec : N; refresh_interval_sec : N; retry_interval_sec : N;
  throttle_server_period_sec : N; use_connected : bool; confidence_max : N;
  max_peer_addresses : N; throttle_clients_global_max : N; throttle_clients_peer_max : N;
  throttle_clients_period_sec : N; only_global_ips : bool;
}.
Definition Config_default : Config := {|
  timeout_sec := 30; boot_delay_sec := 15; retry_interval_sec := 90; refresh_interval_sec := 15 * 60;
  throttle_server_period_sec := 90; use_connected := true; confidence_max := 3; max_peer_addresses := 16;
  throttle_clients_global_max := 30; throttle_clients_peer_max := 3; throttle_clients_period_sec := 1;
  only_global_ips := true;
|}.

(** [libp2p::autonat::Config], with durations. *)
Record LConfig := {
  timeout : N; boot_delay : N; refresh_interval : N; retry_interval : N;
  throttle_server_period : N; l_use_connected : bool; l_confidence_max : N;
  l_max_peer_addresses : N; l_throttle_clients_global_max : N; l_throttle_clients_peer_max : N;
  throttle_clients_period : N; l_only_global_ips : bool;
}.
Definition from_LConfig (value : LConfig) : Config := {|
  timeout_sec := as_secs (timeout value);
  boot_delay_sec := as_secs (boot_delay value);
  refresh_interval_sec := as_secs (refresh_interval value);
  retry_interval_sec := as_secs (retry_interval value);
  throttle_server_period_sec := as_secs (throttle_server_period value);
  use_connected := l_use_connected value;
  confidence_max := l_confidence_max value;
  max_peer_addresses := l_max_peer_addresses value;
  throttle_clients_global_max := l_throttle_clients_global_max value;
  throttle_clients_peer_max := l_throttle_clients_peer_max value;
  throttle_clients_period_sec := as_secs (throttle_clients_period value);
  only_global_ips := l_only_global_ips value;
|}.

Section autonat.
Context {P : Platform}.

Inductive NatStatus := Public (addr : Multiaddr) | Private | Unknown.

Inductive InEvent :=
| AddServer (peer_id : PeerId) (address : option Multiaddr)
| RemoveServer (peer_id : PeerId)
| Probe (candidate : Multiaddr)
| GetNatStatus (callback : Callback).
Inductive Answer := AnsNatStatus (r : NatStatus * N).

Class Libp2pAutonat := {
  Behaviour : Type;
  add_server : PeerId → option Multiaddr → Behaviour → Behaviour;
  remove_server : PeerId → Behaviour → Behaviour;
  probe_address : Multiaddr → Behaviour → Behaviour;
  nat_status : Behaviour → NatStatus;
  confidence : Behaviour → N;
}.
Context {A : Libp2pAutonat}.

Definition map_in_event (behaviour : Behaviour) (ev : InEvent) : Behaviour * list (Sent Answer) :=
  match ev with
  | AddServer peer_id address => (add_server peer_id address behaviour, [])
  | RemoveServer peer_id => (remove_server peer_id behaviour, [])
  | GetNatStatus callback =>
      (behaviour, handle_callback_sender (AnsNatStatus (nat_status behaviour, confidence behaviour)) callback)
  | Probe candidate => (probe_address candidate behaviour, [])
  end.

Definition serve (ev : InEvent) (b : Behaviour) : outcome (Behaviour * list (Sent Answer)) :=
  Return (map_in_event b ev).
Definition handle_remove_server (alive : bool) (peer_id : PeerId) (b : Behaviour) :=
  handler_method_silent serve (RemoveServer peer_id) alive b.
Definition probe (alive : bool) (candidate : Multiaddr) (b : Behaviour) :=
  handler_method_silent serve (Probe candidate) alive b.
Definition get_nat_status (alive : bool) (tx : Callback) (b : Behaviour) :=
  handler_method serve GetNatStatus (λ a, match a with AnsNatStatus r => Some r end) alive tx b.
Definition handle_add_server (alive : bool) (peer_id : PeerId) (address : option Multiaddr) (b : Behaviour) :=
  handler_method_silent serve (AddServer peer_id address) alive b.

(** cli: the request of a command, the line printed when it was sent, the text
    for a status. *)
Inductive Command :=
| CAddServer (peer_id : PeerId) (address : option Multiaddr)
| CRemoveServer (peer_id : PeerId)
| CProbe (address : Multiaddr)
| CGetNatStatus.
Definition handle_autonat (command : Command) (tx : Callback) : InEvent :=
  match command with
  | CAddServer peer_id address => AddServer peer_id address
  | CRemoveServer peer_id => RemoveServer peer_id
  | CProbe address => Probe address
  | CGetNatStatus => GetNatStatus tx
  end.
Definition sent_output (addr_display : Multiaddr → string) (command : Command) : option string :=
  match command with
  | CAddServer peer_id _ => Some ("AutoNat::AddServer(" +:+ peer_display peer_id +:+ ")-> OK.")
  | CRemoveServer peer_id => Some ("AutoNat::RemoveServer(" +:+ peer_display peer_id +:+ ")-> OK.")
  | CProbe address => Some ("AutoNat::Probe(" +:+ addr_display address +:+ ")-> OK.")
  | CGetNatStatus => None
  end.
Definition status_output (addr_display : Multiaddr → string) (r : NatStatus * N) : string :=
  match r with
  | (Private, confidence) => "NAT status: Private; Confidence: " +:+ pretty confidence
  | (Public addr, confidence) =>
      "NAT status: Public; Public address: " +:+ addr_display addr +:+ ", Confidence: " +:+ pretty confidence
  | (Unknown, _) => "NAT status: Unknown"
  end.
End autonat.
End AutoNat.

(** ** relay_server.rs *)
Module RelayServer.
Record Config := {
  max_reservations : N; max_reservations_per_peer : N; reservation_duration_sec : N;
  max_circuits : N; max_circuits_per_peer : N; max_circuit_duration_sec : N; max_circuit_bytes : N;
}.
Definition Config_default : Config := {|
  max_reservations := 128; max_reservations_per_peer := 4; reservation_duration_sec := 60 * 60;
  max_circuits := 16; max_circuits_per_peer := 4; max_circuit_duration_sec := 12 * 60 * 60;
  max_circuit_bytes := 0;
|}.

(** [libp2p::relay::Config]; the rate limiters are its own. *)
Record LConfig {Limiters : Type} := {
  l_max_reservations : N; l_max_reservations_per_peer : N; reservation_duration : N;
  reservation_rate_limiters : Limiters;
  l_max_circuits : N; l_max_circuits_per_peer : N; max_circuit_duration : N; l_max_circuit_bytes : N;
  circuit_src_rate_limiters : Limiters;
}.
Arguments LConfig : clear implicits.

Definition from_Config {Limiters} (default : LConfig Limiters) (value : Config) : LConfig Limiters := {|
  l_max_reservations := max_reservations value;
  l_max_reservations_per_peer := max_reservations_per_peer value;
  reservation_duration := from_secs (reservation_duration_sec value);
  reservation_rate_limiters := reservation_rate_limiters default;
  l_max_circuits := max_circuits value;
  l_max_circuits_per_peer := max_circuits_per_peer value;
  max_circuit_duration := from_secs (max_circuit_duration_sec value);
  l_max_circuit_bytes := max_circuit_bytes value;
  circuit_src_rate_limiters := circuit_src_rate_limiters default;
|}.
End RelayServer.

(** ** relay_client.rs *)
Module RelayClient.
Section relay.
Context {P : Platform}.

(** [Multiaddr::with] appends a protocol. *)
Inductive Protocol := P2p (peer_id : PeerId) | P2pCircuit.
Class MultiaddrOps := { with_protocol : Multiaddr → Protocol → Multiaddr }.
Context {O : MultiaddrOps}.

Inductive Command := Listen (address : Multiaddr) (peer_id : PeerId).
(** [handle_relay_client]: the address it listens on. *)
Definition listen_addr (command : Command) : Multiaddr :=
  match command with
  | Listen address peer_id => with_protocol (with_protocol address (P2p peer_id)) P2pCircuit
  end.

(** [setup]: the events of the client that print a line. *)
Inductive OutEvent :=
| ReservationReqAccepted (relay_peer_id : PeerId) (renewal : bool) (limit : string)
| OutboundCircuitEstablished (relay_peer_id : PeerId) (limit : string)
| InboundCircuitEstablished (src_peer_id : PeerId) (limit : string).
Definition setup_output (ev : OutEvent) : option string :=
  match ev with
  | ReservationReqAccepted relay_peer_id renewal limit =>
      if negb renewal then
        Some ("Reservation sent to relay " +:+ peer_display relay_peer_id +:+ " has been accepted. Limit:" +:+ limit)
      else None
  | _ => None
  end.
End relay.
End RelayClient.

(** ** identify.rs *)
Module Identify.
Record Config := {
  protocol_version : string; agent_version : string; interval : N;
  push_listen_addr_updates : bool; cache_size : N;
}.
(** [version]: the package's, at compile time. *)
Definition Config_default (version : string) : Config := {|
  protocol_version := "owlnest/" +:+ version;
  agent_version := "rust-libp2p/owlnest/" +:+ version;
  interval := 5 * 60; push_listen_addr_updates := false; cache_size := 100;
|}.

Class Libp2pIdentify := {
  PublicKey : Type;
  LConfig : Type;
  Config_new : string → PublicKey → LConfig;
  with_agent_version : string → LConfig → LConfig;
  with_cache_size : N → LConfig → LConfig;
  with_interval : N → LConfig → LConfig;
  with_push_listen_addr_updates : bool → LConfig → LConfig;
}.

Definition into_config {I : Libp2pIdentify} (self : Config) (pubkey : PublicKey) : LConfig :=
  with_push_listen_addr_updates (push_listen_addr_updates self)
    (with_interval (from_secs (interval self))
      (with_cache_size (cache_size self)
        (with_agent_version (agent_version self) (Config_new (protocol_version self) pubkey)))).
End Identify.
