(* ===== verification/Select.v ===== *)
(** * Composing behaviours and handlers ([owlnest-macro], [behaviour_select.rs], [connection_handler_select.rs])

    Module [Select].  The macros make one [NetworkBehaviour] out of a list of
    them: a struct with a field per behaviour, enums with a variant per
    behaviour.  Here the list is an argument, the struct a nested product
    ([hlist]) and the enums nested sums ([tagged]); [NetworkBehaviour] and
    [ConnectionHandler] are libp2p's interfaces. *)

From stdpp Require Import base gmap sets list strings.
From Stdlib Require Import Lia NArith.
From S2P Require Import Prelude Std Core.

Module Select.

(** ** Structs and enums over a list of components *)
Fixpoint hlist {X : Type} (F : X → Type) (l : list X) : Type :=
  match l with
  | [] => unit
  | x :: l => F x * hlist F l
  end.

Fixpoint tagged {X : Type} (F : X → Type) (l : list X) : Type :=
  match l with
  | [] => Empty_set
  | x :: l => F x + tagged F l
  end.

(** The [i]-th field; the index and the contents of a variant. *)
Fixpoint field {X : Type} {F : X → Type} (l : list X) (i : nat) : hlist F l → option {x : X & F x} :=
  match l with
  | [] => λ _, None
  | x :: l => λ h, match i with O => Some (existT x h.1) | S i => field l i h.2 end
  end.

Fixpoint variant {X : Type} {F : X → Type} (l : list X) : tagged F l → nat * {x : X & F x} :=
  match l with
  | [] => λ t, match t with end
  | x :: l => λ t,
      match t with
      | inl a => (0, existT x a)
      | inr t => let '(i, a) := variant l t in (S i, a)
      end
  end.

Section select.
Context {P : Platform} {Endpoint PortUse ConnectionDenied SupportedProtocols : Type}.

(** ** libp2p's interfaces *)
Inductive ConnectionHandlerEvent (Up Info B : Type) :=
| OutboundSubstreamRequest (upgrade : Up) (info : Info)
| NotifyBehaviour (event : B)
| OtherHandlerEvent.

Inductive StreamUpgradeError (E : Type) :=
| Timeout | Apply (e : E) | NegotiationFailed | Io (e : IoError).

Inductive ConnectionEvent (InSub InInfo OutSub OutInfo InErr OutErr : Type) :=
| FullyNegotiatedInbound (protocol : InSub) (info : InInfo)
| FullyNegotiatedOutbound (protocol : OutSub) (info : OutInfo)
| AddressChange (new_address : Multiaddr)
| DialUpgradeError (error : StreamUpgradeError OutErr) (info : OutInfo)
| ListenUpgradeError (error : InErr) (info : InInfo)
| LocalProtocolsChange (p : SupportedProtocols)
| RemoteProtocolsChange (p : SupportedProtocols)
| UncoveredEvent.

Arguments OutboundSubstreamRequest {Up Info B} upgrade info.
Arguments NotifyBehaviour {Up Info B} event.
Arguments OtherHandlerEvent {Up Info B}.
Arguments Timeout {E}.
Arguments Apply {E} e.
Arguments NegotiationFailed {E}.
Arguments Io {E} e.
Arguments FullyNegotiatedInbound {_ _ _ _ _ _} protocol info.
Arguments FullyNegotiatedOutbound {_ _ _ _ _ _} protocol info.
Arguments AddressChange {_ _ _ _ _ _} new_address.
Arguments DialUpgradeError {_ _ _ _ _ _} error info.
Arguments ListenUpgradeError {_ _ _ _ _ _} error info.
Arguments LocalProtocolsChange {_ _ _ _ _ _} p.
Arguments RemoteProtocolsChange {_ _ _ _ _ _} p.
Arguments UncoveredEvent {_ _ _ _ _ _}.

Record ConnectionHandler := {
  ch_state : Type;
  ch_from : Type;
  ch_to : Type;
  ch_upgrade : Type;
  ch_in_sub : Type; ch_in_info : Type; ch_in_err : Type;
  ch_out_sub : Type; ch_out_info : Type; ch_out_err : Type;
  ch_keep_alive : ch_state → bool;
  ch_poll : PollCx → ch_state →
    outcome (Poll (ConnectionHandlerEvent ch_upgrade ch_out_info ch_to) * ch_state);
  ch_on_behaviour_event : ch_from → ch_state → outcome ch_state;
  ch_on_connection_event :
    ConnectionEvent ch_in_sub ch_in_info ch_out_sub ch_out_info ch_in_err ch_out_err →
    ch_state → outcome ch_state;
}.

Record NetworkBehaviour := {
  nb_state : Type;
  nb_event : Type;
  nb_handler : ConnectionHandler;
  nb_pending_inbound : ConnectionId → Multiaddr → Multiaddr → nb_state →
    result unit ConnectionDenied * nb_state;
  nb_established_inbound : ConnectionId → PeerId → Multiaddr → Multiaddr → nb_state →
    result (ch_state nb_handler) ConnectionDenied * nb_state;
  nb_pending_outbound : ConnectionId → option PeerId → list Multiaddr → Endpoint → nb_state →
    result (list Multiaddr) ConnectionDenied * nb_state;
  nb_established_outbound : ConnectionId → PeerId → Multiaddr → Endpoint → PortUse → nb_state →
    result (ch_state nb_handler) ConnectionDenied * nb_state;
  nb_on_handler_event : PeerId → ConnectionId → ch_to nb_handler → nb_state → outcome nb_state;
  nb_on_swarm_event : FromSwarm → nb_state → outcome nb_state;
  nb_poll : PollCx → nb_state → outcome (Poll (ToSwarm nb_event (ch_from nb_handler)) * nb_state);
}.

(** ** behaviour_select! *)
Definition Behaviour (l : list NetworkBehaviour) : Type := hlist nb_state l.
Definition BehaviourEvent (l : list NetworkBehaviour) : Type := tagged nb_event l.
Definition handlers (l : list NetworkBehaviour) : list ConnectionHandler := map nb_handler l.
Definition FromBehaviourSelect (l : list ConnectionHandler) : Type := tagged ch_from l.
Definition ToBehaviourSelect (l : list ConnectionHandler) : Type := tagged ch_to l.
Definition ConnectionHandlerSelect (l : list ConnectionHandler) : Type := hlist ch_state l.

(** [$(...(&mut self.$name, ..)?;)*]: ask in order until one refuses. *)
Fixpoint handle_pending_inbound_connection (l : list NetworkBehaviour) (c : ConnectionId)
    (local_addr remote_addr : Multiaddr) : Behaviour l → result unit ConnectionDenied * Behaviour l :=
  match l return Behaviour l → result unit ConnectionDenied * Behaviour l with
  | [] => λ s, (Ok tt, s)
  | b :: l => λ s,
      match nb_pending_inbound b c local_addr remote_addr s.1 with
      | (Err e, st) => (Err e, (st, s.2))
      | (Ok _, st) =>
          let '(r, ss) := handle_pending_inbound_connection l c local_addr remote_addr s.2 in
          (r, (st, ss))
      end
  end.

(** The handlers of one connection, made in order; both directions do this. *)
Fixpoint make_handlers
    (ask : ∀ b, nb_state b → result (ch_state (nb_handler b)) ConnectionDenied * nb_state b)
    (l : list NetworkBehaviour)
    : Behaviour l → result (ConnectionHandlerSelect (handlers l)) ConnectionDenied * Behaviour l :=
  match l return Behaviour l → result (ConnectionHandlerSelect (handlers l)) ConnectionDenied * Behaviour l with
  | [] => λ s, (Ok tt, s)
  | b :: l => λ s,
      match ask b s.1 with
      | (Err e, st) => (Err e, (st, s.2))
      | (Ok h, st) =>
          match make_handlers ask l s.2 with
          | (Ok hs, ss) => (Ok (h, hs), (st, ss))
          | (Err e, ss) => (Err e, (st, ss))
          end
      end
  end.
Definition handle_established_inbound_connection (l : list NetworkBehaviour) (c : ConnectionId)
    (peer : PeerId) (local_addr remote_addr : Multiaddr) :=
  make_handlers (λ b, nb_established_inbound b c peer local_addr remote_addr) l.
Definition handle_established_outbound_connection (l : list NetworkBehaviour) (c : ConnectionId)
    (peer : PeerId) (addr : Multiaddr) (role_override : Endpoint) (port_use : PortUse) :=
  make_handlers (λ b, nb_established_outbound b c peer addr role_override port_use) l.

(** [combined_addresses.extend(..)]. *)
Fixpoint handle_pending_outbound_connection (l : list NetworkBehaviour) (c : ConnectionId)
    (maybe_peer : option PeerId) (addresses : list Multiaddr) (role : Endpoint)
    : Behaviour l → result (list Multiaddr) ConnectionDenied * Behaviour l :=
  match l return Behaviour l → result (list Multiaddr) ConnectionDenied * Behaviour l with
  | [] => λ s, (Ok [], s)
  | b :: l => λ s,
      match nb_pending_outbound b c maybe_peer addresses role s.1 with
      | (Err e, st) => (Err e, (st, s.2))
      | (Ok addrs, st) =>
          match handle_pending_outbound_connection l c maybe_peer addresses role s.2 with
          | (Ok rest, ss) => (Ok (addrs ++ rest), (st, ss))
          | (Err e, ss) => (Err e, (st, ss))
          end
      end
  end.

Fixpoint on_connection_handler_event (l : list NetworkBehaviour) (peer_id : PeerId) (c : ConnectionId)
    : ToBehaviourSelect (handlers l) → Behaviour l → outcome (Behaviour l) :=
  match l return ToBehaviourSelect (handlers l) → Behaviour l → outcome (Behaviour l) with
  | [] => λ event, match event with end
  | b :: l => λ event s,
      match event with
      | inl ev => st ← nb_on_handler_event b peer_id c ev s.1; Return (st, s.2)
      | inr ev => ss ← on_connection_handler_event l peer_id c ev s.2; Return (s.1, ss)
      end
  end.

Fixpoint on_swarm_event (l : list NetworkBehaviour) (event : FromSwarm)
    : Behaviour l → outcome (Behaviour l) :=
  match l return Behaviour l → outcome (Behaviour l) with
  | [] => λ s, Return s
  | b :: l => λ s,
      st ← nb_on_swarm_event b event s.1;
      ss ← on_swarm_event l event s.2;
      Return (st, ss)
  end.

(** The arms of [poll]: events and handler commands get the behaviour's tag,
    everything else is passed on. *)
Definition pass_on {E H E' H' : Type} (f : E → E') (g : H → H') (ev : ToSwarm E H) : outcome (ToSwarm E' H') :=
  match ev with
  | GenerateEvent event => Return (GenerateEvent (f event))
  | Dial opts => Return (Dial opts)
  | ListenOn opts => Return (ListenOn opts)
  | RemoveListener id => Return (RemoveListener id)
  | NotifyHandler peer_id handler event => Return (NotifyHandler peer_id handler (g event))
  | NewExternalAddrCandidate addr => Return (NewExternalAddrCandidate addr)
  | ExternalAddrConfirmed addr => Return (ExternalAddrConfirmed addr)
  | ExternalAddrExpired addr => Return (ExternalAddrExpired addr)
  | CloseConnection peer_id connection => Return (CloseConnection peer_id connection)
  | NewExternalAddrOfPeer peer_id address => Return (NewExternalAddrOfPeer peer_id address)
  | UncoveredToSwarm => Panic "not implemented: New branch not covered"
  end.

Fixpoint poll (l : list NetworkBehaviour) (cx : PollCx)
    : Behaviour l → outcome (Poll (ToSwarm (BehaviourEvent l) (FromBehaviourSelect (handlers l))) * Behaviour l) :=
  match l return Behaviour l →
    outcome (Poll (ToSwarm (BehaviourEvent l) (FromBehaviourSelect (handlers l))) * Behaviour l) with
  | [] => λ s, Return (Pending, s)
  | b :: l => λ s,
      ' (r, st) ← nb_poll b cx s.1;
      match r with
      | Ready ev => ev ← pass_on inl inl ev; Return (Ready ev, (st, s.2))
      | Pending =>
          ' (r, ss) ← poll l cx s.2;
          match r with
          | Ready ev => ev ← pass_on inr inr ev; Return (Ready ev, (st, ss))
          | Pending => Return (Pending, (st, ss))
          end
      end
  end.

(** ** connection_handler_select! *)
Definition UpgradeSelect (l : list ConnectionHandler) : Type := tagged ch_upgrade l.
Definition OutboundOpenInfoSelect (l : list ConnectionHandler) : Type := tagged ch_out_info l.
Definition InboundOpenInfoSelect (l : list ConnectionHandler) : Type := hlist ch_in_info l.
Definition FullyNegotiatedOutboundSelect (l : list ConnectionHandler) : Type :=
  tagged (λ h, (ch_out_sub h * ch_out_info h)%type) l.
Definition FullyNegotiatedInboundSelect (l : list ConnectionHandler) : Type :=
  tagged (λ h, (ch_in_sub h * ch_in_info h)%type) l.
Definition DialUpgradeErrorSelect (l : list ConnectionHandler) : Type :=
  tagged (λ h, (StreamUpgradeError (ch_out_err h) * ch_out_info h)%type) l.

(** [vec![..].iter().max().unwrap_or(&true)]: false is below true. *)
Fixpoint keep_alives (l : list ConnectionHandler) : ConnectionHandlerSelect l → list bool :=
  match l return ConnectionHandlerSelect l → list bool with
  | [] => λ _, []
  | h :: l => λ s, ch_keep_alive h s.1 :: keep_alives l s.2
  end.
Definition connection_keep_alive (l : list ConnectionHandler) (s : ConnectionHandlerSelect l) : bool :=
  match keep_alives l s with [] => true | b :: bs => foldl orb b bs end.

Definition HandlerPoll (l : list ConnectionHandler) : Type :=
  Poll (ConnectionHandlerEvent (UpgradeSelect l) (OutboundOpenInfoSelect l) (ToBehaviourSelect l)).

(** The variants of the handlers after [h] among all variants. *)
Definition later (h : ConnectionHandler) (l : list ConnectionHandler) (r : HandlerPoll l) : HandlerPoll (h :: l) :=
  match r with
  | Ready (NotifyBehaviour event) => Ready (NotifyBehaviour (inr event))
  | Ready (OutboundSubstreamRequest upgrade info) => Ready (OutboundSubstreamRequest (inr upgrade) (inr info))
  | Ready OtherHandlerEvent | Pending => Pending
  end.

(** [_ => ()]: any other event of a handler is dropped, and the next is polled. *)
Fixpoint poll_handlers (l : list ConnectionHandler) (cx : PollCx)
    : ConnectionHandlerSelect l → outcome (HandlerPoll l * ConnectionHandlerSelect l) :=
  match l return ConnectionHandlerSelect l → outcome (HandlerPoll l * ConnectionHandlerSelect l) with
  | [] => λ s, Return (Pending, s)
  | h :: l => λ s,
      ' (r, st) ← ch_poll h cx s.1;
      match r with
      | Ready (NotifyBehaviour event) => Return (Ready (NotifyBehaviour (inl event)), (st, s.2))
      | Ready (OutboundSubstreamRequest upgrade info) =>
          Return (Ready (OutboundSubstreamRequest (inl upgrade) (inl info)), (st, s.2))
      | Pending | Ready OtherHandlerEvent =>
          ' (r, ss) ← poll_handlers l cx s.2; Return (later h l r, (st, ss))
      end
  end.

Fixpoint on_behaviour_event (l : list ConnectionHandler)
    : FromBehaviourSelect l → ConnectionHandlerSelect l → outcome (ConnectionHandlerSelect l) :=
  match l return FromBehaviourSelect l → ConnectionHandlerSelect l → outcome (ConnectionHandlerSelect l) with
  | [] => λ event, match event with end
  | h :: l => λ event s,
      match event with
      | inl ev => st ← ch_on_behaviour_event h ev s.1; Return (st, s.2)
      | inr ev => ss ← on_behaviour_event l ev s.2; Return (s.1, ss)
      end
  end.

(** Which handler a negotiated or failed stream belongs to. *)
Fixpoint transpose_full_outbound (l : list ConnectionHandler)
    : tagged ch_out_sub l → OutboundOpenInfoSelect l → outcome (FullyNegotiatedOutboundSelect l) :=
  match l return tagged ch_out_sub l → OutboundOpenInfoSelect l → outcome (FullyNegotiatedOutboundSelect l) with
  | [] => λ protocol, match protocol with end
  | h :: l => λ protocol info,
      match protocol, info with
      | inl protocol, inl info => Return (inl (protocol, info))
      | inr protocol, inr info => t ← transpose_full_outbound l protocol info; Return (inr t)
      | _, _ => Panic "protocol mismatch!"
      end
  end.

Fixpoint transpose_full_inbound (l : list ConnectionHandler)
    : tagged ch_in_sub l → InboundOpenInfoSelect l → FullyNegotiatedInboundSelect l :=
  match l return tagged ch_in_sub l → InboundOpenInfoSelect l → FullyNegotiatedInboundSelect l with
  | [] => λ protocol, match protocol with end
  | h :: l => λ protocol info,
      match protocol with
      | inl protocol => inl (protocol, info.1)
      | inr protocol => inr (transpose_full_inbound l protocol info.2)
      end
  end.

(** The error carries a tag only when the upgrade itself failed; otherwise the
    open info decides. *)
Fixpoint transpose_apply (l : list ConnectionHandler)
    : tagged ch_out_err l → OutboundOpenInfoSelect l → outcome (DialUpgradeErrorSelect l) :=
  match l return tagged ch_out_err l → OutboundOpenInfoSelect l → outcome (DialUpgradeErrorSelect l) with
  | [] => λ error, match error with end
  | h :: l => λ error info,
      match error, info with
      | inl error, inl info => Return (inl (Apply error, info))
      | inr error, inr info => t ← transpose_apply l error info; Return (inr t)
      | _, _ => Panic "already handled above"
      end
  end.
Fixpoint transpose_other (l : list ConnectionHandler) (error : ∀ E, StreamUpgradeError E)
    : OutboundOpenInfoSelect l → DialUpgradeErrorSelect l :=
  match l return OutboundOpenInfoSelect l → DialUpgradeErrorSelect l with
  | [] => λ info, match info with end
  | h :: l => λ info,
      match info with
      | inl info => inl (error _, info)
      | inr info => inr (transpose_other l error info)
      end
  end.
Definition transpose_upgr_error (l : list ConnectionHandler)
    (error : StreamUpgradeError (tagged ch_out_err l)) (info : OutboundOpenInfoSelect l)
    : outcome (DialUpgradeErrorSelect l) :=
  match error with
  | Apply error => transpose_apply l error info
  | Timeout => Return (transpose_other l (λ _, Timeout) info)
  | NegotiationFailed => Return (transpose_other l (λ _, NegotiationFailed) info)
  | Io e => Return (transpose_other l (λ _, Io e) info)
  end.

(** Events for one handler. *)
Fixpoint dispatch {F : ConnectionHandler → Type}
    (deliver : ∀ h, F h → ch_state h → outcome (ch_state h)) (l : list ConnectionHandler)
    : tagged F l → ConnectionHandlerSelect l → outcome (ConnectionHandlerSelect l) :=
  match l return tagged F l → ConnectionHandlerSelect l → outcome (ConnectionHandlerSelect l) with
  | [] => λ t, match t with end
  | h :: l => λ t s,
      match t with
      | inl a => st ← deliver h a s.1; Return (st, s.2)
      | inr t => ss ← dispatch deliver l t s.2; Return (s.1, ss)
      end
  end.
(** Events for every handler. *)
Fixpoint broadcast (deliver : ∀ h, ch_state h → outcome (ch_state h)) (l : list ConnectionHandler)
    : ConnectionHandlerSelect l → outcome (ConnectionHandlerSelect l) :=
  match l return ConnectionHandlerSelect l → outcome (ConnectionHandlerSelect l) with
  | [] => λ s, Return s
  | h :: l => λ s, st ← deliver h s.1; ss ← broadcast deliver l s.2; Return (st, ss)
  end.

Fixpoint on_listen_upgrade_error (l : list ConnectionHandler)
    : tagged ch_in_err l → InboundOpenInfoSelect l → ConnectionHandlerSelect l →
      outcome (ConnectionHandlerSelect l) :=
  match l return tagged ch_in_err l → InboundOpenInfoSelect l → ConnectionHandlerSelect l →
      outcome (ConnectionHandlerSelect l) with
  | [] => λ error, match error with end
  | h :: l => λ error info s,
      match error with
      | inl error => st ← ch_on_connection_event h (ListenUpgradeError error info.1) s.1; Return (st, s.2)
      | inr error => ss ← on_listen_upgrade_error l error info.2 s.2; Return (s.1, ss)
      end
  end.

Definition SelectEvent (l : list ConnectionHandler) : Type :=
  ConnectionEvent (tagged ch_in_sub l) (InboundOpenInfoSelect l) (tagged ch_out_sub l)
    (OutboundOpenInfoSelect l) (tagged ch_in_err l) (tagged ch_out_err l).

Definition on_connection_event (l : list ConnectionHandler) (event : SelectEvent l)
    (s : ConnectionHandlerSelect l) : outcome (ConnectionHandlerSelect l) :=
  match event with
  | FullyNegotiatedOutbound protocol info =>
      t ← transpose_full_outbound l protocol info;
      dispatch (λ h p, ch_on_connection_event h (FullyNegotiatedOutbound p.1 p.2)) l t s
  | FullyNegotiatedInbound protocol info =>
      dispatch (λ h p, ch_on_connection_event h (FullyNegotiatedInbound p.1 p.2)) l
        (transpose_full_inbound l protocol info) s
  | AddressChange address => broadcast (λ h, ch_on_connection_event h (AddressChange address)) l s
  | DialUpgradeError error info =>
      t ← transpose_upgr_error l error info;
      dispatch (λ h p, ch_on_connection_event h (DialUpgradeError p.1 p.2)) l t s
  | ListenUpgradeError error info => on_listen_upgrade_error l error info s
  | LocalProtocolsChange p => broadcast (λ h, ch_on_connection_event h (LocalProtocolsChange p)) l s
  | RemoteProtocolsChange p => broadcast (λ h, ch_on_connection_event h (RemoteProtocolsChange p)) l s
  | UncoveredEvent => Panic "not implemented: New branch not covered"
  end.

(** ** What a composition does, component by component *)

(** An event of the composition is the event of its [i]-th behaviour, tagged. *)
Definition passed (l : list NetworkBehaviour) (i : nat) (b : NetworkBehaviour)
    (ev : ToSwarm (nb_event b) (ch_from (nb_handler b)))
    (ev' : ToSwarm (BehaviourEvent l) (FromBehaviourSelect (handlers l))) : Prop :=
  match ev' with
  | GenerateEvent e' => ∃ e, ev = GenerateEvent e ∧ variant l e' = (i, existT b e)
  | NotifyHandler p t e' =>
      ∃ e, ev = NotifyHandler p t e ∧ variant (handlers l) e' = (i, existT (nb_handler b) e)
  | Dial o => ev = Dial o
  | ListenOn o => ev = ListenOn o
  | RemoveListener id => ev = RemoveListener id
  | NewExternalAddrCandidate a => ev = NewExternalAddrCandidate a
  | ExternalAddrConfirmed a => ev = ExternalAddrConfirmed a
  | ExternalAddrExpired a => ev = ExternalAddrExpired a
  | CloseConnection p t => ev = CloseConnection p t
  | NewExternalAddrOfPeer p a => ev = NewExternalAddrOfPeer p a
  | UncoveredToSwarm => False
  end.

Lemma passed_here b l ev ev' : pass_on inl inl ev = Return ev' → passed (b :: l) 0 b ev ev'.
Proof. destruct ev; simpl; intros H; inversion H; subst; simpl; eauto. Qed.

Lemma passed_later b l i b' ev ev1 ev' :
  passed l i b' ev ev1 → pass_on inr inr ev1 = Return ev' → passed (b :: l) (S i) b' ev ev'.
Proof.
  destruct ev1 as [| | | |p t e1| | | | | |]; simpl; intros Hp H; inversion H; subst; simpl; try done.
  - destruct Hp as (e & -> & Hv). exists e. by rewrite Hv.
  - destruct Hp as (e & -> & Hv). exists e. unfold handlers in *. by rewrite Hv.
Qed.

(** The first ready behaviour decides. *)
Lemma poll_spec l cx s r s' :
  poll l cx s = Return (r, s') →
  ∃ i,
    (∀ j, j < i → ∃ b st st', field l j s = Some (existT b st) ∧
       nb_poll b cx st = Return (Pending, st') ∧ field l j s' = Some (existT b st')) ∧
    (∀ j, i < j → field l j s' = field l j s) ∧
    match r with
    | Pending => i = length l
    | Ready ev => ∃ b st st' ev0, field l i s = Some (existT b st) ∧
        nb_poll b cx st = Return (Ready ev0, st') ∧ field l i s' = Some (existT b st') ∧
        passed l i b ev0 ev
    end.
Proof.
  revert r s'. induction l as [|b l IH]; intros r s' H; simpl in H.
  - injection H as <- <-. exists 0. split; [intros; lia|]. by split.
  - apply bind_return in H as ([r1 st] & Hb & H). destruct s as [s0 ss]. simpl in Hb. destruct r1 as [ev1|].
    + apply bind_return in H as (ev & Hev & [= <- <-]). exists 0. split; [intros; lia|]. split.
      * intros [|j] Hj; [lia|done].
      * exists b, s0, st, ev1. split; [done|]. split; [done|]. split; [done|]. by apply passed_here.
    + apply bind_return in H as ([r2 ss'] & Hl & H). simpl in Hl.
      destruct (IH ss r2 ss' Hl) as (i & Hbefore & Hafter & Hr). exists (S i).
      assert (∃ r', r = r' ∧ s' = (st, ss')) as (_ & _ & ->).
      { destruct r2; [apply bind_return in H as (? & _ & [= <- <-])|injection H as <- <-]; eauto. }
      split; [|split].
      * intros [|j] Hj; [by exists b, s0, st|]. apply (Hbefore j). lia.
      * intros [|j] Hj; [lia|]. apply (Hafter j). lia.
      * destruct r2 as [ev2|].
        -- apply bind_return in H as (ev & Hev & [= <-]). destruct Hr as (b' & st1 & st2 & ev0 & ? & ? & ? & Hp).
           exists b', st1, st2, ev0. split; [done|]. split; [done|]. split; [done|]. by eapply passed_later.
        -- injection H as <-. simpl. by f_equal.
Qed.

Lemma poll_ready l cx s ev s' : poll l cx s = Return (Ready ev, s') →
  ∃ i b st st' ev0, field l i s = Some (existT b st) ∧ nb_poll b cx st = Return (Ready ev0, st') ∧
    passed l i b ev0 ev.
Proof.
  intros H. destruct (poll_spec l cx s _ s' H) as (i & _ & _ & b & st & st' & ev0 & ? & ? & _ & ?).
  by exists i, b, st, st', ev0.
Qed.

(** C28: the composition polls its behaviours in order and hands out the event
    of the first that is ready.  Those before it were polled and had nothing;
    those after it are not polled and keep their state; an event or handler
    command carries the tag of its behaviour, everything else is passed on
    unchanged.  It is pending only when every behaviour is. *)
Theorem select_polls_first_ready l cx s r s' :
  poll l cx s = Return (r, s') →
  ∃ i,
    (∀ j, j < i → ∃ b st st', field l j s = Some (existT b st) ∧
       nb_poll b cx st = Return (Pending, st') ∧ field l j s' = Some (existT b st')) ∧
    (∀ j, i < j → field l j s' = field l j s) ∧
    match r with
    | Pending => i = length l
    | Ready ev => ∃ b st st' ev0, field l i s = Some (existT b st) ∧
        nb_poll b cx st = Return (Ready ev0, st') ∧ field l i s' = Some (existT b st') ∧
        passed l i b ev0 ev
    end.
Proof. apply poll_spec. Qed.

(** The same for handlers, whose other events are dropped. *)
Lemma poll_handlers_ready l cx s t s' :
  poll_handlers l cx s = Return (Ready (NotifyBehaviour t), s') →
  ∃ i h st st' ev, variant l t = (i, existT h ev) ∧ field l i s = Some (existT h st) ∧
    ch_poll h cx st = Return (Ready (NotifyBehaviour ev), st') ∧ field l i s' = Some (existT h st').
Proof.
  revert t s'. induction l as [|h l IH]; intros t s' H; simpl in H; [done|].
  apply bind_return in H as ([r st] & Hh & H). destruct s as [s0 ss]. simpl in Hh.
  assert (∀ m, (' (r, ss) ← poll_handlers l cx ss; Return (later h l r, (m, ss))) =
                 Return (Ready (NotifyBehaviour t), s') →
          ∃ i h' st st' ev, variant (h :: l) t = (i, existT h' ev) ∧
            field (F := ch_state) (h :: l) i (s0, ss) = Some (existT h' st) ∧
            ch_poll h' cx st = Return (Ready (NotifyBehaviour ev), st') ∧
            field (F := ch_state) (h :: l) i s' = Some (existT h' st')) as Hrest.
  { intros m Hm. apply bind_return in Hm as ([r2 ss'] & Hl & Hm).
    destruct r2 as [[|ev|]|]; try done. injection Hm as <- <-.
    destruct (IH ss ev ss' Hl) as (i & h' & st1 & st2 & e & Hv & ? & ? & ?).
    exists (S i), h', st1, st2, e. simpl. rewrite Hv. done. }
  destruct r as [[up info|ev|]|]; [done| |by apply (Hrest st)|by apply (Hrest st)].
  injection H as <- <-. by exists 0, h, s0, st, ev.
Qed.

Lemma handler_event_routed l p c t s s' :
  on_connection_handler_event l p c t s = Return s' →
  ∃ i b ev st st', variant (handlers l) t = (i, existT (nb_handler b) ev) ∧
    field l i s = Some (existT b st) ∧ nb_on_handler_event b p c ev st = Return st' ∧
    field l i s' = Some (existT b st') ∧ ∀ j, j ≠ i → field l j s' = field l j s.
Proof.
  revert t s s'. induction l as [|b l IH]; intros t s s' H; [destruct t|].
  destruct s as [s0 ss], t as [ev|t]; simpl in H; apply bind_return in H as (st & Hst & [= <-]).
  - exists 0, b, ev, s0, st. split_and!; try done. by intros [|j].
  - destruct (IH t ss st Hst) as (i & b' & ev & st1 & st2 & Hv & Hf & He & Hf' & Hj).
    exists (S i), b', ev, st1, st2. unfold handlers in *. simpl. rewrite Hv. split_and!; try done.
    intros [|j] Hne; [done|]. apply Hj. congruence.
Qed.

Lemma behaviour_event_routed l t s s' :
  on_behaviour_event l t s = Return s' →
  ∃ i h ev st st', variant l t = (i, existT h ev) ∧
    field l i s = Some (existT h st) ∧ ch_on_behaviour_event h ev st = Return st' ∧
    field l i s' = Some (existT h st') ∧ ∀ j, j ≠ i → field l j s' = field l j s.
Proof.
  revert t s s'. induction l as [|h l IH]; intros t s s' H; [destruct t|].
  destruct s as [s0 ss], t as [ev|t]; simpl in H; apply bind_return in H as (st & Hst & [= <-]).
  - exists 0, h, ev, s0, st. split_and!; try done. by intros [|j].
  - destruct (IH t ss st Hst) as (i & h' & ev & st1 & st2 & Hv & Hf & He & Hf' & Hj).
    exists (S i), h', ev, st1, st2. simpl. rewrite Hv. split_and!; try done.
    intros [|j] Hne; [done|]. apply Hj. congruence.
Qed.

(** C29: messages stay with their component.  A command a behaviour issues,
    carried by the composed behaviour and handed to the composed handler,
    arrives unchanged at the handler of that behaviour and no other handler is
    touched; a report of a handler arrives unchanged at its own behaviour and no
    other behaviour is touched. *)
Theorem messages_stay_with_component l cx s s1 hs hs1 p c tgt cmd rep s2 hs2 :
  (poll l cx s = Return (Ready (NotifyHandler p tgt cmd), s1) →
   on_behaviour_event (handlers l) cmd hs = Return hs2 →
   ∃ i b st st1 e h h2, field l i s = Some (existT b st) ∧
     nb_poll b cx st = Return (Ready (NotifyHandler p tgt e), st1) ∧
     field (handlers l) i hs = Some (existT (nb_handler b) h) ∧
     ch_on_behaviour_event (nb_handler b) e h = Return h2 ∧
     field (handlers l) i hs2 = Some (existT (nb_handler b) h2) ∧
     ∀ j, j ≠ i → field (handlers l) j hs2 = field (handlers l) j hs) ∧
  (poll_handlers (handlers l) cx hs = Return (Ready (NotifyBehaviour rep), hs1) →
   on_connection_handler_event l p c rep s = Return s2 →
   ∃ i b h h1 e st st2, field (handlers l) i hs = Some (existT (nb_handler b) h) ∧
     ch_poll (nb_handler b) cx h = Return (Ready (NotifyBehaviour e), h1) ∧
     field l i s = Some (existT b st) ∧
     nb_on_handler_event b p c e st = Return st2 ∧
     field l i s2 = Some (existT b st2) ∧
     ∀ j, j ≠ i → field l j s2 = field l j s).
Proof.
  split.
  - intros Hp Hd. destruct (poll_ready l cx s _ s1 Hp) as (i & b & st & st1 & ev & Hf & Hb & e & -> & Hv).
    destruct (behaviour_event_routed (handlers l) cmd hs hs2 Hd) as (i' & h & ev & hst & hst' & Hv' & Hfs).
    rewrite Hv in Hv'. pose proof (f_equal fst Hv') as Hi. simpl in Hi. subst i'.
    apply (f_equal snd) in Hv'. simpl in Hv'.
    pose (Q (x : {h : ConnectionHandler & ch_from h}) := ∃ st st', field (handlers l) i hs = Some (existT (projT1 x) st) ∧
      ch_on_behaviour_event (projT1 x) (projT2 x) st = Return st' ∧
      field (handlers l) i hs2 = Some (existT (projT1 x) st') ∧
      ∀ j, j ≠ i → field (handlers l) j hs2 = field (handlers l) j hs).
    assert (Q (existT h ev)) as H by (exists hst, hst'; apply Hfs).
    pose proof (eq_ind_r Q H Hv') as H'. clear H. rename H' into H.
    destruct H as (h1 & h2 & ? & ? & ? & ?). by exists i, b, st, st1, e, h1, h2.
  - intros Hp Hd. destruct (poll_handlers_ready (handlers l) cx hs rep hs1 Hp)
      as (i & h & hst & hst' & ev & Hv & Hf & Hh & _).
    destruct (handler_event_routed l p c rep s s2 Hd) as (i' & b & e & st & st2 & Hv' & Hs).
    rewrite Hv in Hv'. pose proof (f_equal fst Hv') as Hi. simpl in Hi. subst i'.
    apply (f_equal snd) in Hv'. simpl in Hv'.
    pose (Q (x : {h : ConnectionHandler & ch_to h}) := ∃ st st', field (handlers l) i hs = Some (existT (projT1 x) st) ∧
      ch_poll (projT1 x) cx st = Return (Ready (NotifyBehaviour (projT2 x)), st')).
    assert (Q (existT h ev)) as H by (by exists hst, hst').
    pose proof (eq_ind (existT h ev) Q H _ Hv') as H'. clear H. rename H' into H.
    destruct H as (h1 & h2 & ? & ?). by exists i, b, h1, h2, e, st, st2.
Qed.
End select.
Arguments OutboundSubstreamRequest {Up Info B} upgrade info.
Arguments NotifyBehaviour {Up Info B} event.
Arguments OtherHandlerEvent {Up Info B}.

(** ** Witnesses: a silent behaviour before a talkative one *)
Section witnesses.
#[local] Existing Instance demo_platform.
Abbreviation NB := (@NetworkBehaviour demo_platform unit unit unit unit).
Abbreviation CH := (@ConnectionHandler demo_platform unit).

(** A handler that reports what it was last told; silent before. *)
Definition echo_handler : CH := {|
  ch_state := option N;
  ch_from := N;
  ch_to := N;
  ch_upgrade := string;
  ch_in_sub := unit; ch_in_info := unit; ch_in_err := unit;
  ch_out_sub := unit; ch_out_info := unit; ch_out_err := unit;
  ch_keep_alive := λ _, true;
  ch_poll := λ _ s, match s with
                    | Some n => Return (Ready (NotifyBehaviour n), None)
                    | None => Return (Pending, None)
                    end;
  ch_on_behaviour_event := λ n _, Return (Some n);
  ch_on_connection_event := λ _ s, Return s;
|}.

(** A behaviour that sends the numbers of its list to peer 7 and counts reports. *)
Definition sender : NB := {|
  nb_state := list N * nat;
  nb_event := string;
  nb_handler := echo_handler;
  nb_pending_inbound := λ _ _ _ s, (Ok tt, s);
  nb_established_inbound := λ _ _ _ _ s, (Ok (None : option N), s);
  nb_pending_outbound := λ _ _ _ _ s, (Ok [], s);
  nb_established_outbound := λ _ _ _ _ _ s, (Ok (None : option N), s);
  nb_on_handler_event := λ _ _ _ s, Return (s.1, S s.2);
  nb_on_swarm_event := λ _ s, Return s;
  nb_poll := λ _ s, match s.1 with
                    | n :: ns => Return (Ready (NotifyHandler (7%N : @PeerId demo_platform) Any n), (ns, s.2))
                    | [] => Return (Pending, s)
                    end;
|}.

Definition two : list NB := [sender; sender].
Definition two_state : Behaviour two := (([], 0), (([5%N], 0), tt)).
Definition two_after : Behaviour two := (([], 0), (([], 0), tt)).
Definition two_handlers : ConnectionHandlerSelect (handlers two) := (None, (Some 9%N, tt)).

Lemma select_polls_first_ready_witness :
  ∃ i,
    (∀ j, j < i → ∃ b st st', field two j two_state = Some (existT b st) ∧
       nb_poll b (0%N : @PollCx demo_platform) st = Return (Pending, st') ∧
       field two j two_after = Some (existT b st')) ∧
    (∀ j, i < j → field two j two_after = field two j two_state) ∧
    ∃ b st st' ev0, field two i two_state = Some (existT b st) ∧
        nb_poll b (0%N : @PollCx demo_platform) st = Return (Ready ev0, st') ∧
        field two i two_after = Some (existT b st') ∧
        passed two i b ev0 (NotifyHandler (7%N : @PeerId demo_platform) Any (inr (inl 5%N))).
Proof.
  exact (select_polls_first_ready two (0%N : @PollCx demo_platform) two_state
    (Ready (NotifyHandler (7%N : @PeerId demo_platform) Any (inr (inl 5%N)))) two_after eq_refl).
Defined.

Lemma messages_stay_with_component_witness :
  (∃ i b st st1 e h h2, field two i two_state = Some (existT b st) ∧
     nb_poll b (0%N : @PollCx demo_platform) st =
       Return (Ready (NotifyHandler (7%N : @PeerId demo_platform) Any e), st1) ∧
     field (handlers two) i two_handlers = Some (existT (nb_handler b) h) ∧
     ch_on_behaviour_event (nb_handler b) e h = Return h2 ∧
     field (handlers two) i ((None, (Some 5%N, tt)) : ConnectionHandlerSelect (handlers two)) =
       Some (existT (nb_handler b) h2) ∧
     ∀ j, j ≠ i → field (handlers two) j ((None, (Some 5%N, tt)) : ConnectionHandlerSelect (handlers two)) =
                  field (handlers two) j two_handlers) ∧
  (∃ i b h h1 e st st2, field (handlers two) i two_handlers = Some (existT (nb_handler b) h) ∧
     ch_poll (nb_handler b) (0%N : @PollCx demo_platform) h = Return (Ready (NotifyBehaviour e), h1) ∧
     field two i two_state = Some (existT b st) ∧
     nb_on_handler_event b (7%N : @PeerId demo_platform) (1%N : @ConnectionId demo_platform) e st = Return st2 ∧
     field two i ((([], 0), (([5%N], 1), tt)) : Behaviour two) = Some (existT b st2) ∧
     ∀ j, j ≠ i → field two j ((([], 0), (([5%N], 1), tt)) : Behaviour two) = field two j two_state).
Proof.
  destruct (messages_stay_with_component two (0%N : @PollCx demo_platform) two_state two_after two_handlers
    ((None, (None, tt)) : ConnectionHandlerSelect (handlers two))
    (7%N : @PeerId demo_platform) (1%N : @ConnectionId demo_platform) Any (inr (inl 5%N)) (inr (inl 9%N))
    ((([], 0), (([5%N], 1), tt)) : Behaviour two)
    ((None, (Some 5%N, tt)) : ConnectionHandlerSelect (handlers two))) as [Hdown Hup].
  split; [exact (Hdown eq_refl eq_refl)|exact (Hup eq_refl eq_refl)].
Defined.
End witnesses.
End Select.
