(* ===== verification/Upgrades.v ===== *)
(** * Negotiating protocols for composed handlers ([owlnest-macro], [connection_handler_select.rs])

    Module [Upgrades]: the upgrade types the macros generate.  Each handler has
    an upgrade ([UpgradeInfo] with [InboundUpgrade] or [OutboundUpgrade]) and a
    future it returns; the composition has a variant per handler.  As in
    [Select] the handlers are a list.  The outbound side ends in the negotiated
    streams [Select] hands to the handlers. *)

From stdpp Require Import base gmap sets list strings.
From Stdlib Require Import Lia NArith.
From S2P Require Import Prelude Std Core Select.
Import Select.

Module Upgrades.
Section upgrades.
Context {P : Platform} {SupportedProtocols Stream : Type}.
Abbreviation Handler := (@ConnectionHandler P SupportedProtocols).

(** libp2p's [UpgradeInfo] and [InboundUpgrade]/[OutboundUpgrade] of a handler:
    a protocol is what a side agrees on, [u_start] begins the upgrade. *)
Record Upgrade := {
  u_upgrade : Type;
  u_info : Type;
  u_future : Type;
  u_output : Type;
  u_error : Type;
  u_name : u_info → string;
  u_protocols : u_upgrade → list u_info;
  u_start : u_upgrade → Stream → u_info → u_future;
  u_poll : PollCx → u_future → Poll (result u_output u_error) * u_future;
}.

(** ** generate_future_select! *)
Definition SubstreamSelect (l : list Upgrade) : Type := tagged u_output l.
Definition UpgradeErrorSelect (l : list Upgrade) : Type := tagged u_error l.
Definition FutureSelect (l : list Upgrade) : Type := tagged u_future l.
Definition Outcome (l : list Upgrade) : Type := result (SubstreamSelect l) (UpgradeErrorSelect l).

Definition tag_outcome {A B A' B'} (f : A → A') (g : B → B') (r : result A B) : result A' B' :=
  match r with Ok a => Ok (f a) | Err b => Err (g b) end.
Definition poll_map {A B} (f : A → B) (p : Poll A) : Poll B :=
  match p with Ready a => Ready (f a) | Pending => Pending end.

Fixpoint future_poll (l : list Upgrade) (cx : PollCx) : FutureSelect l → Poll (Outcome l) * FutureSelect l :=
  match l return FutureSelect l → Poll (Outcome l) * FutureSelect l with
  | [] => λ fut, match fut with end
  | u :: l => λ fut,
      match fut with
      | inl inner => let '(r, inner) := u_poll u cx inner in (poll_map (tag_outcome inl inl) r, inl inner)
      | inr fut => let '(r, fut) := future_poll l cx fut in (poll_map (tag_outcome inr inr) r, inr fut)
      end
  end.

Definition UpgradeInfoSelect (l : list Upgrade) : Type := tagged u_info l.
Fixpoint as_ref (l : list Upgrade) : UpgradeInfoSelect l → string :=
  match l return UpgradeInfoSelect l → string with
  | [] => λ info, match info with end
  | u :: l => λ info, match info with inl inner => u_name u inner | inr info => as_ref l info end
  end.

(** ** generate_inbound_upgrade_select! *)
Definition InUpgradeSelect (l : list Upgrade) : Type := hlist u_upgrade l.

(** An iterator per handler, [None] once it is used up. *)
Definition UpgradeInfoIterSelect (l : list Upgrade) : Type := hlist (λ u, option (list (u_info u))) l.
Fixpoint iter_next (l : list Upgrade) : UpgradeInfoIterSelect l → option (UpgradeInfoSelect l) * UpgradeInfoIterSelect l :=
  match l return UpgradeInfoIterSelect l → option (UpgradeInfoSelect l) * UpgradeInfoIterSelect l with
  | [] => λ it, (None, it)
  | u :: l => λ it,
      match it.1 with
      | Some (v :: rest) => (Some (inl v), (Some rest, it.2))
      | Some [] | None =>
          let '(v, its) := iter_next l it.2 in (inr <$> v, (None, its))
      end
  end.
Fixpoint in_protocol_info (l : list Upgrade) : InUpgradeSelect l → UpgradeInfoIterSelect l :=
  match l return InUpgradeSelect l → UpgradeInfoIterSelect l with
  | [] => λ _, tt
  | u :: l => λ self, (Some (u_protocols u self.1), in_protocol_info l self.2)
  end.
Fixpoint upgrade_inbound (l : list Upgrade) (sock : Stream)
    : InUpgradeSelect l → UpgradeInfoSelect l → FutureSelect l :=
  match l return InUpgradeSelect l → UpgradeInfoSelect l → FutureSelect l with
  | [] => λ _ info, match info with end
  | u :: l => λ self info,
      match info with
      | inl info => inl (u_start u self.1 sock info)
      | inr info => inr (upgrade_inbound l sock self.2 info)
      end
  end.

(** ** generate_outbound_upgrade_select! *)
Definition OutUpgradeSelect (l : list Upgrade) : Type := tagged u_upgrade l.

(** [once(.. .next().unwrap())]: an upgrade without a protocol panics. *)
Fixpoint out_protocol_info (l : list Upgrade) : OutUpgradeSelect l → outcome (UpgradeInfoSelect l) :=
  match l return OutUpgradeSelect l → outcome (UpgradeInfoSelect l) with
  | [] => λ self, match self with end
  | u :: l => λ self,
      match self with
      | inl inner => v ← expect (head (u_protocols u inner)) "called unwrap on None"; Return (inl v)
      | inr self => v ← out_protocol_info l self; Return (inr v)
      end
  end.
Fixpoint upgrade_outbound (l : list Upgrade) (sock : Stream)
    : OutUpgradeSelect l → UpgradeInfoSelect l → outcome (FutureSelect l) :=
  match l return OutUpgradeSelect l → UpgradeInfoSelect l → outcome (FutureSelect l) with
  | [] => λ self, match self with end
  | u :: l => λ self info,
      match info, self with
      | inl info, inl inner => Return (inl (u_start u inner sock info))
      | inr info, inr self => fut ← upgrade_outbound l sock self info; Return (inr fut)
      | _, _ => Panic "upgrade info and upgrade mismatch!"
      end
  end.

(** ** Polling a future until it is ready *)
Fixpoint await {A F} (poll : PollCx → F → Poll A * F) (cxs : list PollCx) (fut : F) : option A :=
  match cxs with
  | [] => None
  | cx :: cxs => match poll cx fut with (Ready a, _) => Some a | (Pending, fut) => await poll cxs fut end
  end.

(** Everything an iterator yields. *)
Fixpoint collect {A I} (next : I → option A * I) (fuel : nat) (it : I) : list A :=
  match fuel with
  | O => []
  | S fuel => match next it with (Some v, it) => v :: collect next fuel it | (None, _) => [] end
  end.

(** The protocols of the handlers, in order. *)
Fixpoint all_protocols (l : list Upgrade) : InUpgradeSelect l → list (UpgradeInfoSelect l) :=
  match l return InUpgradeSelect l → list (UpgradeInfoSelect l) with
  | [] => λ _, []
  | u :: l => λ self, (inl <$> u_protocols u self.1) ++ (inr <$> all_protocols l self.2)
  end.
Fixpoint remaining (l : list Upgrade) : UpgradeInfoIterSelect l → list (UpgradeInfoSelect l) :=
  match l return UpgradeInfoIterSelect l → list (UpgradeInfoSelect l) with
  | [] => λ _, []
  | u :: l => λ it, (inl <$> default [] it.1) ++ (inr <$> remaining l it.2)
  end.

Lemma iter_next_remaining l : ∀ it,
  match iter_next l it with
  | (Some v, it') => remaining l it = v :: remaining l it'
  | (None, it') => remaining l it = []
  end.
Proof.
  induction l as [|u l IH]; intros it; [done|]. destruct it as [[[|v rest]|] its]; cbn; try done;
    (specialize (IH its); destruct (iter_next l its) as [[v|] its']; cbn in *; by rewrite IH).
Qed.

Lemma collect_remaining l fuel : ∀ it, length (remaining l it) < fuel → collect (iter_next l) fuel it = remaining l it.
Proof.
  induction fuel as [|fuel IH]; intros it Hf; [lia|]. cbn. pose proof (iter_next_remaining l it) as H.
  destruct (iter_next l it) as [[v|] it']; [|done]. rewrite H in *. cbn in Hf. f_equal. apply IH. lia.
Qed.

Lemma remaining_start l : ∀ self, remaining l (in_protocol_info l self) = all_protocols l self.
Proof. induction l as [|u l IH]; intros self; [done|]. cbn. by rewrite IH. Qed.

Lemma await_tagged {A B F G} (p : PollCx → F → Poll A * F) (q : PollCx → G → Poll B * G) (f : A → B) (g : F → G) :
  (∀ cx fut, q cx (g fut) = (poll_map f (p cx fut).1, g (p cx fut).2)) →
  ∀ cxs fut, await q cxs (g fut) = f <$> await p cxs fut.
Proof.
  intros H cxs. induction cxs as [|cx cxs IH]; intros fut; [done|]. cbn. rewrite H.
  destruct (p cx fut) as [[a|] fut']; cbn; [done|]. apply IH.
Qed.
Lemma await_inl u l cxs fut :
  await (future_poll (u :: l)) cxs (inl fut) = tag_outcome inl inl <$> await (u_poll u) cxs fut.
Proof. apply await_tagged. intros cx f. cbn. by destruct (u_poll u cx f). Qed.
Lemma await_inr u l cxs fut :
  await (future_poll (u :: l)) cxs (inr fut) = tag_outcome inr inr <$> await (future_poll l) cxs fut.
Proof. apply await_tagged. intros cx f. cbn. by destruct (future_poll l cx f). Qed.

(** C31: what a composed handler offers to a remote.  The protocols are those of
    its handlers, in their order; whichever the remote takes, the upgrade that
    runs is the one of the handler that offered it, on its part of the composed
    upgrade, and what it gives carries that handler's tag. *)
Theorem inbound_upgrade_is_the_handlers l self sock fuel :
  length (all_protocols l self) < fuel →
  collect (iter_next l) fuel (in_protocol_info l self) = all_protocols l self ∧
  ∀ info cxs, ∃ i u x v, variant l info = (i, existT u v) ∧ field l i self = Some (existT u x) ∧
    as_ref l info = u_name u v ∧
    match await (future_poll l) cxs (upgrade_inbound l sock self info) with
    | None => await (u_poll u) cxs (u_start u x sock v) = None
    | Some (Ok out) => ∃ o, variant l out = (i, existT u o) ∧ await (u_poll u) cxs (u_start u x sock v) = Some (Ok o)
    | Some (Err err) => ∃ e, variant l err = (i, existT u e) ∧ await (u_poll u) cxs (u_start u x sock v) = Some (Err e)
    end.
Proof.
  intros Hf. split; [rewrite <-remaining_start in Hf |- *; by apply collect_remaining|]. clear Hf.
  induction l as [|u l IH]; intros info cxs; [destruct info|]. destruct info as [v|info].
  - exists 0, u, self.1, v. split_and!; try done. cbn [upgrade_inbound]. rewrite await_inl.
    destruct (await (u_poll u) cxs _) as [[o|e]|]; cbn; by eauto.
  - destruct (IH self.2 info cxs) as (i & u' & x & v & Hv & Hx & Hn & H). exists (S i), u', x, v.
    cbn [variant field as_ref upgrade_inbound]. rewrite Hv, await_inr. split_and!; try done.
    destruct (await (future_poll l) cxs _) as [[o|e]|]; cbn; [..|done];
      destruct H as (a & Ha & ->); exists a; by rewrite Ha.
Qed.

(** ** Outbound streams find their handler *)

(** The handlers of a composition with their outbound upgrades. *)
Record Wired := {
  w_handler : Handler;
  w_info : Type;
  w_future : Type;
  w_name : w_info → string;
  w_protocols : ch_upgrade w_handler → list w_info;
  w_start : ch_upgrade w_handler → Stream → w_info → w_future;
  w_poll : PollCx → w_future → Poll (result (ch_out_sub w_handler) (ch_out_err w_handler)) * w_future;
}.
Definition upgrade_of (w : Wired) : Upgrade := {|
  u_upgrade := ch_upgrade (w_handler w); u_info := w_info w; u_future := w_future w;
  u_output := ch_out_sub (w_handler w); u_error := ch_out_err (w_handler w); u_name := w_name w;
  u_protocols := w_protocols w; u_start := w_start w; u_poll := w_poll w;
|}.
Definition upgrades (l : list Wired) : list Upgrade := map upgrade_of l.
Definition handlers_of (l : list Wired) : list Handler := map w_handler l.

(** An upgrade of the composition is one of [Select]'s, and so are its results. *)
Fixpoint as_upgrade (l : list Wired) : UpgradeSelect (handlers_of l) → OutUpgradeSelect (upgrades l) :=
  match l return UpgradeSelect (handlers_of l) → OutUpgradeSelect (upgrades l) with
  | [] => λ t, t
  | w :: l => λ t, match t with inl a => inl a | inr t => inr (as_upgrade l t) end
  end.
Fixpoint as_output (l : list Wired) : SubstreamSelect (upgrades l) → tagged ch_out_sub (handlers_of l) :=
  match l return SubstreamSelect (upgrades l) → tagged ch_out_sub (handlers_of l) with
  | [] => λ t, t
  | w :: l => λ t, match t with inl a => inl a | inr t => inr (as_output l t) end
  end.
Fixpoint as_error (l : list Wired) : UpgradeErrorSelect (upgrades l) → tagged ch_out_err (handlers_of l) :=
  match l return UpgradeErrorSelect (upgrades l) → tagged ch_out_err (handlers_of l) with
  | [] => λ t, t
  | w :: l => λ t, match t with inl a => inl a | inr t => inr (as_error l t) end
  end.

(** The index of a variant; what a handler asks for has one tag twice. *)
Definition tag {X} {F : X → Type} (l : list X) (t : tagged F l) : nat := (variant l t).1.
Lemma tag_inl {X} {F : X → Type} x l (a : F x) : tag (x :: l) (inl a : tagged F (x :: l)) = 0.
Proof. done. Qed.
Lemma tag_inr {X} {F : X → Type} x l (t : tagged F l) : tag (x :: l) (inr t : tagged F (x :: l)) = S (tag l t).
Proof. unfold tag. cbn. by destruct (variant l t). Qed.

Ltac tags :=
  unfold UpgradeSelect, OutboundOpenInfoSelect, FullyNegotiatedOutboundSelect, DialUpgradeErrorSelect in *;
  rewrite ?tag_inl, ?tag_inr in *.

Lemma poll_handlers_tags (l : list Handler) cx : ∀ hs upgrade info hs1,
  poll_handlers l cx hs = Return (Ready (Select.OutboundSubstreamRequest upgrade info), hs1) →
  tag l upgrade = tag l info.
Proof.
  induction l as [|h l IH]; intros hs upgrade info hs1 H; [done|]. cbn in H.
  apply bind_return in H as ([p st] & Hp & H).
  assert (∀ r ss, poll_handlers l cx hs.2 = Return (r, ss) →
    later h l r = Ready (Select.OutboundSubstreamRequest upgrade info) → tag (h :: l) upgrade = tag (h :: l) info) as Hl.
  { intros r ss Hr Hlater. destruct r as [[up inf|ev|]|]; try discriminate Hlater. injection Hlater as <- <-.
    tags. f_equal. by apply (IH _ _ _ _ Hr). }
  destruct p as [[up inf|ev|]|]; cbn in H.
  - by injection H as <- <- _.
  - discriminate H.
  - apply bind_return in H as ([r ss] & Hr & H). injection H as H _. by apply (Hl r ss).
  - apply bind_return in H as ([r ss] & Hr & H). injection H as H _. by apply (Hl r ss).
Qed.

(** What [r] is turned into, and by whom. *)
Definition finds (l : list Wired) (upgrade : UpgradeSelect (handlers_of l)) (info : OutboundOpenInfoSelect (handlers_of l))
    (r : Outcome (upgrades l)) : Prop :=
  match r with
  | Ok out => ∃ t, transpose_full_outbound (handlers_of l) (as_output l out) info = Return t ∧
                   tag _ t = tag (handlers_of l) upgrade
  | Err e => ∃ t, transpose_upgr_error (handlers_of l) (Select.Apply _ (as_error l e)) info = Return t ∧
                  tag _ t = tag (handlers_of l) upgrade
  end.

Lemma finds_here w l up info r :
  finds (w :: l) (inl up) (inl info) (tag_outcome inl inl r).
Proof. destruct r; cbn; eexists; split; try done. Qed.
Lemma finds_later w l up info r : finds l up info r → finds (w :: l) (inr up) (inr info) (tag_outcome inr inr r).
Proof.
  unfold finds, handlers_of. destruct r; cbn; intros (t & Ht & Htag); rewrite Ht; cbn; exists (inr t);
    (split; [done|]);
    exact (eq_trans (tag_inr _ _ t) (eq_trans (f_equal S Htag) (eq_sym (tag_inr _ _ up)))).
Qed.

Lemma outbound_finds l sock cxs : ∀ upgrade info proto,
  tag (handlers_of l) upgrade = tag (handlers_of l) info →
  out_protocol_info (upgrades l) (as_upgrade l upgrade) = Return proto →
  ∃ fut, upgrade_outbound (upgrades l) sock (as_upgrade l upgrade) proto = Return fut ∧
    ∀ r, await (future_poll (upgrades l)) cxs fut = Some r → finds l upgrade info r.
Proof.
  induction l as [|w l IH]; intros upgrade info proto Ht Hp; [destruct upgrade|].
  destruct upgrade as [up|up], info as [info|info].
  - cbn in Hp. inv_return. eexists. split; [done|]. intros r Hr.
    change (upgrades (w :: l)) with (upgrade_of w :: upgrades l) in Hr. rewrite await_inl in Hr.
    apply fmap_Some in Hr as (r' & _ & ->). apply finds_here.
  - exfalso; revert Ht; cbn -[tag]; by tags.
  - exfalso; revert Ht; cbn -[tag]; by tags.
  - cbn in Hp. inv_return. cbn -[tag] in Ht. tags. injection Ht as Ht.
    destruct (IH _ _ _ Ht H) as (fut & Hf & Hr). cbn. fold (upgrades l). rewrite Hf. eexists. split; [done|].
    intros r H'. change (upgrades (w :: l)) with (upgrade_of w :: upgrades l) in H'. rewrite await_inr in H'.
    apply fmap_Some in H' as (r' & Hr' & ->). apply finds_later. by apply Hr.
Qed.

(** C30: a negotiated stream reaches the handler that asked for it.  When a
    handler of a composition asks for a stream, with an upgrade that names a
    protocol, the negotiation does not panic, and whatever it ends with, a stream
    or an error, is told apart by the composition without a mismatch and given to
    that very handler. *)
Theorem negotiated_stream_finds_its_handler l cx hs hs1 upgrade info sock proto cxs r :
  poll_handlers (handlers_of l) cx hs = Return (Ready (Select.OutboundSubstreamRequest upgrade info), hs1) →
  out_protocol_info (upgrades l) (as_upgrade l upgrade) = Return proto →
  ∃ fut, upgrade_outbound (upgrades l) sock (as_upgrade l upgrade) proto = Return fut ∧
  (await (future_poll (upgrades l)) cxs fut = Some r →
   match r with
   | Ok out => ∃ t, transpose_full_outbound (handlers_of l) (as_output l out) info = Return t ∧
                    tag _ t = tag (handlers_of l) upgrade
   | Err e => ∃ t, transpose_upgr_error (handlers_of l) (Select.Apply _ (as_error l e)) info = Return t ∧
                   tag _ t = tag (handlers_of l) upgrade
   end).
Proof.
  intros Hp Hi. apply poll_handlers_tags in Hp.
  destruct (outbound_finds l sock cxs upgrade info proto Hp Hi) as (fut & Hf & Hr).
  exists fut. split; [done|apply Hr].
Qed.
End upgrades.

(** ** Witnesses: upgrades that end with the protocol they are started with *)
Section witnesses.
#[local] Existing Instance demo_platform.
#[local] Abbreviation Up := (@Upgrade demo_platform string).

Definition demo_upgrade : Up := {|
  u_upgrade := list string; u_info := string; u_future := string; u_output := string; u_error := unit;
  u_name := λ info, info; u_protocols := λ self, self; u_start := λ _ sock info, info;
  u_poll := λ _ fut, (Ready (Ok fut), fut);
|}.
Definition demo_self : InUpgradeSelect [demo_upgrade; demo_upgrade] := (["/a"; "/b"], (["/c"], tt)).

Lemma inbound_upgrade_is_the_handlers_witness :
  collect (iter_next [demo_upgrade; demo_upgrade]) 4 (in_protocol_info [demo_upgrade; demo_upgrade] demo_self) =
    [inl "/a"; inl "/b"; inr (inl "/c")] ∧
  ∃ i u x v, variant [demo_upgrade; demo_upgrade] (inr (inl "/c") : UpgradeInfoSelect [demo_upgrade; demo_upgrade]) =
      (i, existT u v) ∧
    field [demo_upgrade; demo_upgrade] i demo_self = Some (existT u x) ∧ "/c" = u_name u v ∧
    ∃ o, variant [demo_upgrade; demo_upgrade] (inr (inl "/c") : SubstreamSelect [demo_upgrade; demo_upgrade]) =
           (i, existT u o) ∧
         await (u_poll u) [0%N : @PollCx demo_platform] (u_start u x "socket" v) = Some (Ok o).
Proof.
  destruct (inbound_upgrade_is_the_handlers [demo_upgrade; demo_upgrade] demo_self "socket" 4
    ltac:(vm_compute; lia)) as [H1 H2]. split; [exact H1|].
  exact (H2 (inr (inl "/c")) [0%N : @PollCx demo_platform]).
Defined.

(** A handler that asks for a stream once, for the protocol of its state. *)
Definition asking_handler : @ConnectionHandler demo_platform unit := {|
  ch_state := option string; ch_from := N; ch_to := N; ch_upgrade := list string;
  ch_in_sub := unit; ch_in_info := unit; ch_in_err := unit;
  ch_out_sub := string; ch_out_info := nat; ch_out_err := unit;
  ch_keep_alive := λ _, true;
  ch_poll := λ _ s, match s with
                    | Some p => Return (Ready (Select.OutboundSubstreamRequest [p] 5), None)
                    | None => Return (Pending, None)
                    end;
  ch_on_behaviour_event := λ _ s, Return s;
  ch_on_connection_event := λ _ s, Return s;
|}.
Definition demo_wired : @Wired demo_platform unit string := {|
  w_handler := asking_handler; w_info := string; w_future := string; w_name := λ info, info;
  w_protocols := λ self, self; w_start := λ _ sock info, info; w_poll := λ _ fut, (Ready (Ok fut), fut);
|}.
Definition demo_handlers : ConnectionHandlerSelect (handlers_of [demo_wired; demo_wired]) :=
  (None, (Some "/c", tt)).

Lemma negotiated_stream_finds_its_handler_witness :
  ∃ fut, upgrade_outbound (upgrades [demo_wired; demo_wired]) "socket" (inr (inl ["/c"])) (inr (inl "/c")) =
      Return fut ∧
    ∃ t, transpose_full_outbound (handlers_of [demo_wired; demo_wired]) (inr (inl "/c")) (inr (inl 5)) = Return t ∧
      tag _ t = 1.
Proof.
  destruct (negotiated_stream_finds_its_handler [demo_wired; demo_wired] (0%N : @PollCx demo_platform)
    demo_handlers (None, (None, tt)) (inr (inl ["/c"])) (inr (inl 5)) "socket" (inr (inl "/c"))
    [0%N : @PollCx demo_platform] (Ok (inr (inl "/c"))) eq_refl eq_refl) as (fut & Hf & Hr).
  exists fut. split; [exact Hf|]. injection Hf as <-. exact (Hr eq_refl).
Defined.
End witnesses.
End Upgrades.
