(* ===== verification/SwarmEvents.v ===== *)
(** * Events and requests of the swarm ([net/p2p/swarm]: [out_event.rs], [event_handlers.rs], [mod.rs])

    Module [SwarmEvents]: the two conversions of libp2p's swarm events into the
    node's own, and the requests to the swarm with their execution.  libp2p's
    swarm is the interface [Libp2pSwarm]. *)

From stdpp Require Import base gmap sets list strings.
From Stdlib Require Import Lia NArith.
From S2P Require Import Prelude Std Core.

Module SwarmEvents.

(** What the sources only pass on or print: error types and their
    [Debug] texts. *)
Class EventTypes := {
  Duration : Type;
  DialErrors : Type; dial_errors_debug : DialErrors → string;
  CloseCause : Type; cause_debug : CloseCause → string;
  ListenError : Type; listen_error_debug : ListenError → string;
  DialError : Type; dial_error_debug : DialError → string;
  CloseReason : Type; reason_debug : CloseReason → string;
  ListenerErrorType : Type; listener_error_debug : ListenerErrorType → string;
  TransportError : Type;
}.

(** libp2p's [SwarmEvent<B>]. *)
Module libp2p.
Inductive SwarmEvent {P : Platform} {T : EventTypes} (B : Type) :=
| Behaviour (event : B)
| ConnectionEstablished (peer_id : PeerId) (connection_id : ConnectionId) (endpoint : ConnectedPoint)
    (num_established : N) (concurrent_dial_errors : DialErrors) (established_in : Duration)
| ConnectionClosed (peer_id : PeerId) (connection_id : ConnectionId) (endpoint : ConnectedPoint)
    (num_established : N) (cause : CloseCause)
| IncomingConnection (connection_id : ConnectionId) (local_addr send_back_addr : Multiaddr)
| IncomingConnectionError (connection_id : ConnectionId) (local_addr send_back_addr : Multiaddr)
    (error : ListenError) (peer_id : option PeerId)
| OutgoingConnectionError (connection_id : ConnectionId) (peer_id : option PeerId) (error : DialError)
| NewListenAddr (listener_id : ListenerId) (address : Multiaddr)
| ExpiredListenAddr (listener_id : ListenerId) (address : Multiaddr)
| ListenerClosed (listener_id : ListenerId) (addresses : list Multiaddr) (reason : CloseReason)
| ListenerError (listener_id : ListenerId) (error : ListenerErrorType)
| Dialing (peer_id : option PeerId) (connection_id : ConnectionId)
| NewExternalAddrCandidate (address : Multiaddr)
| ExternalAddrConfirmed (address : Multiaddr)
| ExternalAddrExpired (address : Multiaddr)
| NewExternalAddrOfPeer (peer_id : PeerId) (address : Multiaddr)
| OtherSwarmEvent.
Arguments Behaviour {P T B} event.
Arguments ConnectionEstablished {P T B} _ _ _ _ _ _.
Arguments ConnectionClosed {P T B} _ _ _ _ _.
Arguments IncomingConnection {P T B} _ _ _.
Arguments IncomingConnectionError {P T B} _ _ _ _ _.
Arguments OutgoingConnectionError {P T B} _ _ _.
Arguments NewListenAddr {P T B} _ _.
Arguments ExpiredListenAddr {P T B} _ _.
Arguments ListenerClosed {P T B} _ _ _.
Arguments ListenerError {P T B} _ _.
Arguments Dialing {P T B} _ _.
Arguments NewExternalAddrCandidate {P T B} _.
Arguments ExternalAddrConfirmed {P T B} _.
Arguments ExternalAddrExpired {P T B} _.
Arguments NewExternalAddrOfPeer {P T B} _ _.
Arguments OtherSwarmEvent {P T B}.
End libp2p.

Section events.
Context {P : Platform} {T : EventTypes}.

(** ** out_event.rs *)
Inductive SwarmEvent :=
| ConnectionEstablished (peer_id : PeerId) (connection_id : ConnectionId) (endpoint : ConnectedPoint)
    (num_established : N) (concurrent_dial_errors : string) (established_in : Duration)
| ConnectionClosed (peer_id : PeerId) (connection_id : ConnectionId) (endpoint : ConnectedPoint)
    (num_established : N) (cause : string)
| IncomingConnection (connection_id : ConnectionId) (local_addr send_back_addr : Multiaddr)
| IncomingConnectionError (connection_id : ConnectionId) (local_addr send_back_addr : Multiaddr)
    (error : string) (peer_id : option PeerId)
| OutgoingConnectionError (connection_id : ConnectionId) (peer_id : option PeerId) (error : string)
| NewListenAddr (listener_id : ListenerId) (address : Multiaddr)
| ExpiredListenAddr (listener_id : ListenerId) (address : Multiaddr)
| ListenerClosed (listener_id : ListenerId) (addresses : list Multiaddr) (reason : string)
| ListenerError (listener_id : ListenerId) (error : string)
| Dialing (peer_id : option PeerId) (connection_id : ConnectionId)
| NewExternalAddrCandidate (address : Multiaddr)
| ExternalAddrConfirmed (address : Multiaddr)
| ExternalAddrExpired (address : Multiaddr)
| NewExternalAddrOfPeer (peer_id : PeerId) (address : Multiaddr).

(** The message goes on with the event's [Debug] text, which is left out. *)
Definition NOT_COVERED : string := "not implemented: New branch not covered".

Definition try_from_ref_swarm_event {B} (ev : libp2p.SwarmEvent B) : outcome (result SwarmEvent unit) :=
  match ev with
  | libp2p.Behaviour _ => Return (Err tt)
  | libp2p.ConnectionEstablished peer_id connection_id endpoint num_established errors established_in =>
      Return (Ok (ConnectionEstablished peer_id connection_id endpoint num_established
                    (dial_errors_debug errors) established_in))
  | libp2p.ConnectionClosed peer_id connection_id endpoint num_established cause =>
      Return (Ok (ConnectionClosed peer_id connection_id endpoint num_established (cause_debug cause)))
  | libp2p.IncomingConnection connection_id local_addr send_back_addr =>
      Return (Ok (IncomingConnection connection_id local_addr send_back_addr))
  | libp2p.IncomingConnectionError connection_id local_addr send_back_addr error peer_id =>
      Return (Ok (IncomingConnectionError connection_id local_addr send_back_addr
                    (listen_error_debug error) peer_id))
  | libp2p.OutgoingConnectionError connection_id peer_id error =>
      Return (Ok (OutgoingConnectionError connection_id peer_id (dial_error_debug error)))
  | libp2p.NewListenAddr listener_id address => Return (Ok (NewListenAddr listener_id address))
  | libp2p.ExpiredListenAddr listener_id address => Return (Ok (ExpiredListenAddr listener_id address))
  | libp2p.ListenerClosed listener_id addresses reason =>
      Return (Ok (ListenerClosed listener_id addresses (reason_debug reason)))
  | libp2p.ListenerError listener_id error =>
      Return (Ok (ListenerError listener_id (listener_error_debug error)))
  | libp2p.Dialing peer_id connection_id => Return (Ok (Dialing peer_id connection_id))
  | libp2p.NewExternalAddrOfPeer peer_id address => Return (Ok (NewExternalAddrOfPeer peer_id address))
  | _ => Panic NOT_COVERED
  end.

Definition try_from {B} (value : libp2p.SwarmEvent B) : outcome (result SwarmEvent unit) :=
  match value with
  | libp2p.Behaviour _ => Return (Err tt)
  | libp2p.ConnectionEstablished peer_id connection_id endpoint num_established errors established_in =>
      Return (Ok (ConnectionEstablished peer_id connection_id endpoint num_established
                    (dial_errors_debug errors) established_in))
  | libp2p.ConnectionClosed peer_id connection_id endpoint num_established cause =>
      Return (Ok (ConnectionClosed peer_id connection_id endpoint num_established (cause_debug cause)))
  | libp2p.IncomingConnection connection_id local_addr send_back_addr =>
      Return (Ok (IncomingConnection connection_id local_addr send_back_addr))
  | libp2p.IncomingConnectionError connection_id local_addr send_back_addr error peer_id =>
      Return (Ok (IncomingConnectionError connection_id local_addr send_back_addr
                    (listen_error_debug error) peer_id))
  | libp2p.OutgoingConnectionError connection_id peer_id error =>
      Return (Ok (OutgoingConnectionError connection_id peer_id (dial_error_debug error)))
  | libp2p.NewListenAddr listener_id address => Return (Ok (NewListenAddr listener_id address))
  | libp2p.ExpiredListenAddr listener_id address => Return (Ok (ExpiredListenAddr listener_id address))
  | libp2p.ListenerClosed listener_id addresses reason =>
      Return (Ok (ListenerClosed listener_id addresses (reason_debug reason)))
  | libp2p.ListenerError listener_id error =>
      Return (Ok (ListenerError listener_id (listener_error_debug error)))
  | libp2p.Dialing peer_id connection_id => Return (Ok (Dialing peer_id connection_id))
  | _ => Panic NOT_COVERED
  end.

(** The event of libp2p an event of the node stands for: same constructor, same
    identifiers, and the texts are those of its errors. *)
Definition describes {B} (ev : SwarmEvent) (value : libp2p.SwarmEvent B) : Prop :=
  match ev with
  | ConnectionEstablished p c e n errors d =>
      ∃ x, value = libp2p.ConnectionEstablished p c e n x d ∧ errors = dial_errors_debug x
  | ConnectionClosed p c e n cause => ∃ x, value = libp2p.ConnectionClosed p c e n x ∧ cause = cause_debug x
  | IncomingConnection c l b => value = libp2p.IncomingConnection c l b
  | IncomingConnectionError c l b error p =>
      ∃ x, value = libp2p.IncomingConnectionError c l b x p ∧ error = listen_error_debug x
  | OutgoingConnectionError c p error =>
      ∃ x, value = libp2p.OutgoingConnectionError c p x ∧ error = dial_error_debug x
  | NewListenAddr i a => value = libp2p.NewListenAddr i a
  | ExpiredListenAddr i a => value = libp2p.ExpiredListenAddr i a
  | ListenerClosed i l reason => ∃ x, value = libp2p.ListenerClosed i l x ∧ reason = reason_debug x
  | ListenerError i error => ∃ x, value = libp2p.ListenerError i x ∧ error = listener_error_debug x
  | Dialing p c => value = libp2p.Dialing p c
  | NewExternalAddrCandidate a => value = libp2p.NewExternalAddrCandidate a
  | ExternalAddrConfirmed a => value = libp2p.ExternalAddrConfirmed a
  | ExternalAddrExpired a => value = libp2p.ExternalAddrExpired a
  | NewExternalAddrOfPeer p a => value = libp2p.NewExternalAddrOfPeer p a
  end.

Definition external_addr {B} (value : libp2p.SwarmEvent B) : bool :=
  match value with
  | libp2p.NewExternalAddrCandidate _ | libp2p.ExternalAddrConfirmed _
  | libp2p.ExternalAddrExpired _ | libp2p.OtherSwarmEvent => true
  | _ => false
  end.

(** The conversions of swarm events.  A converted event describes the
    original; both conversions refuse the events of behaviours and agree, except
    that the one by value panics on a new address of a peer.  Both panic on the
    candidates, confirmations and expiries of external addresses, although the
    node's event type has variants for them. *)
Theorem conversions_agree {B} (value : libp2p.SwarmEvent B) :
  (∀ ev, try_from_ref_swarm_event value = Return (Ok ev) → describes ev value) ∧
  (try_from_ref_swarm_event value = Return (Err tt) ↔ ∃ e, value = libp2p.Behaviour e) ∧
  (try_from_ref_swarm_event value = Panic NOT_COVERED ↔ external_addr value = true) ∧
  (try_from value = try_from_ref_swarm_event value ∨
   ∃ p a, value = libp2p.NewExternalAddrOfPeer p a ∧ try_from value = Panic NOT_COVERED ∧
     try_from_ref_swarm_event value = Return (Ok (NewExternalAddrOfPeer p a))).
Proof.
  split_and!.
  - intros ev. destruct value; simpl; intros H; try discriminate H; injection H as <-; simpl; eauto.
  - destruct value; simpl; split; try done; try (intros [e He]; discriminate He); eauto.
  - by destruct value.
  - destruct value; simpl; eauto 10.
Qed.

(** ** mod.rs: requests to the swarm *)
Inductive InEvent :=
| Dial (address : Multiaddr) (callback : Callback)
| Listen (address : Multiaddr) (callback : Callback)
| ListListeners (callback : Callback)
| RemoveListeners (listener_id : ListenerId) (callback : Callback)
| AddExternalAddress (address : Multiaddr) (callback : Callback)
| RemoveExternalAddress (address : Multiaddr) (callback : Callback)
| ListExternalAddresses (callback : Callback)
| ListConnected (callback : Callback)
| IsConnectedToPeerId (peer_id : PeerId) (callback : Callback)
| DisconnectFromPeerId (peer_id : PeerId) (callback : Callback).

Inductive Answer :=
| AnsDial (r : result unit DialError)
| AnsListen (r : result ListenerId TransportError)
| AnsAddrs (l : list Multiaddr)
| AnsBool (b : bool)
| AnsUnit
| AnsPeers (l : list PeerId)
| AnsDisconnect (r : result unit unit).

Class Libp2pSwarm (S : Type) := {
  dial : Multiaddr → S → result unit DialError * S;
  listen_on : Multiaddr → S → result ListenerId TransportError * S;
  listeners : S → list Multiaddr;
  remove_listener : ListenerId → S → bool * S;
  add_external_address : Multiaddr → S → S;
  remove_external_address : Multiaddr → S → S;
  external_addresses : S → list Multiaddr;
  connected_peers : S → list PeerId;
  is_connected : PeerId → S → bool;
  disconnect_peer_id : PeerId → S → result unit unit * S;
}.

(** ** event_handlers.rs: [swarm_op_exec] *)
Definition swarm_op_exec {S} {swarm : Libp2pSwarm S} (ev : InEvent) (s : S) : S * list (Sent Answer) :=
  match ev with
  | Dial address callback =>
      let '(r, s) := dial address s in (s, handle_callback_sender (AnsDial r) callback)
  | Listen address callback =>
      let '(r, s) := listen_on address s in (s, handle_callback_sender (AnsListen r) callback)
  | ListListeners callback => (s, handle_callback_sender (AnsAddrs (listeners s)) callback)
  | RemoveListeners listener_id callback =>
      let '(r, s) := remove_listener listener_id s in (s, handle_callback_sender (AnsBool r) callback)
  | AddExternalAddress address callback =>
      (add_external_address address s, handle_callback_sender AnsUnit callback)
  | RemoveExternalAddress address callback =>
      (remove_external_address address s, handle_callback_sender AnsUnit callback)
  | DisconnectFromPeerId peer_id callback =>
      let '(r, s) := disconnect_peer_id peer_id s in (s, handle_callback_sender (AnsDisconnect r) callback)
  | ListExternalAddresses callback =>
      (s, handle_callback_sender (AnsAddrs (external_addresses s)) callback)
  | ListConnected callback => (s, handle_callback_sender (AnsPeers (connected_peers s)) callback)
  | IsConnectedToPeerId peer_id callback =>
      (s, handle_callback_sender (AnsBool (is_connected peer_id s)) callback)
  end.
End events.
End SwarmEvents.
