(* ===== verification/SwarmLoop.v ===== *)
(** * The event loop of the swarm ([net/p2p/swarm/mod.rs], [Builder::build])

    Module [SwarmLoop]: the loop that serves requests, polls libp2p's swarm
    while the event channel has room, and wakes up after a timeout; the events
    go to every subscriber of a broadcast channel.  tokio's channel is the
    interface [Broadcast] with its documented behaviour ([BroadcastLaws]);
    libp2p's swarm and what handling an event or a request does to it are
    parameters, so the theorems hold for any; a handler that panics ends the
    task, and the theorems speak of the time before. *)

From stdpp Require Import base gmap sets list strings fin_maps.
From Stdlib Require Import Lia NArith.
From S2P Require Import Prelude Std.

Module SwarmLoop.

(** ** mod.rs: Config *)
Record Config := {
  identity_path : string;
  swarm_event_buffer_size : N;
  swarm_event_timeout : N;
}.
Definition Config_default : Config :=
  {| identity_path := ""; swarm_event_buffer_size := 16; swarm_event_timeout := 200 |}.

Definition swarm_event_buffer_upper_bound (c : Config) : N :=
  N.shiftl (N.shiftr (swarm_event_buffer_size c) 2) 2.
Definition swarm_event_buffer_high_mark (c : Config) : N := swarm_event_buffer_size c / 2.

Lemma upper_bound_eq c : swarm_event_buffer_upper_bound c = (4 * (swarm_event_buffer_size c / 4))%N.
Proof.
  unfold swarm_event_buffer_upper_bound.
  rewrite N.shiftl_mul_pow2, N.shiftr_div_pow2. change (2 ^ 2)%N with 4%N. lia.
Qed.

Lemma upper_bound_le c : (swarm_event_buffer_upper_bound c ≤ swarm_event_buffer_size c)%N.
Proof. rewrite upper_bound_eq. apply N.Div0.mul_div_le. Qed.

Lemma upper_bound_zero c : swarm_event_buffer_upper_bound c = 0%N ↔ (swarm_event_buffer_size c < 4)%N.
Proof.
  rewrite upper_bound_eq. split.
  - intros H. apply N.div_small_iff; lia.
  - intros H. rewrite N.div_small by done. done.
Qed.

(** ** tokio::sync::broadcast *)
Class Broadcast (E : Type) := {
  Chan : Type;
  channel : N → Chan;
  bsend : E → Chan → Chan;
  blen : Chan → N;
  bsubscribe : N → Chan → Chan;
  brecv : N → Chan → option E * Chan;
  bdrop : N → Chan → Chan;
}.

(** What the documentation says, in terms of the values each live receiver has
    not seen: a value is queued until every receiver has seen it; [len] is the
    number of queued values; nothing is evicted while there is room. *)
Class BroadcastLaws (E : Type) {b : Broadcast E} := {
  unseen : Chan → gmap N (list E);
  capacity : Chan → N;
  channel_law n : (0 < n)%N → unseen (channel n) = ∅ ∧ (n ≤ capacity (channel n))%N;
  bsend_law e c : (∀ r q, unseen c !! r = Some q → N.of_nat (length q) < capacity c)%N →
    unseen (bsend e c) = (λ q, q ++ [e]) <$> unseen c ∧ capacity (bsend e c) = capacity c;
  blen_law c k : (blen c ≤ k)%N ↔ ∀ r q, unseen c !! r = Some q → (N.of_nat (length q) ≤ k)%N;
  bsubscribe_law r c : unseen c !! r = None →
    unseen (bsubscribe r c) = <[r := []]> (unseen c) ∧ capacity (bsubscribe r c) = capacity c;
  brecv_law r c q : unseen c !! r = Some q →
    (brecv r c).1 = head q ∧ unseen (brecv r c).2 = <[r := tail q]> (unseen c) ∧
    capacity (brecv r c).2 = capacity c;
  bdrop_law r c : unseen (bdrop r c) = delete r (unseen c) ∧ capacity (bdrop r c) = capacity c;
}.

Section loop.
Context {E Node Rx : Type} {b : Broadcast E}.
Context (select_next : Node → option (E * Node)).
Context (handle_swarm_event : E → Node → Node) (handle_incoming_event : Rx → Node → Node).
Context (cfg : Config).

(** The state of the task, and what is recorded of its subscribers: the events
    emitted since each subscribed, and those it has received. *)
Record Loop := {
  rx_bundle : list Rx;
  swarm : Node;
  event_out : Chan;
  emitted : list E;
  due : gmap N (list E);
  seen : gmap N (list E);
}.
Definition build (n : Node) : Loop := {|
  rx_bundle := []; swarm := n; event_out := channel (swarm_event_buffer_size cfg);
  emitted := []; due := ∅; seen := ∅;
|}.

(** [select!] takes any branch that is ready. *)
Inductive Branch := BRequest | BEvent | BTimer.

Definition turn (br : Branch) (l : Loop) : option Loop :=
  match br with
  | BRequest =>
      match rx_bundle l with
      | ev :: rest =>
          Some {| rx_bundle := rest; swarm := handle_incoming_event ev (swarm l);
                  event_out := event_out l; emitted := emitted l; due := due l; seen := seen l |}
      | [] => None
      end
  | BEvent =>
      if (blen (event_out l) <? swarm_event_buffer_upper_bound cfg)%N then
        match select_next (swarm l) with
        | Some (out_event, n) =>
            Some {| rx_bundle := rx_bundle l; swarm := handle_swarm_event out_event n;
                    event_out := bsend out_event (event_out l);
                    emitted := emitted l ++ [out_event];
                    due := (λ d, d ++ [out_event]) <$> due l; seen := seen l |}
        | None => None
        end
      else None
  | BTimer => Some l
  end.

(** ** The loop among its callers and subscribers *)
Inductive Op :=
| Turn (br : Branch)
| Request (ev : Rx)
| Subscribe (r : N)
| Receive (r : N)
| Unsubscribe (r : N).

Definition step (op : Op) (l : Loop) : option Loop :=
  match op with
  | Turn br => turn br l
  | Request ev =>
      Some {| rx_bundle := rx_bundle l ++ [ev]; swarm := swarm l; event_out := event_out l;
              emitted := emitted l; due := due l; seen := seen l |}
  | Subscribe r =>
      match due l !! r with
      | Some _ => None
      | None =>
          Some {| rx_bundle := rx_bundle l; swarm := swarm l; event_out := bsubscribe r (event_out l);
                  emitted := emitted l; due := <[r := []]> (due l); seen := <[r := []]> (seen l) |}
      end
  | Receive r =>
      match seen l !! r with
      | None => None
      | Some s =>
          let '(e, c) := brecv r (event_out l) in
          Some {| rx_bundle := rx_bundle l; swarm := swarm l; event_out := c; emitted := emitted l;
                  due := due l; seen := <[r := s ++ option_list e]> (seen l) |}
      end
  | Unsubscribe r =>
      Some {| rx_bundle := rx_bundle l; swarm := swarm l; event_out := bdrop r (event_out l);
              emitted := emitted l; due := delete r (due l); seen := delete r (seen l) |}
  end.

Fixpoint run (ops : list Op) (l : Loop) : option Loop :=
  match ops with
  | [] => Some l
  | op :: ops => match step op l with Some l => run ops l | None => None end
  end.

(** ** Invariant *)
Context {laws : BroadcastLaws E}.

(** A subscriber has received a prefix of what was emitted since it subscribed,
    and the rest is waiting. *)
Definition subscriber_ok (bound : N) (d : option (list E)) (s : option (list E)) (q : option (list E)) : Prop :=
  match d, s, q with
  | Some d, Some s, Some q => d = s ++ q ∧ (N.of_nat (length q) ≤ bound)%N
  | None, None, None => True
  | _, _, _ => False
  end.
Definition loop_ok (l : Loop) : Prop :=
  (swarm_event_buffer_size cfg ≤ capacity (event_out l))%N ∧
  ∀ r, subscriber_ok (swarm_event_buffer_upper_bound cfg) (due l !! r) (seen l !! r) (unseen (event_out l) !! r).

Lemma build_ok n : (0 < swarm_event_buffer_size cfg)%N → loop_ok (build n).
Proof.
  intros H. destruct (channel_law _ H) as [Hu Hc]. split; [done|].
  intros r. simpl. by rewrite Hu, !lookup_empty.
Qed.

(** The channel has room whenever the swarm is polled. *)
Lemma room l : loop_ok l → (blen (event_out l) < swarm_event_buffer_upper_bound cfg)%N →
  ∀ r q, unseen (event_out l) !! r = Some q →
    (N.of_nat (length q) < capacity (event_out l))%N ∧
    (N.of_nat (length q) < swarm_event_buffer_upper_bound cfg)%N.
Proof.
  intros [Hcap _] Hlen r q Hq. pose proof (upper_bound_le cfg).
  pose proof (proj1 (blen_law (event_out l) (blen (event_out l))) (N.le_refl _) r q Hq). lia.
Qed.

Lemma turn_ok br l l' : loop_ok l → turn br l = Some l' → loop_ok l'.
Proof.
  intros Hok H. pose proof Hok as [Hcap Hs]. destruct br; simpl in H.
  - destruct (rx_bundle l); [done|]. by injection H as <-.
  - destruct (N.ltb_spec (blen (event_out l)) (swarm_event_buffer_upper_bound cfg)) as [Hlt|]; [|done].
    destruct (select_next (swarm l)) as [[ev n]|]; [|done]. injection H as <-.
    pose proof (room l Hok Hlt) as Hroom.
    destruct (bsend_law ev (event_out l)) as [Hu Hc]; [intros r q Hq; by apply (Hroom r q)|].
    split; simpl; [by rewrite Hc|]. intros r. rewrite Hu, !lookup_fmap. specialize (Hs r).
    destruct (due l !! r) as [d|], (seen l !! r) as [s|], (unseen (event_out l) !! r) as [q|] eqn:Hq;
      simpl in *; try done.
    destruct Hs as [-> _]. rewrite <-app_assoc, length_app. simpl. split; [done|].
    pose proof (Hroom r q Hq). lia.
  - by injection H as <-.
Qed.

Lemma step_ok op l l' : loop_ok l → step op l = Some l' → loop_ok l'.
Proof.
  intros Hok H. destruct op as [br|ev|r|r|r]; simpl in H; [by eapply turn_ok| | | |]; destruct Hok as [Hcap Hs].
  - by injection H as <-.
  - destruct (due l !! r) eqn:Ed; [done|]. injection H as <-.
    pose proof (Hs r) as Hr. rewrite Ed in Hr.
    destruct (seen l !! r) eqn:Es, (unseen (event_out l) !! r) eqn:Eq; try done.
    destruct (bsubscribe_law r (event_out l) Eq) as [Hu Hc]. split; simpl; [by rewrite Hc|].
    intros k. rewrite Hu. at_key r k; [|done]. simpl. split; [done|lia].
  - destruct (seen l !! r) as [s|] eqn:Es; [|done].
    pose proof (Hs r) as Hr. rewrite Es in Hr.
    destruct (due l !! r) as [d|] eqn:Ed; [|done]. destruct (unseen (event_out l) !! r) as [q|] eqn:Eq; [|done].
    destruct (brecv_law r (event_out l) q Eq) as (He & Hu & Hc).
    destruct (brecv r (event_out l)) as [e c]. simpl in *. injection H as <-. split; simpl; [by rewrite Hc|].
    intros k. rewrite Hu. at_key r k; [|done]. rewrite Ed. simpl. destruct Hr as [-> Hle].
    subst e. destruct q as [|e q]; simpl in *; [by rewrite !app_nil_r|]. rewrite <-app_assoc. simpl. split; [done|lia].
  - injection H as <-. destruct (bdrop_law r (event_out l)) as [Hu Hc]. split; simpl; [by rewrite Hc|].
    intros k. rewrite Hu. at_key r k; done.
Qed.

Lemma run_ok ops : ∀ l l', loop_ok l → run ops l = Some l' → loop_ok l'.
Proof.
  induction ops as [|op ops IH]; intros l l' Hok H; simpl in H; [by injection H as <-|].
  destruct (step op l) as [l1|] eqn:E1; [|done]. eapply IH; [by eapply step_ok|done].
Qed.

(** C9: no subscriber of the swarm's events ever misses one.  However requests,
    turns of the loop and subscribers interleave, what a subscriber has received
    is a prefix of the events emitted since it subscribed, the rest is waiting
    for it in order, and at most [swarm_event_buffer_upper_bound] events wait:
    the channel never has to evict one. *)
Theorem no_subscriber_misses_an_event n ops l r d :
  (0 < swarm_event_buffer_size cfg)%N →
  run ops (build n) = Some l → due l !! r = Some d →
  ∃ s q, seen l !! r = Some s ∧ unseen (event_out l) !! r = Some q ∧ d = s ++ q ∧
    (N.of_nat (length q) ≤ swarm_event_buffer_upper_bound cfg)%N.
Proof.
  intros Hn Hr Hd. destruct (run_ok ops (build n) l (build_ok n Hn) Hr) as [_ Hs].
  specialize (Hs r). rewrite Hd in Hs. simpl in Hs.
  destruct (seen l !! r) as [s|]; [|done]. destruct (unseen (event_out l) !! r) as [q|]; [|done].
  destruct Hs. by exists s, q.
Qed.

Lemma small_buffer_silent ops : (swarm_event_buffer_size cfg < 4)%N →
  ∀ l l', run ops l = Some l' → emitted l' = emitted l.
Proof.
  intros Hn. induction ops as [|op ops IH]; intros l l' H; simpl in H; [by injection H as <-|].
  destruct (step op l) as [l1|] eqn:E1; [|done]. rewrite (IH l1 l' H). clear H IH.
  destruct op as [[]|ev|r|r|r]; simpl in E1.
  - destruct (rx_bundle l); [done|]. by injection E1 as <-.
  - rewrite (proj2 (upper_bound_zero cfg) Hn) in E1. destruct (N.ltb_spec (blen (event_out l)) 0); [lia|done].
  - by injection E1 as <-.
  - by injection E1 as <-.
  - destruct (due l !! r); [done|]. by injection E1 as <-.
  - destruct (seen l !! r); [|done]. destruct (brecv r (event_out l)). by injection E1 as <-.
  - by injection E1 as <-.
Qed.

(** C23: when the swarm is polled.  With an event ready, the loop can take it
    exactly unless some subscriber is [swarm_event_buffer_upper_bound] events
    behind, or the configured buffer holds fewer than four events: a single
    subscriber that stops reading stops the whole node, and with a buffer of
    one to three events no event is ever handled. *)
Theorem swarm_polled_unless_behind l ev n :
  select_next (swarm l) = Some (ev, n) →
  (step (Turn BEvent) l = None ↔
    (swarm_event_buffer_size cfg < 4)%N ∨
    ∃ r q, unseen (event_out l) !! r = Some q ∧
      (swarm_event_buffer_upper_bound cfg ≤ N.of_nat (length q))%N) ∧
  ((swarm_event_buffer_size cfg < 4)%N → ∀ ops l', run ops l = Some l' → emitted l' = emitted l).
Proof.
  intros Hev. split; [|intros Hn ops l'; by apply small_buffer_silent].
  simpl. rewrite Hev. rewrite <-upper_bound_zero. set (m := swarm_event_buffer_upper_bound cfg).
  destruct (N.ltb_spec (blen (event_out l)) m) as [Hlt|Hge]; split; try done.
  - intros [H0|(r & q & Hq & Hle)]; [lia|].
    pose proof (proj1 (blen_law (event_out l) (blen (event_out l))) (N.le_refl _) r q Hq). lia.
  - intros _. destruct (decide (m = 0%N)) as [|Hm]; [by left|right].
    destruct (decide (map_Forall (λ _ q, N.of_nat (length q) ≤ m - 1)%N (unseen (event_out l)))) as [Hall|Hex].
    + pose proof (proj2 (blen_law (event_out l) (m - 1)) Hall). lia.
    + apply map_not_Forall in Hex as (r & q & Hq & Hlt); [|apply _]. exists r, q. split; [done|lia].
Qed.
End loop.

(** ** Witnesses: a channel that is its capacity and its queues *)
Section witnesses.

Record demo_chan (E : Type) := { dc_cap : N; dc_queues : gmap N (list E) }.
#[global] Arguments dc_cap {E} _.
#[global] Arguments dc_queues {E} _.

Definition longest {E} (l : list (N * list E)) : N := foldr (λ x, N.max (N.of_nat (length x.2))) 0%N l.
(** The oldest value makes room when a queue is full. *)
Definition push {E} (cap : N) (e : E) (q : list E) : list E :=
  if (N.of_nat (length q) <? cap)%N then q ++ [e] else tail q ++ [e].

#[export] Instance demo_broadcast {E} : Broadcast E := {|
  Chan := demo_chan E;
  channel := λ n, {| dc_cap := n; dc_queues := ∅ |};
  bsend := λ e c, {| dc_cap := dc_cap c; dc_queues := push (dc_cap c) e <$> dc_queues c |};
  blen := λ c, longest (map_to_list (dc_queues c));
  bsubscribe := λ r c, {| dc_cap := dc_cap c; dc_queues := <[r := []]> (dc_queues c) |};
  brecv := λ r c,
    (head (default [] (dc_queues c !! r)),
     {| dc_cap := dc_cap c; dc_queues := alter tail r (dc_queues c) |});
  bdrop := λ r c, {| dc_cap := dc_cap c; dc_queues := delete r (dc_queues c) |};
|}.

Lemma longest_le {E} (l : list (N * list E)) k : (longest l ≤ k)%N ↔ ∀ x, x ∈ l → (N.of_nat (length x.2) ≤ k)%N.
Proof.
  induction l as [|y l IH]; simpl.
  - split; [intros _ x Hx; by apply not_elem_of_nil in Hx|lia].
  - rewrite N.max_lub_iff, IH. split.
    + intros [Hy Hl] x [->|Hx]%elem_of_cons; [done|by apply Hl].
    + intros H. split; [apply H; left|intros x Hx; apply H; by right].
Qed.

#[export] Instance demo_broadcast_laws {E} : BroadcastLaws E.
Proof.
  refine (@Build_BroadcastLaws E demo_broadcast (λ c : demo_chan E, dc_queues c) (λ c : demo_chan E, dc_cap c) _ _ _ _ _ _); simpl.
  - intros n _. split; [done|lia].
  - intros e c Hc. split; [|done]. apply map_eq. intros r. rewrite !lookup_fmap.
    destruct (dc_queues c !! r) as [q|] eqn:Eq; [|done]. simpl. f_equal. unfold push.
    by rewrite (proj2 (N.ltb_lt _ _) (Hc r q Eq)).
  - intros c k. rewrite longest_le. split.
    + intros H r q Hq. by apply (H (r, q)), elem_of_map_to_list.
    + intros H [r q] Hq%elem_of_map_to_list. by apply (H r q).
  - done.
  - intros r c q Hq. rewrite Hq. split; [done|]. split; [|done].
    apply map_eq. intros k. at_key r k; by rewrite ?Hq.
  - done.
Defined.

(** The swarm emits its number and counts up; requests add to it. *)
Definition demo_next (n : N) : option (N * N) := Some (n, (n + 1)%N).
Definition demo_swarm (c : Config) (ops : list (@Op N)) : option (@Loop N N N demo_broadcast) :=
  run demo_next (λ _ n, n) (λ r n, (r + n)%N) c ops (build c 7%N).

Definition demo_ops : list (@Op N) :=
  [Subscribe 1; Turn BEvent; Request 5%N; Turn BRequest; Turn BEvent; Receive 1].

Lemma no_subscriber_misses_an_event_witness :
  ∃ l, demo_swarm Config_default demo_ops = Some l ∧ due l !! 1%N = Some [7%N; 13%N] ∧
    ∃ s q, seen l !! 1%N = Some s ∧ unseen (event_out l) !! 1%N = Some q ∧ [7%N; 13%N] = s ++ q ∧
      (N.of_nat (length q) ≤ swarm_event_buffer_upper_bound Config_default)%N.
Proof.
  assert (is_Some (demo_swarm Config_default demo_ops)) as [l Hl] by (vm_compute; eauto).
  assert (due l !! 1%N = Some [7%N; 13%N]) as Hd.
  { enough (mbind (λ l, due l !! 1%N) (demo_swarm Config_default demo_ops) = Some [7%N; 13%N]) as H
      by (by rewrite Hl in H).
    vm_compute. reflexivity. }
  exists l. split; [exact Hl|]. split; [exact Hd|].
  exact (no_subscriber_misses_an_event demo_next (λ _ n, n) (λ r n, (r + n)%N) Config_default
           7%N demo_ops l 1%N [7%N; 13%N] eq_refl Hl Hd).
Defined.

Definition tiny : Config := {| identity_path := ""; swarm_event_buffer_size := 3; swarm_event_timeout := 200 |}.

Lemma swarm_polled_unless_behind_witness :
  (step demo_next (λ _ n, n) (λ r n, (r + n)%N) tiny (Turn BEvent) (build tiny 7%N) = None ↔
    (swarm_event_buffer_size tiny < 4)%N ∨
    ∃ r q, unseen (event_out (@build N N N demo_broadcast tiny 7%N)) !! r = Some q ∧
      (swarm_event_buffer_upper_bound tiny ≤ N.of_nat (length q))%N) ∧
  ((swarm_event_buffer_size tiny < 4)%N → ∀ ops l',
     run demo_next (λ _ n, n) (λ r n, (r + n)%N) tiny ops (build tiny 7%N) = Some l' →
     emitted l' = emitted (@build N N N demo_broadcast tiny 7%N)).
Proof.
  exact (swarm_polled_unless_behind demo_next (λ _ n, n) (λ r n, (r + n)%N) tiny (build tiny 7%N)
           7%N 8%N eq_refl).
Defined.
End witnesses.
End SwarmLoop.
