(* ===== verification/Macros.v ===== *)
(** * The macros that generate the handles' methods ([owlnest-macro/src/lib.rs])

    Module [Macros]: [generate_handler_method!] and
    [generate_handler_method_blocking!] as functions from the tokens of a
    declaration to the method they expand to.  What the bodies do when they run
    is [Calls.handler_method]; here it is which request they build, from which
    parameters.  The declarations of every handle of the program follow, with the
    requests they are meant for. *)

From stdpp Require Import base list strings.
From Stdlib Require Import Lia.
From S2P Require Import Prelude.

Module Macros.

(** ** Tokens and methods *)

(** Types, as far as references matter; other types are their text. *)
Inductive Ty := TPath (text : string) | TRef (t : Ty) | TCallback (t : Ty).
#[export] Instance Ty_eq_dec : EqDecision Ty.
Proof. solve_decision. Defined.

(** The tokens of a parameter list: [<T>] is to be cloned, [T] to be copied out
    of a reference, [|T|] to be moved. *)
Inductive Tok := TName (x : string) | TColon | TComma | TAngle (t : Ty) | TType (t : Ty) | TBars (t : Ty).

Record Spec := { metas : list string; variant : string; name : string; tokens : list Tok; return_type : list Ty }.

(** The initialiser of a field: [tx], [*x], [x.clone()], [x]. *)
Inductive Expr := Tx | Deref (x : string) | CloneOf (x : string) | Var (x : string).

Record Method := {
  m_async : bool;
  m_metas : list string;
  m_name : string;
  m_params : list (string * Ty);
  m_return : option Ty;
  m_variant : string;
  m_fields : list (string * Expr);
}.

(** ** The rules *)

(** What the rules have collected; the parameters of a kind are pushed in front. *)
Record Acc := {
  param_order : list (string * Ty);
  copy_params : list (string * Ty);
  clone_params : list (string * Ty);
  owned_params : list (string * Ty);
}.
Definition Acc_new : Acc := {| param_order := []; copy_params := []; clone_params := []; owned_params := [] |}.
Definition clone_param (x : string) (t : Ty) (a : Acc) : Acc :=
  {| param_order := param_order a ++ [(x, t)]; copy_params := copy_params a;
     clone_params := (x, t) :: clone_params a; owned_params := owned_params a |}.
Definition copy_param (x : string) (t : Ty) (a : Acc) : Acc :=
  {| param_order := param_order a ++ [(x, t)]; copy_params := (x, t) :: copy_params a;
     clone_params := clone_params a; owned_params := owned_params a |}.
Definition owned_param (x : string) (t : Ty) (a : Acc) : Acc :=
  {| param_order := param_order a ++ [(x, t)]; copy_params := copy_params a;
     clone_params := clone_params a; owned_params := (x, t) :: owned_params a |}.

Definition is_comma (t : Tok) : bool := match t with TComma => true | _ => false end.

(** The rules of [generate_handler_method!] up to the last one: clone, copy, own,
    exit; [None] when no rule applies, which is an error of the compiler. *)
Fixpoint munch (ts : list Tok) (a : Acc) : option Acc :=
  match ts with
  | TName x :: TColon :: TAngle t :: TComma :: ts => munch ts (clone_param x t a)
  | TName x :: TColon :: TType t :: TComma :: ts => munch ts (copy_param x t a)
  | TName x :: TColon :: TBars t :: TComma :: ts => munch ts (owned_param x t a)
  | _ => if forallb is_comma ts then Some a else None
  end.

(** Those of [generate_handler_method_blocking!]: clone, own, copy, exit. *)
Fixpoint munch_blocking (ts : list Tok) (a : Acc) : option Acc :=
  match ts with
  | TName x :: TColon :: TAngle t :: TComma :: ts => munch_blocking ts (clone_param x t a)
  | TName x :: TColon :: TBars t :: TComma :: ts => munch_blocking ts (owned_param x t a)
  | TName x :: TColon :: TType t :: TComma :: ts => munch_blocking ts (copy_param x t a)
  | _ => if forallb is_comma ts then Some a else None
  end.

(** The fields of the request, after [callback]. *)
Definition arguments (a : Acc) : list (string * Expr) :=
  ((λ p, (p.1, Deref p.1)) <$> copy_params a) ++ ((λ p, (p.1, CloneOf p.1)) <$> clone_params a) ++
  ((λ p, (p.1, Var p.1)) <$> owned_params a).

Definition method (async : bool) (s : Spec) (a : Acc) (ret : option Ty) : Method :=
  {| m_async := async; m_metas := metas s; m_name := name s; m_params := param_order a; m_return := ret;
     m_variant := variant s;
     m_fields := match ret with Some _ => [("callback", Tx)] | None => [] end ++ arguments a |}.

Definition generate_handler_method (s : Spec) : option Method :=
  match munch (tokens s ++ [TComma]) Acc_new, return_type s with
  | Some a, [t] => Some (method true s a (Some t))
  | Some a, [] => Some (method true s a None)
  | _, _ => None
  end.

(** The rule with a return type wants the moved parameters without the commas
    the other rules put behind them. *)
Definition generate_handler_method_blocking (s : Spec) : option Method :=
  match munch_blocking (tokens s ++ [TComma]) Acc_new, return_type s with
  | Some a, [] => Some (method false s a None)
  | Some a, [t] => match owned_params a with [] => Some (method false s a (Some t)) | _ => None end
  | _, _ => None
  end.

(** ** Every declaration expands *)
Inductive Kind := Clone | Copy | Owned.
#[export] Instance Kind_eq_dec : EqDecision Kind.
Proof. solve_decision. Defined.
Definition Param : Type := string * Kind * Ty.

Definition param_tokens (p : Param) : list Tok :=
  let '(x, k, t) := p in
  [TName x; TColon; match k with Clone => TAngle t | Copy => TType t | Owned => TBars t end].

(** A list as it is written: separated by commas, perhaps with one at its end. *)
Fixpoint written (ps : list Param) : list Tok :=
  match ps with
  | [] => []
  | [p] => param_tokens p
  | p :: ps => param_tokens p ++ TComma :: written ps
  end.

Definition declared (p : Param) : string * Ty := (p.1.1, p.2).
Definition argument (p : Param) : string * Expr :=
  let '(x, k, t) := p in (x, match k with Clone => CloneOf x | Copy => Deref x | Owned => Var x end).

Definition add_param (a : Acc) (p : Param) : Acc :=
  let '(x, k, t) := p in
  match k with Clone => clone_param x t a | Copy => copy_param x t a | Owned => owned_param x t a end.

(** The two orders of the rules make no difference: no token begins two of them. *)
Lemma munch_orders ts a : munch_blocking ts a = munch ts a.
Proof. reflexivity. Qed.

Lemma munch_param p ts a : munch (param_tokens p ++ TComma :: ts) a = munch ts (add_param a p).
Proof. by destruct p as [[x []] t]. Qed.

Lemma munch_commas ts a : forallb is_comma ts → munch ts a = Some a.
Proof. intros H. destruct ts as [|[] ts]; try done. simpl in *. by rewrite (Is_true_true_1 _ H). Qed.

Lemma munch_written ps ts : forallb is_comma ts → ∀ a, munch (written ps ++ TComma :: ts) a = Some (foldl add_param a ps).
Proof.
  intros Hts. induction ps as [|p [|q ps] IH]; intros a.
  - by rewrite munch_commas.
  - change (written [p]) with (param_tokens p). by rewrite munch_param, munch_commas.
  - change (written (p :: q :: ps)) with (param_tokens p ++ TComma :: written (q :: ps)).
    rewrite <-app_assoc. cbn [app]. rewrite munch_param. by apply IH.
Qed.

Lemma add_params ps a :
  param_order (foldl add_param a ps) = param_order a ++ (declared <$> ps) ∧
  arguments (foldl add_param a ps) ≡ₚ arguments a ++ (argument <$> ps).
Proof.
  revert a. induction ps as [|[[x k] t] ps IH]; intros a; [by rewrite !app_nil_r|].
  cbn [foldl]. destruct (IH (add_param a (x, k, t))) as [-> ->].
  split; [by destruct k; cbn; rewrite <-app_assoc|].
  rewrite fmap_cons. unfold arguments. destruct k; cbn [add_param argument clone_param copy_param owned_param
    copy_params clone_params owned_params fmap list_fmap fst]; cbn; solve_Permutation.
Qed.

(** A parameter is to be moved. *)
Definition moves (ps : list Param) : bool := existsb (λ p : Param, bool_decide (p.1.2 = Owned)) ps.

Lemma owned_kept ps a : owned_params a = [] → moves ps = false → owned_params (foldl add_param a ps) = [].
Proof.
  revert a. induction ps as [|[[y k] t] ps IH]; intros a Ha Hm; [done|].
  cbn in Hm. apply orb_false_iff in Hm as [Hk Hm]. apply IH; [by destruct k|done].
Qed.
Lemma owned_moved ps a : moves ps = true ∨ owned_params a ≠ [] → owned_params (foldl add_param a ps) ≠ [].
Proof.
  revert a. induction ps as [|[[y k] t] ps IH]; intros a; [by intros [|]|].
  cbn. intros H. apply IH. destruct k; cbn in *; by destruct H; auto.
Qed.

(** A method with the parameters as they were written, which builds the variant
    with every parameter converted once, and the callback if it returns. *)
Definition expansion (async : bool) (s : Spec) (ps : list Param) (ret : option Ty) (m : Method) : Prop :=
  m_async m = async ∧ m_metas m = metas s ∧ m_name m = name s ∧ m_variant m = variant s ∧ m_return m = ret ∧
  m_params m = declared <$> ps ∧
  m_fields m ≡ₚ match ret with Some _ => [("callback", Tx)] | None => [] end ++ (argument <$> ps).

Lemma method_expansion async s ps ret :
  expansion async s ps ret (method async s (foldl add_param Acc_new ps) ret).
Proof.
  destruct (add_params ps Acc_new) as [Ho Ha]. unfold expansion. cbn [m_async m_metas m_name m_variant m_return m_params m_fields method].
  rewrite Ho, Ha. by split_and!.
Qed.

(** C20: the macros for the methods of handles expand every well-formed
    declaration, however many parameters of whichever kinds it has and whether
    it ends in a comma: the method takes the parameters in the written order, and
    the request's fields are exactly the parameters, each moved, cloned or copied
    as it was marked, and the callback if something is returned.  The exception
    is the blocking variant that returns something and has a parameter to move:
    no rule matches it. *)
Theorem handler_methods_expand s ps trailing ret :
  tokens s = written ps ++ (if trailing : bool then [TComma] else []) → return_type s = option_list ret →
  (∃ m, generate_handler_method s = Some m ∧ expansion true s ps ret m) ∧
  (if bool_decide (is_Some ret) && moves ps
   then generate_handler_method_blocking s = None
   else ∃ m, generate_handler_method_blocking s = Some m ∧ expansion false s ps ret m).
Proof.
  intros Htok Hret. set (a := foldl add_param Acc_new ps).
  assert (Hm : munch (tokens s ++ [TComma]) Acc_new = Some a).
  { rewrite Htok, <-app_assoc. by destruct trailing; apply munch_written. }
  unfold generate_handler_method, generate_handler_method_blocking. rewrite (munch_orders (tokens s ++ [TComma]) Acc_new), Hm, Hret.
  split; [destruct ret as [t|]; (eexists; split; [done|]; apply method_expansion)|].
  destruct ret as [t|]; cbn [option_list]; [|eexists; split; [done|apply method_expansion]].
  destruct (moves ps) eqn:Hmoves; cbn [andb].
  - rewrite (bool_decide_eq_true_2 (is_Some (Some t))) by (by exists t). cbn [andb].
    pose proof (owned_moved ps Acc_new (or_introl Hmoves)) as Hne. fold a in Hne. by destruct (owned_params a).
  - rewrite andb_false_r. pose proof (owned_kept ps Acc_new eq_refl Hmoves) as Hnil. fold a in Hnil. rewrite Hnil.
    eexists; split; [done|apply method_expansion].
Qed.

(** ** The handles of the program

    The declarations as they are written (without their doc comments), and the
    variants of the requests: their fields with the types.  A field that is
    copied, cloned or moved has the type of what it is made from. *)
Definition decl (variant name : string) (ps : list Param) (ret : option string) : Spec :=
  {| metas := []; variant := variant; name := name; tokens := written ps; return_type := option_list (TPath <$> ret) |}.
Abbreviation by_ref x t := (x, Copy, TRef (TPath t)).
Abbreviation by_clone x t := (x, Clone, TRef (TPath t)).
Abbreviation by_value x t := (x, Owned, TPath t).

Record Handle := {
  methods : list Spec;
  methods_blocking : list Spec;
  requests : list (string * list (string * Ty));
}.

(** swarm/handle.rs, swarm/mod.rs *)
Definition swarm_methods_blocking : list Spec := [
  decl "Dial" "dial_blocking" [by_clone "address" "Multiaddr"] (Some "Result<(), DialError>");
  decl "Listen" "listen_blocking" [by_clone "address" "Multiaddr"]
    (Some "Result<ListenerId, TransportError<std::io::Error>>");
  decl "ListListeners" "list_listeners_blocking" [] (Some "Box<[Multiaddr]>");
  decl "RemoveListeners" "remove_listener_blocking" [by_ref "listener_id" "ListenerId"] (Some "bool");
  decl "AddExternalAddress" "add_external_address_blocking" [by_clone "address" "Multiaddr"] (Some "()");
  decl "ListExternalAddresses" "list_external_addresses_blocking" [] (Some "Box<[Multiaddr]>");
  decl "RemoveExternalAddress" "remove_external_address_blocking" [by_clone "address" "Multiaddr"] (Some "()");
  decl "ListConnected" "list_connected_blocking" [] (Some "Box<[PeerId]>");
  decl "IsConnectedToPeerId" "is_connected_blocking" [by_ref "peer_id" "PeerId"] (Some "bool");
  decl "DisconnectFromPeerId" "disconnect_peer_id_blocking" [by_ref "peer_id" "PeerId"] (Some "Result<(),()>")].
Definition swarm_methods : list Spec := [
  decl "Dial" "dial" [by_clone "address" "Multiaddr"] (Some "Result<(), DialError>");
  decl "Listen" "listen" [by_clone "address" "Multiaddr"] (Some "Result<ListenerId, TransportError<std::io::Error>>");
  decl "ListListeners" "list_listeners" [] (Some "Box<[Multiaddr]>");
  decl "RemoveListeners" "remove_listener" [by_ref "listener_id" "ListenerId"] (Some "bool");
  decl "AddExternalAddress" "add_external_address" [by_clone "address" "Multiaddr"] (Some "()");
  decl "ListExternalAddresses" "list_external_addresses" [] (Some "Box<[Multiaddr]>");
  decl "RemoveExternalAddress" "remove_external_address" [by_clone "address" "Multiaddr"] (Some "()");
  decl "ListConnected" "list_connected" [] (Some "Box<[PeerId]>");
  decl "IsConnectedToPeerId" "is_connected" [by_ref "peer_id" "PeerId"] (Some "bool");
  decl "DisconnectFromPeerId" "disconnect_peer_id" [by_ref "peer_id" "PeerId"] (Some "Result<(),()>")].
Definition callback (t : string) : string * Ty := ("callback", TCallback (TPath t)).
Definition swarm_requests : list (string * list (string * Ty)) := [
  ("Dial", [("address", TPath "Multiaddr"); callback "Result<(), DialError>"]);
  ("Listen", [("address", TPath "Multiaddr"); callback "Result<ListenerId, TransportError<std::io::Error>>"]);
  ("ListListeners", [callback "Box<[Multiaddr]>"]);
  ("RemoveListeners", [("listener_id", TPath "ListenerId"); callback "bool"]);
  ("AddExternalAddress", [("address", TPath "Multiaddr"); callback "()"]);
  ("RemoveExternalAddress", [("address", TPath "Multiaddr"); callback "()"]);
  ("ListExternalAddresses", [callback "Box<[Multiaddr]>"]);
  ("ListConnected", [callback "Box<[PeerId]>"]);
  ("IsConnectedToPeerId", [("peer_id", TPath "PeerId"); callback "bool"]);
  ("DisconnectFromPeerId", [("peer_id", TPath "PeerId"); callback "Result<(),()>"])].

(** The handles of the protocols; [NatStatusResult] is an alias.  Requests no
    generated method builds are left out of the lists. *)
Definition advertise_methods : list Spec := [
  decl "ListConnected" "list_connected" [] (Some "Box<[PeerId]>");
  decl "ListAdvertised" "list_advertised" [] (Some "Box<[PeerId]>");
  decl "GetProviderState" "provider_state" [] (Some "bool");
  decl "ClearAdvertised" "clear_advertised" [] None;
  decl "SetProviderState" "set_provider_state" [by_value "target_state" "bool"] (Some "bool");
  decl "SetRemoteAdvertisement" "set_remote_advertisement" [by_ref "remote" "PeerId"; by_value "state" "bool"] (Some "()")].
Definition advertise_requests : list (string * list (string * Ty)) := [
  ("SetProviderState", [("target_state", TPath "bool"); callback "bool"]);
  ("GetProviderState", [callback "bool"]);
  ("SetRemoteAdvertisement", [("remote", TPath "PeerId"); ("state", TPath "bool"); callback "()"]);
  ("ClearAdvertised", []);
  ("ListAdvertised", [callback "Box<[PeerId]>"]);
  ("ListConnected", [callback "Box<[PeerId]>"])].
Definition autonat_methods : list Spec := [
  decl "RemoveServer" "remove_server" [by_ref "peer_id" "PeerId"] None;
  decl "Probe" "probe" [by_clone "candidate" "Multiaddr"] None;
  decl "GetNatStatus" "get_nat_status" [] (Some "(NatStatus, usize)");
  decl "AddServer" "add_server" [by_ref "peer_id" "PeerId"; by_value "address" "Option<Multiaddr>"] None].
Definition autonat_requests : list (string * list (string * Ty)) := [
  ("AddServer", [("peer_id", TPath "PeerId"); ("address", TPath "Option<Multiaddr>")]);
  ("RemoveServer", [("peer_id", TPath "PeerId")]);
  ("Probe", [("candidate", TPath "Multiaddr")]);
  ("GetNatStatus", [callback "(NatStatus, usize)"])].
Definition blob_methods : list Spec := [
  decl "ListRecv" "list_pending_recv" [] (Some "Box<[RecvInfo]>");
  decl "ListSend" "list_pending_send" [] (Some "Box<[SendInfo]>");
  decl "ListConnected" "list_connected" [] (Some "Box<[PeerId]>")].
Definition blob_requests : list (string * list (string * Ty)) := [
  ("ListConnected", [callback "Box<[PeerId]>"]);
  ("ListRecv", [callback "Box<[RecvInfo]>"]);
  ("ListSend", [callback "Box<[SendInfo]>"])].
Definition mdns_methods : list Spec := [
  decl "ListDiscoveredNodes" "list_discovered_node" [] (Some "Box<[PeerId]>");
  decl "HasNode" "has_node" [by_ref "peer" "PeerId"] (Some "bool")].
Definition mdns_requests : list (string * list (string * Ty)) := [
  ("ListDiscoveredNodes", [callback "Box<[PeerId]>"]);
  ("HasNode", [("peer", TPath "PeerId"); callback "bool"])].
Definition messaging_methods : list Spec := [decl "ListConnected" "list_connected" [] (Some "Box<[PeerId]>")].
Definition messaging_requests : list (string * list (string * Ty)) := [("ListConnected", [callback "Box<[PeerId]>"])].
Definition kad_methods : list Spec := [
  decl "BootStrap" "bootstrap" [] (Some "Result<kad::QueryId, kad::NoKnownPeers>");
  decl "InsertNode" "insert_node" [by_ref "peer_id" "PeerId"; by_clone "address" "Multiaddr"] (Some "kad::RoutingUpdate")].
Definition kad_requests : list (string * list (string * Ty)) := [
  ("BootStrap", [callback "Result<kad::QueryId, kad::NoKnownPeers>"]);
  ("InsertNode", [("peer_id", TPath "PeerId"); ("address", TPath "Multiaddr"); callback "kad::RoutingUpdate"])].
Definition gossipsub_methods : list Spec := [
  decl "BanPeer" "ban_peer" [by_ref "peer" "PeerId"] None;
  decl "UnbanPeer" "unban_peer" [by_ref "peer" "PeerId"] None;
  decl "MeshPeersOfTopic" "mesh_peers_of_topic" [by_clone "topic" "TopicHash"] (Some "Box<[PeerId]>");
  decl "AllPeersWithTopic" "all_peers_with_topic" [] (Some "Box<[(PeerId, Box<[TopicHash]>)]>")].
Definition gossipsub_requests : list (string * list (string * Ty)) := [
  ("MeshPeersOfTopic", [("topic", TPath "TopicHash"); callback "Box<[PeerId]>"]);
  ("AllPeersWithTopic", [callback "Box<[(PeerId, Box<[TopicHash]>)]>"]);
  ("BanPeer", [("peer", TPath "PeerId")]);
  ("UnbanPeer", [("peer", TPath "PeerId")])].
Definition hyper_methods : list Spec := [
  decl "SendRequest" "send_request"
    [("peer", Copy, TPath "PeerId"); ("request", Copy, TPath "Request<String>")] (Some "Response<Bytes>")].

Definition handles : list Handle := [
  {| methods := swarm_methods; methods_blocking := swarm_methods_blocking; requests := swarm_requests |};
  {| methods := advertise_methods; methods_blocking := []; requests := advertise_requests |};
  {| methods := autonat_methods; methods_blocking := []; requests := autonat_requests |};
  {| methods := blob_methods; methods_blocking := []; requests := blob_requests |};
  {| methods := mdns_methods; methods_blocking := []; requests := mdns_requests |};
  {| methods := messaging_methods; methods_blocking := []; requests := messaging_requests |};
  {| methods := kad_methods; methods_blocking := []; requests := kad_requests |};
  {| methods := gossipsub_methods; methods_blocking := []; requests := gossipsub_requests |}].

(** ** Their types *)
Fixpoint assoc {A} (x : string) (l : list (string * A)) : option A :=
  match l with [] => None | (y, a) :: l => if decide (x = y) then Some a else assoc x l end.

Definition expr_type (m : Method) (e : Expr) : option Ty :=
  match e with
  | Tx => TCallback <$> m_return m
  | Deref x => match assoc x (m_params m) with Some (TRef t) => Some t | _ => None end
  | CloneOf x => match assoc x (m_params m) with Some (TRef t) => Some t | r => r end
  | Var x => assoc x (m_params m)
  end.

(** The method initialises exactly the fields of its variant, with their types. *)
Definition well_typed (rs : list (string * list (string * Ty))) (m : Method) : bool :=
  match assoc (m_variant m) rs with
  | Some fields =>
      (length (m_fields m) =? length fields)%nat && bool_decide (NoDup (m_fields m).*1) &&
      forallb (λ '(f, e), match assoc f fields, expr_type m e with
                          | Some t, Some t' => bool_decide (t = t')
                          | _, _ => false
                          end) (m_fields m)
  | None => false
  end.
Definition expands_typed (rs : list (string * list (string * Ty))) (m : option Method) : bool :=
  match m with Some m => well_typed rs m | None => false end.
Definition handle_typed (h : Handle) : bool :=
  forallb (λ s, expands_typed (requests h) (generate_handler_method s)) (methods h) &&
  forallb (λ s, expands_typed (requests h) (generate_handler_method_blocking s)) (methods_blocking h).

(** Every method of every handle expands, and builds a well-typed request. *)
Lemma program_methods_typed : Forall (λ h, handle_typed h = true) handles.
Proof. repeat constructor. Qed.

(** The declaration in protocols/hyper.rs, which is not compiled, could not be:
    it copies out of parameters that are no references. *)
Lemma untyped_field rs m f e : (f, e) ∈ m_fields m → expr_type m e = None → well_typed rs m = false.
Proof.
  intros Hin He. unfold well_typed. destruct (assoc (m_variant m) rs) as [fields|]; [|done].
  apply andb_false_iff. right. apply not_true_iff_false. rewrite forallb_forall. intros H.
  apply list_elem_of_In in Hin. specialize (H _ Hin). cbn in H. rewrite He in H. by destruct (assoc f fields).
Qed.
Lemma hyper_methods_untyped rs :
  forallb (λ s, expands_typed rs (generate_handler_method s)) hyper_methods = false.
Proof.
  cbn [hyper_methods forallb]. destruct (generate_handler_method _) as [m|] eqn:E; [|done].
  injection E as <-. unfold expands_typed. rewrite (untyped_field _ _ "peer" (Deref "peer")); [done| |done].
  right. right. left.
Qed.

(** ** Witness: [AddServer], in both variants, and a blocking method that would move *)
Definition demo_params : list Param := [("peer_id", Copy, TRef (TPath "PeerId")); ("address", Owned, TPath "Option<Multiaddr>")].
Definition demo_spec : Spec :=
  {| metas := []; variant := "AddServer"; name := "add_server"; tokens := written demo_params; return_type := [TPath "bool"] |}.

Lemma handler_methods_expand_witness :
  (∃ m, generate_handler_method demo_spec = Some m ∧ expansion true demo_spec demo_params (Some (TPath "bool")) m) ∧
  generate_handler_method_blocking demo_spec = None.
Proof.
  destruct (handler_methods_expand demo_spec demo_params false (Some (TPath "bool")) eq_refl eq_refl) as [H1 H2].
  split; [exact H1|exact H2].
Defined.
End Macros.
