(* ===== verification/Features.v ===== *)
(** * Features of the build ([owlnest-proc/src/lib.rs] and the [cfg] attributes)

    Module [Features]: the attribute macros that assemble the program's structs
    from the protocols that are switched on ([with_field],
    [generate_behaviour_select], [generate_manager]), and the tables the sources
    write next to them: the fields of the composed behaviour and of the manager,
    the literal that builds the behaviours, the configuration, the arms of the
    dispatch, the modules, the commands.  Whatever features are chosen, the
    tables have to agree. *)

From stdpp Require Import base gmap sets list strings.
From Stdlib Require Import Lia.
From S2P Require Import Prelude.

Module Features.

(** ** The attribute macros *)
Record Field := { f_ident : string; f_ty : string }.
Inductive FieldTok := TokField (f : Field) | TokComma.

(** [with_field(attr)]: what is written between the braces of the struct. *)
Definition with_field (fields_to_append struct_fields : list Field) : list FieldTok :=
  mbind (λ f, [TokField f; TokComma]) struct_fields ++ (TokField <$> fields_to_append) ++ [TokComma].

(** How the compiler reads it: fields with commas between them, perhaps one
    behind the last. *)
Fixpoint parse_fields (ts : list FieldTok) : option (list Field) :=
  match ts with
  | [] => Some []
  | [TokField f] => Some [f]
  | TokField f :: TokComma :: ts => cons f <$> parse_fields ts
  | _ => None
  end.

(** [#[cfg_attr(any(feature = .., feature = ..), with_field({..}))]], in front of
    the struct; the macro that uses the struct comes last. *)
Record Attr := { a_features : list string; a_fields : list Field }.

Definition enabled (fs : gset string) (features : list string) : bool :=
  existsb (λ f, bool_decide (f ∈ fs)) features.

(** The outermost attribute is expanded first. *)
Fixpoint expand_attrs (fs : gset string) (attrs : list Attr) (fields : list Field) : option (list Field) :=
  match attrs with
  | [] => Some fields
  | a :: attrs =>
      if enabled fs (a_features a)
      then match parse_fields (with_field (a_fields a) fields) with
           | Some fields => expand_attrs fs attrs fields
           | None => None
           end
      else expand_attrs fs attrs fields
  end.

(** [generate_behaviour_select]: the lines of [behaviour_select!], a field and
    the variant its type names. *)
Definition generate_behaviour_select (fields : list Field) : list (string * string) :=
  (λ f, (f_ident f, f_ty f)) <$> fields.

(** [generate_manager]: the channels and handles, the variants of [Rx] with the
    requests they carry, the order of the polls, what the handles are made from,
    the accessors. *)
Record Manager := {
  rx_bundle : list (string * string);
  rx : list (string * string);
  polls : list (string * string);
  handle_bundle : list (string * string);
  handle_configs : list (string * string);
  accessors : list (string * string);
}.
Definition generate_manager (fields : list Field) : Manager := {|
  rx_bundle := ("swarm", "swarm::InEvent") :: ((λ f, (f_ident f, f_ident f +:+ "::InEvent")) <$> fields);
  rx := ((λ f, (f_ty f, f_ident f +:+ "::InEvent")) <$> fields) ++ [("Swarm", "swarm::InEvent")];
  polls := ("swarm", "Swarm") :: ((λ f, (f_ident f, f_ty f)) <$> fields);
  handle_bundle := ("swarm", "SwarmHandle") :: ((λ f, (f_ident f, f_ident f +:+ "::Handle")) <$> fields);
  handle_configs := (λ f, (f_ident f, f_ident f)) <$> fields;
  accessors := ("swarm", "SwarmHandle") :: ((λ f, (f_ident f, f_ident f +:+ "::Handle")) <$> fields);
|}.

(** ** What [with_field] can append *)
Lemma parse_fields_app fs ts : parse_fields (mbind (λ f, [TokField f; TokComma]) fs ++ ts) = app fs <$> parse_fields ts.
Proof.
  induction fs as [|f fs IH]; [cbn; by destruct (parse_fields ts)|]. cbn.
  rewrite IH. by destruct (parse_fields ts).
Qed.

(** [with_field] appends one field and nothing else: with any other number
    of fields, the struct it writes is no Rust. *)
Theorem with_field_appends_one fields_to_append struct_fields :
  parse_fields (with_field fields_to_append struct_fields) =
    match fields_to_append with [f] => Some (struct_fields ++ [f]) | _ => None end.
Proof. unfold with_field. rewrite parse_fields_app. by destruct fields_to_append as [|f [|g fs]]. Qed.

Definition chosen {A} (fs : gset string) (table : list (list string * A)) : list A :=
  omap (λ '(features, a), if enabled fs features then Some a else None) table.

Lemma expand_attrs_fields fs (table : list (list string * Field)) fields :
  expand_attrs fs ((λ '(features, f), {| a_features := features; a_fields := [f] |}) <$> table) fields =
    Some (fields ++ chosen fs table).
Proof.
  revert fields. induction table as [|[features f] table IH]; intros fields; [by rewrite app_nil_r|].
  cbn [fmap list_fmap expand_attrs a_features a_fields]. unfold chosen. cbn [omap list_omap].
  destruct (enabled fs features); [|apply IH].
  unfold with_field. rewrite parse_fields_app. cbn [parse_fields fmap list_fmap option_fmap option_map app].
  rewrite IH. by rewrite <-app_assoc.
Qed.

Lemma chosen_fmap {A B} (f : A → B) fs table : f <$> chosen fs table = chosen fs (prod_map id f <$> table).
Proof.
  unfold chosen. induction table as [|[features a] table IH]; [done|].
  cbn [omap list_omap fmap list_fmap prod_map id fst snd]. destruct (enabled fs features); [|done]. cbn [fmap list_fmap]. by f_equal.
Qed.

Lemma chosen_perm {A} fs (t1 t2 : list (list string * A)) : t1 ≡ₚ t2 → chosen fs t1 ≡ₚ chosen fs t2.
Proof. unfold chosen. by intros ->. Qed.

Lemma chosen_subseteq {A} fs (t1 t2 : list (list string * A)) : t1 ⊆ t2 → chosen fs t1 ⊆ chosen fs t2.
Proof.
  intros Hsub a. unfold chosen. rewrite !list_elem_of_omap. intros ([features b] & Hin & E).
  exists (features, b). split; [by apply Hsub|done].
Qed.

(** ** The tables of the program *)
#[export] Instance Field_eq_dec : EqDecision Field.
Proof. solve_decision. Defined.

Definition owlnest (feature : string) : list string := ["owlnest-protocols"; feature].
Definition libp2p (feature : string) : list string := ["libp2p-protocols"; feature].
Definition Table (A : Type) : Type := list (list string * A).
Definition attrs (t : Table Field) : list Attr := (λ '(features, f), {| a_features := features; a_fields := [f] |}) <$> t.

(** swarm/behaviour.rs, swarm/manager.rs: the fields, in the order of the attributes. *)
Definition behaviour_fields : Table Field := [
  (owlnest "owlnest-messaging", {| f_ident := "messaging"; f_ty := "Messaging" |});
  (owlnest "owlnest-advertise", {| f_ident := "advertise"; f_ty := "Advertise" |});
  (owlnest "owlnest-blob", {| f_ident := "blob"; f_ty := "Blob" |});
  (libp2p "libp2p-mdns", {| f_ident := "mdns"; f_ty := "Mdns" |});
  (libp2p "libp2p-autonat", {| f_ident := "autonat"; f_ty := "AutoNat" |});
  (libp2p "libp2p-identify", {| f_ident := "identify"; f_ty := "Identify" |});
  (libp2p "libp2p-dcutr", {| f_ident := "dcutr"; f_ty := "Dcutr" |});
  (libp2p "libp2p-upnp", {| f_ident := "upnp"; f_ty := "Upnp" |});
  (libp2p "libp2p-ping", {| f_ident := "ping"; f_ty := "Ping" |});
  (libp2p "libp2p-relay-server", {| f_ident := "relay_server"; f_ty := "RelayServer" |});
  (libp2p "libp2p-kad", {| f_ident := "kad"; f_ty := "Kad" |});
  (libp2p "libp2p-relay-client", {| f_ident := "relay_client"; f_ty := "RelayClient" |});
  (libp2p "libp2p-gossipsub", {| f_ident := "gossipsub"; f_ty := "Gossipsub" |})].
Definition manager_fields : Table Field := [
  (owlnest "owlnest-messaging", {| f_ident := "messaging"; f_ty := "Messaging" |});
  (owlnest "owlnest-advertise", {| f_ident := "advertise"; f_ty := "Advertise" |});
  (owlnest "owlnest-blob", {| f_ident := "blob"; f_ty := "Blob" |});
  (libp2p "libp2p-kad", {| f_ident := "kad"; f_ty := "Kad" |});
  (libp2p "libp2p-autonat", {| f_ident := "autonat"; f_ty := "AutoNat" |});
  (libp2p "libp2p-mdns", {| f_ident := "mdns"; f_ty := "Mdns" |});
  (libp2p "libp2p-gossipsub", {| f_ident := "gossipsub"; f_ty := "Gossipsub" |})].

(** swarm/mod.rs: the fields the literal in [Builder::build] gives, and the fields
    of the configuration it reads for them. *)
Definition built_behaviours : Table string := [
  (owlnest "owlnest-blob", "blob"); (owlnest "owlnest-advertise", "advertise");
  (owlnest "owlnest-messaging", "messaging"); (libp2p "libp2p-kad", "kad"); (libp2p "libp2p-mdns", "mdns");
  (libp2p "libp2p-identify", "identify"); (libp2p "libp2p-relay-server", "relay_server");
  (libp2p "libp2p-relay-client", "relay_client"); (libp2p "libp2p-dcutr", "dcutr");
  (libp2p "libp2p-autonat", "autonat"); (libp2p "libp2p-upnp", "upnp"); (libp2p "libp2p-ping", "ping");
  (libp2p "libp2p-gossipsub", "gossipsub")].
Definition read_configs : Table string := [
  (owlnest "owlnest-blob", "blob"); (owlnest "owlnest-advertise", "advertise");
  (owlnest "owlnest-messaging", "messaging"); (libp2p "libp2p-kad", "kad"); (libp2p "libp2p-mdns", "mdns");
  (libp2p "libp2p-identify", "identify"); (libp2p "libp2p-relay-server", "relay_server")].

(** net/p2p/mod.rs: [SwarmConfig] (the field [swarm] is always there), and the
    literal in [setup_default]. *)
Definition config_fields : Table string := [
  (libp2p "libp2p-autonat", "autonat"); (libp2p "libp2p-kad", "kad"); (libp2p "libp2p-identify", "identify");
  (libp2p "libp2p-mdns", "mdns"); (owlnest "owlnest-messaging", "messaging"); (owlnest "owlnest-blob", "blob");
  (owlnest "owlnest-advertise", "advertise"); (libp2p "libp2p-relay-server", "relay_server");
  (libp2p "libp2p-gossipsub", "gossipsub")].
Definition default_configs : Table string := [
  (libp2p "libp2p-autonat", "autonat"); (libp2p "libp2p-kad", "kad"); (libp2p "libp2p-identify", "identify");
  (libp2p "libp2p-mdns", "mdns"); (owlnest "owlnest-messaging", "messaging"); (owlnest "owlnest-blob", "blob");
  (owlnest "owlnest-advertise", "advertise"); (libp2p "libp2p-relay-server", "relay_server");
  (libp2p "libp2p-gossipsub", "gossipsub")].

(** swarm/event_handlers.rs: the arms of [handle_incoming_event] with the field of
    the behaviour each uses (and [Swarm], always), those of
    [handle_behaviour_event]. *)
Definition incoming_arms : Table (string * string) := [
  (owlnest "owlnest-advertise", ("Advertise", "advertise")); (owlnest "owlnest-blob", ("Blob", "blob"));
  (owlnest "owlnest-messaging", ("Messaging", "messaging")); (libp2p "libp2p-kad", ("Kad", "kad"));
  (libp2p "libp2p-mdns", ("Mdns", "mdns")); (libp2p "libp2p-autonat", ("AutoNat", "autonat"));
  (libp2p "libp2p-gossipsub", ("Gossipsub", "gossipsub"))].
Definition event_arms : Table string := [
  (libp2p "libp2p-kad", "Kad"); (libp2p "libp2p-identify", "Identify"); (libp2p "libp2p-mdns", "Mdns");
  (libp2p "libp2p-relay-server", "RelayServer"); (libp2p "libp2p-dcutr", "Dcutr");
  (libp2p "libp2p-autonat", "AutoNat"); (libp2p "libp2p-upnp", "Upnp"); (libp2p "libp2p-ping", "Ping")].

(** protocols/mod.rs: the modules. *)
Definition modules : Table string := [
  (libp2p "libp2p-identify", "identify"); (libp2p "libp2p-kad", "kad"); (libp2p "libp2p-mdns", "mdns");
  (owlnest "owlnest-messaging", "messaging"); (libp2p "libp2p-relay-client", "relay_client");
  (libp2p "libp2p-relay-server", "relay_server"); (owlnest "owlnest-advertise", "advertise");
  (libp2p "libp2p-dcutr", "dcutr"); (libp2p "libp2p-autonat", "autonat"); (owlnest "owlnest-blob", "blob");
  (libp2p "libp2p-upnp", "upnp"); (libp2p "libp2p-ping", "ping"); (libp2p "libp2p-gossipsub", "gossipsub")].

(** cli/mod.rs: the variants of [Command], the arms of [handle_command], and the
    accessor of the manager an arm calls ([RelayClient] takes the manager). *)
Definition command_variants : Table string := [
  (owlnest "owlnest-advertise", "Advertise"); (owlnest "owlnest-blob", "Blob");
  (owlnest "owlnest-messaging", "Messaging"); (libp2p "libp2p-autonat", "AutoNat");
  (libp2p "libp2p-gossipsub", "Gossipsub"); (libp2p "libp2p-kad", "Kad"); (libp2p "libp2p-mdns", "Mdns");
  (libp2p "libp2p-relay-client", "RelayClient")].
Definition command_arms : Table (string * option string) := [
  (owlnest "owlnest-advertise", ("Advertise", Some "advertise")); (owlnest "owlnest-blob", ("Blob", Some "blob"));
  (owlnest "owlnest-messaging", ("Messaging", Some "messaging")); (libp2p "libp2p-autonat", ("AutoNat", Some "autonat"));
  (libp2p "libp2p-kad", ("Kad", Some "kad")); (libp2p "libp2p-mdns", ("Mdns", Some "mdns"));
  (libp2p "libp2p-relay-client", ("RelayClient", None)); (libp2p "libp2p-gossipsub", ("Gossipsub", Some "gossipsub"))].

(** ** They agree *)
Definition included {A} `{EqDecision A} (t1 t2 : Table A) : bool := forallb (λ x, bool_decide (x ∈ t2)) t1.
Definition same {A} `{EqDecision A} (t1 t2 : Table A) : bool :=
  bool_decide (NoDup t1) && bool_decide (NoDup t2) && included t1 t2 && included t2 t1.

Lemma included_chosen {A} `{EqDecision A} fs (t1 t2 : Table A) : included t1 t2 = true → chosen fs t1 ⊆ chosen fs t2.
Proof.
  intros H. apply chosen_subseteq. intros x Hx. unfold included in H. rewrite forallb_forall in H.
  eapply bool_decide_eq_true_1, H. by apply list_elem_of_In.
Qed.
Lemma same_chosen {A} `{EqDecision A} fs (t1 t2 : Table A) : same t1 t2 = true → chosen fs t1 ≡ₚ chosen fs t2.
Proof.
  unfold same, included. rewrite !andb_true_iff, !forallb_forall, !bool_decide_eq_true.
  intros [[[Hn1 Hn2] H12] H21]. apply chosen_perm, NoDup_Permutation; [done..|]. intros x. split; intros Hx.
  - eapply bool_decide_eq_true_1, H12. by apply list_elem_of_In.
  - eapply bool_decide_eq_true_1, H21. by apply list_elem_of_In.
Qed.

(** What the compiler asks of a choice of features, given the fields of the
    behaviour and of the manager: the literals give exactly the fields, the
    matches without a wildcard cover exactly the variants, and whatever an arm, a
    literal or a command uses exists. *)
Record agree (fs : gset string) (bs ms : list Field) : Prop := {
  literal_complete : f_ident <$> bs ≡ₚ chosen fs built_behaviours;
  literal_configs : chosen fs read_configs ⊆ chosen fs config_fields;
  default_complete : chosen fs config_fields ≡ₚ chosen fs default_configs;
  requests_dispatched : (rx (generate_manager ms)).*1 ≡ₚ (chosen fs incoming_arms).*1 ++ ["Swarm"];
  requests_delivered : (chosen fs incoming_arms).*2 ⊆ f_ident <$> bs;
  handles_configured : (handle_configs (generate_manager ms)).*2 ⊆ chosen fs config_fields;
  events_exist : chosen fs event_arms ⊆ (generate_behaviour_select bs).*2;
  modules_exist : f_ident <$> bs ⊆ chosen fs modules;
  commands_run : (chosen fs command_arms).*1 ≡ₚ chosen fs command_variants;
  commands_call : omap id (chosen fs command_arms).*2 ⊆ (accessors (generate_manager ms)).*1;
}.

Lemma chosen_omap {A B} (f : A → option B) fs (t : Table A) :
  omap f (chosen fs t) = chosen fs (omap (λ '(features, a), pair features <$> f a) t).
Proof.
  unfold chosen. induction t as [|[features a] t IH]; [done|]. cbn [omap list_omap].
  destruct (enabled fs features) eqn:E, (f a) eqn:Ef; cbn [omap list_omap fmap option_fmap option_map];
    rewrite ?E, ?Ef; cbn [omap list_omap]; by rewrite ?IH.
Qed.

(** C19: the choice of features cannot break the program.  For every set of
    features, [with_field] assembles the behaviour and the manager from the
    protocols that are on, and everything written next to them agrees: the
    literal of the builder gives every behaviour, the configuration has what the
    handles and behaviours are made from, every kind of request has its arm and
    the arm its behaviour, every command has its arm and the arm its handle. *)
Theorem features_agree fs :
  ∃ bs ms, expand_attrs fs (attrs behaviour_fields) [] = Some bs ∧ expand_attrs fs (attrs manager_fields) [] = Some ms ∧
    agree fs bs ms.
Proof.
  exists (chosen fs behaviour_fields), (chosen fs manager_fields).
  split; [apply (expand_attrs_fields fs behaviour_fields [])|]. split; [apply (expand_attrs_fields fs manager_fields [])|].
  split; cbn [generate_manager rx handle_configs accessors]; unfold generate_behaviour_select;
    rewrite ?fmap_app, <-?list_fmap_compose, ?chosen_fmap, ?chosen_omap.
  - by apply same_chosen.
  - by apply included_chosen.
  - by apply same_chosen.
  - apply Permutation_app_tail. by apply same_chosen.
  - by apply included_chosen.
  - by apply included_chosen.
  - by apply included_chosen.
  - by apply included_chosen.
  - by apply same_chosen.
  - rewrite fmap_cons, chosen_fmap. intros x Hx. right. revert x Hx. by apply included_chosen.
Qed.
End Features.
