(* ===== verification/Requests.v ===== *)
(** * Requests on their way to the swarm ([owlnest-proc/src/lib.rs], [swarm/manager.rs], [swarm/handle.rs])

    Module [Requests]: the receiving ends of the request channels ([RxBundle],
    generated from the list of protocols) and how the swarm task takes requests
    from them; module [SwarmHandle]: the calls of the handle of the swarm
    itself. *)

From stdpp Require Import base gmap sets list strings.
From Stdlib Require Import Lia NArith.
From S2P Require Import Prelude Std Core Calls SwarmEvents.
Import Calls.

Module Requests.
Section bundle.
Context {Rx : Type}.

(** One queue per field, in the order of the fields, [swarm] first; a request
    carries the variant of its field ([Rx]), here its number.  A channel holds
    at most [buffer] requests: the caller waits when it is full. *)
Definition RxBundle : Type := list (list Rx).
Definition RxBundle_new (fields : nat) : RxBundle := replicate fields [].

(** [Stream::poll_next] (and [Future::poll]): the first channel that has a
    request.  The channels are never closed: the task owns a manager. *)
Fixpoint poll_next (self : RxBundle) : option (Rx * RxBundle) :=
  match self with
  | [] => None
  | (message :: queue) :: self => Some (message, queue :: self)
  | [] :: self =>
      match poll_next self with
      | Some (message, self) => Some (message, [] :: self)
      | None => None
      end
  end.

Context (field : Rx → nat) (buffer : nat).

Definition send (ev : Rx) (self : RxBundle) : option RxBundle :=
  match self !! field ev with
  | Some queue => if decide (length queue < buffer) then Some (<[field ev := queue ++ [ev]]> self) else None
  | None => None
  end.

(** ** The bundle among the callers and the task *)
Inductive Op := Send (ev : Rx) | Take.

Record Trace := { bundle : RxBundle; sent : list Rx; taken : list Rx }.
Definition step (op : Op) (t : Trace) : option Trace :=
  match op with
  | Send ev =>
      match send ev (bundle t) with
      | Some b => Some {| bundle := b; sent := sent t ++ [ev]; taken := taken t |}
      | None => None
      end
  | Take =>
      match poll_next (bundle t) with
      | Some (ev, b) => Some {| bundle := b; sent := sent t; taken := taken t ++ [ev] |}
      | None => Some t
      end
  end.
Fixpoint run (ops : list Op) (t : Trace) : option Trace :=
  match ops with
  | [] => Some t
  | op :: ops => match step op t with Some t => run ops t | None => None end
  end.
Definition start (fields : nat) : Trace := {| bundle := RxBundle_new fields; sent := []; taken := [] |}.

Definition of_field (c : nat) (l : list Rx) : list Rx := filter (λ ev, field ev = c) l.

(** The requests of a channel: those taken, then those waiting. *)
Definition in_order (t : Trace) : Prop :=
  ∀ c q, bundle t !! c = Some q → of_field c (sent t) = of_field c (taken t) ++ q ∧ length q ≤ buffer.
Definition typed (t : Trace) : Prop :=
  ∀ c q, bundle t !! c = Some q → Forall (λ ev, field ev = c) q.

Lemma poll_next_spec b ev b' : poll_next b = Some (ev, b') →
  ∃ c q, b !! c = Some (ev :: q) ∧ b' = <[c := q]> b ∧ (∀ c', c' < c → b !! c' = Some []).
Proof.
  revert b'. induction b as [|[|x q] b IH]; intros b'; simpl; [done| |].
  - destruct (poll_next b) as [[y b1]|]; [|done]. intros [= -> <-].
    destruct (IH _ eq_refl) as (c & q & Hc & -> & Hlt). exists (S c), q. split_and!; try done.
    intros [|c'] Hc'; [done|]. apply Hlt. lia.
  - intros [= -> <-]. exists 0, q. split_and!; try done. lia.
Qed.

Lemma poll_next_none b : poll_next b = None → Forall (λ q, q = []) b.
Proof.
  induction b as [|[|x q] b IH]; simpl; [by constructor| |done].
  destruct (poll_next b) as [[y b1]|]; [done|]. constructor; [done|by apply IH].
Qed.

Lemma of_field_snoc c l ev : of_field c (l ++ [ev]) = of_field c l ++ (if decide (field ev = c) then [ev] else []).
Proof. unfold of_field. rewrite filter_app, filter_cons. by destruct decide. Qed.

Lemma step_taken op t t' : in_order t → typed t → step op t = Some t' →
  in_order t' ∧ typed t' ∧ length (bundle t') = length (bundle t).
Proof.
  intros Ho Ht H. destruct op as [ev|]; simpl in H.
  - unfold send in H. destruct (bundle t !! field ev) as [q|] eqn:Eq; [|done].
    destruct decide as [Hlt|]; [|done]. injection H as <-. destruct (Ho _ _ Eq) as [Ho1 _]. split_and!.
    + intros c q' Hc. simpl in *. rewrite of_field_snoc.
      apply list_lookup_insert_Some in Hc as [(<- & <- & _)|[Hne Hc]].
      * rewrite decide_True, Ho1, app_assoc, length_app by done. simpl. split; [done|lia].
      * rewrite decide_False, app_nil_r by done. by apply Ho.
    + intros c q' Hc. simpl in *. apply list_lookup_insert_Some in Hc as [(<- & <- & _)|[Hne Hc]].
      * apply Forall_app. split; [by apply Ht|by repeat constructor].
      * by apply Ht.
    + apply length_insert.
  - destruct (poll_next (bundle t)) as [[ev b]|] eqn:Ep; injection H as <-; [|done].
    destruct (poll_next_spec _ _ _ Ep) as (k & q & Hk & -> & _).
    pose proof (Ht _ _ Hk) as Hty. apply Forall_cons in Hty as [Hf Hty]. destruct (Ho _ _ Hk) as [Ho1 Hl].
    split_and!.
    + intros c q' Hc. simpl in *. rewrite of_field_snoc, Hf.
      apply list_lookup_insert_Some in Hc as [(<- & <- & _)|[Hne Hc]].
      * rewrite decide_True, Ho1, <-app_assoc by done. split; [done|simpl in Hl; lia].
      * rewrite decide_False, app_nil_r by done. by apply Ho.
    + intros c q' Hc. simpl in *. apply list_lookup_insert_Some in Hc as [(<- & <- & _)|[Hne Hc]]; [done|by apply Ht].
    + apply length_insert.
Qed.

Lemma run_taken ops : ∀ t t', in_order t → typed t → run ops t = Some t' →
  in_order t' ∧ typed t' ∧ length (bundle t') = length (bundle t).
Proof.
  induction ops as [|op ops IH]; intros t t' Ho Ht H; simpl in H; [by injection H as <-|].
  destruct (step op t) as [t1|] eqn:E; [|done]. destruct (step_taken _ _ _ Ho Ht E) as (Ho1 & Ht1 & <-).
  by apply IH.
Qed.

Lemma start_ok fields : in_order (start fields) ∧ typed (start fields).
Proof.
  split; intros c q Hc; simpl in Hc; apply lookup_replicate in Hc as [-> _]; [|done].
  split; [done|simpl; lia].
Qed.

(** C18: requests reach the swarm task in order, none twice and none lost.
    However callers and the task interleave, the requests sent to one protocol
    are those the task has taken, in order, followed by those that wait, of
    which there are at most as many as the channel holds; and the next one
    taken is the oldest of the first channel, in the order of the fields, that
    has one: a later channel is served only when all earlier ones are empty. *)
Theorem requests_are_taken_in_order fields ops t :
  run ops (start fields) = Some t →
  (∀ c, c < fields → ∃ q, bundle t !! c = Some q ∧ of_field c (sent t) = of_field c (taken t) ++ q ∧
     length q ≤ buffer) ∧
  match poll_next (bundle t) with
  | None => ∀ c, c < fields → of_field c (sent t) = of_field c (taken t)
  | Some (ev, b) =>
      ∃ q, bundle t !! field ev = Some (ev :: q) ∧ b = <[field ev := q]> (bundle t) ∧
        ∀ c, c < field ev → of_field c (sent t) = of_field c (taken t)
  end.
Proof.
  intros H. destruct (start_ok fields) as [Ho Ht]. destruct (run_taken _ _ _ Ho Ht H) as (Ho1 & Ht1 & Hlen).
  simpl in Hlen. unfold RxBundle_new in Hlen. rewrite length_replicate in Hlen. split.
  - intros c Hc. destruct (lookup_lt_is_Some_2 (bundle t) c) as [q Hq]; [lia|]. exists q. split; [done|]. by apply Ho1.
  - destruct (poll_next (bundle t)) as [[ev b]|] eqn:Ep.
    + destruct (poll_next_spec _ _ _ Ep) as (c & q & Hq & -> & Hlt).
      pose proof (Ht1 _ _ Hq) as Hf. apply Forall_cons in Hf as [<- _]. exists q. split_and!; try done.
      intros c' Hc'. destruct (Ho1 _ _ (Hlt _ Hc')) as [-> _]. apply app_nil_r.
    + intros c Hc. destruct (lookup_lt_is_Some_2 (bundle t) c) as [q Hq]; [lia|].
      pose proof (poll_next_none _ Ep) as Hall. rewrite Forall_lookup in Hall. pose proof (Hall _ _ Hq) as ->.
      destruct (Ho1 _ _ Hq) as [-> _]. apply app_nil_r.
Qed.
End bundle.

(** ** Witness: two channels, requests are numbers, the even ones first *)
Section witnesses.
Definition demo_field (n : N) : nat := if N.even n then 0 else 1.
Definition demo_ops : list (@Op N) := [Send 1%N; Send 4%N; Send 3%N; Take; Send 6%N].
Definition demo_trace : Trace := {| bundle := [[6%N]; [1%N; 3%N]]; sent := [1%N; 4%N; 3%N; 6%N]; taken := [4%N] |}.

Lemma requests_are_taken_in_order_witness :
  run demo_field 2 demo_ops (start 2) = Some demo_trace ∧
  (∀ c, c < 2 → ∃ q, bundle demo_trace !! c = Some q ∧
     of_field demo_field c (sent demo_trace) = of_field demo_field c (taken demo_trace) ++ q ∧ length q ≤ 2) ∧
  ∃ q, bundle demo_trace !! 0 = Some (6%N :: q) ∧ [[]; [1%N; 3%N]] = <[0 := q]> (bundle demo_trace) ∧
    ∀ c, c < 0 → of_field demo_field c (sent demo_trace) = of_field demo_field c (taken demo_trace).
Proof.
  split; [reflexivity|]. exact (requests_are_taken_in_order demo_field 2 2 demo_ops demo_trace eq_refl).
Defined.
End witnesses.
End Requests.

(** ** handle.rs: the calls of the swarm's own handle *)
Module SwarmHandle.
Section handle.
Context {P : Platform} {T : SwarmEvents.EventTypes} {S : Type} {swarm : SwarmEvents.Libp2pSwarm S}.
Import SwarmEvents.

Definition serve (ev : InEvent) (s : S) : outcome (S * list (Sent Answer)) := Return (swarm_op_exec ev s).
Definition get_dial (a : Answer) := match a with AnsDial r => Some r | _ => None end.
Definition get_listen (a : Answer) := match a with AnsListen r => Some r | _ => None end.
Definition get_addrs (a : Answer) := match a with AnsAddrs l => Some l | _ => None end.
Definition get_bool (a : Answer) := match a with AnsBool b => Some b | _ => None end.
Definition get_unit (a : Answer) := match a with AnsUnit => Some tt | _ => None end.
Definition get_peers (a : Answer) := match a with AnsPeers l => Some l | _ => None end.
Definition get_disconnect (a : Answer) := match a with AnsDisconnect r => Some r | _ => None end.

(** The blocking methods differ only in how they wait. *)
Definition dial (alive : bool) (address : Multiaddr) (tx : Callback) (s : S) :=
  handler_method serve (Dial address) get_dial alive tx s.
Definition listen (alive : bool) (address : Multiaddr) (tx : Callback) (s : S) :=
  handler_method serve (Listen address) get_listen alive tx s.
Definition list_listeners (alive : bool) (tx : Callback) (s : S) :=
  handler_method serve ListListeners get_addrs alive tx s.
Definition remove_listener (alive : bool) (listener_id : ListenerId) (tx : Callback) (s : S) :=
  handler_method serve (RemoveListeners listener_id) get_bool alive tx s.
Definition add_external_address (alive : bool) (address : Multiaddr) (tx : Callback) (s : S) :=
  handler_method serve (AddExternalAddress address) get_unit alive tx s.
Definition list_external_addresses (alive : bool) (tx : Callback) (s : S) :=
  handler_method serve ListExternalAddresses get_addrs alive tx s.
Definition remove_external_address (alive : bool) (address : Multiaddr) (tx : Callback) (s : S) :=
  handler_method serve (RemoveExternalAddress address) get_unit alive tx s.
Definition list_connected (alive : bool) (tx : Callback) (s : S) :=
  handler_method serve ListConnected get_peers alive tx s.
Definition is_connected (alive : bool) (peer_id : PeerId) (tx : Callback) (s : S) :=
  handler_method serve (IsConnectedToPeerId peer_id) get_bool alive tx s.
Definition disconnect_peer_id (alive : bool) (peer_id : PeerId) (tx : Callback) (s : S) :=
  handler_method serve (DisconnectFromPeerId peer_id) get_disconnect alive tx s.

(** What a call returns: libp2p's own answer, at once. *)
Definition returns {A} (call : Callback → S → outcome (Poll A * S)) (op : S → A * S) : Prop :=
  ∀ tx s, call tx s = Return (Ready (op s).1, (op s).2).

Lemma calls_return :
  (∀ address, returns (dial true address) (SwarmEvents.dial address)) ∧
  (∀ address, returns (listen true address) (SwarmEvents.listen_on address)) ∧
  returns (list_listeners true) (λ s, (listeners s, s)) ∧
  (∀ listener_id, returns (remove_listener true listener_id) (SwarmEvents.remove_listener listener_id)) ∧
  (∀ address, returns (add_external_address true address) (λ s, (tt, SwarmEvents.add_external_address address s))) ∧
  returns (list_external_addresses true) (λ s, (external_addresses s, s)) ∧
  (∀ address, returns (remove_external_address true address)
     (λ s, (tt, SwarmEvents.remove_external_address address s))) ∧
  returns (list_connected true) (λ s, (connected_peers s, s)) ∧
  (∀ peer_id, returns (is_connected true peer_id) (λ s, (SwarmEvents.is_connected peer_id s, s))) ∧
  (∀ peer_id, returns (disconnect_peer_id true peer_id) (SwarmEvents.disconnect_peer_id peer_id)).
Proof.
  split_and!; unfold returns; intros; (unfold dial, listen, list_listeners, remove_listener, add_external_address,
    list_external_addresses, remove_external_address, list_connected, is_connected, disconnect_peer_id,
    handler_method, serve; cbn);
    try destruct (SwarmEvents.dial _ _); try destruct (listen_on _ _);
    try destruct (SwarmEvents.remove_listener _ _); try destruct (SwarmEvents.disconnect_peer_id _ _);
    cbn; by rewrite decide_True.
Qed.
End handle.
End SwarmHandle.
