(* ===== verification/Node.v ===== *)
(** * The node: dispatch of requests and events, and its construction
      ([swarm/event_handlers.rs], [swarm/mod.rs], [net/p2p/mod.rs])

    Module [Node]: the behaviours of the node side by side, what a request and
    an event of the swarm do to them, and the configuration and how the behaviours
    are built from it. *)

From stdpp Require Import base gmap sets list strings fin_maps.
From Stdlib Require Import Lia NArith.
From S2P Require Import Prelude Std Core Calls BlobTypes BlobBehaviour Messaging Advertise.
From S2P Require Import GossipTopics Gossipsub Kad Adapters SwarmEvents SwarmLoop Requests.
Import Calls.

Module Node.
Section node.
Context {P : Platform} {T : SwarmEvents.EventTypes} {S : Type} {swarm_ops : SwarmEvents.Libp2pSwarm S}.
Context {TT : GossipTopics.TopicTypes} {G : Gossipsub.GossipBehaviour} {K : Kad.Libp2pKad}.
Context {M : Mdns.Libp2pMdns} {A : AutoNat.Libp2pAutonat}.

(** The swarm with the behaviours that take requests; the other behaviours of
    the node are never called by it. *)
Record Node := {
  swarm : S;
  messaging : Messaging.Behaviour;
  advertise : Advertise.Behaviour;
  blob : BlobBehaviour.Behaviour;
  kad : Kad.Behaviour;
  mdns : Mdns.Behaviour;
  autonat : AutoNat.Behaviour;
  gossipsub : Gossipsub.Behaviour;
}.
Definition set_swarm (v : S) (n : Node) : Node :=
  {| swarm := v; messaging := messaging n; advertise := advertise n; blob := blob n; kad := kad n;
     mdns := mdns n; autonat := autonat n; gossipsub := gossipsub n |}.
Definition set_messaging (v : Messaging.Behaviour) (n : Node) : Node :=
  {| swarm := swarm n; messaging := v; advertise := advertise n; blob := blob n; kad := kad n;
     mdns := mdns n; autonat := autonat n; gossipsub := gossipsub n |}.
Definition set_advertise (v : Advertise.Behaviour) (n : Node) : Node :=
  {| swarm := swarm n; messaging := messaging n; advertise := v; blob := blob n; kad := kad n;
     mdns := mdns n; autonat := autonat n; gossipsub := gossipsub n |}.
Definition set_blob (v : BlobBehaviour.Behaviour) (n : Node) : Node :=
  {| swarm := swarm n; messaging := messaging n; advertise := advertise n; blob := v; kad := kad n;
     mdns := mdns n; autonat := autonat n; gossipsub := gossipsub n |}.
Definition set_kad (v : Kad.Behaviour) (n : Node) : Node :=
  {| swarm := swarm n; messaging := messaging n; advertise := advertise n; blob := blob n; kad := v;
     mdns := mdns n; autonat := autonat n; gossipsub := gossipsub n |}.
Definition set_mdns (v : Mdns.Behaviour) (n : Node) : Node :=
  {| swarm := swarm n; messaging := messaging n; advertise := advertise n; blob := blob n; kad := kad n;
     mdns := v; autonat := autonat n; gossipsub := gossipsub n |}.
Definition set_autonat (v : AutoNat.Behaviour) (n : Node) : Node :=
  {| swarm := swarm n; messaging := messaging n; advertise := advertise n; blob := blob n; kad := kad n;
     mdns := mdns n; autonat := v; gossipsub := gossipsub n |}.
Definition set_gossipsub (v : Gossipsub.Behaviour) (n : Node) : Node :=
  {| swarm := swarm n; messaging := messaging n; advertise := advertise n; blob := blob n; kad := kad n;
     mdns := mdns n; autonat := autonat n; gossipsub := v |}.

(** ** Requests *)
Inductive Rx :=
| RSwarm (ev : SwarmEvents.InEvent)
| RMessaging (ev : Messaging.InEvent)
| RAdvertise (ev : Advertise.InEvent)
| RBlob (ev : BlobTypes.InEvent)
| RKad (ev : Kad.InEvent)
| RAutoNat (ev : AutoNat.InEvent)
| RMdns (ev : Mdns.InEvent)
| RGossipsub (ev : Gossipsub.InEvent).

(** The field of [RxBundle] a request comes from. *)
Definition rx_field (ev : Rx) : nat :=
  match ev with
  | RSwarm _ => 0 | RMessaging _ => 1 | RAdvertise _ => 2 | RBlob _ => 3
  | RKad _ => 4 | RAutoNat _ => 5 | RMdns _ => 6 | RGossipsub _ => 7
  end.

(** What goes over the callbacks of the node. *)
Inductive Answer :=
| ASwarm (a : SwarmEvents.Answer)
| AMessaging (a : Messaging.Answer)
| AAdvertise (a : Advertise.Answer)
| ABlob (a : BlobTypes.Answer)
| AKad (a : Kad.Answer)
| AAutoNat (a : AutoNat.Answer)
| AMdns (a : Mdns.Answer)
| AGossipsub (a : Gossipsub.Answer).
Definition wrap {B} (f : B → Answer) (l : list (Sent B)) : list (Sent Answer) :=
  (λ r, match r with Answered cb a => Answered cb (f a) | Dropped cb => Dropped cb end) <$> l.

(** [handle_incoming_event]. *)
Definition handle_incoming_event (now : N) (ev : Rx) (n : Node) : outcome (Node * list (Sent Answer)) :=
  match ev with
  | RSwarm ev =>
      let '(s, sent) := SwarmEvents.swarm_op_exec ev (swarm n) in Return (set_swarm s n, wrap ASwarm sent)
  | RAdvertise ev => Return (set_advertise (Advertise.push_event ev (advertise n)) n, [])
  | RBlob ev =>
      ' (b, sent) ← BlobBehaviour.push_event now ev (blob n); Return (set_blob b n, wrap ABlob sent)
  | RMessaging ev => Return (set_messaging (Messaging.push_event ev (messaging n)) n, [])
  | RKad ev => let '(b, sent) := Kad.map_in_event ev (kad n) in Return (set_kad b n, wrap AKad sent)
  | RMdns ev => let '(b, sent) := Mdns.map_in_event ev (mdns n) in Return (set_mdns b n, wrap AMdns sent)
  | RAutoNat ev =>
      let '(b, sent) := AutoNat.map_in_event (autonat n) ev in Return (set_autonat b n, wrap AAutoNat sent)
  | RGossipsub ev =>
      let '(b, sent) := Gossipsub.map_in_event (gossipsub n) ev in
      Return (set_gossipsub b n, wrap AGossipsub sent)
  end.

(** ** Events *)
Inductive BehaviourEvent :=
| BMessaging (ev : Messaging.OutEvent)
| BAdvertise (ev : Advertise.OutEvent)
| BBlob (ev : BlobTypes.OutEvent)
| BMdns (ev : Mdns.OutEvent)
| BKad (ev : Kad.OutEvent)
| BOther.

(** [handle_behaviour_event]: all arms but one only log. *)
Definition handle_behaviour_event (ev : BehaviourEvent) (n : Node) : Node :=
  match ev with
  | BMdns ev => set_kad (Mdns.ev_dispatch ev (kad n)) n
  | _ => n
  end.

(** [handle_swarm_event]; the message of the panic goes on with the event. *)
Definition handle_swarm_event (ev : SwarmEvents.libp2p.SwarmEvent BehaviourEvent) (n : Node) : outcome Node :=
  match ev with
  | SwarmEvents.libp2p.Behaviour event => Return (handle_behaviour_event event n)
  | SwarmEvents.libp2p.ConnectionEstablished peer_id _ endpoint _ _ _ =>
      Return (set_kad (Kad.kad_add peer_id endpoint (kad n)) n)
  | SwarmEvents.libp2p.ConnectionClosed peer_id _ endpoint _ _ =>
      Return (set_kad (Kad.kad_remove peer_id endpoint (kad n)) n)
  | SwarmEvents.libp2p.OtherSwarmEvent => Panic SwarmEvents.NOT_COVERED
  | _ => Return n
  end.

(** ** What a request is answered when it is taken *)

(** The callback of a request, and the answers of its type. *)
Definition callback_of (ev : Rx) : option Callback :=
  match ev with
  | RSwarm (SwarmEvents.Dial _ cb | SwarmEvents.Listen _ cb | SwarmEvents.ListListeners cb
           | SwarmEvents.RemoveListeners _ cb | SwarmEvents.AddExternalAddress _ cb
           | SwarmEvents.RemoveExternalAddress _ cb | SwarmEvents.ListExternalAddresses cb
           | SwarmEvents.ListConnected cb | SwarmEvents.IsConnectedToPeerId _ cb
           | SwarmEvents.DisconnectFromPeerId _ cb) => Some cb
  | RMessaging (Messaging.SendMessage _ _ cb | Messaging.ListConnected cb) => Some cb
  | RAdvertise (Advertise.SetProviderState _ cb | Advertise.GetProviderState cb
               | Advertise.SetRemoteAdvertisement _ _ cb | Advertise.ListAdvertised cb
               | Advertise.ListConnected cb) => Some cb
  | RAdvertise _ => None
  | RBlob (BlobTypes.SendFile _ _ _ cb | BlobTypes.AcceptFile _ _ _ cb | BlobTypes.ListConnected cb
          | BlobTypes.ListRecv cb | BlobTypes.ListSend cb | BlobTypes.CancelRecv _ cb
          | BlobTypes.CancelSend _ cb) => Some cb
  | RKad (Kad.PeerLookup _ cb | Kad.BootStrap cb | Kad.InsertNode _ _ cb) => Some cb
  | RKad (Kad.SetMode _) => None
  | RAutoNat (AutoNat.GetNatStatus cb) => Some cb
  | RAutoNat _ => None
  | RMdns (Mdns.ListDiscoveredNodes cb | Mdns.HasNode _ cb) => Some cb
  | RGossipsub (Gossipsub.ESubscribeTopic _ cb | Gossipsub.EUnsubscribeTopic _ cb
               | Gossipsub.PublishMessage _ _ cb | Gossipsub.MeshPeersOfTopic _ cb
               | Gossipsub.AllPeersWithTopic cb) => Some cb
  | RGossipsub _ => None
  end.

Definition has_type (ev : Rx) (a : Answer) : bool :=
  match ev, a with
  | RSwarm (SwarmEvents.Dial _ _), ASwarm (SwarmEvents.AnsDial _)
  | RSwarm (SwarmEvents.Listen _ _), ASwarm (SwarmEvents.AnsListen _)
  | RSwarm (SwarmEvents.ListListeners _ | SwarmEvents.ListExternalAddresses _), ASwarm (SwarmEvents.AnsAddrs _)
  | RSwarm (SwarmEvents.RemoveListeners _ _ | SwarmEvents.IsConnectedToPeerId _ _), ASwarm (SwarmEvents.AnsBool _)
  | RSwarm (SwarmEvents.AddExternalAddress _ _ | SwarmEvents.RemoveExternalAddress _ _), ASwarm SwarmEvents.AnsUnit
  | RSwarm (SwarmEvents.ListConnected _), ASwarm (SwarmEvents.AnsPeers _)
  | RSwarm (SwarmEvents.DisconnectFromPeerId _ _), ASwarm (SwarmEvents.AnsDisconnect _)
  | RMessaging (Messaging.SendMessage _ _ _), AMessaging (Messaging.AnsSend _)
  | RMessaging (Messaging.ListConnected _), AMessaging (Messaging.AnsListConnected _)
  | RAdvertise (Advertise.SetProviderState _ _ | Advertise.GetProviderState _), AAdvertise (Advertise.AnsState _)
  | RAdvertise (Advertise.SetRemoteAdvertisement _ _ _), AAdvertise Advertise.AnsUnit
  | RAdvertise (Advertise.ListAdvertised _ | Advertise.ListConnected _), AAdvertise (Advertise.AnsPeers _)
  | RBlob (BlobTypes.SendFile _ _ _ _), ABlob (BlobTypes.AnsSendFile _)
  | RBlob (BlobTypes.AcceptFile _ _ _ _), ABlob (BlobTypes.AnsAcceptFile _)
  | RBlob (BlobTypes.ListConnected _), ABlob (BlobTypes.AnsListConnected _)
  | RBlob (BlobTypes.ListRecv _), ABlob (BlobTypes.AnsListRecv _)
  | RBlob (BlobTypes.ListSend _), ABlob (BlobTypes.AnsListSend _)
  | RBlob (BlobTypes.CancelRecv _ _ | BlobTypes.CancelSend _ _), ABlob (BlobTypes.AnsCancel _)
  | RKad (Kad.PeerLookup _ _), AKad (Kad.AnsQueryId _)
  | RKad (Kad.BootStrap _), AKad (Kad.AnsBootstrap _)
  | RKad (Kad.InsertNode _ _ _), AKad (Kad.AnsInsert _)
  | RAutoNat (AutoNat.GetNatStatus _), AAutoNat (AutoNat.AnsNatStatus _)
  | RMdns (Mdns.ListDiscoveredNodes _), AMdns (Mdns.AnsNodes _)
  | RMdns (Mdns.HasNode _ _), AMdns (Mdns.AnsBool _)
  | RGossipsub (Gossipsub.ESubscribeTopic _ _), AGossipsub (Gossipsub.AnsSubscribe _)
  | RGossipsub (Gossipsub.EUnsubscribeTopic _ _), AGossipsub (Gossipsub.AnsUnsubscribe _)
  | RGossipsub (Gossipsub.PublishMessage _ _ _), AGossipsub (Gossipsub.AnsPublish _)
  | RGossipsub (Gossipsub.MeshPeersOfTopic _ _), AGossipsub (Gossipsub.AnsPeers _)
  | RGossipsub (Gossipsub.AllPeersWithTopic _), AGossipsub (Gossipsub.AnsAllPeers _) => true
  | _, _ => false
  end.

(** Requests whose answer comes from elsewhere: the queues of messaging and
    advertise, and the transfers that wait for a remote. *)
Definition answered_later (ev : Rx) : bool :=
  match ev with
  | RMessaging _ | RAdvertise _ => true
  | RBlob (BlobTypes.SendFile _ _ _ _ | BlobTypes.AcceptFile _ _ _ _) => true
  | _ => false
  end.

(** Requests that a remote peer has to see: only their callbacks are ever
    dropped without an answer. *)
Definition needs_remote (ev : Rx) : bool :=
  match ev with
  | RMessaging (Messaging.SendMessage _ _ _) => true
  | RBlob (BlobTypes.SendFile _ _ _ _ | BlobTypes.AcceptFile _ _ _ _) => true
  | _ => false
  end.

(** Every part of the node but the one the request is for. *)
Definition same_but (ev : Rx) (n n' : Node) : Prop :=
  (rx_field ev ≠ 0 → swarm n' = swarm n) ∧ (rx_field ev ≠ 1 → messaging n' = messaging n) ∧
  (rx_field ev ≠ 2 → advertise n' = advertise n) ∧ (rx_field ev ≠ 3 → blob n' = blob n) ∧
  (rx_field ev ≠ 4 → kad n' = kad n) ∧ (rx_field ev ≠ 5 → autonat n' = autonat n) ∧
  (rx_field ev ≠ 6 → mdns n' = mdns n) ∧ (rx_field ev ≠ 7 → gossipsub n' = gossipsub n).

(** An answer on the request's callback, of its type, or its callback dropped. *)
Definition own_answer (ev : Rx) (r : Sent Answer) : Prop :=
  callback_of ev = Some (sent_callback r) ∧
  match r with Answered _ a => has_type ev a = true | Dropped _ => needs_remote ev = true end.
Definition answered_once (ev : Rx) (sent : list (Sent Answer)) : Prop :=
  match sent with
  | [] => answered_later ev = true ∨ callback_of ev = None
  | [r] => own_answer ev r
  | _ => False
  end.

Lemma blob_answered now ev b b' sent : BlobBehaviour.push_event now ev b = Return (b', sent) →
  answered_once (RBlob ev) (wrap ABlob sent).
Proof.
  destruct ev; simpl; intros H; inv_return; try done; try by left.
  - unfold BlobBehaviour.send_file in H. inv_return. destruct decide; [|].
    + destruct (File.metadata_len _); inv_return; [by left|done].
    + inv_return. unfold send_expect in *. destruct cb_open; [|done]. inv_return. done.
  - unfold accept_pending_recv in H. destruct (_ !! _); inv_return; [by left|done].
  - destruct (cancel_recv_by_local_recv_id _ _) as [[] ?]; by inv_return.
  - destruct (cancel_send_by_local_send_id _ _) as [[] ?]; by inv_return.
Qed.

(** A request reaches its own protocol and nothing else; it is answered before
    the next one is taken, on its own callback and with a value of its type,
    unless it waits for the behaviour's queue or for a remote peer. *)
Lemma incoming_event_answers now ev n n' sent :
  handle_incoming_event now ev n = Return (n', sent) →
  same_but ev n n' ∧ answered_once ev sent.
Proof.
  destruct ev as [ev|ev|ev|ev|ev|ev|ev|ev]; simpl; intros H.
  - destruct ev; simpl in H; repeat case_match; simplify_eq/=; by split_and!.
  - simplify_eq/=. split; [by split_and!|by left].
  - simplify_eq/=. split; [by split_and!|by left].
  - inv_return. split; [by split_and!|by eapply blob_answered].
  - destruct ev; simpl in H; repeat case_match; simplify_eq/=; split; try (by split_and!); by right.
  - destruct ev; simplify_eq/=; split; try (by split_and!); by right.
  - destruct ev; simplify_eq/=; by split_and!.
  - destruct ev; simpl in H; repeat case_match; simplify_eq/=; split; try (by split_and!); by right.
Qed.

(** ** The addresses the node tells kad *)

(** What libp2p documents of a kad routing table: adding an address may be
    refused or put off, removing one removes it. *)
Class KadLaws := {
  known : Kad.Behaviour → PeerId * Multiaddr → Prop;
  add_address_law p a b x : known (Kad.add_address p a b).2 x → x = (p, a) ∨ known b x;
  remove_address_law p a b x : known (Kad.remove_address p a b) x ↔ known b x ∧ x ≠ (p, a);
}.
Context {laws : KadLaws}.

(** What the node calls for an event: an address to add or to remove. *)
Definition Event : Type := SwarmEvents.libp2p.SwarmEvent BehaviourEvent.
Definition remote_addr (endpoint : ConnectedPoint) : Multiaddr :=
  match endpoint with Dialer address => address | Listener _ send_back_addr => send_back_addr end.
Definition kad_calls (ev : Event) : list (bool * (PeerId * Multiaddr)) :=
  match ev with
  | SwarmEvents.libp2p.ConnectionEstablished p _ endpoint _ _ _ => [(true, (p, remote_addr endpoint))]
  | SwarmEvents.libp2p.ConnectionClosed p _ endpoint _ _ => [(false, (p, remote_addr endpoint))]
  | SwarmEvents.libp2p.Behaviour (BMdns (Mdns.Discovered l)) => (λ x, (true, x)) <$> l
  | SwarmEvents.libp2p.Behaviour (BMdns (Mdns.Expired l)) => (λ x, (false, x)) <$> l
  | _ => []
  end.
Definition kad_call (k : Kad.Behaviour) (c : bool * (PeerId * Multiaddr)) : Kad.Behaviour :=
  if c.1 then (Kad.add_address c.2.1 c.2.2 k).2 else Kad.remove_address c.2.1 c.2.2 k.

Definition handle_all (evs : list Event) (n : Node) : outcome Node := fold_outcome handle_swarm_event evs n.

Lemma dispatch_calls ev k : Mdns.ev_dispatch ev k = foldl kad_call k (kad_calls (SwarmEvents.libp2p.Behaviour (BMdns ev))).
Proof.
  destruct ev as [l|l]; simpl; revert k; induction l as [|[p a] l IH]; intros k; simpl; auto.
Qed.

Lemma handle_swarm_event_spec ev n n' : handle_swarm_event ev n = Return n' →
  n' = set_kad (foldl kad_call (kad n) (kad_calls ev)) n.
Proof.
  assert (n = set_kad (kad n) n) as Hn by (by destruct n).
  destruct ev as [ev|p c [addr|la addr] k e d|p c [addr|la addr] k e| | | | | | | | | | | | |]; simpl; intros [= <-]; try done.
  destruct ev; try done. simpl. by rewrite dispatch_calls.
Qed.

Lemma handle_all_calls evs : ∀ n n', handle_all evs n = Return n' →
  n' = set_kad (foldl kad_call (kad n) (mbind kad_calls evs)) n.
Proof.
  induction evs as [|ev evs IH]; intros n n' H; cbn in H.
  { injection H as <-. by destruct n. }
  inv_return. apply handle_swarm_event_spec in H as ->. apply IH in H0 as ->. simpl.
  by rewrite foldl_app.
Qed.

Definition same_address `{EqDecision (PeerId * Multiaddr)} (x : PeerId * Multiaddr) (c : bool * (PeerId * Multiaddr)) : option bool :=
  if decide (c.2 = x) then Some c.1 else None.

Lemma known_after calls x : ∀ k, known (foldl kad_call k calls) x →
  match last (omap (same_address x) calls) with
  | Some b => b = true
  | None => known k x
  end.
Proof.
  induction calls as [|[b y] calls IH] using rev_ind; intros k; [done|].
  rewrite foldl_app, omap_app. simpl. unfold same_address at 2. simpl.
  destruct (decide (y = x)) as [->|Hne]; simpl.
  - rewrite last_snoc. destruct b; [done|]. intros H. destruct x as [p a]. by apply remove_address_law in H as [_ []].
  - rewrite app_nil_r. intros H. apply IH. destruct y as [p a], b; simpl in H.
    + apply add_address_law in H as [->|H]; done.
    + by apply remove_address_law in H as [H _].
Qed.

(** C25: what the node tells kad about addresses.  Handling the swarm's events
    changes nothing but the kad behaviour.  An address kad knows afterwards was
    known before or was announced by an event, a connection or an mDNS
    discovery, and no later event took it back: a closed connection takes its
    address with it, even while another connection to the same peer at that
    address is open. *)
Theorem addresses_follow_events evs n n' x :
  handle_all evs n = Return n' → known (kad n') x →
  n' = set_kad (kad n') n ∧
  match last (omap (same_address x) (mbind kad_calls evs)) with
  | Some b => b = true
  | None => known (kad n) x
  end.
Proof.
  intros H Hk. apply handle_all_calls in H as ->. split; [done|]. by apply known_after.
Qed.

(** ** [SwarmConfig] and [Builder::build] *)
Record SwarmConfig := {
  c_swarm : SwarmLoop.Config;
  c_autonat : AutoNat.Config;
  c_kad : Kad.Config;
  c_identify : Identify.Config;
  c_mdns : Mdns.Config;
  c_messaging : Messaging.Config;
  c_blob : BlobTypes.Config;
  c_advertise : Advertise.Config;
  c_relay_server : RelayServer.Config;
  c_gossipsub : Gossipsub.config.Config;
}.
Definition SwarmConfig_default (version : string) : SwarmConfig := {|
  c_swarm := SwarmLoop.Config_default; c_autonat := AutoNat.Config_default; c_kad := Kad.Config_default;
  c_identify := Identify.Config_default version; c_mdns := Mdns.Config_default;
  c_messaging := Messaging.Config_default; c_blob := BlobTypes.Config_default;
  c_advertise := Advertise.Config_default; c_relay_server := RelayServer.Config_default;
  c_gossipsub := Gossipsub.config.Config_default;
|}.

(** libp2p's constructors, with what the builder gives them. *)
Class Constructors := {
  kad_with_config : PeerId → Kad.LConfig → Kad.Behaviour;
  mdns_new : Mdns.LConfig → PeerId → result Mdns.Behaviour IoError;
  LAutonatConfig : Type;
  autonat_default : LAutonatConfig;
  autonat_new : PeerId → LAutonatConfig → AutoNat.Behaviour;
  LGossipConfig : Type;
  gossip_default : LGossipConfig;
  Keypair : Type;
  gossip_new : Keypair → LGossipConfig → result Gossipsub.Behaviour string;
  swarm_new : Keypair → S;
}.
Context {C : Constructors}.

Definition unwrap {B E} (r : result B E) (msg : E → string) : outcome B :=
  match r with Ok b => Return b | Err e => Panic (msg e) end.

(** The behaviours the closure of [with_behaviour] makes, in its order. *)
Definition build (config : SwarmConfig) (keypair : Keypair) (peer_id : PeerId) : outcome Node :=
  kad_config ← Kad.into_config (c_kad config) "/ipfs/kad/1.0.0";
  m ← unwrap (mdns_new (Mdns.from_Config (c_mdns config)) peer_id) io_debug;
  g ← unwrap (gossip_new keypair gossip_default) (λ e, e);
  Return {|
    swarm := swarm_new keypair;
    messaging := Messaging.new (c_messaging config);
    advertise := Advertise.new (c_advertise config);
    blob := BlobBehaviour.new (c_blob config);
    kad := kad_with_config peer_id kad_config;
    mdns := m;
    autonat := autonat_new peer_id autonat_default;
    gossipsub := g;
  |}.

(** Which settings take effect.  A node that is built has the configured
    messaging, advertise and blob behaviours, starts with nothing queued and
    nobody connected, and does not depend on the configured autonat and
    gossipsub settings: those two behaviours always get libp2p's defaults. *)
Theorem configured_behaviours config a g keypair peer_id n :
  build config keypair peer_id = Return n →
  Messaging.config (messaging n) = c_messaging config ∧
  Advertise.config (advertise n) = c_advertise config ∧
  BlobBehaviour.config (blob n) = c_blob config ∧
  Messaging.in_events (messaging n) = [] ∧ Messaging.connected_peers (messaging n) = ∅ ∧
  Advertise.in_events (advertise n) = [] ∧ Advertise.connected_peers (advertise n) = ∅ ∧
  pending_send (blob n) = ∅ ∧ pending_recv (blob n) = ∅ ∧
  autonat n = autonat_new peer_id autonat_default ∧
  build {| c_swarm := c_swarm config; c_autonat := a; c_kad := c_kad config; c_identify := c_identify config;
           c_mdns := c_mdns config; c_messaging := c_messaging config; c_blob := c_blob config;
           c_advertise := c_advertise config; c_relay_server := c_relay_server config; c_gossipsub := g |}
    keypair peer_id = Return n.
Proof.
  intros H. pose proof H as H'. unfold build in H'. inv_return. by split_and!.
Qed.
End node.

(** ** Witnesses *)
Section witnesses.
#[local] Existing Instance demo_platform.
#[local] Existing Instance GossipTopics.demo_types.
#[local] Existing Instance Gossipsub.demo_gossip.
#[local] Existing Instance Kad.demo_kad.

#[local] Instance demo_types : SwarmEvents.EventTypes := {|
  SwarmEvents.Duration := N;
  SwarmEvents.DialErrors := unit; SwarmEvents.dial_errors_debug := λ _, "";
  SwarmEvents.CloseCause := unit; SwarmEvents.cause_debug := λ _, "";
  SwarmEvents.ListenError := unit; SwarmEvents.listen_error_debug := λ _, "";
  SwarmEvents.DialError := unit; SwarmEvents.dial_error_debug := λ _, "";
  SwarmEvents.CloseReason := unit; SwarmEvents.reason_debug := λ _, "";
  SwarmEvents.ListenerErrorType := unit; SwarmEvents.listener_error_debug := λ _, "";
  SwarmEvents.TransportError := unit;
|}.
#[local] Instance demo_swarm : SwarmEvents.Libp2pSwarm (list string) := {|
  SwarmEvents.dial := λ a s, (Ok tt, s);
  SwarmEvents.listen_on := λ a s, (Ok (0%N : @ListenerId demo_platform), (a : string) :: s);
  SwarmEvents.listeners := λ s, s;
  SwarmEvents.remove_listener := λ _ s, (false, s);
  SwarmEvents.add_external_address := λ _ s, s;
  SwarmEvents.remove_external_address := λ _ s, s;
  SwarmEvents.external_addresses := λ s, s;
  SwarmEvents.connected_peers := λ s, [];
  SwarmEvents.is_connected := λ _ s, false;
  SwarmEvents.disconnect_peer_id := λ _ s, (Err tt, s);
|}.
#[local] Instance demo_mdns : Mdns.Libp2pMdns :=
  {| Mdns.Behaviour := list N; Mdns.discovered_nodes := λ b, (b : list (@PeerId demo_platform)) |}.
#[local] Instance demo_autonat : AutoNat.Libp2pAutonat := {|
  AutoNat.Behaviour := list N;
  AutoNat.add_server := λ (p : @PeerId demo_platform) _ b, (p : N) :: b;
  AutoNat.remove_server := λ _ b, b; AutoNat.probe_address := λ _ b, b;
  AutoNat.nat_status := λ _, AutoNat.Unknown; AutoNat.confidence := λ _, 0%N;
|}.
#[local] Instance demo_kad_laws : @KadLaws demo_platform Kad.demo_kad.
Proof.
  refine (@Build_KadLaws demo_platform Kad.demo_kad
    (λ (b : N * gset (N * string)) (x : N * string), x ∈ b.2) _ _).
  - intros p a [n t] x H. change (x ∈ ({[ ((p : N), (a : string)) ]} ∪ t : gset (N * string))) in H.
    apply elem_of_union in H as [H|H]; [left; by apply elem_of_singleton in H|by right].
  - intros p a [n t] x. change (x ∈ (t ∖ {[ ((p : N), (a : string)) ]} : gset (N * string)) ↔ x ∈ t ∧ x ≠ (p, a)).
    rewrite elem_of_difference. by rewrite (elem_of_singleton (C := gset (N * string))).
Defined.

Definition demo_node : Node (S := list string) := {|
  swarm := []; messaging := Messaging.new Messaging.Config_default;
  advertise := Advertise.new Advertise.Config_default; blob := BlobBehaviour.new BlobTypes.Config_default;
  kad := ((0%N, ∅) : Kad.Behaviour); mdns := ([4%N] : Mdns.Behaviour); autonat := ([] : AutoNat.Behaviour);
  gossipsub := (∅ : gset string);
|}.
Definition demo_cb : Callback := {| cb_id := 1; cb_open := true |}.

(** Two connections to one address, another peer found by mDNS; one of the two
    connections is closed. *)
Definition demo_events : list (Event (P := demo_platform)) :=
  [SwarmEvents.libp2p.ConnectionEstablished (5%N : @PeerId demo_platform) (1%N : @ConnectionId demo_platform)
     (Dialer ("/a" : @Multiaddr demo_platform)) 1 tt 0%N;
   SwarmEvents.libp2p.ConnectionEstablished (5%N : @PeerId demo_platform) (2%N : @ConnectionId demo_platform)
     (Dialer ("/a" : @Multiaddr demo_platform)) 2 tt 0%N;
   SwarmEvents.libp2p.Behaviour (BMdns (Mdns.Discovered [((6%N : @PeerId demo_platform), "/b")]));
   SwarmEvents.libp2p.ConnectionClosed (5%N : @PeerId demo_platform) (1%N : @ConnectionId demo_platform)
     (Dialer ("/a" : @Multiaddr demo_platform)) 1 tt].

Lemma addresses_follow_events_witness :
  ∃ n', handle_all demo_events demo_node = Return n' ∧ kad n' = ((0%N, {[(6%N, "/b")]}) : Kad.Behaviour) ∧
    n' = set_kad (kad n') demo_node ∧
    match last (omap (same_address ((6%N : @PeerId demo_platform), "/b")) (mbind kad_calls demo_events)) with
    | Some b => b = true
    | None => known (kad demo_node) ((6%N : @PeerId demo_platform), "/b")
    end.
Proof.
  assert (∃ n', handle_all demo_events demo_node = Return n' ∧
                kad n' = ((0%N, {[(6%N, "/b")]}) : Kad.Behaviour)) as (n' & H & Hk).
  { eexists. split; [reflexivity|]. vm_compute. reflexivity. }
  exists n'. split; [exact H|]. split; [exact Hk|].
  apply (addresses_follow_events demo_events demo_node n' ((6%N : @PeerId demo_platform), "/b") H).
  rewrite Hk. change ((6%N, "/b") ∈ ({[(6%N, "/b")]} : gset (N * string))). by apply elem_of_singleton.
Defined.

#[local] Instance demo_constructors : Constructors (S := list string) := {|
  kad_with_config := λ _ _, ((0%N, ∅) : Kad.Behaviour);
  mdns_new := λ _ _, Ok ([] : Mdns.Behaviour);
  LAutonatConfig := unit; autonat_default := tt; autonat_new := λ _ _, ([] : AutoNat.Behaviour);
  LGossipConfig := unit; gossip_default := tt;
  Keypair := unit; gossip_new := λ _ _, Ok (∅ : gset string);
  swarm_new := λ _, [];
|}.

Lemma configured_behaviours_witness :
  ∃ n, build (C := demo_constructors) (SwarmConfig_default "1") tt (5%N : @PeerId demo_platform) = Return n ∧
    BlobBehaviour.config (blob n) = BlobTypes.Config_default ∧
    autonat n = autonat_new (5%N : @PeerId demo_platform) autonat_default.
Proof.
  eexists. split; [reflexivity|].
  destruct (configured_behaviours (C := demo_constructors) (SwarmConfig_default "1") AutoNat.Config_default
    Gossipsub.config.Config_default tt (5%N : @PeerId demo_platform) _ eq_refl)
    as (_ & _ & H1 & _ & _ & _ & _ & _ & _ & H2 & _).
  split; [exact H1|exact H2].
Defined.
End witnesses.
End Node.
