(* ===== verification/Listening.v ===== *)
(** * Calls that listen for their answer ([advertise.rs], [kad.rs])

    Module [Listening]: the calls of the handles whose answer is an event of the
    swarm, as the steps they take: subscribe, send the request, for one of them
    wait for the callback, then receive events until one ends the call or its
    time is over.  They run beside the event loop of [SwarmLoop], its other
    callers and its other subscribers. *)

From stdpp Require Import base gmap sets list strings fin_maps.
From Stdlib Require Import Lia NArith.
From S2P Require Import Prelude Std Core Calls Advertise AdvertiseHandle GossipTopics Gossipsub Kad Adapters.
From S2P Require Import SwarmEvents SwarmLoop Node.
Import Calls.

Module Listening.

(** [RecvError::Lagged]: values were evicted before the receiver saw them; it
    does not come while [unseen] still says what the receiver has to see. *)
Class Lag (E : Type) {b : SwarmLoop.Broadcast E} {laws : SwarmLoop.BroadcastLaws E} := {
  lagged : N → SwarmLoop.Chan → bool;
  lagged_law r c q : SwarmLoop.unseen c !! r = Some q → lagged r c = false;
}.

Section listening.
Context {P : Platform} {T : SwarmEvents.EventTypes}.
Context {TT : GossipTopics.TopicTypes} {G : Gossipsub.GossipBehaviour} {K : Kad.Libp2pKad}.
#[local] Abbreviation Event := (SwarmEvents.libp2p.SwarmEvent Node.BehaviourEvent).

(** ** The calls *)
Inductive Heard :=
| HQueried (r : result (option (list PeerId)) Advertise.Error)
| HRemoved (state : bool)
| HMode (new_mode : Kad.Mode)
| HResults (results : list Kad.QueryResult).

(** What is left of a call.  Of the locals of a listener only the results of
    [query] change. *)
Definition Ops : Type := Event → list Kad.QueryResult → list Kad.QueryResult + Heard.
Inductive Phase :=
| Subscribing (k : Phase)
| Sending (ev : Node.Rx) (k : Phase)
| Waiting (k : Kad.QueryId → Phase)
| Listens (ops : Ops) (l : list Kad.QueryResult) (timed : bool)
| Finished (v : Heard)
| TimedOut
| Panicked.

(** The arms of [listen_event!] for one behaviour's events. *)
Definition for_advertise (f : Advertise.OutEvent → option Heard) : Ops := λ ev l,
  match ev with
  | SwarmEvents.libp2p.Behaviour (Node.BAdvertise ev) => match f ev with Some v => inr v | None => inl l end
  | _ => inl l
  end.
Definition for_kad (f : Kad.OutEvent → list Kad.QueryResult → list Kad.QueryResult + Heard) : Ops := λ ev l,
  match ev with SwarmEvents.libp2p.Behaviour (Node.BKad ev) => f ev l | _ => inl l end.

Definition queried (relay : PeerId) : Ops :=
  for_advertise (λ ev, HQueried <$> AdvertiseHandle.query_answer relay ev).
Definition removed (peer_id : PeerId) : Ops :=
  for_advertise (λ ev, HRemoved <$> AdvertiseHandle.changed_answer peer_id ev).
Definition mode_changed : Ops :=
  for_kad (λ ev l, match Kad.new_mode_of ev with Some m => inr (HMode m) | None => inl l end).
Definition progressed (query_id : Kad.QueryId) : Ops :=
  for_kad (λ ev l, match Kad.on_progress query_id ev l with inl l => inl l | inr l => inr (HResults l) end).

Definition query_advertised_peer (relay : PeerId) : Phase :=
  Subscribing (Sending (Node.RAdvertise (Advertise.QueryAdvertisedPeer relay)) (Listens (queried relay) [] true)).
Definition remove_advertised (peer_id : PeerId) : Phase :=
  Subscribing (Sending (Node.RAdvertise (Advertise.RemoveAdvertised peer_id)) (Listens (removed peer_id) [] true)).
Definition set_mode (mode : option Kad.Mode) : Phase :=
  Subscribing (Sending (Node.RKad (Kad.SetMode mode)) (Listens mode_changed [] true)).
Definition query (peer_id : PeerId) (tx : Callback) : Phase :=
  Subscribing (Sending (Node.RKad (Kad.PeerLookup peer_id tx))
    (Waiting (λ query_id, Listens (progressed query_id) [] false))).

Inductive Call :=
| QueryAdvertisedPeer (relay : PeerId)
| RemoveAdvertised (peer_id : PeerId)
| SetMode (mode : option Kad.Mode)
| Query (peer_id : PeerId) (tx : Callback).
Definition program (c : Call) : Phase :=
  match c with
  | QueryAdvertisedPeer relay => query_advertised_peer relay
  | RemoveAdvertised peer_id => remove_advertised peer_id
  | SetMode mode => set_mode mode
  | Query peer_id tx => query peer_id tx
  end.

(** ** A call beside the event loop *)
Context {Nd : Type} {b : SwarmLoop.Broadcast Event} {laws : SwarmLoop.BroadcastLaws Event} {lag : Lag Event}.
Context (select_next : Nd → option (Event * Nd)) (on_event : Event → Nd → Nd) (on_request : Node.Rx → Nd → Nd).
Context (cfg : SwarmLoop.Config) (r : N).
#[local] Abbreviation Loop := (SwarmLoop.Loop (E := Event) (Node := Nd) (Rx := Node.Rx)).
#[local] Notation "'let!' x := e 'in' k" := (match e with Some x => k | None => None end) (at level 200, x name, right associativity).
#[local] Abbreviation loop_step := (SwarmLoop.step select_next on_event on_request cfg).

(** The loop and the call; how many events had been emitted when the call
    subscribed, when it sent which request, and when it ended. *)
Record World := {
  loop : Loop;
  call : Phase;
  subscribed_at : option nat;
  sent : option (Node.Rx * nat);
  callback : option Kad.QueryId;
  ended_at : option nat;
}.
Definition start (n : Nd) (p : Phase) : World := {|
  loop := SwarmLoop.build cfg n; call := p; subscribed_at := None; sent := None; callback := None; ended_at := None;
|}.
Definition with_loop (l : Loop) (w : World) : World := {|
  loop := l; call := call w; subscribed_at := subscribed_at w; sent := sent w; callback := callback w;
  ended_at := ended_at w;
|}.
Definition with_call (p : Phase) (w : World) : World := {|
  loop := loop w; call := p; subscribed_at := subscribed_at w; sent := sent w; callback := callback w;
  ended_at := ended_at w;
|}.
Definition emitted (w : World) : list Event := SwarmLoop.emitted (loop w).

(** The listener is dropped with the future. *)
Definition end_with (p : Phase) (w : World) : option World :=
  let! l := loop_step (SwarmLoop.Unsubscribe r) (loop w) in
  Some {| loop := l; call := p; subscribed_at := subscribed_at w; sent := sent w; callback := callback w;
          ended_at := Some (length (SwarmLoop.emitted l)) |}.

Inductive Step :=
| Others (op : SwarmLoop.Op (Rx := Node.Rx))
| Caller
| Callback_ (query_id : Kad.QueryId)
| Deadline.

(** The others do not have the call's listener. *)
Definition foreign (op : SwarmLoop.Op (Rx := Node.Rx)) : bool :=
  match op with
  | SwarmLoop.Subscribe k | SwarmLoop.Receive k | SwarmLoop.Unsubscribe k => negb (k =? r)%N
  | _ => true
  end.

Definition step (st : Step) (w : World) : option World :=
  match st with
  | Others op => if foreign op then let! l := loop_step op (loop w) in Some (with_loop l w) else None
  | Caller =>
      match call w with
      | Subscribing k =>
          let! l := loop_step (SwarmLoop.Subscribe r) (loop w) in
          Some {| loop := l; call := k; subscribed_at := Some (length (SwarmLoop.emitted l)); sent := sent w;
                  callback := callback w; ended_at := ended_at w |}
      | Sending ev k =>
          let! l := loop_step (SwarmLoop.Request ev) (loop w) in
          Some {| loop := l; call := k; subscribed_at := subscribed_at w;
                  sent := Some (ev, length (SwarmLoop.emitted l)); callback := callback w; ended_at := ended_at w |}
      | Listens ops l timed =>
          if lagged r (SwarmLoop.event_out (loop w)) then end_with Panicked w
          else
            let! lp := loop_step (SwarmLoop.Receive r) (loop w) in
            match (SwarmLoop.brecv r (SwarmLoop.event_out (loop w))).1 with
            | None => Some (with_loop lp w)
            | Some ev =>
                match ops ev l with
                | inl l => Some (with_call (Listens ops l timed) (with_loop lp w))
                | inr v => end_with (Finished v) (with_loop lp w)
                end
            end
      | _ => None
      end
  | Callback_ query_id =>
      match call w with
      | Waiting k =>
          Some {| loop := loop w; call := k query_id; subscribed_at := subscribed_at w; sent := sent w;
                  callback := Some query_id; ended_at := ended_at w |}
      | _ => None
      end
  | Deadline =>
      (* [timeout] polls the future before it looks at the clock *)
      match call w with
      | Listens _ _ true =>
          if lagged r (SwarmLoop.event_out (loop w)) then None
          else match (SwarmLoop.brecv r (SwarmLoop.event_out (loop w))).1 with
               | None => end_with TimedOut w
               | Some _ => None
               end
      | _ => None
      end
  end.
Fixpoint run (steps : list Step) (w : World) : option World :=
  match steps with
  | [] => Some w
  | st :: steps => let! w := step st w in run steps w
  end.

(** ** What the listener of a call answers *)
Definition request (c : Call) : Node.Rx :=
  match c with
  | QueryAdvertisedPeer relay => Node.RAdvertise (Advertise.QueryAdvertisedPeer relay)
  | RemoveAdvertised peer_id => Node.RAdvertise (Advertise.RemoveAdvertised peer_id)
  | SetMode mode => Node.RKad (Kad.SetMode mode)
  | Query peer_id tx => Node.RKad (Kad.PeerLookup peer_id tx)
  end.
Definition listener (c : Call) (cb : option Kad.QueryId) : option Ops :=
  match c with
  | QueryAdvertisedPeer relay => Some (queried relay)
  | RemoveAdvertised peer_id => Some (removed peer_id)
  | SetMode _ => Some mode_changed
  | Query _ _ => progressed <$> cb
  end.
Definition is_query (c : Call) : bool := match c with Query _ _ => true | _ => false end.
(** Listening to a list of events from the start. *)
Definition heard (ops : Ops) (evs : list Event) : outcome (Poll Heard) := listen_event ops (Got <$> evs) [].
(** An event that ends the call, whatever came before. *)
Definition ends (ops : Ops) (ev : Event) : Prop := ∀ l, ∃ v, ops ev l = inr v.

Lemma heard_cases (ops : Ops) evs l : ∃ p, listen_event ops (Got <$> evs) l = Return p.
Proof.
  revert l. induction evs as [|ev evs IH]; intros l; [by exists Pending|]. cbn.
  destruct (ops ev l) as [l'|v]; [apply IH|by eexists].
Qed.
Lemma ends_heard (ops : Ops) evs l : Exists (ends ops) evs → listen_event ops (Got <$> evs) l ≠ Return Pending.
Proof.
  intros H. revert l. induction H as [ev evs He|ev evs _ IH]; intros l; cbn.
  - by destruct (He l) as [v ->].
  - destruct (ops ev l); [apply IH|done].
Qed.

(** ** Invariant *)
Definition since (j : nat) (w : World) : list Event := drop j (emitted w).
Definition subscribed (j : nat) (s : list Event) (w : World) : Prop :=
  j ≤ length (emitted w) ∧ SwarmLoop.due (loop w) !! r = Some (since j w) ∧ SwarmLoop.seen (loop w) !! r = Some s.
(** A listener that has taken [s] goes on with locals [l]. *)
Definition goes_on (ops : Ops) (s : list Event) (l : list Kad.QueryResult) : Prop :=
  ∀ rest, listen_event ops (Got <$> (s ++ rest)) [] = listen_event ops (Got <$> rest) l.

Definition after_sending (c : Call) (j k : nat) (w : World) : Prop :=
  j ≤ k ∧ k ≤ length (emitted w) ∧
  match call w with
  | Waiting kont =>
      is_query c = true ∧ kont = (λ query_id, Listens (progressed query_id) [] false) ∧ subscribed j [] w
  | Listens ops l _ => listener c (callback w) = Some ops ∧ ∃ s, subscribed j s w ∧ goes_on ops s l
  | Finished v => ∃ ops t, listener c (callback w) = Some ops ∧ ended_at w = Some t ∧ k ≤ t ≤ length (emitted w) ∧
      heard ops (drop j (take t (emitted w))) = Return (Ready v)
  | TimedOut => ∃ ops t, listener c (callback w) = Some ops ∧ ended_at w = Some t ∧ k ≤ t ≤ length (emitted w) ∧
      heard ops (drop j (take t (emitted w))) = Return Pending
  | _ => False
  end.
Definition stage (c : Call) (w : World) : Prop :=
  match subscribed_at w, sent w with
  | None, None => call w = program c ∧ SwarmLoop.due (loop w) !! r = None
  | Some j, None => ∃ k, program c = Subscribing (Sending (request c) k) ∧ call w = Sending (request c) k ∧
      subscribed j [] w
  | Some j, Some (ev, k) => ev = request c ∧ after_sending c j k w
  | None, Some _ => False
  end.
Definition world_ok (c : Call) (w : World) : Prop := SwarmLoop.loop_ok cfg (loop w) ∧ stage c w.

Lemma program_order c : ∃ k, program c = Subscribing (Sending (request c) k) ∧
  ((is_query c = true ∧ k = Waiting (λ query_id, Listens (progressed query_id) [] false)) ∨
   (is_query c = false ∧ ∃ ops, (∀ cb, listener c cb = Some ops) ∧ k = Listens ops [] true)).
Proof.
  destruct c; eexists; (split; [reflexivity|]); [right..|by left]; (split; [done|]); by eexists.
Qed.

Lemma loop_kept op l l' : loop_step op l = Some l' → SwarmLoop.loop_ok cfg l → SwarmLoop.loop_ok cfg l'.
Proof. intros H Hok. by eapply SwarmLoop.step_ok. Qed.

Lemma foreign_step op l l' : foreign op = true → loop_step op l = Some l' →
  ∃ evs, SwarmLoop.emitted l' = SwarmLoop.emitted l ++ evs ∧
    SwarmLoop.due l' !! r = (λ d, d ++ evs) <$> SwarmLoop.due l !! r ∧ SwarmLoop.seen l' !! r = SwarmLoop.seen l !! r.
Proof.
  intros Hf H. destruct op as [[]|ev|k|k|k]; cbn in *.
  - destruct (SwarmLoop.rx_bundle l); simplify_eq. exists []. cbn. rewrite app_nil_r. split_and!; try done.
    destruct (SwarmLoop.due l !! r); cbn; by rewrite ?app_nil_r.
  - repeat case_match; simplify_eq. eexists. cbn. by rewrite lookup_fmap.
  - simplify_eq. exists []. rewrite app_nil_r. split_and!; try done.
    destruct (SwarmLoop.due l' !! r); cbn; by rewrite ?app_nil_r.
  - simplify_eq. exists []. cbn. rewrite app_nil_r. split_and!; try done.
    destruct (SwarmLoop.due l !! r); cbn; by rewrite ?app_nil_r.
  - apply negb_true_iff, N.eqb_neq in Hf. case_match; simplify_eq. exists []. cbn.
    rewrite app_nil_r, !lookup_insert_ne by done. split_and!; try done.
    destruct (SwarmLoop.due l !! r); cbn; by rewrite ?app_nil_r.
  - apply negb_true_iff, N.eqb_neq in Hf. case_match; [|done]. destruct (SwarmLoop.brecv _ _) as [e ch]. simplify_eq.
    exists []. cbn. rewrite app_nil_r, lookup_insert_ne by done. split_and!; try done.
    destruct (SwarmLoop.due l !! r); cbn; by rewrite ?app_nil_r.
  - apply negb_true_iff, N.eqb_neq in Hf. simplify_eq. exists []. cbn.
    rewrite app_nil_r, !lookup_delete_ne by done. split_and!; try done.
    destruct (SwarmLoop.due l !! r); cbn; by rewrite ?app_nil_r.
Qed.

Lemma subscribed_grows j s w w' evs : emitted w' = emitted w ++ evs →
  SwarmLoop.due (loop w') !! r = (λ d, d ++ evs) <$> SwarmLoop.due (loop w) !! r →
  SwarmLoop.seen (loop w') !! r = SwarmLoop.seen (loop w) !! r → subscribed j s w → subscribed j s w'.
Proof.
  intros He Hd Hs (Hj & Hd' & Hs'). unfold subscribed, since. rewrite He, Hd, Hs, Hd', length_app. cbn.
  split_and!; [lia| |done]. unfold since. by rewrite drop_app_le.
Qed.
Lemma others_stage c op l' w : loop_step op (loop w) = Some l' → foreign op = true →
  stage c w → stage c (with_loop l' w).
Proof.
  intros H Hf Hst. destruct (foreign_step _ _ _ Hf H) as (evs & He & Hd & Hs).
  assert (emitted (with_loop l' w) = emitted w ++ evs) as Ee by done.
  assert (∀ j s, subscribed j s w → subscribed j s (with_loop l' w)) as Hsub by (intros j s; by apply (subscribed_grows _ _ _ _ evs)).
  unfold stage in *. cbn. destruct (subscribed_at w) as [j|], (sent w) as [[ev k]|]; try done.
  - destruct Hst as (-> & Hjk & Hk & Hc). split; [done|]. unfold after_sending. rewrite Ee, length_app. cbn.
    split; [done|]. split; [lia|]. destruct (call w) as [| |kont|ops l timed|v| |]; try done.
    + destruct Hc as (Hq & Hk' & Hsc). auto.
    + destruct Hc as (Hl & s & Hsc & Hg). split; [done|]. exists s. auto.
    + destruct Hc as (ops & t & Hl & Ht & Hkt & Hh). exists ops, t. rewrite take_app_le by lia. split_and!; try done; lia.
    + destruct Hc as (ops & t & Hl & Ht & Hkt & Hh). exists ops, t. rewrite take_app_le by lia. split_and!; try done; lia.
  - destruct Hst as (k & Hp & Hc & Hsc). exists k. auto.
  - destruct Hst as [Hc Hn]. split; [done|]. by rewrite Hd, Hn.
Qed.

(** The listener of a call is not behind: what it has to see waits for it. *)
Lemma listener_queue j s w : SwarmLoop.loop_ok cfg (loop w) → subscribed j s w →
  ∃ q, SwarmLoop.unseen (SwarmLoop.event_out (loop w)) !! r = Some q ∧ since j w = s ++ q ∧
    (N.of_nat (length q) ≤ SwarmLoop.swarm_event_buffer_upper_bound cfg)%N ∧
    lagged r (SwarmLoop.event_out (loop w)) = false ∧
    (SwarmLoop.brecv r (SwarmLoop.event_out (loop w))).1 = head q.
Proof.
  intros [_ Hok] (Hj & Hd & Hs). specialize (Hok r). rewrite Hd, Hs in Hok. cbn in Hok.
  destruct (SwarmLoop.unseen _ !! r) as [q|] eqn:Eq; [|done]. destruct Hok as [E Hq]. exists q.
  split_and!; [done..|by eapply lagged_law|]. by destruct (SwarmLoop.brecv_law r _ q Eq) as [-> _].
Qed.

Lemma receive_step j s q w : subscribed j s w → SwarmLoop.unseen (SwarmLoop.event_out (loop w)) !! r = Some q →
  ∃ lp, loop_step (SwarmLoop.Receive r) (loop w) = Some lp ∧
    subscribed j (s ++ option_list (head q)) (with_loop lp w) ∧ SwarmLoop.emitted lp = emitted w.
Proof.
  intros (Hj & Hd & Hs) Hq. cbn. rewrite Hs. destruct (SwarmLoop.brecv_law r _ q Hq) as (He & _ & _).
  destruct (SwarmLoop.brecv _ _) as [e ch]. cbn in He. subst e. eexists. split; [reflexivity|]. split; [|done].
  split_and!; [done|done|]. cbn. by rewrite lookup_insert_eq.
Qed.

Lemma goes_on_inl ops s l ev l' : goes_on ops s l → ops ev l = inl l' → goes_on ops (s ++ [ev]) l'.
Proof. intros Hg E rest. rewrite <-app_assoc, Hg. cbn. by rewrite E. Qed.
Lemma goes_on_inr ops s l ev v rest : goes_on ops s l → ops ev l = inr v →
  heard ops (s ++ ev :: rest) = Return (Ready v).
Proof. intros Hg E. unfold heard. rewrite Hg. cbn. by rewrite E. Qed.

(** What follows the sending of the request is what it listens with. *)
Lemma rest_of_program c j l w k : program c = Subscribing (Sending (request c) k) →
  subscribed j [] w → loop_step (SwarmLoop.Request (request c)) (loop w) = Some l →
  stage c {| loop := l; call := k; subscribed_at := Some j; sent := Some (request c, length (SwarmLoop.emitted l));
             callback := callback w; ended_at := ended_at w |}.
Proof.
  intros Hp (Hj & Hd & Hs) Hl. cbn in Hl. injection Hl as <-. destruct (program_order c) as (k' & Hp' & Hk).
  rewrite Hp' in Hp. injection Hp as ->. split; [done|]. unfold after_sending, subscribed, since, emitted in *. cbn.
  split; [done|]. split; [done|]. destruct Hk as [[Hq ->]|(_ & ops & Ho & ->)]; [by split_and!|].
  split; [apply Ho|]. exists []. split; [done|]. by intros rest.
Qed.

Lemma listening_stage c j k ev w ops l timed :
  SwarmLoop.loop_ok cfg (loop w) → subscribed_at w = Some j → sent w = Some (ev, k) →
  call w = Listens ops l timed → stage c w →
  listener c (callback w) = Some ops ∧ ev = request c ∧ j ≤ k ∧ k ≤ length (emitted w) ∧
  ∃ s q, subscribed j s w ∧ goes_on ops s l ∧ SwarmLoop.unseen (SwarmLoop.event_out (loop w)) !! r = Some q ∧
    since j w = s ++ q ∧ (N.of_nat (length q) ≤ SwarmLoop.swarm_event_buffer_upper_bound cfg)%N ∧
    lagged r (SwarmLoop.event_out (loop w)) = false ∧ (SwarmLoop.brecv r (SwarmLoop.event_out (loop w))).1 = head q.
Proof.
  intros Hok Hj Hk Hc Hst. unfold stage, after_sending in Hst. rewrite Hj, Hk, Hc in Hst.
  destruct Hst as (-> & Hjk & Hke & Hl & s & Hs & Hg). destruct (listener_queue j s w Hok Hs) as (q & Hq).
  split_and!; try done. by exists s, q.
Qed.

Lemma sent_first c w ops l timed : call w = Listens ops l timed → stage c w →
  ∃ j ev k, subscribed_at w = Some j ∧ sent w = Some (ev, k).
Proof.
  intros Hc H. unfold stage in H. destruct (subscribed_at w) as [j|], (sent w) as [[ev k]|]; try rewrite Hc in H; try done.
  - by exists j, ev, k.
  - by destruct H as (? & _ & ? & _).
  - destruct H as [H _]. destruct (program_order c) as (? & Hp & _). by rewrite Hp in H.
Qed.

(** The end of a call, after the events [s ++ q] since it subscribed. *)
Lemma ended_stage c j w w1 p ev k ops : sent w = Some (ev, k) → subscribed_at w = Some j →
  listener c (callback w) = Some ops → ev = request c → j ≤ k → k ≤ length (emitted w) →
  end_with p w = Some w1 →
  match p with
  | Finished v => heard ops (since j w) = Return (Ready v)
  | TimedOut => heard ops (since j w) = Return Pending
  | _ => False
  end → stage c w1.
Proof.
  intros Hs Hj Hl -> Hjk Hk H Hh. cbn in H. injection H as <-. unfold stage, after_sending. cbn.
  rewrite Hj, Hs. split; [done|]. split; [done|]. split; [done|].
  destruct p; try done; exists ops, (length (emitted w)); (split_and!; [done|done|done|done|]);
    unfold emitted; cbn; by rewrite firstn_all.
Qed.

Lemma caller_listens c w w' ops l timed : SwarmLoop.loop_ok cfg (loop w) → call w = Listens ops l timed →
  stage c w → step Caller w = Some w' → stage c w'.
Proof.
  intros Hok Hc Hst H. destruct (sent_first _ _ _ _ _ Hc Hst) as (j & ev & k & Hj & Hk).
  destruct (listening_stage c j k ev w ops l timed Hok Hj Hk Hc Hst)
    as (Hl & Hev & Hjk & Hke & s & q & Hs & Hg & Hq & Hsq & _ & Hlag & Hrecv).
  destruct (receive_step j s q w Hs Hq) as (lp & Hlp & Hs' & He). cbn [step] in H. rewrite Hc, Hlag, Hlp, Hrecv in H.
  destruct q as [|e q]; cbn [head option_list] in *.
  - injection H as <-. rewrite app_nil_r in Hs'. unfold stage, after_sending. cbn. rewrite Hj, Hk, Hc.
    unfold emitted. cbn. rewrite He. split_and!; try done. by exists s.
  - destruct (ops e l) as [l'|v] eqn:Eo.
    + injection H as <-. unfold stage, after_sending. cbn. rewrite Hj, Hk. unfold emitted. cbn. rewrite He.
      split_and!; try done. exists (s ++ [e]). split; [done|]. by eapply goes_on_inl.
    + eapply (ended_stage c j (with_loop lp w) w'); try done; unfold since, emitted; cbn; rewrite He; [done|].
      change (drop j (emitted w)) with (since j w). rewrite Hsq. by eapply goes_on_inr.
Qed.

Lemma deadline_stage c w w' : SwarmLoop.loop_ok cfg (loop w) → stage c w → step Deadline w = Some w' → stage c w'.
Proof.
  intros Hok Hst H. cbn [step] in H. destruct (call w) as [| | |ops l timed| | |] eqn:Hc; try done.
  destruct timed; [|done]. destruct (sent_first _ _ _ _ _ Hc Hst) as (j & ev & k & Hj & Hk).
  destruct (listening_stage c j k ev w ops l true Hok Hj Hk Hc Hst)
    as (Hl & Hev & Hjk & Hke & s & q & Hs & Hg & Hq & Hsq & _ & Hlag & Hrecv).
  rewrite Hlag, Hrecv in H. destruct q as [|e q]; [|done]. cbn [head] in H.
  eapply ended_stage; try done. cbn. rewrite Hsq. unfold heard. by rewrite Hg.
Qed.

Lemma step_stage c st w w' : world_ok c w → step st w = Some w' → stage c w'.
Proof.
  intros [Hok Hst] H. destruct st as [op| |id|].
  - cbn [step] in H. destruct (foreign op) eqn:Hf; [|done]. destruct (loop_step op (loop w)) as [l|] eqn:El; [|done].
    injection H as <-. by eapply others_stage.
  - destruct (call w) as [k|ev k| |ops l timed| | |] eqn:Hc; try (cbn [step] in H; by rewrite Hc in H).
    + cbn [step] in H. rewrite Hc in H. unfold stage, after_sending in Hst. rewrite Hc in Hst.
      destruct (program_order c) as (k' & Hp & _).
      destruct (subscribed_at w) as [j|], (sent w) as [[ev' k2]|] eqn:Hs; try done.
      * by destruct Hst as (_ & _ & _ & ?).
      * by destruct Hst as (? & _ & ? & _).
      * destruct Hst as [Hp' Hd]. rewrite Hp in Hp'. injection Hp' as ->. cbn in H. rewrite Hd in H. injection H as <-.
        unfold stage. cbn. rewrite ?Hs. exists k'. split; [done|]. split; [done|]. unfold subscribed, since, emitted. cbn.
        by rewrite !lookup_insert_eq, drop_all.
    + cbn [step] in H. rewrite Hc in H. unfold stage, after_sending in Hst. rewrite Hc in Hst.
      destruct (program_order c) as (k' & Hp & _).
      destruct (subscribed_at w) as [j|], (sent w) as [[ev' k2]|] eqn:Hs; try done.
      * by destruct Hst as (_ & _ & _ & ?).
      * destruct Hst as (k2 & Hp' & Hc' & Hsub). injection Hc' as -> ->.
        destruct (loop_step _ _) as [l|] eqn:El; [|done]. injection H as <-. by eapply rest_of_program.
      * destruct Hst as [Hp' _]. by rewrite Hp in Hp'.
    + by eapply caller_listens.
  - cbn [step] in H. destruct (call w) as [| |kont| | | |] eqn:Hc; try done. injection H as <-.
    unfold stage in *. cbn. rewrite Hc in Hst. destruct (program_order c) as (k' & Hp & _).
    destruct (subscribed_at w) as [j|], (sent w) as [[ev' k2]|] eqn:Hs; try done.
    + destruct Hst as (-> & Hjk & Hke & Hq). rewrite Hc in Hq. destruct Hq as (Hq & -> & Hsub). split; [done|].
      unfold after_sending. cbn. split_and!; try done; [by destruct c|]. exists []. split; [done|]. by intros rest.
    + by destruct Hst as (? & _ & ? & _).
    + destruct Hst as [Hp' _]. by rewrite Hp in Hp'.
  - by eapply deadline_stage.
Qed.

Lemma end_with_ok p w w' : SwarmLoop.loop_ok cfg (loop w) → end_with p w = Some w' →
  SwarmLoop.loop_ok cfg (loop w').
Proof.
  unfold end_with. destruct (loop_step _ _) as [l|] eqn:El; [|done]. intros Hok [= <-]. by eapply loop_kept.
Qed.
Lemma step_loop st w w' : SwarmLoop.loop_ok cfg (loop w) → step st w = Some w' → SwarmLoop.loop_ok cfg (loop w').
Proof.
  intros Hok H. destruct st as [op| |id|]; cbn [step] in H.
  - destruct (foreign op); [|done]. destruct (loop_step op _) as [l|] eqn:El; [|done]. injection H as <-. by eapply loop_kept.
  - destruct (call w) as [k|ev k| |ops l timed| | |]; try done.
    + destruct (loop_step _ _) as [lp|] eqn:El; [|done]. injection H as <-. by eapply loop_kept.
    + destruct (loop_step _ _) as [lp|] eqn:El; [|done]. injection H as <-. by eapply loop_kept.
    + destruct (lagged r _); [by eapply end_with_ok|].
      destruct (loop_step _ _) as [lp|] eqn:El; [|done]. apply loop_kept in El; [|done].
      destruct (SwarmLoop.brecv _ _).1 as [ev|]; [destruct (ops ev l)|]; [injection H as <-; done| |by injection H as <-].
      exact (end_with_ok _ (with_loop lp w) _ El H).
  - destruct (call w); try done. by injection H as <-.
  - destruct (call w) as [| | |ops l []| | |]; try done. destruct (lagged r _); [done|].
    destruct (SwarmLoop.brecv _ _).1; [done|]. by eapply end_with_ok.
Qed.
Lemma run_world_ok c steps : ∀ w w', world_ok c w → run steps w = Some w' → world_ok c w'.
Proof.
  induction steps as [|st steps IH]; intros w w' Hw H; cbn [run] in H; [by injection H as <-|].
  destruct (step st w) as [w1|] eqn:E; [|done]. eapply IH; [|exact H]. split.
  - eapply step_loop; [apply Hw|done].
  - by eapply step_stage.
Qed.
Lemma start_world_ok c n : (0 < SwarmLoop.swarm_event_buffer_size cfg)%N → world_ok c (start n (program c)).
Proof. intros H. split; [by apply SwarmLoop.build_ok|]. by split. Qed.

(** The caller's own steps take it to the answer that is waiting for it. *)
Lemma caller_finishes q : ∀ w s ops l timed v, call w = Listens ops l timed →
  SwarmLoop.seen (loop w) !! r = Some s → SwarmLoop.unseen (SwarmLoop.event_out (loop w)) !! r = Some q →
  listen_event ops (Got <$> q) l = Return (Ready v) →
  ∃ m w', m ≤ length q ∧ run (repeat Caller m) w = Some w' ∧ call w' = Finished v.
Proof.
  induction q as [|ev q IH]; intros w s ops l timed v Hc Hs Hq Hv; [done|]. cbn in Hv.
  destruct (SwarmLoop.brecv_law r _ _ Hq) as (He & Hu & _).
  assert (∃ lp, loop_step (SwarmLoop.Receive r) (loop w) = Some lp ∧ SwarmLoop.seen lp !! r = Some (s ++ [ev]) ∧
                SwarmLoop.unseen (SwarmLoop.event_out lp) !! r = Some q) as (lp & Hlp & Hs' & Hq').
  { cbn. rewrite Hs. destruct (SwarmLoop.brecv _ _) as [e ch]. cbn in He, Hu. subst e. eexists. split; [done|].
    cbn. by rewrite Hu, !lookup_insert_eq. }
  assert (step Caller w = match ops ev l with
                          | inl l => Some (with_call (Listens ops l timed) (with_loop lp w))
                          | inr v => end_with (Finished v) (with_loop lp w)
                          end) as Hstep.
  { cbn [step]. by rewrite Hc, (lagged_law _ _ _ Hq), Hlp, He. }
  destruct (ops ev l) as [l'|v'].
  - edestruct (IH (with_call (Listens ops l' timed) (with_loop lp w)) (s ++ [ev]) ops l' timed v) as (m & w' & Hm & Hr & Hf);
      [done..|]. exists (S m), w'. cbn [repeat run length]. rewrite Hstep. split; [lia|]. done.
  - injection Hv as ->. eexists 1, _. cbn [repeat run length]. rewrite Hstep. split; [lia|]. split; [reflexivity|done].
Qed.
Lemma ends_since ops j k w : j ≤ k → Exists (ends ops) (drop k (emitted w)) → heard ops (since j w) ≠ Return Pending.
Proof.
  intros Hjk H. apply ends_heard. unfold since. replace k with (j + (k - j)) in H by lia.
  rewrite <-drop_drop in H. rewrite <-(take_drop (k - j) (drop j (emitted w))). apply Exists_app. by right.
Qed.

(** C24: a call that listens gets its answer.  Whatever the event loop, the
    other callers and the other subscribers do in between, a call that has sent
    its request, which is its own, had subscribed before; it never fails, not
    even for being slow.  Once it has returned, what it returned is what the
    events emitted from its subscription on say; if it ran out of time, none of
    them ended it, so none after the request was sent did; and while it
    listens, either they do not answer it yet, or it returns that answer within
    as many receptions as the buffer holds events. *)
Theorem listening_call_gets_its_answer c n steps w ev k :
  (0 < SwarmLoop.swarm_event_buffer_size cfg)%N →
  run steps (start n (program c)) = Some w → sent w = Some (ev, k) →
  ev = request c ∧ ∃ j, subscribed_at w = Some j ∧ j ≤ k ∧ k ≤ length (emitted w) ∧
  match call w with
  | Waiting _ => is_query c = true
  | Listens ops _ _ =>
      listener c (callback w) = Some ops ∧
      match heard ops (drop j (emitted w)) with
      | Return (Ready v) =>
          ∃ m w', (N.of_nat m ≤ SwarmLoop.swarm_event_buffer_upper_bound cfg)%N ∧
            run (repeat Caller m) w = Some w' ∧ call w' = Finished v
      | Return Pending => ¬ Exists (ends ops) (drop k (emitted w))
      | _ => False
      end
  | Finished v =>
      ∃ ops t, listener c (callback w) = Some ops ∧ ended_at w = Some t ∧ k ≤ t ∧
        heard ops (drop j (take t (emitted w))) = Return (Ready v)
  | TimedOut =>
      ∃ ops t, listener c (callback w) = Some ops ∧ ended_at w = Some t ∧ k ≤ t ∧
        heard ops (drop j (take t (emitted w))) = Return Pending ∧ ¬ Exists (ends ops) (drop k (take t (emitted w)))
  | Subscribing _ | Sending _ _ | Panicked => False
  end.
Proof.
  intros Hn Hr Hs. destruct (run_world_ok c steps _ _ (start_world_ok c n Hn) Hr) as [Hok Hst].
  pose proof Hst as Hst'. unfold stage in Hst. rewrite Hs in Hst. destruct (subscribed_at w) as [j|] eqn:Hj; [|done].
  destruct Hst as (-> & Hjk & Hke & Hc). split; [done|]. exists j. do 3 (split; [done|]).
  destruct (call w) as [| |kont|ops l timed|v| |] eqn:Ec; try done; [by destruct Hc| | |].
  - destruct (listening_stage c j k _ w ops l timed Hok Hj Hs Ec Hst')
      as (Hl & _ & _ & _ & s & q & (_ & _ & Hse) & Hg & Hq & Hsq & Hb & _ & _).
    split; [done|]. change (drop j (emitted w)) with (since j w). unfold heard.
    destruct (heard_cases ops (since j w) []) as [[v|] E]; rewrite E.
    + rewrite Hsq, Hg in E. destruct (caller_finishes q w s ops l timed v Ec Hse Hq E) as (m & w' & Hm & H).
      exists m, w'. split; [lia|done].
    + intros H. by apply (ends_since ops j k w Hjk H).
  - destruct Hc as (ops & t & Hl & Ht & Hkt & Hh). exists ops, t. split_and!; try done; lia.
  - destruct Hc as (ops & t & Hl & Ht & Hkt & Hh). exists ops, t. split_and!; try done; [lia|].
    intros H. revert Hh. unfold heard. apply ends_heard. replace k with (j + (k - j)) in H by lia.
    rewrite <-drop_drop in H. rewrite <-(take_drop (k - j) (drop j _)). apply Exists_app. by right.
Qed.
End listening.

(** ** Witness *)
Section witnesses.
#[local] Existing Instance demo_platform.
#[local] Existing Instance Node.demo_types.
#[local] Existing Instance GossipTopics.demo_types.
#[local] Existing Instance Gossipsub.demo_gossip.
#[local] Existing Instance Kad.demo_kad.
#[local] Existing Instance SwarmLoop.demo_broadcast.
#[local] Existing Instance SwarmLoop.demo_broadcast_laws.

Definition DemoEvent : Type := SwarmEvents.libp2p.SwarmEvent (Node.BehaviourEvent (P := demo_platform)).
(** A receiver the channel does not know is behind. *)
#[local] Instance demo_lag : Lag DemoEvent.
Proof.
  refine (@Build_Lag DemoEvent SwarmLoop.demo_broadcast SwarmLoop.demo_broadcast_laws
    (λ r c, negb (bool_decide (is_Some (SwarmLoop.dc_queues c !! r)))) _).
  intros r c q Hq. cbn in Hq. by rewrite bool_decide_true by (by exists q).
Defined.

(** The node is the events it will emit; peer 5 answers queries. *)
Definition demo_answer : DemoEvent :=
  SwarmEvents.libp2p.Behaviour (Node.BAdvertise (Advertise.QueryAnswered (5%N : @PeerId demo_platform) (Some [6%N]))).
Definition demo_other : DemoEvent := SwarmEvents.libp2p.Behaviour Node.BOther.
Definition demo_next (n : list DemoEvent) : option (DemoEvent * list DemoEvent) :=
  match n with ev :: n => Some (ev, n) | [] => None end.
Definition demo_request (ev : Node.Rx (P := demo_platform)) (n : list DemoEvent) : list DemoEvent :=
  match ev with Node.RAdvertise (Advertise.QueryAdvertisedPeer _) => n ++ [demo_answer] | _ => n end.
Definition demo_call : Call (P := demo_platform) := QueryAdvertisedPeer (5%N : @PeerId demo_platform).
Definition demo_run (p : Phase) (steps : list Step) :=
  run demo_next (λ _ n, n) demo_request SwarmLoop.Config_default 1%N steps
    (start SwarmLoop.Config_default [demo_other] p).
Definition demo_steps : list (Step (P := demo_platform)) :=
  [Caller; Caller; Others (SwarmLoop.Turn SwarmLoop.BRequest); Others (SwarmLoop.Turn SwarmLoop.BEvent);
   Others (SwarmLoop.Turn SwarmLoop.BEvent)].

(** The request taken, an event and then the answer emitted before the caller
    goes on: two receptions later it has the answer. *)
Lemma demo_waits : sent <$> demo_run (program demo_call) demo_steps = Some (Some (request demo_call, 0)).
Proof. vm_cast_no_check (eq_refl (Some (Some (request demo_call, 0)))). Qed.
Lemma demo_answered : call <$> demo_run (program demo_call) (demo_steps ++ [Caller; Caller]) =
  Some (Finished (HQueried (Ok (Some [6%N])))).
Proof.
  vm_cast_no_check (eq_refl (Some (Finished (HQueried (Ok (Some ([6%N] : list (@PeerId demo_platform)))))))).
Qed.

(** The other way round the same answer is missed: sent first and subscribed
    after the answer was emitted, the caller waits until its time is over. *)
Definition late (relay : @PeerId demo_platform) : Phase :=
  Sending (Node.RAdvertise (Advertise.QueryAdvertisedPeer relay)) (Subscribing (Listens (queried relay) [] true)).
Lemma late_subscriber_misses_the_answer :
  call <$> demo_run (late (5%N : @PeerId demo_platform))
    [Caller; Others (SwarmLoop.Turn SwarmLoop.BRequest); Others (SwarmLoop.Turn SwarmLoop.BEvent);
     Others (SwarmLoop.Turn SwarmLoop.BEvent); Caller; Caller; Deadline] = Some TimedOut.
Proof. vm_cast_no_check (eq_refl (Some (TimedOut (P := demo_platform)))). Qed.

Lemma listening_call_gets_its_answer_witness : ∃ w k,
  demo_run (program demo_call) demo_steps = Some w ∧ sent w = Some (request demo_call, k) ∧
  ∃ j, subscribed_at w = Some j ∧ j ≤ k ∧ k ≤ length (emitted w).
Proof.
  pose proof demo_waits as Hs. destruct (demo_run _ _) as [w|] eqn:Hw; [|done]. injection Hs as Hs.
  exists w, 0. split; [done|]. split; [exact Hs|].
  destruct (listening_call_gets_its_answer demo_next (λ _ n, n) demo_request SwarmLoop.Config_default 1%N demo_call
    [demo_other] demo_steps w _ 0 eq_refl Hw Hs) as (_ & j & Hj & Hjk & Hk & _).
  exists j. by split_and!.
Defined.
End witnesses.
End Listening.
