(* ===== verification/Callbacks.v ===== *)
(** * The callbacks of the whole node

    Module [Callbacks]: requests, the swarm's polls of the behaviours, the
    handlers of all connections and what happens to the connections, in any
    order.  A request's callback is in one place at a time: in the queue of a
    behaviour, in a command on its way, with a handler that sends; it leaves
    that place with one answer of its type, or dropped. *)

From stdpp Require Import base gmap sets list strings fin_maps.
From Stdlib Require Import Lia NArith.
From S2P Require Import Prelude Std Core Calls BlobTypes BlobBehaviour BlobBehaviourProps BlobHandler Messaging Advertise.
From S2P Require Import GossipTopics Gossipsub Kad Adapters SwarmEvents SwarmLoop Requests Node BlobHandlerProps.
Import Calls.

Module Callbacks.
Section callbacks.
Context {P : Platform} {T : SwarmEvents.EventTypes} {S : Type} {swarm_ops : SwarmEvents.Libp2pSwarm S}.
Context {TT : GossipTopics.TopicTypes} {G : Gossipsub.GossipBehaviour} {K : Kad.Libp2pKad}.
Context {M : Mdns.Libp2pMdns} {A : AutoNat.Libp2pAutonat}.
Context {codec : Codec} {json : Messaging.Json Messaging.Message} {St : Type}.

(** ** What is owed to a callback *)
Inductive Owed := OSend | OMessagingPeers | OState | OUnit | OAdvertisePeers | OSendFile | OAcceptFile.

Definition fits (o : Owed) (a : Node.Answer) : bool :=
  match o, a with
  | OSend, Node.AMessaging (Messaging.AnsSend _) | OMessagingPeers, Node.AMessaging (Messaging.AnsListConnected _)
  | OState, Node.AAdvertise (Advertise.AnsState _) | OUnit, Node.AAdvertise Advertise.AnsUnit
  | OAdvertisePeers, Node.AAdvertise (Advertise.AnsPeers _)
  | OSendFile, Node.ABlob (AnsSendFile _) | OAcceptFile, Node.ABlob (AnsAcceptFile _) => true
  | _, _ => false
  end.
Definition remote (o : Owed) : bool := match o with OSend | OSendFile | OAcceptFile => true | _ => false end.
Definition Debt : Type := Callback * Owed.

(** A debt is paid by an answer of its type, or by dropping a callback that
    waits for a remote. *)
Definition pays (d : Debt) (r : Sent Node.Answer) : Prop :=
  sent_callback r = d.1 ∧ match r with Answered _ a => fits d.2 a = true | Dropped _ => remote d.2 = true end.
Definition accounts (before : list Debt) (sent : list (Sent Node.Answer)) (after : list Debt) : Prop :=
  ∃ paid, Forall2 pays paid sent ∧ before ≡ₚ paid ++ after.

#[export] Instance accounts_proper : Proper ((≡ₚ) ==> (=) ==> (≡ₚ) ==> iff) accounts.
Proof.
  intros b b' Hb s ? <- a a' Ha. split; intros (paid & Hp & Hd); exists paid; (split; [done|]).
  - by rewrite <-Hb, <-Ha.
  - by rewrite Hb, Ha.
Qed.
Lemma accounts_refl l : accounts l [] l.
Proof. exists []. split; [constructor|done]. Qed.
Lemma accounts_trans l1 l2 l3 s1 s2 : accounts l1 s1 l2 → accounts l2 s2 l3 → accounts l1 (s1 ++ s2) l3.
Proof.
  intros (p1 & H1 & E1) (p2 & H2 & E2). exists (p1 ++ p2). split; [by apply Forall2_app|].
  by rewrite E1, E2, app_assoc.
Qed.
Lemma accounts_frame k l sent l' : accounts l sent l' → accounts (l ++ k) sent (l' ++ k).
Proof. intros (p & H & E). exists p. split; [done|]. by rewrite E, app_assoc. Qed.
Lemma accounts_pay d r sent l l' : pays d r → accounts l sent l' → accounts (d :: l) (r :: sent) l'.
Proof. intros Hd (p & H & E). exists (d :: p). split; [by constructor|]. simpl. by rewrite E. Qed.
Lemma accounts_all l sent : Forall2 pays l sent → accounts l sent [].
Proof. intros H. exists l. split; [done|]. by rewrite app_nil_r. Qed.
Lemma accounts_some k l sent l' : accounts l sent l' → accounts (k ++ l) sent (k ++ l').
Proof. rewrite (Permutation_app_comm k l), (Permutation_app_comm k l'). apply accounts_frame. Qed.

(** ** Where callbacks are *)
Definition in_messaging (ev : Messaging.InEvent) : list Debt :=
  match ev with
  | Messaging.SendMessage _ _ cb => [(cb, OSend)]
  | Messaging.ListConnected cb => [(cb, OMessagingPeers)]
  end.
Definition in_advertise (ev : Advertise.InEvent) : list Debt :=
  match ev with
  | Advertise.SetProviderState _ cb | Advertise.GetProviderState cb => [(cb, OState)]
  | Advertise.SetRemoteAdvertisement _ _ cb => [(cb, OUnit)]
  | Advertise.ListAdvertised cb | Advertise.ListConnected cb => [(cb, OAdvertisePeers)]
  | _ => []
  end.
Definition in_post (ev : Messaging.FromBehaviourEvent) : list Debt :=
  match ev with Messaging.PostMessage _ cb => [(cb, OSend)] end.
Definition in_command (ev : FromBehaviourEvent) : list Debt :=
  match ev with
  | NewFileSend _ _ cb _ => [(cb, OSendFile)]
  | HAcceptFile _ cb => [(cb, OAcceptFile)]
  | _ => []
  end.
Definition in_notify {E H} (f : H → list Debt) (ev : ToSwarm E H) : list Debt :=
  match ev with NotifyHandler _ _ h => f h | _ => [] end.
Definition in_send_type (t : SendType) : list Debt :=
  match t with
  | ControlSend (Some cb) _ => [(cb, OSendFile)]
  | ControlRecv (Some cb) => [(cb, OAcceptFile)]
  | _ => []
  end.

Definition messaging_debts (b : Messaging.Behaviour) : list Debt := mbind in_messaging (Messaging.in_events b).
Definition advertise_debts (b : Advertise.Behaviour) : list Debt := mbind in_advertise (Advertise.in_events b).
Definition blob_debts (b : Behaviour) : list Debt := mbind (in_notify in_command) (pending_handler_event b).
Definition messaging_busy (o : option (Messaging.OutboundState St)) : list Debt :=
  match o with Some (Messaging.Busy _ cb _) => [(cb, OSend)] | _ => [] end.
Definition messaging_handler_debts (h : Messaging.Handler St) : list Debt :=
  messaging_busy (Messaging.outbound h) ++ (mbind in_post (Messaging.pending_in_events h)).
Definition blob_busy (o : option (OutboundState St)) : list Debt :=
  match o with Some (Busy _ t _) => in_send_type t | _ => [] end.
Definition blob_handler_debts (h : Handler St) : list Debt :=
  blob_busy (outbound h) ++ (mbind in_command (pending_in_events h)).

(** ** The behaviours' queues *)
Lemma messaging_poll_accounts s p s' sent : Messaging.poll s = (p, s', sent) →
  accounts (messaging_debts s) (Node.wrap Node.AMessaging sent)
    (match p with Ready ev => in_notify in_post ev | Pending => [] end ++ messaging_debts s').
Proof.
  unfold Messaging.poll, Messaging.handle_in_events. destruct (Messaging.out_events s) as [|ev evs];
    [|intros [= <- <- <-]; apply accounts_refl].
  assert (∀ peers evs r rest l, Messaging.take_in_events peers evs = (r, rest, l) →
    accounts (mbind in_messaging evs) (Node.wrap Node.AMessaging l)
      (match r with Some ev => in_notify in_post ev | None => [] end ++ mbind in_messaging rest)) as H.
  { intros peers. induction evs as [|[peer m cb|cb] evs IH]; intros r rest l; cbn.
    - intros [= <- <- <-]. apply accounts_refl.
    - destruct decide; [intros [= <- <- <-]; apply accounts_refl|].
      destruct (Messaging.take_in_events peers evs) as [[r1 rest1] l1]. intros [= <- <- <-].
      by apply accounts_pay, IH.
    - destruct (Messaging.take_in_events peers evs) as [[r1 rest1] l1]. intros [= <- <- <-].
      by apply accounts_pay, IH. }
  destruct (Messaging.take_in_events _ _) as [[r rest] l] eqn:E. apply H in E.
  destruct r as [ev|]; intros [= <- <- <-]; exact E.
Qed.

Lemma advertise_events_account evs : ∀ s r s' sent, Advertise.handle_events evs s = (r, s', sent) →
  accounts (mbind in_advertise evs) (Node.wrap Node.AAdvertise sent) (advertise_debts s').
Proof.
  induction evs as [|ev evs IH]; intros s r s' sent; cbn; [intros [= <- <- <-]; apply accounts_refl|].
  destruct ev as [t cb|cb|peer|remote st cb|peer| |cb|cb]; cbn.
  - intros [= <- <- <-]. apply accounts_pay; [done|apply accounts_refl].
  - intros [= <- <- <-]. apply accounts_pay; [done|apply accounts_refl].
  - destruct decide; [intros [= <- <- <-]; apply accounts_refl|]. apply IH.
  - intros [= <- <- <-]. apply accounts_pay; [done|apply accounts_refl].
  - intros [= <- <- <-]. apply accounts_refl.
  - apply IH.
  - destruct (Advertise.handle_events evs s) as [[r1 s1] l1] eqn:E. intros [= <- <- <-].
    apply accounts_pay; [done|]. by eapply IH.
  - destruct (Advertise.handle_events evs s) as [[r1 s1] l1] eqn:E. intros [= <- <- <-].
    apply accounts_pay; [done|]. by eapply IH.
Qed.
Lemma advertise_poll_accounts s p s' sent : Advertise.poll s = (p, s', sent) →
  accounts (advertise_debts s) (Node.wrap Node.AAdvertise sent) (advertise_debts s').
Proof.
  unfold Advertise.poll, Advertise.handle_in_event.
  destruct (Advertise.pending_query_answer s); [|intros [= <- <- <-]; apply accounts_refl].
  destruct (Advertise.handle_events _ _) as [[r s1] l] eqn:E. apply advertise_events_account in E.
  destruct r as [ev|]; [by intros [= <- <- <-]|].
  destruct (Advertise.pending_out_events s1); intros [= <- <- <-]; exact E.
Qed.

(** The blob behaviour queues commands without a callback, except for the two
    requests. *)
Definition same_debts (s s' : Behaviour) : Prop := blob_debts s' = blob_debts s.
#[export] Instance same_debts_preorder : PreOrder same_debts.
Proof. split; [by intros s|]. intros s1 s2 s3 H1 H2. unfold same_debts in *. by rewrite H2. Qed.
Lemma same_debts_queue s s' : pending_handler_event s' = pending_handler_event s → same_debts s s'.
Proof. unfold same_debts, blob_debts. by intros ->. Qed.
Lemma notify_debts p ev s : blob_debts (notify_any p ev s) = blob_debts s ++ in_command ev.
Proof. unfold blob_debts. cbn. rewrite bind_app. cbn. by rewrite app_nil_r. Qed.
Lemma notify_same p ev s : in_command ev = [] → same_debts s (notify_any p ev s).
Proof. intros H. unfold same_debts. by rewrite notify_debts, H, app_nil_r. Qed.

Lemma cancel_send_debts id s : same_debts s (cancel_send_by_local_send_id id s).2.
Proof.
  unfold cancel_send_by_local_send_id, remove_send_record.
  repeat case_match; simplify_eq/=; try done; (etransitivity; [|by apply notify_same]; by apply same_debts_queue).
Qed.
Lemma cancel_recv_debts id s : same_debts s (cancel_recv_by_local_recv_id id s).2.
Proof.
  unfold cancel_recv_by_local_recv_id, remove_recv_record.
  repeat case_match; simplify_eq/=; try done;
    (etransitivity; [|by apply same_debts_queue]; etransitivity; [|by apply notify_same]; by apply same_debts_queue).
Qed.
Lemma foldl_debts {X} (f : Behaviour → X → Behaviour) l s :
  (∀ s x, same_debts s (f s x)) → same_debts s (foldl f s l).
Proof. intros Hf. apply foldl_inv; [|done]. intros s' x H. by etransitivity. Qed.
Lemma check_expiry_debts now s s' : check_expiry now s = Return s' → same_debts s s'.
Proof.
  assert (∀ ids s, same_debts s (cancel_sends ids s)) as Hs by (intros; apply foldl_debts; intros; apply cancel_send_debts).
  assert (∀ ids s, same_debts s (cancel_recvs ids s)) as Hr by (intros; apply foldl_debts; intros; apply cancel_recv_debts).
  unfold check_expiry, check_pending_send, check_pending_recv, check_ongoing_send, check_ongoing_recv.
  intros (s1 & H1 & (s2 & H2 & (s3 & H3 & H4)%bind_return)%bind_return)%bind_return.
  transitivity s1; [clear H2 H3 H4|transitivity s2; [clear H1 H3 H4|transitivity s3; [clear H1 H2 H4|clear H1 H2 H3]]];
    case_match; inv_return; auto; reflexivity.
Qed.
Lemma blob_poll_accounts cx now s s' p : BlobBehaviour.poll cx now s = Return (s', p) →
  blob_debts s ≡ₚ match p with Ready ev => in_notify in_command ev | Pending => [] end ++ blob_debts s'.
Proof.
  unfold BlobBehaviour.poll. destruct (delay_poll _ _) as [ready d]. intros H. inv_return.
  match goal with H : (if ready then _ else _) = Return ?s1 |- _ =>
    assert (same_debts s s1) as Hs; [destruct ready; inv_return; [|by apply same_debts_queue]|] end.
  { transitivity (set_expiry_check_throttle d s); [by apply same_debts_queue|].
    etransitivity; [by eapply check_expiry_debts|by apply same_debts_queue]. }
  rewrite <-Hs. unfold pop_event in *. unfold blob_debts.
  match goal with H : match ?l with [] => _ | _ => _ end = _ |- _ => destruct l end; simplify_eq/=; [|done].
  match goal with H : match ?l with [] => _ | _ => _ end = _ |- _ => destruct l eqn:E end; simplify_eq/=; by rewrite ?E.
Qed.

Lemma progress_send_debts now id s s' : progress_ongoing_send now id s = Return s' → same_debts s s'.
Proof.
  unfold progress_ongoing_send. intros H. repeat (case_match; inv_return); try reflexivity;
    try (by apply same_debts_queue);
    (etransitivity; [|by apply same_debts_queue]) || idtac;
    (etransitivity; [|by apply notify_same]; by apply same_debts_queue).
Qed.
Lemma blob_handler_event_debts fuel now peer ev s s' :
  on_connection_handler_event fuel now peer ev s = Return s' → same_debts s s'.
Proof.
  destruct ev as [id content|id rtt|name id total|id|id|id|id|e| | |]; cbn; intros H; inv_return;
    try (by apply same_debts_queue); try done.
  - unfold progress_ongoing_recv in H. repeat (case_match; inv_return); by apply same_debts_queue.
  - apply progress_send_debts in H. etransitivity; [|exact H]. case_match; [by apply same_debts_queue|done].
  - unfold on_new_pending_recv, next_recv_id in H. inv_return. by apply same_debts_queue.
  - assert (∀ r s1, pending_send_accepted now id s = Return (r, s1) → same_debts s s1) as Hacc.
    { intros r0 s1 Hr. unfold pending_send_accepted in Hr. repeat (case_match; inv_return); try done;
        (etransitivity; [|by eapply progress_send_debts]; by apply same_debts_queue). }
    case_match; inv_return; [|by eapply Hacc]. etransitivity; [by eapply Hacc|by apply same_debts_queue].
  - unfold remove_send_record. repeat case_match; by apply same_debts_queue.
  - unfold remove_recv_by_remote_send_id in H. repeat (case_match; inv_return); by apply same_debts_queue.
Qed.
Lemma blob_swarm_event_debts ev s : same_debts s (on_swarm_event ev s).
Proof. destruct ev as [info|]; [|done]. cbn. unfold on_disconnect. case_match; [by apply same_debts_queue|done]. Qed.

(** ** Requests *)
Definition in_blob (ev : InEvent) : list Debt :=
  match ev with
  | SendFile _ _ _ cb => [(cb, OSendFile)]
  | AcceptFile _ _ _ cb => [(cb, OAcceptFile)]
  | _ => []
  end.
Definition owed_by (ev : Node.Rx) : list Debt :=
  match ev with
  | Node.RMessaging ev => in_messaging ev
  | Node.RAdvertise ev => in_advertise ev
  | Node.RBlob ev => in_blob ev
  | _ => []
  end.
Definition node_debts (n : Node.Node (S := S)) : list Debt :=
  messaging_debts (Node.messaging n) ++ advertise_debts (Node.advertise n) ++ blob_debts (Node.blob n).

Lemma owed_by_later ev cb : Node.answered_later ev = true → Node.callback_of ev = Some cb →
  ∃ o, owed_by ev = [(cb, o)] ∧ ∀ r, pays (cb, o) r → Node.own_answer ev r.
Proof.
  assert (∀ o, (∀ a, fits o a = true → Node.has_type ev a = true) → (remote o = true → Node.needs_remote ev = true) →
    Node.callback_of ev = Some cb → ∀ r, pays (cb, o) r → Node.own_answer ev r) as H.
  { intros o Hf Hr Hc r [Hcb H]. split; [by rewrite Hcb|]. destruct r; auto. }
  destruct ev as [ev|ev|ev|ev|ev|ev|ev|ev]; try done; destruct ev; cbn; intros Hl [= <-]; try done;
    (eexists; split; [done|]; apply H; try done; intros [| |[]|[]|[]| | | |]; done).
Qed.

Lemma blob_push_debts now ev s s' sent : BlobBehaviour.push_event now ev s = Return (s', sent) →
  (sent = [] ∧ blob_debts s' = blob_debts s ++ in_blob ev) ∨ (sent ≠ [] ∧ same_debts s s').
Proof.
  destruct ev as [file path to cb|file id path cb|cb|cb|cb|id cb|id cb]; cbn; intros H.
  - unfold send_file, next_send_id in H. inv_return. destruct decide; [|].
    + destruct (File.metadata_len _); inv_return; [|by right].
      left. split; [done|]. by rewrite notify_debts.
    + inv_return. unfold send_expect in *. destruct cb_open; [|done]. inv_return. by right.
  - unfold accept_pending_recv in H. destruct (_ !! id); inv_return; [|by right].
    left. split; [done|]. by rewrite notify_debts.
  - inv_return. by right.
  - inv_return. by right.
  - inv_return. by right.
  - destruct (cancel_recv_by_local_recv_id _ _) as [b s1] eqn:E. inv_return. right. split; [done|].
    pose proof (cancel_recv_debts id s) as Hd. by rewrite E in Hd.
  - destruct (cancel_send_by_local_send_id _ _) as [b s1] eqn:E. inv_return. right. split; [done|].
    pose proof (cancel_send_debts id s) as Hd. by rewrite E in Hd.
Qed.

Lemma request_debts now ev n n' sent : Node.handle_incoming_event now ev n = Return (n', sent) →
  (sent = [] ∧ node_debts n' ≡ₚ owed_by ev ++ node_debts n) ∨ (sent ≠ [] ∧ node_debts n' = node_debts n).
Proof.
  intros H. destruct (Node.incoming_event_answers _ _ _ _ _ H) as [_ Ha].
  destruct ev as [ev|ev|ev|ev|ev|ev|ev|ev]; cbn in H.
  - destruct (SwarmEvents.swarm_op_exec ev _) as [s l]. simplify_eq. destruct l; [left|right]; done.
  - simplify_eq. left. split; [done|]. unfold node_debts, messaging_debts. cbn. rewrite bind_app. cbn.
    rewrite app_nil_r. by rewrite (Permutation_app_comm _ (in_messaging ev)), <-app_assoc.
  - simplify_eq. left. split; [done|]. unfold node_debts, advertise_debts. cbn. rewrite bind_app. cbn.
    rewrite app_nil_r. rewrite (Permutation_app_comm _ (in_advertise ev)), <-app_assoc.
    by rewrite app_assoc, (Permutation_app_comm _ (in_advertise ev)), <-app_assoc.
  - inv_return. match goal with H : BlobBehaviour.push_event _ _ _ = _ |- _ => apply blob_push_debts in H as [[-> Hd]|[Hs Hd]] end.
    + left. split; [done|]. unfold node_debts. cbn. rewrite Hd, !app_assoc.
      by rewrite (Permutation_app_comm _ (in_blob ev)), !app_assoc.
    + right. split; [by intros ?%fmap_nil_inv|]. unfold node_debts. cbn. by rewrite Hd.
  - destruct (Kad.map_in_event ev _) as [b l]. simplify_eq. destruct l; [left|right]; done.
  - destruct (AutoNat.map_in_event _ ev) as [b l]. simplify_eq. destruct l; [left|right]; done.
  - destruct (Mdns.map_in_event ev _) as [b l]. simplify_eq. destruct l; [left|right]; done.
  - destruct (Gossipsub.map_in_event _ ev) as [b l]. simplify_eq. destruct l; [left|right]; done.
Qed.

(** ** The handlers *)
Lemma wrap_app {B} (f : B → Node.Answer) l1 l2 : Node.wrap f (l1 ++ l2) = Node.wrap f l1 ++ Node.wrap f l2.
Proof. apply fmap_app. Qed.

Lemma messaging_handler_poll_accounts cx h r h' sent : Messaging.handler_poll cx h = Return (r, h', sent) →
  accounts (messaging_handler_debts h) (Node.wrap Node.AMessaging sent) (messaging_handler_debts h').
Proof.
  assert (∀ h r h' sent, Messaging.poll_outbound cx h = Return (r, h', sent) →
    accounts (messaging_handler_debts h) (Node.wrap Node.AMessaging sent) (messaging_handler_debts h')) as Hout.
  { clear. intros h r h' sent H. refine (loop_inv (Messaging.poll_outbound_body cx)
      (λ st, accounts (messaging_handler_debts h) (Node.wrap Node.AMessaging st.2) (messaging_handler_debts st.1.2))
      (λ st, accounts (messaging_handler_debts h) (Node.wrap Node.AMessaging st.2) (messaging_handler_debts st.1.2))
      _ _ _ (0, h, []) (r, h', sent) (accounts_refl _) H); clear; cbn [fst snd].
    - intros [[k h1] l] [[k2 h2] l2] Hi. cbn [fst snd] in *. unfold Messaging.poll_outbound_body, messaging_handler_debts in *.
      destruct (Messaging.outbound h1) as [[|stream|task cb timer]|]; cbn; intros H; try done.
      + destruct (Messaging.pending_in_events h1) as [|[m cb] evs] eqn:E; cbn in H; inv_return.
        unfold Messaging.progress_in_events in *. by inv_return.
      + destruct (Messaging.cx_send cx k task) as [[[st rtt]|e]|]; inv_return; [|by repeat case_match].
        rewrite wrap_app. eapply accounts_trans; [done|]. cbn. apply accounts_pay; [done|apply accounts_refl].
    - intros [[k h1] l] [[r h2] l2] Hi. cbn [fst snd] in *. unfold Messaging.poll_outbound_body, messaging_handler_debts in *.
      destruct (Messaging.outbound h1) as [[|stream|task cb timer]|] eqn:Eo; cbn; intros H; try (by inv_return).
      + destruct (Messaging.pending_in_events h1) as [|[m cb] evs] eqn:E; cbn in H; inv_return.
        cbn. by rewrite ?E.
      + destruct (Messaging.cx_send cx k task) as [[[st rtt]|e]|]; inv_return.
        * rewrite wrap_app. eapply accounts_trans; [done|]. cbn. apply accounts_pay; [done|apply accounts_refl].
        * case_match. case_match; inv_return; [|done].
          rewrite wrap_app. eapply accounts_trans; [done|]. cbn. apply accounts_pay; [done|apply accounts_refl]. }
  unfold Messaging.handler_poll. destruct (Messaging.state h) as [[]|]; [by intros [= <- <- <-]; apply accounts_refl..|].
  unfold Messaging.poll_active. destruct (Messaging.poll_inbound cx h) as [[ev|] h1] eqn:E.
  - intros [= <- <- <-]. unfold Messaging.poll_inbound in E. repeat case_match; simplify_eq. apply accounts_refl.
  - assert (messaging_handler_debts h1 = messaging_handler_debts h) as <-
      by (unfold Messaging.poll_inbound in E; repeat case_match; by simplify_eq).
    intros H. apply bind_return in H as ([[r1 h2] l] & H & Hr). apply Hout in H. repeat case_match; by simplify_eq.
Qed.

Lemma drop_send_type_pays t : Forall2 pays (in_send_type t) (Node.wrap Node.ABlob (drop_send_type t)).
Proof. destruct t as [[cb|] id|[cb|]| |id]; cbn; repeat constructor. Qed.
Lemma on_sent_pays t rtt (h h' : Handler St) l : on_sent t rtt h = Return (h', l) →
  Forall2 pays (in_send_type t) (Node.wrap Node.ABlob l) ∧ pending_in_events h' = pending_in_events h.
Proof. destruct t as [[cb|] id|[cb|]| |id]; cbn; intros H; inv_return; (split; [repeat constructor|done]). Qed.
Lemma outgoing_debts ev : in_send_type (outgoing ev).1.1 = in_command ev.
Proof. by destruct ev. Qed.
Lemma accounts_snoc l sent k k' sent' : accounts l sent (k' ++ k) → Forall2 pays k' sent' → accounts l (sent ++ sent') k.
Proof. intros H Hp. eapply accounts_trans; [done|]. by exists k'. Qed.

Lemma blob_outbound_accounts cx h r h' sent : poll_outbound cx h = Return (r, h', sent) →
  accounts (blob_handler_debts h) (Node.wrap Node.ABlob sent) (blob_handler_debts h').
Proof.
  intros H. refine (loop_inv (poll_outbound_body cx)
    (λ st, accounts (blob_handler_debts h) (Node.wrap Node.ABlob st.2) (blob_handler_debts st.1.2))
    (λ st, accounts (blob_handler_debts h) (Node.wrap Node.ABlob st.2) (blob_handler_debts st.1.2))
    _ _ _ (0, h, []) (r, h', sent) (accounts_refl _) H); clear; cbn [fst snd].
  - intros [[k h1] l] [[k2 h2] l2] Hi. cbn [fst snd] in *. unfold poll_outbound_body, blob_handler_debts in *.
    destruct (outbound h1) as [[|stream|task t timer]|]; cbn; intros H; try done.
    + destruct (pending_in_events h1) as [|ev evs] eqn:E; cbn in H; inv_return.
      unfold progress_outbound. pose proof (outgoing_debts ev) as Ho.
      destruct (outgoing ev) as [[t bs] mt]. cbn in *. by rewrite Ho.
    + destruct (cx_send cx k task) as [[[st rtt]|e]|]; inv_return; [|by repeat case_match].
      match goal with H : on_sent _ _ _ = _ |- _ => apply on_sent_pays in H as [Hp He] end.
      cbn in *. rewrite He, wrap_app. by eapply accounts_snoc.
  - intros [[k h1] l] [[r h2] l2] Hi. cbn [fst snd] in *. unfold poll_outbound_body, blob_handler_debts in *.
    destruct (outbound h1) as [[|stream|task t timer]|] eqn:Eo; cbn; intros H; try (by inv_return).
    + destruct (pending_in_events h1) as [|ev evs] eqn:E; cbn in H; inv_return. cbn. by rewrite ?E.
    + destruct (cx_send cx k task) as [[[st rtt]|e]|]; inv_return.
      * rewrite wrap_app. eapply accounts_snoc; [done|apply drop_send_type_pays].
      * repeat case_match; inv_return; [|done]. rewrite wrap_app. eapply accounts_snoc; [done|apply drop_send_type_pays].
Qed.
Lemma blob_handler_poll_accounts cx h r h' sent : BlobHandler.poll cx h = Return (r, h', sent) →
  accounts (blob_handler_debts h) (Node.wrap Node.ABlob sent) (blob_handler_debts h').
Proof.
  unfold BlobHandler.poll. destruct (state h) as [[]|]; [by intros [= <- <- <-]; apply accounts_refl..|].
  unfold poll_active. intros H. apply bind_return in H as ([r1 h1] & H & Hr).
  assert (blob_handler_debts h1 = blob_handler_debts h) as <-.
  { unfold poll_inbound in H. repeat case_match; inv_return; try done.
    unfold on_message in *. repeat case_match; by simplify_eq. }
  destruct r1 as [ev|]; [inv_return; apply accounts_refl|].
  apply bind_return in Hr as ([[r2 h2] l] & Ho & Hr). apply blob_outbound_accounts in Ho.
  repeat case_match; by simplify_eq.
Qed.

Lemma messaging_handler_event_accounts ev h h' sent : Messaging.on_connection_event ev h = Return (h', sent) →
  accounts (messaging_handler_debts h) (Node.wrap Node.AMessaging sent) (messaging_handler_debts h').
Proof.
  assert (accounts (messaging_handler_debts h) (Node.wrap Node.AMessaging (Messaging.drop_outbound (Messaging.outbound h)))
    (mbind in_post (Messaging.pending_in_events h))) as Hd.
  { unfold messaging_handler_debts. destruct (Messaging.outbound h) as [[]|]; cbn; try apply accounts_refl.
    apply accounts_pay; [done|apply accounts_refl]. }
  destruct ev as [st|st|a|e| | | |]; cbn; intros H; inv_return; try done; try apply accounts_refl.
  unfold Messaging.on_dial_upgrade_error in *. destruct e; by simplify_eq/=.
Qed.
Lemma blob_handler_connection_accounts ev h h' sent : on_connection_event ev h = Return (h', sent) →
  accounts (blob_handler_debts h) (Node.wrap Node.ABlob sent) (blob_handler_debts h').
Proof.
  assert (accounts (blob_handler_debts h) (Node.wrap Node.ABlob (drop_outbound (outbound h)))
    (mbind in_command (pending_in_events h))) as Hd.
  { unfold blob_handler_debts. destruct (outbound h) as [[]|]; cbn; try apply accounts_refl.
    eexists. split; [apply drop_send_type_pays|done]. }
  destruct ev as [st|st|a|e| | | |]; cbn; intros H; inv_return; try done; try apply accounts_refl.
  unfold on_dial_upgrade_error in *. destruct e; by simplify_eq/=.
Qed.

(** ** The node with its connections

    A connection has the handlers of all protocols; only those of messaging and
    blob are given callbacks.  A command "for any handler" goes to one the swarm
    picks; libp2p drops it when the connection is gone. *)
Record Conn := { c_peer : PeerId; c_messaging : Messaging.Handler St; c_blob : Handler St }.
Record World := { node : Node.Node (S := S); conns : gmap N Conn }.
Definition start (n : Node.Node) : World := {| node := n; conns := ∅ |}.
Definition with_node (n : Node.Node) (w : World) : World := {| node := n; conns := conns w |}.
Definition with_conn (c : N) (x : Conn) (w : World) : World := {| node := node w; conns := <[c := x]> (conns w) |}.
Definition set_c_messaging (h : Messaging.Handler St) (x : Conn) : Conn :=
  {| c_peer := c_peer x; c_messaging := h; c_blob := c_blob x |}.
Definition set_c_blob (h : Handler St) (x : Conn) : Conn :=
  {| c_peer := c_peer x; c_messaging := c_messaging x; c_blob := h |}.

Definition dropped (l : list Debt) : list (Sent Node.Answer) := (λ d, Dropped d.1) <$> l.
Definition notify {H} (debts : H → list Debt) (give : H → Conn → Conn) (peer : PeerId) (ev : H) (to : option N) (w : World)
    : World * list (Sent Node.Answer) :=
  match mbind (M := option) (λ c, (c,.) <$> conns w !! c) to with
  | Some (c, x) => if decide (c_peer x = peer) then (with_conn c (give ev x) w, []) else (w, dropped (debts ev))
  | None => (w, dropped (debts ev))
  end.
Definition give_messaging (ev : Messaging.FromBehaviourEvent) (x : Conn) : Conn :=
  set_c_messaging (Messaging.on_behaviour_event ev (c_messaging x)) x.
Definition give_blob (ev : FromBehaviourEvent) (x : Conn) : Conn :=
  set_c_blob (on_behaviour_event ev (c_blob x)) x.
Definition emitted {E H} (debts : H → list Debt) (give : H → Conn → Conn) (p : Poll (ToSwarm E H)) (to : option N) (w : World)
    : World * list (Sent Node.Answer) :=
  match p with
  | Ready (NotifyHandler peer _ ev) => notify debts give peer ev to w
  | _ => (w, [])
  end.

Inductive Step :=
| Request (now : N) (ev : Node.Rx)
| Libp2p (s : S) (k : Kad.Behaviour) (m : Mdns.Behaviour) (a : AutoNat.Behaviour) (g : Gossipsub.Behaviour)
| Event (ev : Node.Event)
| PollMessaging (to : option N)
| PollAdvertise
| PollBlob (cx : PollCx) (now : N) (to : option N)
| FromMessaging (peer : PeerId) (ev : Messaging.ToBehaviourEvent)
| FromAdvertise (peer : PeerId) (ev : Advertise.ToBehaviour)
| FromBlob (fuel : nat) (now : N) (peer : PeerId) (ev : ToBehaviourEvent)
| Disconnected (ev : FromSwarm)
| Opened (c : N) (peer : PeerId)
| HandleMessaging (c : N) (cx : Messaging.HandlerCx St)
| HandleBlob (c : N) (cx : HandlerCx St)
| MessagingStream (c : N) (ev : ConnectionEvent St)
| BlobStream (c : N) (ev : ConnectionEvent St)
| Closed (c : N).

Definition at_conn (c : N) (f : Conn → outcome (Conn * list (Sent Node.Answer))) (w : World)
    : outcome (World * list (Sent Node.Answer)) :=
  match conns w !! c with
  | Some x => ' (x, sent) ← f x; Return (with_conn c x w, sent)
  | None => Return (w, [])
  end.

Definition step (st : Step) (w : World) : outcome (World * list (Sent Node.Answer)) :=
  let n := node w in
  match st with
  | Request now ev => ' (n, sent) ← Node.handle_incoming_event now ev n; Return (with_node n w, sent)
  | Libp2p s k m a g =>
      Return (with_node (Node.set_swarm s (Node.set_kad k (Node.set_mdns m (Node.set_autonat a (Node.set_gossipsub g n))))) w, [])
  | Event ev => n ← Node.handle_swarm_event ev n; Return (with_node n w, [])
  | PollMessaging to =>
      let '(p, b, sent) := Messaging.poll (Node.messaging n) in
      let '(w, sent') := emitted in_post give_messaging p to (with_node (Node.set_messaging b n) w) in
      Return (w, Node.wrap Node.AMessaging sent ++ sent')
  | PollAdvertise =>
      let '(_, b, sent) := Advertise.poll (Node.advertise n) in
      Return (with_node (Node.set_advertise b n) w, Node.wrap Node.AAdvertise sent)
  | PollBlob cx now to =>
      ' (b, p) ← BlobBehaviour.poll cx now (Node.blob n);
      Return (emitted in_command give_blob p to (with_node (Node.set_blob b n) w))
  | FromMessaging peer ev =>
      Return (with_node (Node.set_messaging (Messaging.on_connection_handler_event peer ev (Node.messaging n)) n) w, [])
  | FromAdvertise peer ev =>
      Return (with_node (Node.set_advertise (Advertise.on_connection_handler_event peer ev (Node.advertise n)) n) w, [])
  | FromBlob fuel now peer ev =>
      b ← on_connection_handler_event fuel now peer ev (Node.blob n);
      Return (with_node (Node.set_blob b n) w, [])
  | Disconnected ev =>
      let n := Node.set_messaging (Messaging.on_swarm_event ev (Node.messaging n)) n in
      let n := Node.set_advertise (Advertise.on_swarm_event ev (Node.advertise n)) n in
      Return (with_node (Node.set_blob (on_swarm_event ev (Node.blob n)) n) w, [])
  | Opened c peer =>
      match conns w !! c, Messaging.handle_established_connection (Node.messaging n),
            handle_established_connection (St := St) (config (Node.blob n)) with
      | None, Ok hm, Ok hb => Return (with_conn c {| c_peer := peer; c_messaging := hm; c_blob := hb |} w, [])
      | _, _, _ => Return (w, [])
      end
  | HandleMessaging c cx =>
      at_conn c (λ x, ' (_, h, sent) ← Messaging.handler_poll cx (c_messaging x);
        Return (set_c_messaging h x, Node.wrap Node.AMessaging sent)) w
  | HandleBlob c cx =>
      at_conn c (λ x, ' (_, h, sent) ← BlobHandler.poll cx (c_blob x);
        Return (set_c_blob h x, Node.wrap Node.ABlob sent)) w
  | MessagingStream c ev =>
      at_conn c (λ x, ' (h, sent) ← Messaging.on_connection_event ev (c_messaging x);
        Return (set_c_messaging h x, Node.wrap Node.AMessaging sent)) w
  | BlobStream c ev =>
      at_conn c (λ x, ' (h, sent) ← on_connection_event ev (c_blob x);
        Return (set_c_blob h x, Node.wrap Node.ABlob sent)) w
  | Closed c =>
      match conns w !! c with
      | Some x =>
          Return ({| node := n; conns := delete c (conns w) |},
                  dropped (messaging_handler_debts (c_messaging x) ++ blob_handler_debts (c_blob x)))
      | None => Return (w, [])
      end
  end.

Fixpoint run (steps : list Step) (w : World) : outcome (World * list (Sent Node.Answer)) :=
  match steps with
  | [] => Return (w, [])
  | st :: steps => ' (w, sent) ← step st w; ' (w, sent') ← run steps w; Return (w, sent ++ sent')
  end.
Definition request (st : Step) : option Node.Rx := match st with Request _ ev => Some ev | _ => None end.
Definition requests (steps : list Step) : list Node.Rx := omap request steps.

(** ** No callback is lost or used twice *)
Definition conn_debts (x : Conn) : list Debt :=
  messaging_handler_debts (c_messaging x) ++ blob_handler_debts (c_blob x).
Definition conns_debts (m : gmap N Conn) : list Debt := mbind (λ p, conn_debts p.2) (map_to_list m).
Definition held (w : World) : list Debt := node_debts (node w) ++ conns_debts (conns w).

Lemma conns_focus m c x : m !! c = Some x → conns_debts m ≡ₚ conn_debts x ++ conns_debts (delete c m).
Proof. intros H. unfold conns_debts. by rewrite <-(map_to_list_delete m c x H). Qed.
Lemma conns_insert m c x : conns_debts (<[c := x]> m) ≡ₚ conn_debts x ++ conns_debts (delete c m).
Proof.
  rewrite (conns_focus _ c x) by apply lookup_insert_eq. by rewrite delete_insert_eq.
Qed.
Lemma dropped_accounts l k : Forall (λ d, remote d.2 = true) l → accounts (l ++ k) (dropped l) k.
Proof.
  intros H. exists l. split; [|done]. unfold dropped. apply Forall2_fmap_r, Forall_Forall2_diag.
  eapply Forall_impl; [exact H|]. by intros d Hd.
Qed.
Lemma in_post_remote ev : Forall (λ d, remote d.2 = true) (in_post ev).
Proof. destruct ev. by repeat constructor. Qed.
Lemma in_command_remote ev : Forall (λ d, remote d.2 = true) (in_command ev).
Proof. destruct ev; by repeat constructor. Qed.
Lemma conn_remote x : Forall (λ d, remote d.2 = true) (conn_debts x).
Proof.
  unfold conn_debts, messaging_handler_debts, blob_handler_debts. rewrite !Forall_app. split_and!.
  - destruct (Messaging.outbound _) as [[]|]; by repeat constructor.
  - apply Forall_bind, Forall_forall. intros ev _. apply in_post_remote.
  - destruct (outbound _) as [[| |task [[cb|] id|[cb|]| |id] timer]|]; by repeat constructor.
  - apply Forall_bind, Forall_forall. intros ev _. apply in_command_remote.
Qed.

Lemma at_conn_accounts c f w w' sent : at_conn c f w = Return (w', sent) →
  (∀ x x' l, f x = Return (x', l) → accounts (conn_debts x) l (conn_debts x')) →
  accounts (held w) sent (held w').
Proof.
  unfold at_conn, held. intros H Hf. destruct (conns w !! c) as [x|] eqn:Ec; inv_return; [|apply accounts_refl].
  cbn. rewrite (conns_focus _ _ _ Ec), conns_insert. apply accounts_some, accounts_frame. by apply Hf.
Qed.

Lemma notify_accounts {H} (debts : H → list Debt) give peer ev to w w' sent :
  notify debts give peer ev to w = (w', sent) →
  Forall (λ d, remote d.2 = true) (debts ev) → (∀ x, conn_debts (give ev x) ≡ₚ debts ev ++ conn_debts x) →
  accounts (debts ev ++ held w) sent (held w').
Proof.
  intros Hn Hr Hg. unfold notify in Hn.
  destruct to as [c|]; cbn in Hn; [|simplify_eq; by apply dropped_accounts].
  destruct (conns w !! c) as [x|] eqn:Ec; cbn in Hn; [|simplify_eq; by apply dropped_accounts].
  destruct decide; simplify_eq; [|by apply dropped_accounts].
  unfold held. cbn. rewrite conns_insert, Hg, (conns_focus _ _ _ Ec).
  rewrite <-!app_assoc. rewrite !(app_assoc _ (debts ev)), (Permutation_app_comm _ (debts ev)), <-!app_assoc.
  apply accounts_refl.
Qed.
Lemma emitted_accounts {E H} (debts : H → list Debt) give (p : Poll (ToSwarm E H)) to w w' sent :
  emitted debts give p to w = (w', sent) →
  (∀ ev, Forall (λ d, remote d.2 = true) (debts ev)) → (∀ ev x, conn_debts (give ev x) ≡ₚ debts ev ++ conn_debts x) →
  accounts (match p with Ready ev => in_notify debts ev | Pending => [] end ++ held w) sent (held w').
Proof.
  intros He Hr Hg. unfold emitted in He. destruct p as [[]|]; simplify_eq/=; try apply accounts_refl.
  by eapply notify_accounts.
Qed.
Lemma give_messaging_debts ev x : conn_debts (give_messaging ev x) ≡ₚ in_post ev ++ conn_debts x.
Proof.
  unfold conn_debts, messaging_handler_debts. cbn. rewrite bind_app. cbn. rewrite app_nil_r.
  rewrite !app_assoc. by rewrite (Permutation_app_comm _ (in_post ev)), !app_assoc.
Qed.
Lemma give_blob_debts ev x : conn_debts (give_blob ev x) ≡ₚ in_command ev ++ conn_debts x.
Proof.
  unfold conn_debts, blob_handler_debts. cbn. rewrite bind_app. cbn. rewrite app_nil_r.
  by rewrite !app_assoc, (Permutation_app_comm _ (in_command ev)), !app_assoc.
Qed.

Lemma step_accounts st w w' sent : step st w = Return (w', sent) → request st = None →
  accounts (held w) sent (held w').
Proof.
  intros H Hr. destruct st as [now ev|s k m a g|ev|to| |cx now to|p ev|p ev|fuel now p ev|ev|c p|c cx|c cx|c ev|c ev|c];
    cbn [step] in H; try done.
  - inv_return. apply accounts_refl.
  - inv_return. match goal with H : Node.handle_swarm_event _ _ = _ |- _ => apply Node.handle_swarm_event_spec in H as -> end.
    apply accounts_refl.
  - destruct (Messaging.poll _) as [[p b] l] eqn:Ep. destruct (emitted _ _ _ _ _) as [w1 l1] eqn:Ee.
    injection H as <- <-. apply messaging_poll_accounts in Ep.
    eapply accounts_trans; [|eapply emitted_accounts; [exact Ee|apply in_post_remote|apply give_messaging_debts]].
    unfold held, node_debts. cbn. rewrite <-!app_assoc, !(app_assoc _ (messaging_debts b)). by apply accounts_frame.
  - destruct (Advertise.poll _) as [[p b] l] eqn:Ep. injection H as <- <-. apply advertise_poll_accounts in Ep.
    unfold held, node_debts. cbn. rewrite <-!app_assoc. by apply accounts_some, accounts_frame.
  - inv_return. match goal with H : BlobBehaviour.poll _ _ _ = _ |- _ => apply blob_poll_accounts in H as Hb end.
    destruct (emitted _ _ _ _ _) as [w1 l1] eqn:Ee. simplify_eq.
    apply emitted_accounts in Ee; [|apply in_command_remote|apply give_blob_debts].
    eapply accounts_proper; [|done|done|exact Ee]. unfold held, node_debts. cbn. rewrite Hb.
    generalize (match p with Ready ev => in_notify in_command ev | Pending => [] end). intros l.
    rewrite <-!app_assoc, !(app_assoc _ l), (Permutation_app_comm _ l), <-!app_assoc.
    by rewrite (app_assoc _ l), (Permutation_app_comm _ l), <-!app_assoc.
  - inv_return. unfold held, node_debts. cbn. apply accounts_frame, accounts_frame.
    unfold messaging_debts, Messaging.on_connection_handler_event, Messaging.on_handler_event.
    repeat case_match; apply accounts_refl.
  - inv_return. unfold held, node_debts. cbn. apply accounts_frame, accounts_some, accounts_frame.
    unfold advertise_debts, Advertise.on_connection_handler_event. repeat case_match; apply accounts_refl.
  - inv_return. match goal with H : on_connection_handler_event _ _ _ _ _ = _ |- _ => apply blob_handler_event_debts in H as Hb end.
    unfold held, node_debts. cbn. rewrite Hb. apply accounts_refl.
  - inv_return. unfold held, node_debts. cbn. rewrite (blob_swarm_event_debts ev).
    unfold messaging_debts, advertise_debts, Messaging.on_swarm_event, Messaging.on_disconnect, Advertise.on_swarm_event.
    repeat case_match; apply accounts_refl.
  - destruct (conns w !! c) eqn:Ec; cbn in H; inv_return; [apply accounts_refl|].
    unfold held. cbn. rewrite conns_insert, delete_id by done. apply accounts_refl.
  - eapply at_conn_accounts; [exact H|]. intros x x' l Hx. inv_return.
    apply accounts_frame. by eapply messaging_handler_poll_accounts.
  - eapply at_conn_accounts; [exact H|]. intros x x' l Hx. inv_return.
    apply accounts_some. by eapply blob_handler_poll_accounts.
  - eapply at_conn_accounts; [exact H|]. intros x x' l Hx. inv_return.
    apply accounts_frame. by eapply messaging_handler_event_accounts.
  - eapply at_conn_accounts; [exact H|]. intros x x' l Hx. inv_return.
    apply accounts_some. by eapply blob_handler_connection_accounts.
  - destruct (conns w !! c) as [x|] eqn:Ec; inv_return; [|apply accounts_refl].
    unfold held. cbn. rewrite (conns_focus _ _ _ Ec). apply accounts_some, dropped_accounts, conn_remote.
Qed.

(** What a run has settled, and for which request. *)
Definition owes (ev : Node.Rx) (d : Debt) : Prop :=
  Node.callback_of ev = Some d.1 ∧ Node.answered_later ev = true ∧ ∀ r, pays d r → Node.own_answer ev r.
Definition with_callback (evs : list Node.Rx) : list Node.Rx := filter (λ ev, is_Some (Node.callback_of ev)) evs.
Definition settled (evs : list Node.Rx) (sent : list (Sent Node.Answer)) (debts : list Debt) : Prop :=
  ∃ (dn : list (Node.Rx * Sent Node.Answer)) (op : list (Node.Rx * Debt)),
    with_callback evs ≡ₚ dn.*1 ++ op.*1 ∧ sent ≡ₚ dn.*2 ∧ debts ≡ₚ op.*2 ∧
    Forall (λ p, Node.own_answer p.1 p.2) dn ∧ Forall (λ p, owes p.1 p.2) op.

Lemma pay_off (op : list (Node.Rx * Debt)) sent : Forall (λ p, owes p.1 p.2) op → Forall2 pays op.*2 sent →
  ∃ dn : list (Node.Rx * Sent Node.Answer), dn.*1 = op.*1 ∧ dn.*2 = sent ∧ Forall (λ p, Node.own_answer p.1 p.2) dn.
Proof.
  intros Ho. revert sent. induction Ho as [|[ev d] op (_ & _ & H) _ IH]; intros sent Hp; cbn in Hp.
  - apply Forall2_nil_inv_l in Hp as ->. by exists [].
  - apply Forall2_cons_inv_l in Hp as (r & rest & Hr & Hp & ->). destruct (IH _ Hp) as (dn & E1 & E2 & Hd).
    exists ((ev, r) :: dn). cbn. rewrite E1, E2. split_and!; try done. constructor; [by apply H|done].
Qed.
Lemma settled_accounts evs sent debts sent' debts' :
  settled evs sent debts → accounts debts sent' debts' → settled evs (sent ++ sent') debts'.
Proof.
  intros (dn & op & Ev & Es & Ed & Hd & Ho) (paid & Hp & E).
  assert (∃ l, paid ++ debts' = map snd l ∧ op ≡ₚ l) as (l & El & Hl).
  { apply Permutation_map_inv. change (map snd op) with op.*2. by rewrite <-Ed. }
  symmetry in El. apply fmap_app_inv in El as (l1 & l2 & -> & -> & ->).
  rewrite Hl in Ho. apply Forall_app in Ho as [Ho1 Ho2]. destruct (pay_off l1 sent' Ho1 Hp) as (dn' & E1 & E2 & Hd').
  exists (dn ++ dn'), l2. rewrite !fmap_app, E1, E2. split_and!; try done.
  - by rewrite Ev, Hl, fmap_app, app_assoc.
  - by rewrite Es.
  - by apply Forall_app.
Qed.
Lemma settled_request now ev w w' evs sent sent' : step (Request now ev) w = Return (w', sent') →
  settled evs sent (held w) → settled (evs ++ [ev]) (sent ++ sent') (held w').
Proof.
  intros H (dn & op & Ev & Es & Ed & Hd & Ho). cbn in H. inv_return.
  match goal with H : Node.handle_incoming_event _ _ _ = _ |- _ =>
    pose proof (Node.incoming_event_answers _ _ _ _ _ H) as [_ Ha]; apply request_debts in H as Hr end.
  unfold settled, with_callback, held in *. rewrite filter_app, filter_cons, filter_nil. cbn [node conns with_node] in *.
  destruct sent' as [|r [|]]; [| |done].
  - destruct Hr as [[_ Hr]|[[] _]]; [|done]. rewrite app_nil_r.
    destruct (Node.callback_of ev) as [cb|] eqn:Ec.
    + rewrite decide_True by done. destruct Ha as [Hl|Hn]; [|by rewrite Ec in Hn].
      destruct (owed_by_later ev cb Hl Ec) as (o & Eo & Hpay). rewrite Eo in Hr.
      exists dn, ((ev, (cb, o)) :: op). cbn. split_and!; try done.
      * by rewrite Ev, <-app_assoc, (Permutation_app_comm op.*1 [ev]).
      * by rewrite Hr, <-app_assoc, Ed.
      * by constructor.
    + rewrite decide_False, app_nil_r by (by intros [? [=]]). exists dn, op. split_and!; try done.
      rewrite Hr. destruct ev as [ev|ev|ev|ev|ev|ev|ev|ev]; try done; by destruct ev.
  - destruct Hr as [[[=] _]|[_ Hr]]. destruct Ha as [Hc Ha]. rewrite Hc, decide_True by done.
    exists (dn ++ [(ev, r)]), op. rewrite !fmap_app. cbn. split_and!; try done.
    + by rewrite Ev, <-!app_assoc, (Permutation_app_comm op.*1 [ev]).
    + by rewrite Es.
    + by rewrite Hr.
    + apply Forall_app. split; [done|]. by constructor.
Qed.
Lemma run_settled steps : ∀ w w' evs sent sent', run steps w = Return (w', sent') →
  settled evs sent (held w) → settled (evs ++ requests steps) (sent ++ sent') (held w').
Proof.
  induction steps as [|st steps IH]; intros w w' evs sent sent' H Hs; cbn [run] in H.
  { inv_return. by rewrite !app_nil_r. }
  apply bind_return in H as ([w1 s1] & H1 & ([w2 s2] & H2 & H)%bind_return). injection H as <- <-.
  assert (requests (st :: steps) = option_list (request st) ++ requests steps) as ->
    by (unfold requests; cbn; by destruct (request st)).
  rewrite !app_assoc. apply (IH w1); [done|].
  destruct (request st) as [ev|] eqn:Er; cbn.
  - destruct st; try done. injection Er as ->. by eapply settled_request.
  - rewrite app_nil_r. eapply settled_accounts; [done|]. by eapply step_accounts.
Qed.

(** ** What becomes of a request *)
Definition id_of (r : Sent Node.Answer) : N := cb_id (sent_callback r).
(** The ids of the callbacks of requests: each request brings its own. *)
Definition ids (evs : list Node.Rx) : list N := omap (λ ev, cb_id <$> Node.callback_of ev) evs.

Lemma ids_with_callback evs : ids evs = ids (with_callback evs).
Proof.
  unfold ids, with_callback. induction evs as [|ev evs IH]; [done|]. rewrite filter_cons. cbn.
  destruct (Node.callback_of ev) eqn:E.
  - rewrite decide_True by done. cbn. by rewrite E, IH.
  - rewrite decide_False by (by intros [? [=]]). by rewrite IH.
Qed.
Lemma ids_perm evs evs' : evs ≡ₚ evs' → ids evs ≡ₚ ids evs'.
Proof. intros H. unfold ids. by rewrite H. Qed.
Lemma ids_app evs evs' : ids (evs ++ evs') = ids evs ++ ids evs'.
Proof. apply omap_app. Qed.
Lemma ids_done (dn : list (Node.Rx * Sent Node.Answer)) : Forall (λ p, Node.own_answer p.1 p.2) dn →
  ids dn.*1 = id_of <$> dn.*2.
Proof.
  unfold ids. induction 1 as [|[ev r] dn [Hc _] _ IH]; [done|]. cbn in *. rewrite Hc. cbn. by rewrite IH.
Qed.
Lemma ids_open (op : list (Node.Rx * Debt)) : Forall (λ p, owes p.1 p.2) op → ids op.*1 = (λ d, cb_id d.1) <$> op.*2.
Proof.
  unfold ids. induction 1 as [|[ev d] op [Hc _] _ IH]; [done|]. cbn in *. rewrite Hc. cbn. by rewrite IH.
Qed.

Lemma filter_none {X} (f : X → N) (l : list X) k : k ∉ f <$> l → filter (λ y, f y = k) l = [].
Proof.
  induction l as [|y l IH]; intros H; [done|]. cbn in H. apply not_elem_of_cons in H as [Hy Hl].
  rewrite filter_cons, decide_False by done. by apply IH.
Qed.
Lemma filter_unique {X} (f : X → N) (l : list X) x : NoDup (f <$> l) → x ∈ l → filter (λ y, f y = f x) l = [x].
Proof.
  induction l as [|y l IH]; intros Hn Hx; [by apply not_elem_of_nil in Hx|].
  apply NoDup_cons in Hn as [Hy Hn]. rewrite filter_cons. apply elem_of_cons in Hx as [->|Hx].
  - rewrite decide_True by done. f_equal. by apply filter_none.
  - rewrite decide_False; [by apply IH|]. intros E. apply Hy. rewrite E. by apply list_elem_of_fmap_2.
Qed.
Lemma handle_callback_filter id sent :
  handle_callback id sent =
  match filter (λ r, id_of r = id) sent with
  | [] => Return Pending
  | Answered _ a :: _ => Return (Ready a)
  | Dropped _ :: _ => Panic CALLBACK_CLEAR
  end.
Proof.
  induction sent as [|r sent IH]; [done|]. cbn [handle_callback]. rewrite filter_cons. unfold id_of at 1.
  destruct decide; [by destruct r|exact IH].
Qed.

(** What the caller of a request finds after a run. *)
Definition outcome_of (ev : Node.Rx) (cb : Callback) (w : World) (sent : list (Sent Node.Answer)) : Prop :=
  (∃ r, filter (λ r, id_of r = cb_id cb) sent = [r] ∧ Node.own_answer ev r ∧
     handle_callback (cb_id cb) sent =
       match r with Answered _ a => Return (Ready a) | Dropped _ => Panic CALLBACK_CLEAR end) ∨
  (filter (λ r, id_of r = cb_id cb) sent = [] ∧ handle_callback (cb_id cb) sent = Return Pending ∧
     Node.answered_later ev = true ∧ ∃ o, filter (λ d, cb_id d.1 = cb_id cb) (held w) = [(cb, o)]).

Lemma settled_outcome evs sent w : NoDup (ids evs) → settled evs sent (held w) →
  (∀ ev cb, ev ∈ evs → Node.callback_of ev = Some cb → outcome_of ev cb w sent) ∧
  (∀ r, r ∈ sent → ∃ ev, ev ∈ evs ∧ Node.own_answer ev r).
Proof.
  intros Hn (dn & op & Ev & Es & Ed & Hd & Ho). rewrite ids_with_callback in Hn.
  pose proof (ids_perm _ _ Ev) as Ei. rewrite Ei, ids_app, (ids_done dn Hd), (ids_open op Ho) in Hn.
  rewrite <-Es, <-Ed in Hn. apply NoDup_app in Hn as (Hns & Hdis & Hno). rewrite Forall_forall in Hd. rewrite Forall_forall in Ho. split.
  - intros ev cb Hev Hc. assert (ev ∈ with_callback evs) as Hin by (apply list_elem_of_filter; by rewrite Hc).
    rewrite Ev in Hin. unfold outcome_of. rewrite handle_callback_filter.
    apply elem_of_app in Hin as [([ev' r] & -> & Hp)%list_elem_of_fmap|([ev' d] & -> & Hp)%list_elem_of_fmap]; cbn in *.
    + left. pose proof (Hd _ Hp) as [Hr Hown]. cbn in Hr, Hown. exists r. rewrite Hr in Hc. injection Hc as <-.
      change (cb_id (sent_callback r)) with (id_of r). rewrite (filter_unique id_of sent r Hns).
      * by split_and!.
      * rewrite Es. by apply (list_elem_of_fmap_2 snd _ (ev', r)).
    + right. destruct (Ho _ Hp) as (Hr & Hl & _). cbn in Hr. rewrite Hr in Hc. injection Hc as <-.
      assert (d ∈ held w) as Hh by (rewrite Ed; by apply (list_elem_of_fmap_2 snd _ (ev', d))).
      rewrite (filter_none id_of).
      * split_and!; try done. exists d.2. destruct d. exact (filter_unique (λ d : Debt, cb_id d.1) (held w) _ Hno Hh).
      * intros Hs. apply (Hdis _ Hs). by apply (list_elem_of_fmap_2 (λ d : Debt, cb_id d.1)).
  - intros r Hr. rewrite Es in Hr. apply list_elem_of_fmap in Hr as ([ev r'] & -> & Hp). exists ev.
    split; [|by apply (Hd _ Hp)]. assert (ev ∈ with_callback evs) as Hin
      by (rewrite Ev; apply elem_of_app; left; by apply (list_elem_of_fmap_2 fst _ (ev, r'))).
    by apply list_elem_of_filter in Hin as [_ ?].
Qed.

Context {C : Node.Constructors (S := S)}.

(** C10: every request to the node gets one answer of its type, or waits.  From
    the node as it is built, whatever requests, polls, events, connections and
    handlers come in whatever order, and if each request brings a callback of
    its own: a callback is answered at most once, with a value of the type its
    request declares; it is dropped only for a message, an offer of a file or
    its acceptance; and until then it is in exactly one place, a queue of a
    behaviour, a command or a handler, which only requests to messaging and
    advertise, offers and acceptances ever are.  The caller accordingly gets the
    answer, panics, or waits.  Nothing is sent on a callback nobody gave. *)
Theorem callbacks_are_settled_once cfg keypair peer_id n steps w sent :
  Node.build cfg keypair peer_id = Return n →
  run steps (start n) = Return (w, sent) → NoDup (ids (requests steps)) →
  (∀ ev cb, ev ∈ requests steps → Node.callback_of ev = Some cb → outcome_of ev cb w sent) ∧
  (∀ r, r ∈ sent → ∃ ev, ev ∈ requests steps ∧ Node.own_answer ev r).
Proof.
  intros Hb Hr Hn. apply settled_outcome; [done|].
  apply (run_settled steps (start n) w [] [] sent Hr). exists [], []. split_and!; try done.
  unfold Node.build in Hb. by inv_return.
Qed.
End callbacks.

(** ** Witness *)
Section witnesses.
#[local] Existing Instance demo_platform.
#[local] Existing Instance Node.demo_types.
#[local] Existing Instance Node.demo_swarm.
#[local] Existing Instance GossipTopics.demo_types.
#[local] Existing Instance Gossipsub.demo_gossip.
#[local] Existing Instance Kad.demo_kad.
#[local] Existing Instance Node.demo_mdns.
#[local] Existing Instance Node.demo_autonat.
#[local] Existing Instance Node.demo_constructors.
#[local] Existing Instance BlobHandlerProps.demo_codec.
#[local] Existing Instance Messaging.demo_json.

Definition demo_callback (k : N) : Callback := {| cb_id := k; cb_open := true |}.
Definition demo_message : Messaging.Message (P := demo_platform) :=
  {| Messaging.time := 1; Messaging.from := 1%N : @PeerId demo_platform; Messaging.to := 5%N : @PeerId demo_platform;
     Messaging.msg := "hi" |}.
(** A state that is set, a question to mDNS, a message without a connection to
    its peer, another one over a connection that is still there. *)
Definition demo_steps : list (Step (P := demo_platform) (S := list string) (St := N)) :=
  [Request 0 (Node.RAdvertise (Advertise.SetProviderState true (demo_callback 1)));
   Request 0 (Node.RMdns (Mdns.HasNode (6%N : @PeerId demo_platform) (demo_callback 2)));
   PollAdvertise;
   FromMessaging (5%N : @PeerId demo_platform) Messaging.HOutboundNegotiated;
   PollMessaging None;
   Request 0 (Node.RMessaging (Messaging.SendMessage (5%N : @PeerId demo_platform) demo_message (demo_callback 3)));
   PollMessaging None;
   Opened 1 (5%N : @PeerId demo_platform);
   Request 0 (Node.RMessaging (Messaging.SendMessage (5%N : @PeerId demo_platform) demo_message (demo_callback 4)));
   PollMessaging (Some 1%N)].

Definition demo_sent : list (Sent (Node.Answer (P := demo_platform))) :=
  [Answered (demo_callback 2) (Node.AMdns (Mdns.AnsBool false));
   Answered (demo_callback 1) (Node.AAdvertise (Advertise.AnsState true)); Dropped (demo_callback 3)].

Definition demo_run : option (list (Sent (Node.Answer (P := demo_platform))) * list Debt) :=
  match Node.build (Node.SwarmConfig_default "1") tt (5%N : @PeerId demo_platform) with
  | Return n => match run demo_steps (start n) with Return (w, sent) => Some (sent, held w) | _ => None end
  | _ => None
  end.
Lemma demo_result : demo_run = Some (demo_sent, [(demo_callback 4, OSend)]).
Proof. vm_cast_no_check (eq_refl demo_run). Qed.

Lemma callbacks_are_settled_once_witness :
  ∃ n w sent, Node.build (Node.SwarmConfig_default "1") tt (5%N : @PeerId demo_platform) = Return n ∧
    run demo_steps (start n) = Return (w, sent) ∧
    sent = demo_sent ∧ held w = [(demo_callback 4, OSend)] ∧
    (∀ ev cb, ev ∈ requests demo_steps → Node.callback_of ev = Some cb → outcome_of ev cb w sent) ∧
    (∀ r, r ∈ sent → ∃ ev, ev ∈ requests demo_steps ∧ Node.own_answer ev r).
Proof.
  pose proof demo_result as H. unfold demo_run in H.
  destruct (Node.build _ _ _) as [n| |] eqn:Hb; [|done..].
  destruct (run _ _) as [[w sent]| |] eqn:Hr; [|done..]. injection H as Hs Hh.
  exists n, w, sent. do 4 (split; [done|]).
  apply (callbacks_are_settled_once _ _ _ n demo_steps w sent Hb Hr).
  apply (bool_decide_unpack _). by vm_compute.
Defined.
End witnesses.
End Callbacks.
