(* ===== verification/AllowBlock.v ===== *)
(** * The allow list of peers ([net/p2p/protocols/allow_block_list.rs])

    Module [AllowBlock]: the policy, the behaviour and its decisions about
    connections; then the behaviour among the connections of a swarm.  The file
    is not part of the build.  The waker is kept as the fact that one is
    registered. *)

From stdpp Require Import base gmap sets list strings.
From Stdlib Require Import Lia NArith.
From S2P Require Import Prelude Std Core.

Module AllowBlock.
Section allow.
Context {P : Platform}.

(** ** policy_peer_id *)
Definition AllowPeerId : Type := gset PeerId.
Inductive ConnectionDenied := NotAllowed.
Definition NotAllowed_fmt : string := "NotAllowed".
Definition is_allowed (peer : PeerId) (self : gset PeerId) : bool := bool_decide (peer ∈ self).
(** [HashSet::insert] and [remove] answer whether the set changed. *)
Definition policy_add_peer (peer : PeerId) (self : gset PeerId) : bool * gset PeerId :=
  (negb (bool_decide (peer ∈ self)), {[peer]} ∪ self).
Definition policy_remove_peer (peer : PeerId) (self : gset PeerId) : bool * gset PeerId :=
  (bool_decide (peer ∈ self), self ∖ {[peer]}).
Definition enforce (peer : PeerId) (self : gset PeerId) : result unit ConnectionDenied :=
  if is_allowed peer self then Ok tt else Err NotAllowed.

(** ** behaviour *)
Record Behaviour := {
  policy : gset PeerId;
  pending_disconnect : list PeerId;
  waker : bool;
}.
Definition new (policy : gset PeerId) : Behaviour :=
  {| policy := policy; pending_disconnect := []; waker := false |}.

Definition on_swarm_event (event : FromSwarm) (s : Behaviour) : Behaviour := s.
Definition handle_pending_outbound_connection (maybe_peer : option PeerId) (s : Behaviour)
    : result (list Multiaddr) ConnectionDenied :=
  match maybe_peer with
  | Some peer => match enforce peer (policy s) with Err e => Err e | Ok _ => Ok [] end
  | None => Ok []
  end.
Definition handle_established_inbound_connection (peer : PeerId) (s : Behaviour)
    : result unit ConnectionDenied := enforce peer (policy s).
Definition handle_established_outbound_connection (peer : PeerId) (s : Behaviour)
    : result unit ConnectionDenied := enforce peer (policy s).

Definition poll (s : Behaviour) : Poll (ToSwarm unit unit) * Behaviour :=
  match pending_disconnect s with
  | v :: rest =>
      (Ready (CloseConnection v CloseAll),
       {| policy := policy s; pending_disconnect := rest; waker := waker s |})
  | [] => (Pending, {| policy := policy s; pending_disconnect := []; waker := true |})
  end.

Definition add_peer (peer : PeerId) (s : Behaviour) : bool * Behaviour :=
  let '(added, p) := policy_add_peer peer (policy s) in
  (added, {| policy := p; pending_disconnect := pending_disconnect s; waker := waker s |}).

(** The result, the new state, and whether the task of the swarm is woken. *)
Definition remove_peer (peer : PeerId) (s : Behaviour) : bool * Behaviour * bool :=
  let '(removed, p) := policy_remove_peer peer (policy s) in
  if removed : bool then
    (true, {| policy := p; pending_disconnect := pending_disconnect s ++ [peer]; waker := false |}, waker s)
  else (false, {| policy := p; pending_disconnect := pending_disconnect s; waker := waker s |}, false).

(** ** The behaviour in a swarm

    Connections are opened if the behaviour lets them, and closed by the remote
    or by a command of the behaviour; [parked] says that the task waits to be
    woken. *)
Record World := { behav : Behaviour; connected : gset PeerId; parked : bool }.
Inductive Op :=
| Inbound (peer : PeerId)
| Outbound (maybe_peer : option PeerId) (peer : PeerId)
| Closed (peer : PeerId)
| Add (peer : PeerId)
| Remove (peer : PeerId)
| PollSwarm.

Definition is_ok {A E} (r : result A E) : bool := match r with Ok _ => true | Err _ => false end.
Definition connect (peer : PeerId) (ok : bool) (w : World) : World :=
  if ok then {| behav := behav w; connected := {[peer]} ∪ connected w; parked := parked w |} else w.

Definition step (op : Op) (w : World) : World :=
  match op with
  | Inbound peer => connect peer (is_ok (handle_established_inbound_connection peer (behav w))) w
  | Outbound maybe_peer peer =>
      connect peer (is_ok (handle_pending_outbound_connection maybe_peer (behav w)) &&
                    is_ok (handle_established_outbound_connection peer (behav w))) w
  | Closed peer => {| behav := behav w; connected := connected w ∖ {[peer]}; parked := parked w |}
  | Add peer => {| behav := (add_peer peer (behav w)).2; connected := connected w; parked := parked w |}
  | Remove peer =>
      let '(_, b, woken) := remove_peer peer (behav w) in
      {| behav := b; connected := connected w; parked := parked w && negb woken |}
  | PollSwarm =>
      match poll (behav w) with
      | (Ready (CloseConnection peer _), b) =>
          {| behav := b; connected := connected w ∖ {[peer]}; parked := false |}
      | (Ready _, b) => {| behav := b; connected := connected w; parked := false |}
      | (Pending, b) => {| behav := b; connected := connected w; parked := true |}
      end
  end.
Definition run (ops : list Op) (w : World) : World := foldl (λ w op, step op w) w ops.
Definition start (p : gset PeerId) : World := {| behav := new p; connected := ∅; parked := false |}.

(** Whoever is connected is allowed or about to be disconnected, and the task is
    never parked while there is someone to disconnect. *)
Definition world_ok (w : World) : Prop :=
  (∀ p, p ∈ connected w → p ∈ policy (behav w) ∨ p ∈ pending_disconnect (behav w)) ∧
  (pending_disconnect (behav w) ≠ [] → parked w = false) ∧
  (parked w = true → waker (behav w) = true).

Lemma enforce_ok p s : is_ok (enforce p s) = true ↔ p ∈ s.
Proof. unfold enforce, is_allowed. by case_bool_decide. Qed.

Lemma connect_ok p ok w : world_ok w → (ok = true → p ∈ policy (behav w)) → world_ok (connect p ok w).
Proof.
  intros (Hc & Hp & Hw) Hok. destruct ok; [|done]. split_and!; try done. intros q. simpl.
  rewrite elem_of_union, elem_of_singleton. intros [->|Hq]; [left; by apply Hok|by apply Hc].
Qed.

Lemma step_allowed op w : world_ok w → world_ok (step op w).
Proof.
  intros Hok. pose proof Hok as (Hc & Hp & Hw). destruct op as [p|mp p|p|p|p|]; cbn [step].
  - apply connect_ok; [done|apply enforce_ok].
  - apply connect_ok; [done|]. intros [_ H]%andb_true_iff. by apply enforce_ok.
  - split_and!; try done. intros q [Hq _]%elem_of_difference. by apply Hc.
  - split_and!; try done. intros q Hq. simpl. destruct (Hc q Hq); [left; set_solver|by right].
  - unfold remove_peer, policy_remove_peer. case_bool_decide; cbn.
    + split_and!.
      * intros q Hq. cbn in *. destruct (decide (q = p)) as [->|]; [right; set_solver|].
        destruct (Hc q Hq); [left; set_solver|right; set_solver].
      * intros _. cbn. destruct (parked w) eqn:E; [by rewrite (Hw eq_refl)|done].
      * destruct (parked w) eqn:E; cbn; [by rewrite (Hw eq_refl)|done].
    + split_and!; cbn; try (by rewrite ?andb_true_r).
      intros q Hq. destruct (Hc q Hq); [left; set_solver|by right].
  - unfold poll. destruct (pending_disconnect (behav w)) as [|v rest] eqn:E; cbn.
    + split_and!; cbn; [|intros []; done|done]. intros q Hq.
      destruct (Hc q Hq) as [|Hq']; [by left|by right].
    + split_and!; cbn; try done. intros q [Hq Hne]%elem_of_difference. destruct (Hc q Hq) as [|Hq']; [by left|].
      right. set_solver.
Qed.

Lemma run_allowed ops w : world_ok w → world_ok (run ops w).
Proof.
  unfold run. revert w. induction ops as [|op ops IH]; intros w Hok; [done|]. apply IH. by apply step_allowed.
Qed.

Lemma polls n : ∀ w, length (pending_disconnect (behav w)) ≤ n →
  pending_disconnect (behav (run (replicate n PollSwarm) w)) = [] ∧
  policy (behav (run (replicate n PollSwarm) w)) = policy (behav w).
Proof.
  induction n as [|n IH]; intros w Hn.
  - split; [cbn; apply nil_length_inv; lia|done].
  - cbn [replicate run foldl]. unfold run in IH.
    destruct (IH (step PollSwarm w)) as [H1 H2].
    + cbn. unfold poll. destruct (pending_disconnect (behav w)); cbn in *; lia.
    + split; [done|]. rewrite H2. cbn. unfold poll. by destruct (pending_disconnect (behav w)).
Qed.

(** C32: nobody stays connected without permission.  Whatever connects, closes,
    is allowed or removed, in any order: every connected peer is on the list or
    waits to be disconnected; the task is never left asleep with someone to
    disconnect; and once the swarm has been polled as often as there are peers
    waiting, only peers on the list are connected. *)
Theorem no_connection_outlives_its_permission p ops :
  let w := run ops (start p) in
  (∀ q, q ∈ connected w → q ∈ policy (behav w) ∨ q ∈ pending_disconnect (behav w)) ∧
  (pending_disconnect (behav w) ≠ [] → parked w = false) ∧
  (∀ n q, length (pending_disconnect (behav w)) ≤ n →
     q ∈ connected (run (replicate n PollSwarm) w) → q ∈ policy (behav w)).
Proof.
  intros w. assert (world_ok w) as Hok.
  { apply run_allowed. by split_and!. }
  split; [apply Hok|]. split; [apply Hok|]. intros n q Hn Hq.
  destruct (polls n w Hn) as [Hp Hpol]. destruct (run_allowed (replicate n PollSwarm) w Hok) as (Hc & _ & _).
  destruct (Hc q Hq) as [H|H]; [by rewrite Hpol in H|]. rewrite Hp in H. by apply not_elem_of_nil in H.
Qed.
End allow.
End AllowBlock.
