(* ===== verification/Identity.v ===== *)
(** * The identity of a node ([net/p2p/identity.rs], [get_ident] of [main.rs])

    Module [Identity]: key pairs and their encodings are libp2p's ([Keys], with
    what it documents in [KeyLaws]); an identity, its files, and what the node
    does with the path in its configuration. *)

From stdpp Require Import base gmap sets list strings fin_maps.
From Stdlib Require Import Lia NArith.
From S2P Require Import Prelude Std Files.
Import Files.

Module Identity.

(** libp2p's keys.  [generate_ed25519] takes what the random source gave; an
    RSA key has no encoding. *)
Class Keys {P : Platform} := {
  Keypair : Type;
  PublicKey : Type;
  public : Keypair → PublicKey;
  from_public_key : PublicKey → PeerId;
  generate_ed25519 : N → Keypair;
  encode_protobuf : PublicKey → bytes;
  to_protobuf_encoding : Keypair → option bytes;
  from_protobuf_encoding : bytes → option Keypair;
}.
Class KeyLaws `{Keys} := {
  from_to_protobuf k b : to_protobuf_encoding k = Some b → from_protobuf_encoding b = Some k;
  ed25519_encodes n : is_Some (to_protobuf_encoding (generate_ed25519 n));
}.

Section identity.
Context {P : Platform} {keys : Keys}.

Record IdentityUnion := { keypair : Keypair; peer_id : PeerId }.

Definition from_Keypair (value : Keypair) : IdentityUnion :=
  {| keypair := value; peer_id := from_public_key (public value) |}.
Definition generate (random : N) : IdentityUnion :=
  let keypair := generate_ed25519 random in
  {| keypair := keypair; peer_id := from_public_key (public keypair) |}.
Definition IdentityUnion_default (random : N) : IdentityUnion := generate random.
Definition get_pubkey (self : IdentityUnion) : PublicKey := public (keypair self).
Definition get_keypair (self : IdentityUnion) : Keypair := keypair self.
Definition get_peer_id (self : IdentityUnion) : PeerId := peer_id self.

(** The boxed error: from the file, or from the decoder. *)
Inductive ReadError := FileError (e : ErrorKind) | DecodingError.

Definition from_file_protobuf_encoding (fuel : nat) (path : string) (fs : Fs)
    : outcome (result IdentityUnion ReadError) :=
  r ← read fuel path fs;
  Return (match r with
          | Err e => Err (FileError e)
          | Ok buf =>
              match from_protobuf_encoding buf with
              | None => Err DecodingError
              | Some keypair =>
                  Ok {| keypair := keypair; peer_id := from_public_key (public keypair) |}
              end
          end).

Definition export_to_file (fuel : nat) (path : string) (buf : bytes) (fs : Fs)
    : outcome (result unit ErrorKind * Fs) :=
  match create path fs with
  | (Err e, fs) => Return (Err e, fs)
  | (Ok handle, fs) =>
      ' (r, handle) ← write_all fuel buf handle;
      Return (r, set_file path (on_disk path handle fs) fs)
  end.
Definition export_public_key (fuel : nat) (path : string) (self : IdentityUnion) (fs : Fs) :=
  export_to_file fuel path (encode_protobuf (get_pubkey self)) fs.
Definition export_keypair (fuel : nat) (path : string) (self : IdentityUnion) (fs : Fs)
    : outcome (result unit ErrorKind * Fs) :=
  buf ← expect (to_protobuf_encoding (keypair self)) "Not a RSA key";
  export_to_file fuel path buf fs.

(** [get_ident] of [main.rs]. *)
Definition get_ident (fuel : nat) (random : N) (path : string) (fs : Fs)
    : outcome (result IdentityUnion ErrorKind * Fs) :=
  r ← from_file_protobuf_encoding fuel path fs;
  match r with
  | Ok ident => Return (Ok ident, fs)
  | Err _ =>
      let ident := generate random in
      ' (r, fs) ← export_keypair fuel path ident fs;
      Return (match r with Ok _ => Ok ident | Err e => Err e end, fs)
  end.

(** ** What the files hold *)

(** The peer ID is the one of the key. *)
Definition well_formed (i : IdentityUnion) : Prop := peer_id i = from_public_key (public (keypair i)).

(** The file at [path] will hold at least [k] bytes of [buf], and all of them
    if no error is reported. *)
Lemma export_to_file_spec fuel path buf fs r fs' : export_to_file fuel path buf fs = Return (r, fs') →
  (nodes fs' = nodes fs ∧ r ≠ Ok tt) ∨
  (∃ k g, nodes fs' = <[path := Regular g]> (nodes fs) ∧ f_bytes g = take k buf ∧ f_pos g = 0 ∧
     f_os g = fresh_os fs path ∧ refuse fs' = refuse fs ∧ (r = Ok tt → take k buf = buf)).
Proof.
  unfold export_to_file, create. destruct (refuse fs path); [intros [= <- <-]; by left|].
  intros H.
  assert (nodes fs !! path = Some Directory ∨
          (' (r, g) ← write_all fuel buf (empty_file path fs);
           Return (r, set_file path (on_disk path g (set_file path (empty_file path fs) fs))
                        (set_file path (empty_file path fs) fs))) = Return (r, fs')) as [Hd|H'].
  { destruct (nodes fs !! path) as [[|f]|]; auto. }
  { rewrite Hd in H. injection H as <- <-. by left. }
  inv_return. right. destruct (write_all_spec fuel buf (empty_file path fs) _ _ eq_refl H0) as (k & Hk & Hall).
  eexists k, _. cbn. rewrite insert_insert_eq. split_and!; try done.
Qed.

Lemma from_file_ok fuel path fs buf kp g :
  nodes fs !! path = Some (Regular g) → refuse fs path = None → f_bytes g = buf → f_pos g = 0 →
  File.os_reliable g → length buf < fuel → from_protobuf_encoding buf = Some kp →
  from_file_protobuf_encoding fuel path fs = Return (Ok (from_Keypair kp)).
Proof.
  intros Hn Hr Hb Hp Hos Hf Hk. unfold from_file_protobuf_encoding, read, is_dir, open_read.
  rewrite Hn, Hr. cbn [opened].
  assert (File.rest g = buf) as Hrest by (unfold File.rest; by rewrite Hp, Hb).
  destruct (read_to_end_ok fuel g Hos) as (q & -> & ->); [by rewrite Hrest|].
  cbn [obind]. by rewrite Hrest, Hk.
Qed.

Lemma from_file_well_formed fuel path fs i :
  from_file_protobuf_encoding fuel path fs = Return (Ok i) → well_formed i.
Proof.
  unfold from_file_protobuf_encoding. intros H. inv_return. destruct x as [buf|e]; [|done].
  destruct (from_protobuf_encoding buf); [|done]. by simplify_eq/=.
Qed.

Lemma get_ident_well_formed fuel random path fs i fs' :
  get_ident fuel random path fs = Return (Ok i, fs') → well_formed i.
Proof.
  unfold get_ident. intros H. inv_return. destruct x as [i'|e].
  - simplify_eq/=. by eapply from_file_well_formed.
  - inv_return. by destruct r; simplify_eq/=.
Qed.

(** ** The same identity at every start *)
Context {laws : KeyLaws}.

Lemma exported_is_read fuel path i fs fs' buf :
  to_protobuf_encoding (keypair i) = Some buf → length buf < fuel → well_formed i →
  (∀ n, ∃ m, fresh_os fs path n = OsUpTo m) → refuse fs path = None →
  export_keypair fuel path i fs = Return (Ok tt, fs') →
  from_file_protobuf_encoding fuel path fs' = Return (Ok i).
Proof.
  intros Hb Hf Hw Hos Hr. unfold export_keypair. rewrite Hb. cbn. intros H.
  apply export_to_file_spec in H as [[_ []]|(k & g & Hn & Hg & Hp & Ho & Hr' & Hall)]; [done|].
  rewrite (from_file_ok fuel path fs' buf (keypair i) g).
  - destruct i as [kp p]. unfold well_formed in Hw. cbn in Hw. by subst p.
  - by rewrite Hn, lookup_insert_eq.
  - congruence.
  - rewrite Hg. by apply Hall.
  - done.
  - intros n. rewrite Ho. apply Hos.
  - done.
  - by apply from_to_protobuf.
Qed.

(** An identity survives its file.  What [export_keypair] writes,
    [from_file_protobuf_encoding] reads back as the same identity, whatever the
    sizes of the transfers; a path that can be written gets the whole key. *)
Theorem identity_round_trip fuel path random fs buf :
  to_protobuf_encoding (keypair (generate random)) = Some buf → length buf < fuel →
  refuse fs path = None → is_dir path fs = false → takes_bytes (fresh_os fs path) →
  ∃ fs', export_keypair fuel path (generate random) fs = Return (Ok tt, fs') ∧
    from_file_protobuf_encoding fuel path fs' = Return (Ok (generate random)).
Proof.
  intros Hb Hf Hr Hd Hos.
  assert (∃ fs', export_keypair fuel path (generate random) fs = Return (Ok tt, fs')) as [fs' He].
  { unfold export_keypair, export_to_file, create. rewrite Hb, Hr. cbn [obind expect].
    destruct (write_all_returns fuel buf (empty_file path fs) Hos Hf) as ([r g] & E & Hok). cbn in Hok. subst r.
    unfold is_dir in Hd. destruct (nodes fs !! path) as [[|h]|]; [done| |]; rewrite E; cbn; by eexists. }
  exists fs'. split; [done|]. eapply exported_is_read; try done.
  intros n. destruct (Hos n) as [m ->]. by eexists.
Qed.

(** C27: a node keeps its identity from one start to the next.  Once [get_ident]
    has answered with an identity, the next start, with another random key at
    hand, answers with the same one and writes nothing, if the file can still be
    read.  A start whose file cannot be read or decoded answers with a new
    identity and leaves its key alone in the file: what the path held is gone. *)
Theorem node_keeps_its_identity fuel random random' path fs i fs' buf :
  get_ident fuel random path fs = Return (Ok i, fs') →
  to_protobuf_encoding (keypair (generate random)) = Some buf → length buf < fuel →
  refuse fs path = None → (∀ n, ∃ m, fresh_os fs path n = OsUpTo m) →
  get_ident fuel random' path fs' = Return (Ok i, fs') ∧
  (∀ e, from_file_protobuf_encoding fuel path fs = Return (Err e) → i = generate random ∧
     ∃ g, nodes fs' !! path = Some (Regular g) ∧ f_bytes g = buf).
Proof.
  intros H Hb Hf Hr Hos. unfold get_ident in H. apply bind_return in H as ([j|e] & He & H).
  - injection H as <- <-. split; [unfold get_ident; by rewrite He|]. intros e He'. congruence.
  - inv_return. destruct r as [[]|]; [|done]. simplify_eq/=. rename H into Hx. split.
    + unfold get_ident. erewrite exported_is_read; try done.
    + intros _ _. split; [done|]. unfold export_keypair in Hx. cbn in Hx, Hb. rewrite Hb in Hx. cbn in Hx.
      apply export_to_file_spec in Hx as [[_ []]|(k & g & Hn & Hg & _ & _ & _ & Hall)]; [done|].
      exists g. rewrite Hn, lookup_insert_eq. split; [done|]. rewrite Hg. by apply Hall.
Qed.
End identity.

(** ** Witnesses: a key is its number, written as one byte after a tag *)
Section witnesses.
#[local] Existing Instance demo_platform.
#[local] Instance demo_keys : Keys := {|
  Keypair := N; PublicKey := N; public := λ k, k;
  from_public_key := λ k, (k : @PeerId demo_platform);
  generate_ed25519 := λ n, (n mod 256)%N;
  encode_protobuf := λ k, [Byte.x08; byte_of_N k];
  to_protobuf_encoding := λ k, if decide (k < 256)%N then Some [Byte.x08; byte_of_N k] else None;
  from_protobuf_encoding := λ b, match b with [Byte.x08; k] => Some (byte_to_N k) | _ => None end;
|}.
#[local] Instance demo_key_laws : KeyLaws.
Proof.
  split.
  - intros k b. simpl. case_decide; [|done]. intros [= <-]. rewrite byte_to_of_N. f_equal. by apply N.mod_small.
  - intros n. simpl. rewrite decide_True; [done|]. apply N.mod_lt. lia.
Defined.

(** Transfers move one byte at a time; the file at the path holds rubbish. *)
Definition demo_fs : Fs := {|
  nodes := {[ "id" := Regular {| f_bytes := [Byte.x01]; f_pos := 0; f_metadata := Ok ();
                                 f_os := λ _, OsUpTo 1; f_calls := 0 |} ]};
  refuse := λ _, None; fresh_os := λ _ _, OsUpTo 1;
|}.

Lemma identity_round_trip_witness :
  ∃ fs', export_keypair 4 "new" (generate 7) demo_fs = Return (Ok tt, fs') ∧
    from_file_protobuf_encoding 4 "new" fs' = Return (Ok (generate 7)).
Proof.
  apply (identity_round_trip 4 "new" 7 demo_fs [Byte.x08; Byte.x07]); [reflexivity|cbn; lia|done|done|].
  intros i. by exists 0.
Defined.

Lemma node_keeps_its_identity_witness :
  ∃ fs', get_ident 4 7 "id" demo_fs = Return (Ok (generate 7), fs') ∧
    get_ident 4 9 "id" fs' = Return (Ok (generate 7), fs').
Proof.
  eexists. split; [reflexivity|].
  refine (proj1 (node_keeps_its_identity 4 7 9 "id" demo_fs (generate 7) _ [Byte.x08; Byte.x07]
    eq_refl eq_refl _ eq_refl _)); [cbn; lia|]. intros n. by exists 1.
Defined.
End witnesses.
End Identity.
