(* ===== verification/Commands.v ===== *)
(** * The commands of the shell ([swarm/cli.rs], the [cli] modules, [cli/utils.rs])

    Module [Commands]: what a command does in the thread of the shell: it prints,
    opens files, sends requests to the task of the node and waits for callbacks
    and events.  The rest of the program is, for each call a command makes, the
    node that takes the request or the reason it is not taken, what is sent on
    callbacks afterwards, and the events heard; a command is the list of what it
    has done and how that ends: done, waiting, or panicked. *)

From stdpp Require Import base gmap sets list strings pretty.
From Stdlib Require Import Lia NArith.
From S2P Require Import Prelude Std Core Concurrent Files Calls BlobTypes Messaging Advertise MessagingHandle AdvertiseHandle.
From S2P Require Import BlobHandle GossipTopics Gossipsub Kad Adapters SwarmEvents Requests Node.
Import Files Calls.

Module Commands.
Section commands.
Context {P : Platform} {T : SwarmEvents.EventTypes} {S : Type} {swarm_ops : SwarmEvents.Libp2pSwarm S}.
Context {TT : GossipTopics.TopicTypes} {G : Gossipsub.GossipBehaviour} {K : Kad.Libp2pKad}.
Context {M : Mdns.Libp2pMdns} {A : AutoNat.Libp2pAutonat} {O : RelayClient.MultiaddrOps}.
Context {gossip_texts : Gossipsub.GossipTexts}.

(** The texts of values, and two parsers. *)
Inductive TransportErrorView := MultiaddrNotSupported (addr : Multiaddr) | Other (debug : string).
Class Texts := {
  addr_display : Multiaddr → string;
  listener_debug : ListenerId → string;
  transport_view : SwarmEvents.TransportError → TransportErrorView;
  peers_debug : list PeerId → string;
  send_error_debug : FileSendError.t → string;
  recv_error_debug : FileRecvError.t → string;
  results_debug : list Kad.QueryResult → string;
  addresses_debug : option Kad.Addresses → string;
  routing_debug : Kad.RoutingUpdate → string;
  parse_peer : string → option PeerId;
  parse_addr : string → option Multiaddr;
}.
Context {texts : Texts}.

Inductive Line := Text (s : string) | Table (rows : list (list string)).
(** [.printable()] without bounds, one item per line. *)
Definition column (l : list string) : string := String.concat newline l.

Inductive Action :=
| Print (l : Line)
| ClearTerminal
| NotifyShutdown
| Sends (ev : Node.Rx)
| Creates (path : string)
| SetTopics (t : GossipTopics.MemTopicStore)
| SetMessages (m : GossipTopics.MemMessageStore).

(** ** What a call meets *)
Inductive Task :=
| Takes (now : N) (n : Node.Node (S := S))
| Full
| Gone.
Record CallCx := {
  tx_id : N;
  task : Task;
  later : Node.Rx → list (Sent Node.Answer);
  heard : list (Recv Node.Event);
  elapsed : bool;
  now_ms : N;
  fs : Fs;
  topics : GossipTopics.MemTopicStore;
  messages : GossipTopics.MemMessageStore;
  routing_heard : list (Recv Kad.OutEvent);
}.
Definition tx (cx : CallCx) : Callback := {| cb_id := tx_id cx; cb_open := true |}.

(** What the thread waits for: room in the channel, a callback, an event. *)
Inductive Wait := OnChannel (ev : Node.Rx) | OnCallback (ev : Node.Rx) | OnEvents (ev : Node.Rx).
Inductive End (X : Type) := Done (x : X) | Waits (w : Wait) | Panics (msg : string).
#[global] Arguments Done {X} x.
#[global] Arguments Waits {X} w.
#[global] Arguments Panics {X} msg.
Definition Run (X : Type) : Type := list Action * End X.

Definition ret {X} (x : X) : Run X := ([], Done x).
Definition bind {X Y} (m : Run X) (f : X → Run Y) : Run Y :=
  match m with
  | (l, Done x) => let '(l', e) := f x in (l ++ l', e)
  | (l, Waits w) => (l, Waits w)
  | (l, Panics msg) => (l, Panics msg)
  end.
Definition act (a : Action) : Run () := ([a], Done ()).
Definition println (s : string) : Run () := act (Print (Text s)).
Definition printstd (rows : list (list string)) : Run () := act (Print (Table rows)).
Definition panic {X} (msg : string) : Run X := ([], Panics msg).
Definition expects {X} (o : option X) (msg : string) : Run X :=
  match o with Some x => ret x | None => panic msg end.
#[local] Notation "'let*' x := m 'in' k" := (bind m (λ x, k)) (at level 200, x pattern, right associativity).

(** ** Requests and answers *)

(** What is sent on callbacks once the request is taken: what the node answers at
    once, then what comes later; the callback is dropped if the task ends while it
    handles the request. *)
Definition traffic (cx : CallCx) (now : N) (n : Node.Node) (ev : Node.Rx) : list (Sent Node.Answer) :=
  match Node.handle_incoming_event now ev n with
  | Return (_, sent) => sent ++ later cx ev
  | _ => Dropped <$> option_list (Node.callback_of ev)
  end.
(** A send on the channel of a component. *)
Definition send (gone : string) (cx : CallCx) (ev : Node.Rx) : Run (list (Sent Node.Answer)) :=
  match task cx with
  | Gone => panic gone
  | Full => ([], Waits (OnChannel ev))
  | Takes now n =>
      ([Sends ev], Done (traffic cx now n ev))
  end.
Definition reply {X} (r : outcome (Poll X)) (w : Wait) : Run X :=
  match r with
  | Return (Ready x) => ret x
  | Return Pending => ([], Waits w)
  | Panic msg => panic msg
  | OutOfFuel => ([], Waits w)
  end.
Definition callback_answer {X} (get : Node.Answer → option X) (cx : CallCx) (sent : list (Sent Node.Answer))
    : outcome (Poll X) := p ← handle_callback (tx_id cx) sent; as_type get p.

(** A generated method, and one without a callback. *)
Definition ask {X} (cx : CallCx) (variant : Callback → Node.Rx) (get : Node.Answer → option X) : Run X :=
  let* sent := send SWARM_RECEIVER_KEPT_ALIVE cx (variant (tx cx)) in
  reply (callback_answer get cx sent) (OnCallback (variant (tx cx))).
Definition tell (gone : string) (cx : CallCx) (ev : Node.Rx) : Run () :=
  let* _ := send gone cx ev in ret ().
(** A request whose answer is an event: a limited time is spent on listening to
    what the subscription, made before the request is sent, hears. *)
Definition ask_events {X} (gone : string) (cx : CallCx) (ev : Node.Rx) (f : Node.Event → option X)
    : Run (result X error.OperationError) :=
  let* _ := tell gone cx ev in
  reply (future_timeout (listen_event (answer_with f) (heard cx) tt) (elapsed cx)) (OnEvents ev).

Definition from_swarm {X} (get : SwarmEvents.Answer → option X) (a : Node.Answer) : option X :=
  match a with Node.ASwarm a => get a | _ => None end.
Definition from_messaging {X} (get : Messaging.Answer → option X) (a : Node.Answer) : option X :=
  match a with Node.AMessaging a => get a | _ => None end.
Definition from_advertise {X} (get : Advertise.Answer → option X) (a : Node.Answer) : option X :=
  match a with Node.AAdvertise a => get a | _ => None end.
Definition from_blob {X} (get : BlobTypes.Answer → option X) (a : Node.Answer) : option X :=
  match a with Node.ABlob a => get a | _ => None end.
Definition from_kad {X} (get : Kad.Answer → option X) (a : Node.Answer) : option X :=
  match a with Node.AKad a => get a | _ => None end.
Definition from_autonat (a : Node.Answer) : option (AutoNat.NatStatus * N) :=
  match a with Node.AAutoNat (AutoNat.AnsNatStatus r) => Some r | _ => None end.
Definition from_mdns {X} (get : Mdns.Answer → option X) (a : Node.Answer) : option X :=
  match a with Node.AMdns a => get a | _ => None end.
Definition from_gossipsub {X} (get : Gossipsub.Answer → option X) (a : Node.Answer) : option X :=
  match a with Node.AGossipsub a => get a | _ => None end.
Definition of_advertise {X} (f : Advertise.OutEvent → option X) (ev : Node.Event) : option X :=
  match ev with SwarmEvents.libp2p.Behaviour (Node.BAdvertise ev) => f ev | _ => None end.
Definition of_kad {X} (f : Kad.OutEvent → option X) (ev : Node.Event) : option X :=
  match ev with SwarmEvents.libp2p.Behaviour (Node.BKad ev) => f ev | _ => None end.

(** ** swarm/cli.rs *)
Inductive Listener := ListenerLs.
Inductive ExternalAddr := AddrLs | AddrAdd (address : Multiaddr) | AddrRemove (address : Multiaddr).
Inductive Swarm :=
| SDial (address : Multiaddr)
| SListen (address : Multiaddr)
| SListener (command : Listener)
| SExternalAddr (command : ExternalAddr)
| SIsConnected (peer_id : PeerId)
| SListConnected.

Definition format_transport_error (e : SwarmEvents.TransportError) : string :=
  match transport_view e with
  | MultiaddrNotSupported addr => "Requested address " +:+ addr_display addr +:+ " is not supported."
  | Other error_string =>
      if contains "AddrNotAvailable" error_string then
        "Local interface associated with the given address does not exist"
      else error_string
  end.

Definition dial_output (address : Multiaddr) (r : result unit SwarmEvents.DialError) : string :=
  match r with
  | Err e => "Failed to initiate dial " +:+ addr_display address +:+ " with error: " +:+ SwarmEvents.dial_error_debug e
  | Ok _ => "Dialing " +:+ addr_display address
  end.
Definition listen_output (address : Multiaddr) (r : result ListenerId SwarmEvents.TransportError) : string :=
  match r with
  | Ok listener_id =>
      "Successfully listening on " +:+ addr_display address +:+ " with listener ID " +:+ listener_debug listener_id
  | Err e => "Failed to listen on " +:+ addr_display address +:+ " with error: " +:+ format_transport_error e
  end.
Definition handle_dial (cx : CallCx) (address : Multiaddr) : Run () :=
  let* r := ask cx (λ tx, Node.RSwarm (SwarmEvents.Dial address tx)) (from_swarm SwarmHandle.get_dial) in
  println (dial_output address r).
Definition handle_listen (cx : CallCx) (address : Multiaddr) : Run () :=
  let* r := ask cx (λ tx, Node.RSwarm (SwarmEvents.Listen address tx)) (from_swarm SwarmHandle.get_listen) in
  println (listen_output address r).

Definition handle_swarm_listener (cx : CallCx) (command : Listener) : Run () :=
  match command with
  | ListenerLs =>
      let* list := ask cx (λ tx, Node.RSwarm (SwarmEvents.ListListeners tx)) (from_swarm SwarmHandle.get_addrs) in
      printstd [["Active Listeners"]; [column (addr_display <$> list)]]
  end.
Definition handle_swarm_externaladdress (cx : CallCx) (command : ExternalAddr) : Run () :=
  match command with
  | AddrAdd address =>
      let* _ := ask cx (λ tx, Node.RSwarm (SwarmEvents.AddExternalAddress address tx)) (from_swarm SwarmHandle.get_unit) in
      println ("External address `" +:+ addr_display address +:+ "` added")
  | AddrRemove address =>
      let* _ := ask cx (λ tx, Node.RSwarm (SwarmEvents.RemoveExternalAddress address tx)) (from_swarm SwarmHandle.get_unit) in
      println ("External address `" +:+ addr_display address +:+ "` removed")
  | AddrLs =>
      let* list := ask cx (λ tx, Node.RSwarm (SwarmEvents.ListExternalAddresses tx)) (from_swarm SwarmHandle.get_addrs) in
      printstd [["External Addresses"]; [Gossipsub.printable (addr_display <$> list)]]
  end.
Definition handle_swarm (cx : CallCx) (command : Swarm) : Run () :=
  match command with
  | SDial address => handle_dial cx address
  | SListen address => handle_listen cx address
  | SListener command => handle_swarm_listener cx command
  | SExternalAddr command => handle_swarm_externaladdress cx command
  | SIsConnected peer_id =>
      let* b := ask cx (λ tx, Node.RSwarm (SwarmEvents.IsConnectedToPeerId peer_id tx)) (from_swarm SwarmHandle.get_bool) in
      println (AdvertiseHandle.bool_display b)
  | SListConnected =>
      let* list := ask cx (λ tx, Node.RSwarm (SwarmEvents.ListConnected tx)) (from_swarm SwarmHandle.get_peers) in
      match list with
      | [] => println "No peer is connected to local node."
      | _ => printstd [["Connected Peers"]; [column (peer_display <$> list)]]
      end
  end.

(** ** relay_client.rs *)
Definition handle_relay_client (cx : CallCx) (command : RelayClient.Command) : Run () :=
  handle_listen cx (RelayClient.listen_addr command).

(** ** cli/utils.rs: [to_socket_addrs] is the operating system's; the addresses
    are printed with [Debug]. *)
Inductive Utils := DnsLookup (domain_name : string).
Definition handle_utils (to_socket_addrs : string → result string string) (command : Utils) : Run () :=
  match command with
  | DnsLookup domain_name =>
      match to_socket_addrs (domain_name +:+ ":0") with
      | Ok addresses => println ("Lookup result: " +:+ addresses)
      | Err e => println ("Failed to perform lookup with " +:+ domain_name +:+ ": " +:+ e)
      end
  end.

(** ** advertise.rs *)
Definition query_advertised_peer (cx : CallCx) (relay : PeerId)
    : Run (result (option (list PeerId)) Advertise.Error) :=
  let* r := ask_events "" cx (Node.RAdvertise (Advertise.QueryAdvertisedPeer relay))
              (of_advertise (AdvertiseHandle.query_answer relay)) in
  ret (match r with Ok v => v | Err _ => Err Advertise.Timeout end).
Definition remove_advertised (cx : CallCx) (peer_id : PeerId) : Run (result bool error.OperationError) :=
  ask_events SWARM_RECEIVER_KEPT_ALIVE cx (Node.RAdvertise (Advertise.RemoveAdvertised peer_id))
    (of_advertise (AdvertiseHandle.changed_answer peer_id)).

Definition handle_provider (cx : CallCx) (command : AdvertiseHandle.Provider) : Run () :=
  match command with
  | AdvertiseHandle.Start =>
      let* b := ask cx (λ tx, Node.RAdvertise (Advertise.SetProviderState true tx)) (from_advertise AdvertiseHandle.get_state) in
      println ("Local provider state is set to: " +:+ AdvertiseHandle.bool_display b)
  | AdvertiseHandle.Stop =>
      let* b := ask cx (λ tx, Node.RAdvertise (Advertise.SetProviderState false tx)) (from_advertise AdvertiseHandle.get_state) in
      println ("Local provider state is set to: " +:+ AdvertiseHandle.bool_display b)
  | AdvertiseHandle.State =>
      let* b := ask cx (λ tx, Node.RAdvertise (Advertise.GetProviderState tx)) (from_advertise AdvertiseHandle.get_state) in
      println ("isProviding:" +:+ AdvertiseHandle.bool_display b)
  | AdvertiseHandle.ListAdvertised =>
      let* list := ask cx (λ tx, Node.RAdvertise (Advertise.ListAdvertised tx)) (from_advertise AdvertiseHandle.get_peers) in
      println ("Advertising: " +:+ newline +:+ peers_debug list)
  | AdvertiseHandle.RemoveAdvertise peer =>
      let* r := remove_advertised cx peer in
      let* _ := println (AdvertiseHandle.remove_output peer r).1 in
      println (AdvertiseHandle.remove_output peer r).2
  | AdvertiseHandle.ClearAdvertised =>
      let* _ := tell SWARM_RECEIVER_KEPT_ALIVE cx (Node.RAdvertise Advertise.ClearAdvertised) in
      println "All ADs has been cleared."
  end.
Definition handle_advertise (cx : CallCx) (command : AdvertiseHandle.Command) : Run () :=
  match command with
  | AdvertiseHandle.ProviderCommand command => handle_provider cx command
  | AdvertiseHandle.SetRemoteAdvertisement remote state =>
      let* _ := ask cx (λ tx, Node.RAdvertise (Advertise.SetRemoteAdvertisement remote state tx))
                  (from_advertise AdvertiseHandle.get_unit) in
      println "OK"
  | AdvertiseHandle.QueryAdvertised remote =>
      let* result := query_advertised_peer cx remote in
      match AdvertiseHandle.query_output remote result with
      | inl s => println s
      | inr list => printstd [["Peers advertised by" +:+ newline +:+ peer_display remote]; [column (peer_display <$> list)]]
      end
  end.

(** ** blob.rs *)
Definition send_file (cx : CallCx) (to : PeerId) (path : string) : Run (result N FileSendError.t) :=
  if is_dir path (fs cx) then ret (Err FileSendError.IsDirectory)
  else
    match open_read path (fs cx) with
    | Err e => ret (Err (BlobHandle.open_error e))
    | Ok file =>
        let ev := Node.RBlob (BlobTypes.SendFile file path to (tx cx)) in
        let* sent := send SWARM_RECEIVER_KEPT_ALIVE cx ev in
        let* r := reply (future_timeout (callback_answer (from_blob BlobHandle.get_send_file) cx sent) (elapsed cx))
                    (OnCallback ev) in
        ret (match r with Ok r => r | Err e => Err (FileSendError.Operation e) end)
    end.
Definition recv_file (cx : CallCx) (recv_id : N) (path_to_write : string) : Run (result Duration FileRecvError.t) :=
  match create_new path_to_write (fs cx) with
  | (Err e, _) => ret (Err (FileRecvError.FsError path_to_write e))
  | (Ok file, _) =>
      let* _ := act (Creates path_to_write) in
      ask cx (λ tx, Node.RBlob (BlobTypes.AcceptFile file recv_id path_to_write tx)) (from_blob BlobHandle.get_accept)
  end.
(** The [Display] of the items of a column, which may panic. *)
Definition display_all (l : list SendInfo.t) : Run string :=
  match map_outcome SendInfo_fmt l with
  | Return l => ret (column l)
  | Panic msg => panic msg
  | OutOfFuel => panic ""
  end.
Definition handle_blob (cx : CallCx) (command : BlobHandle.Command) : Run () :=
  match command with
  | BlobHandle.CListSend =>
      let* list := ask cx (λ tx, Node.RBlob (BlobTypes.ListSend tx)) (from_blob BlobHandle.get_send_infos) in
      let* print_pending := display_all (BlobHandle.print_pending list) in
      let* print_started := display_all (BlobHandle.print_started list) in
      printstd [["Pending Send"; "Ongoing Send"]; [print_pending; print_started]]
  | BlobHandle.CSend remote file_path =>
      let* result := send_file cx remote file_path in
      match result with
      | Ok id => println ("Send initated with ID " +:+ pretty id)
      | Err e => println ("Send failed with error " +:+ send_error_debug e)
      end
  | BlobHandle.CRecv local_recv_id path_to_write =>
      let* result := recv_file cx local_recv_id path_to_write in
      match result with
      | Ok _ => println ("Recv ID " +:+ pretty local_recv_id +:+ " accepted")
      | Err e => println ("Send failed with error " +:+ recv_error_debug e)
      end
  | _ => panic "not yet implemented"
  end.

(** ** messaging.rs *)
Definition handle_messaging (cx : CallCx) (ident : PeerId) (command : MessagingHandle.Command) : Run () :=
  let '(peer_id, msg) := MessagingHandle.cli_message (now_ms cx) ident command in
  let* result := ask cx (λ tx, Node.RMessaging (Messaging.SendMessage peer_id msg tx)) (from_messaging MessagingHandle.get_send) in
  println (MessagingHandle.cli_output result).

(** ** autonat.rs *)
Definition handle_autonat (cx : CallCx) (command : AutoNat.Command) : Run () :=
  match command with
  | AutoNat.CGetNatStatus =>
      let* r := ask cx (λ tx, Node.RAutoNat (AutoNat.GetNatStatus tx)) from_autonat in
      println (AutoNat.status_output addr_display r)
  | _ =>
      let* _ := tell SWARM_RECEIVER_KEPT_ALIVE cx (Node.RAutoNat (AutoNat.handle_autonat command (tx cx))) in
      println (default "" (AutoNat.sent_output addr_display command))
  end.

(** ** mdns.rs *)
Definition handle_mdns (cx : CallCx) (command : Mdns.Command) : Run () :=
  match command with
  | Mdns.CListDiscovered =>
      let* list := ask cx (λ tx, Node.RMdns (Mdns.ListDiscoveredNodes tx)) (from_mdns Mdns.get_nodes) in
      println (peers_debug list)
  | Mdns.CHasNode peer_id =>
      let* result := ask cx (λ tx, Node.RMdns (Mdns.HasNode peer_id tx)) (from_mdns Mdns.get_bool) in
      println (Mdns.has_node_output peer_id result)
  end.

(** ** kad.rs *)
Definition on_progress (query_id : Kad.QueryId) (ev : Node.Event) (results : list Kad.QueryResult)
    : list Kad.QueryResult + list Kad.QueryResult :=
  match ev with
  | SwarmEvents.libp2p.Behaviour (Node.BKad ev) => Kad.on_progress query_id ev results
  | _ => inl results
  end.
(** The listener runs in a task of its own, whose panic the caller unwraps. *)
Definition query (cx : CallCx) (peer_id : PeerId) : Run (list Kad.QueryResult) :=
  let ev := Node.RKad (Kad.PeerLookup peer_id (tx cx)) in
  let* sent := send "sending event to succeed" cx ev in
  let* query_id :=
    reply (match callback_answer (from_kad Kad.get_query_id) cx sent with
           | Panic _ => Panic "callback to succeed"
           | r => r
           end) (OnCallback ev) in
  reply (listen_event (on_progress query_id) (heard cx) []) (OnEvents ev).
Definition set_mode (cx : CallCx) (mode : option Kad.Mode) : Run (result Kad.Mode error.OperationError) :=
  ask_events "send to succeed" cx (Node.RKad (Kad.SetMode mode)) (of_kad Kad.new_mode_of).

Definition insert_default (cx : CallCx) (node : string * string) : Run () :=
  let* peer_id := expects (parse_peer node.1) "parsing to succeed" in
  let* address := expects (parse_addr node.2) "parsing to succeed" in
  let* result := ask cx (λ tx, Node.RKad (Kad.InsertNode peer_id address tx)) (from_kad Kad.get_insert) in
  println ("Insert peer " +:+ node.1 +:+ ":" +:+ routing_debug result).
Fixpoint insert_all (calls : nat → CallCx) (i : nat) (nodes : list (string * string)) : Run () :=
  match nodes with
  | [] => ret ()
  | node :: nodes => let* _ := insert_default (calls i) node in insert_all calls (Datatypes.S i) nodes
  end.
Definition handle_kad (calls : nat → CallCx) (command : Kad.Command) : Run () :=
  let cx := calls 0 in
  match command with
  | Kad.CQuery peer_id =>
      let* result := query cx peer_id in
      println (results_debug result)
  | Kad.CLookup peer_id => println (addresses_debug (Kad.lookup peer_id (routing_heard cx)))
  | Kad.CBootstrap =>
      let* result := ask cx (λ tx, Node.RKad (Kad.BootStrap tx)) (from_kad Kad.get_bootstrap) in
      println (Kad.bootstrap_output result)
  | Kad.CSetMode mode =>
      let* r := set_mode cx (Kad.from_KadMode mode) in
      println (Kad.set_mode_output mode r)
  | Kad.CInsert _ _ => ret ()
  | Kad.CInsertDefault => insert_all calls 0 Kad.default_nodes
  end.

(** ** gossipsub.rs *)
Definition in_topics (cx : CallCx) (p : Concurrent.prog GossipTopics.MemTopicStore bool) : Run () :=
  match Concurrent.run p (topics cx) with
  | Return (_, t) => act (SetTopics t)
  | Panic msg => panic msg
  | OutOfFuel => panic ""
  end.
Definition subscribe_topic_hash (cx : CallCx) (topic_hash : GossipTopics.TopicHash)
    : Run (result bool Gossipsub.SubscriptionError) :=
  let* result := ask cx (λ tx, Node.RGossipsub (Gossipsub.ESubscribeTopic topic_hash tx)) (from_gossipsub Gossipsub.get_subscribe) in
  match result with
  | Ok true => let* _ := in_topics cx (GossipTopics.subscribe_topic topic_hash None) in ret result
  | _ => ret result
  end.
Definition unsubscribe_topic_hash (cx : CallCx) (topic_hash : GossipTopics.TopicHash) : Run bool :=
  let* result := ask cx (λ tx, Node.RGossipsub (Gossipsub.EUnsubscribeTopic topic_hash tx)) (from_gossipsub Gossipsub.get_unsubscribe) in
  if result : bool then let* _ := in_topics cx (GossipTopics.unsubscribe_topic topic_hash) in ret result
  else ret result.
Definition publish_message (cx : CallCx) (topic_hash : GossipTopics.TopicHash) (message : bytes)
    : Run (result Gossipsub.MessageId Gossipsub.PublishError) :=
  let* result := ask cx (λ tx, Node.RGossipsub (Gossipsub.PublishMessage topic_hash message tx)) (from_gossipsub Gossipsub.get_publish) in
  match result with
  | Ok _ =>
      let* _ := act (SetMessages (GossipTopics.insert_message topic_hash (GossipTopics.Local message) (messages cx))) in
      ret result
  | Err _ => ret result
  end.
Definition handle_gossipsub (cx : CallCx) (command : Gossipsub.Command) : Run () :=
  match command with
  | Gossipsub.CSubscribe command =>
      let topic_hash := Gossipsub.SubUnsubCommand_destruct command in
      let* result := subscribe_topic_hash cx topic_hash in
      println (Gossipsub.subscribe_text topic_hash result)
  | Gossipsub.CUnsubscribe command =>
      let topic_hash := Gossipsub.SubUnsubCommand_destruct command in
      let* result := unsubscribe_topic_hash cx topic_hash in
      println (Gossipsub.unsubscribe_text topic_hash result)
  | Gossipsub.CPublish command =>
      let '(topic_hash, message) := Gossipsub.PublishCommand_destruct command in
      let* result := publish_message cx topic_hash message in
      println (Gossipsub.publish_text result)
  | Gossipsub.CBan peer =>
      let* _ := tell SWARM_RECEIVER_KEPT_ALIVE cx (Node.RGossipsub (Gossipsub.BanPeer peer)) in println "OK"
  | Gossipsub.CUnban peer =>
      let* _ := tell SWARM_RECEIVER_KEPT_ALIVE cx (Node.RGossipsub (Gossipsub.UnbanPeer peer)) in println "OK"
  | Gossipsub.CAllPeersWithTopic =>
      let* list := ask cx (λ tx, Node.RGossipsub (Gossipsub.AllPeersWithTopic tx)) (from_gossipsub Gossipsub.get_all_peers) in
      printstd (["Peer ID"; "Subscribed Topics"] ::
        ((λ '(peer, topics), [peer_display peer; Gossipsub.printable (Gossipsub.topic_display <$> topics)]) <$> list))
  | Gossipsub.CMeshPeersOfTopic command =>
      let topic_hash := Gossipsub.SubUnsubCommand_destruct command in
      let* list := ask cx (λ tx, Node.RGossipsub (Gossipsub.MeshPeersOfTopic topic_hash tx)) (from_gossipsub Gossipsub.get_peers) in
      printstd [["Peers associated with topic" +:+ newline +:+ Gossipsub.topic_display topic_hash;
                 Gossipsub.printable (peer_display <$> list)]]
  end.

(** ** Why a command does not end *)

(** The requests whose answer is an event, and those that are waited for only for
    some time. *)
Definition listens (ev : Node.Rx) : bool :=
  match ev with
  | Node.RAdvertise (Advertise.QueryAdvertisedPeer _ | Advertise.RemoveAdvertised _)
  | Node.RKad (Kad.SetMode _ | Kad.PeerLookup _ _) => true
  | _ => false
  end.
Definition limited (ev : Node.Rx) : bool :=
  match ev with
  | Node.RAdvertise (Advertise.QueryAdvertisedPeer _ | Advertise.RemoveAdvertised _)
  | Node.RKad (Kad.SetMode _) | Node.RBlob (BlobTypes.SendFile _ _ _ _) => true
  | _ => false
  end.

(** Whatever is sent on the callback of a request later is one of its answers. *)
Definition well_typed (cx : CallCx) : Prop :=
  ∀ ev r, Node.callback_of ev = Some (tx cx) → r ∈ later cx ev → cb_id (sent_callback r) = tx_id cx →
    Node.own_answer ev r.

(** What a call waits for: room in the channel, the answer of a request that is
    not answered at once and has not been answered, an event that answers. *)
Inductive Waiting (cx : CallCx) (done : list Action) : Wait → Prop :=
| NoRoom ev : task cx = Full → Waiting cx done (OnChannel ev)
| NoAnswer ev : Sends ev ∈ done → Node.answered_later ev = true → (limited ev = true → elapsed cx = false) →
    Forall (λ r, cb_id (sent_callback r) ≠ tx_id cx) (later cx ev) → Waiting cx done (OnCallback ev)
| NoEvent ev : Sends ev ∈ done → listens ev = true → (limited ev = true → elapsed cx = false) →
    RecvError ∉ heard cx → Waiting cx done (OnEvents ev).

(** Why a call panics: the task of the node has ended, or ends at the request;
    a request for a remote was dropped; the subscription failed; the path of a
    listed file cannot be cut where the listing cuts it; a default node does not
    parse. *)
Inductive Cause (cx : CallCx) (done : list Action) : string → Prop :=
| TaskGone msg : task cx = Gone → Cause cx done msg
| TaskEnds ev now n msg : Sends ev ∈ done → task cx = Takes now n →
    (∀ r, Node.handle_incoming_event now ev n ≠ Return r) → Cause cx done msg
| RequestDropped ev now n msg : Sends ev ∈ done → Node.needs_remote ev = true → task cx = Takes now n →
    Dropped (tx cx) ∈ traffic cx now n ev → Cause cx done msg
| SubscriptionFailed : RecvError ∈ heard cx → Cause cx done UNREACHABLE
| PathNotShown now n l i msg : task cx = Takes now n →
    Sends (Node.RBlob (BlobTypes.ListSend (tx cx))) ∈ done →
    Answered (tx cx) (Node.ABlob (BlobTypes.AnsListSend l)) ∈ traffic cx now n (Node.RBlob (BlobTypes.ListSend (tx cx))) →
    i ∈ l → SendInfo.started i = false → SendInfo_fmt i = Panic msg → Cause cx done msg
| NodeNotParsed node : node ∈ Kad.default_nodes → parse_peer node.1 = None ∨ parse_addr node.2 = None →
    Cause cx done "parsing to succeed".

Lemma done_later (a : Action) l l' : a ∈ l' → a ∈ l ++ l'.
Proof. intros H. apply elem_of_app. by right. Qed.
#[local] Hint Resolve done_later : core.
Lemma Waiting_app cx l l' w : Waiting cx l' w → Waiting cx (l ++ l') w.
Proof. destruct 1; [by apply NoRoom|eapply NoAnswer; eauto|eapply NoEvent; eauto]. Qed.
Lemma Cause_app cx l l' msg : Cause cx l' msg → Cause cx (l ++ l') msg.
Proof.
  destruct 1; [by apply TaskGone|eapply TaskEnds; eauto|eapply RequestDropped; eauto
    |by apply SubscriptionFailed|eapply PathNotShown; eauto|by eapply NodeNotParsed].
Qed.

(** How the calls of a command end it. *)
Definition explained {X} (calls : nat → CallCx) (m : Run X) : Prop :=
  match m.2 with
  | Done _ => True
  | Waits w => ∃ i, Waiting (calls i) m.1 w
  | Panics msg => ∃ i, Cause (calls i) m.1 msg
  end.

Section explained.
Context (calls : nat → CallCx).

Lemma explained_ret {X} (x : X) : explained calls (ret x).
Proof. done. Qed.
Lemma explained_act a : explained calls (act a).
Proof. done. Qed.
Lemma explained_bind {X Y} (m : Run X) (f : X → Run Y) :
  explained calls m → (∀ x, explained calls (f x)) → explained calls (bind m f).
Proof.
  destruct m as [l [x|w|msg]]; unfold explained; cbn; intros Hm Hf; [|done..].
  specialize (Hf x). destruct (f x) as [l' [y|w|msg]]; cbn in *; [done| |]; destruct Hf as [i Hi]; exists i.
  - by apply Waiting_app.
  - by apply Cause_app.
Qed.

Lemma handle_callback_cases {B} id (l : list (Sent B)) :
  (∃ r a, r ∈ l ∧ r = Answered (sent_callback r) a ∧ cb_id (sent_callback r) = id ∧ handle_callback id l = Return (Ready a)) ∨
  (∃ r, r ∈ l ∧ r = Dropped (sent_callback r) ∧ cb_id (sent_callback r) = id ∧ handle_callback id l = Panic CALLBACK_CLEAR) ∨
  (Forall (λ r, cb_id (sent_callback r) ≠ id) l ∧ handle_callback id l = Return Pending).
Proof.
  induction l as [|r l IH]; [by right; right|]. cbn [handle_callback]. destruct (decide (cb_id (sent_callback r) = id)) as [E|E].
  - destruct r as [cb a|cb]; [left; exists (Answered cb a), a|right; left; exists (Dropped cb)]; by split_and!; [left|..].
  - destruct IH as [(r' & a & Hr & H)|[(r' & Hr & H)|[Hl H]]].
    + left. exists r', a. split; [by right|done].
    + right; left. exists r'. split; [by right|done].
    + right; right. split; [by constructor|done].
Qed.

(** The answer to a request that was taken. *)
Lemma taken i now n ev : task (calls i) = Takes now n → well_typed (calls i) →
  Node.callback_of ev = Some (tx (calls i)) →
  match handle_callback (tx_id (calls i)) (traffic (calls i) now n ev) with
  | Return (Ready a) => Node.has_type ev a = true ∧ Answered (tx (calls i)) a ∈ traffic (calls i) now n ev
  | Return Pending => Node.answered_later ev = true ∧
      Forall (λ r, cb_id (sent_callback r) ≠ tx_id (calls i)) (later (calls i) ev)
  | Panic msg => ∀ l msg, Sends ev ∈ l → Cause (calls i) l msg
  | OutOfFuel => False
  end.
Proof.
  intros Ht Hw Hc. destruct (Node.handle_incoming_event now ev n) as [[n' sent]|msg|] eqn:E.
  2,3: unfold traffic; rewrite E, Hc; cbn; rewrite decide_True by done; intros l m Hl; eapply TaskEnds; eauto; by rewrite E.
  destruct (Node.incoming_event_answers _ _ _ _ _ E) as [_ Ha].
  assert (traffic (calls i) now n ev = sent ++ later (calls i) ev) as Et by (unfold traffic; by rewrite E).
  assert (∀ r, r ∈ traffic (calls i) now n ev → cb_id (sent_callback r) = tx_id (calls i) → Node.own_answer ev r) as Hown.
  { rewrite Et. intros r [Hr|Hr]%elem_of_app Hid; [|by apply Hw]. unfold Node.answered_once in Ha.
    destruct sent as [|r' [|]]; [by apply not_elem_of_nil in Hr| |done]. by apply list_elem_of_singleton in Hr as ->. }
  destruct (handle_callback_cases (tx_id (calls i)) (traffic (calls i) now n ev))
    as [(r & a & Hr & Er & Hid & ->)|[(r & Hr & Er & Hid & ->)|[Hl ->]]].
  - pose proof (Hown r Hr Hid) as [Hcb H]. rewrite Er in H. rewrite Hc in Hcb. injection Hcb as Hcb.
    rewrite <-Hcb in Er. by rewrite Er in Hr.
  - intros l m Hs. pose proof (Hown r Hr Hid) as [Hcb H]. rewrite Er in H. cbn in H.
    rewrite Hc in Hcb. injection Hcb as Hcb. rewrite <-Hcb in Er. rewrite Er in Hr. by eapply RequestDropped.
  - rewrite Et in Hl. apply Forall_app in Hl as [Hs Hl]. split; [|done]. destruct sent as [|r [|]]; [|exfalso..].
    + destruct Ha as [|Hn]; [done|by rewrite Hc in Hn].
    + destruct Ha as [Hr _]. rewrite Hc in Hr. injection Hr as Hr. apply Forall_inv in Hs. by rewrite <-Hr in Hs.
    + done.
Qed.

Context (typed : ∀ i, well_typed (calls i)).

(** A send, and a wait for the callback. *)
Lemma reply_explained {X} i ev (get : Node.Answer → option X) now n :
  task (calls i) = Takes now n → Node.callback_of ev = Some (tx (calls i)) →
  (∀ a, Node.has_type ev a = true → is_Some (get a)) →
  match callback_answer get (calls i) (traffic (calls i) now n ev) with
  | Return (Ready x) => ∃ a, get a = Some x ∧ Answered (tx (calls i)) a ∈ traffic (calls i) now n ev
  | Return Pending => Node.answered_later ev = true ∧
      Forall (λ r, cb_id (sent_callback r) ≠ tx_id (calls i)) (later (calls i) ev)
  | Panic msg => ∀ l msg, Sends ev ∈ l → Cause (calls i) l msg
  | OutOfFuel => False
  end.
Proof.
  intros Ht Hc Hg. pose proof (taken i now n ev Ht (typed i) Hc) as H. unfold callback_answer.
  destruct (handle_callback _ _) as [[a|]|msg|]; cbn; try done. destruct H as [Hty Ha].
  destruct (Hg a Hty) as [x Hx]. rewrite Hx. cbn. by exists a.
Qed.
Lemma ask_cases {X} i variant (get : Node.Answer → option X) :
  let ev := variant (tx (calls i)) in
  Node.callback_of ev = Some (tx (calls i)) → (∀ a, Node.has_type ev a = true → is_Some (get a)) →
  limited ev = false →
  explained calls (ask (calls i) variant get) ∧
  ∀ l x, ask (calls i) variant get = (l, Done x) → l = [Sends ev] ∧
    ∃ now n a, task (calls i) = Takes now n ∧ get a = Some x ∧ Answered (tx (calls i)) a ∈ traffic (calls i) now n ev.
Proof.
  intros ev Hc Hg Hl. unfold ask. fold ev. unfold send, explained. destruct (task (calls i)) as [now n| |] eqn:Ht; cbn.
  - pose proof (reply_explained i ev get now n Ht Hc Hg) as H.
    destruct (callback_answer _ _ _) as [[x|]|msg|]; cbn; [| | |done].
    + split; [done|]. intros l y [= <- <-]. destruct H as (a & Ha). split; [done|]. by exists now, n, a.
    + split; [|done]. exists i. destruct H. apply NoAnswer; [left|done|by rewrite Hl|done].
    + split; [|done]. exists i. apply H. left.
  - split; [exists i; by apply NoRoom|done].
  - split; [exists i; by apply TaskGone|done].
Qed.
Lemma ask_explained {X} i variant (get : Node.Answer → option X) :
  Node.callback_of (variant (tx (calls i))) = Some (tx (calls i)) →
  (∀ a, Node.has_type (variant (tx (calls i))) a = true → is_Some (get a)) →
  limited (variant (tx (calls i))) = false → explained calls (ask (calls i) variant get).
Proof. intros Hc Hg Hl. by apply ask_cases. Qed.

(** A send without a callback, and one whose answer is an event. *)
Lemma tell_explained gone i ev : explained calls (tell gone (calls i) ev).
Proof.
  unfold tell, send, explained. destruct (task (calls i)) eqn:Ht; cbn; [done|exists i; by apply NoRoom|exists i; by apply TaskGone].
Qed.
Lemma listen_cases {L R} (ops : Node.Event → L → L + R) evs l :
  match listen_event ops evs l with
  | Return Pending => RecvError ∉ evs
  | Panic msg => RecvError ∈ evs ∧ msg = UNREACHABLE
  | OutOfFuel => False
  | _ => True
  end.
Proof.
  revert l. induction evs as [|[ev|] evs IH]; intros l; cbn [listen_event]; [apply not_elem_of_nil| |split; [left|done]].
  destruct (ops ev l) as [l'|r]; [|done]. specialize (IH l'). destruct (listen_event ops evs l') as [[r|]|msg|]; try done.
  - intros [?|?]%elem_of_cons; done.
  - destruct IH. split; [by right|done].
Qed.
Lemma ask_events_explained {X} gone i ev (f : Node.Event → option X) : listens ev = true →
  explained calls (ask_events gone (calls i) ev f).
Proof.
  intros Hl. unfold ask_events, tell, send, explained. destruct (task (calls i)) eqn:Ht; cbn.
  - pose proof (listen_cases (answer_with f) (heard (calls i)) tt) as H.
    destruct (listen_event _ _ _) as [[x|]|msg|]; cbn; [done| | |done].
    + destruct (elapsed (calls i)) eqn:Ee; cbn; [done|]. exists i. apply NoEvent; [left|done|done|done].
    + destruct H as [H ->]. exists i. by apply SubscriptionFailed.
  - exists i. by apply NoRoom.
  - exists i. by apply TaskGone.
Qed.
End explained.

(** ** Every command is explained by its calls *)
Section all_commands.
Context (calls : nat → CallCx) (typed : ∀ i, well_typed (calls i)).

Ltac answers := intros [[]|[]|[]|[]|[]|[]|[]|[]]; first [done|by eexists].
Ltac asks := apply ask_explained; [exact typed|reflexivity|answers|reflexivity].
Ltac explain :=
  repeat first
    [exact I | asks | apply tell_explained
    | (apply ask_events_explained; [reflexivity])
    | (apply explained_bind; [|intros ?]) ].

Lemma handle_swarm_explained i command : explained calls (handle_swarm (calls i) command).
Proof.
  destruct command as [a|a|[]|[|a|a]|p|]; cbn [handle_swarm handle_swarm_listener handle_swarm_externaladdress];
    unfold handle_dial, handle_listen; explain. case_match; explain.
Qed.
Lemma handle_relay_explained i command : explained calls (handle_relay_client (calls i) command).
Proof. unfold handle_relay_client, handle_listen. explain. Qed.
Lemma handle_advertise_explained i command : explained calls (handle_advertise (calls i) command).
Proof.
  destruct command as [p b|p|[]]; cbn [handle_advertise handle_provider]; unfold query_advertised_peer, remove_advertised; explain.
  case_match; explain.
Qed.
Lemma handle_messaging_explained i ident command : explained calls (handle_messaging (calls i) ident command).
Proof. destruct command. unfold handle_messaging, MessagingHandle.cli_message. explain. Qed.
Lemma handle_autonat_explained i command : explained calls (handle_autonat (calls i) command).
Proof. destruct command; cbn [handle_autonat]; explain. Qed.
Lemma handle_mdns_explained i command : explained calls (handle_mdns (calls i) command).
Proof. destruct command; cbn [handle_mdns]; explain. Qed.

(** *** blob *)
Lemma map_outcome_cases {X Y} (f : X → outcome Y) l :
  match map_outcome f l with
  | Return _ => True
  | Panic msg => ∃ x, x ∈ l ∧ f x = Panic msg
  | OutOfFuel => ∃ x, x ∈ l ∧ f x = OutOfFuel
  end.
Proof.
  induction l as [|x l IH]; [done|]. cbn. destruct (f x) as [y|msg|] eqn:E; cbn; [|exists x; by split; [left|]..].
  destruct (map_outcome f l) as [ys|msg|]; cbn; [done| |]; destruct IH as (x' & Hx & H'); exists x'; by split; [right|].
Qed.
Lemma SendInfo_fmt_fuel i : SendInfo_fmt i ≠ OutOfFuel.
Proof. unfold SendInfo_fmt, str_from. repeat (case_match; cbn; try done). Qed.

(** What is explained once some actions are done. *)
Definition explained_from {X} (before : list Action) (m : Run X) : Prop := explained calls (before ++ m.1, m.2).
Lemma explained_from_bind {X Y} before (m : Run X) (f : X → Run Y) : explained_from before m →
  (∀ l x, m = (l, Done x) → explained_from (before ++ l) (f x)) → explained_from before (bind m f).
Proof.
  destruct m as [l [x|w|msg]]; unfold explained_from; cbn; intros Hm Hf; [|done..].
  specialize (Hf l x eq_refl). destruct (f x) as [l' e]. cbn in *. by rewrite app_assoc.
Qed.

Lemma explained_from_nil {X} (m : Run X) : explained_from [] m → explained calls m.
Proof. done. Qed.

(** A column: a listed path may be cut inside a character. *)
Lemma display_explained i now n l l' before : task (calls i) = Takes now n →
  Answered (tx (calls i)) (Node.ABlob (BlobTypes.AnsListSend l)) ∈
    traffic (calls i) now n (Node.RBlob (BlobTypes.ListSend (tx (calls i)))) →
  Sends (Node.RBlob (BlobTypes.ListSend (tx (calls i)))) ∈ before →
  (∀ x, x ∈ l' → x ∈ l ∧ SendInfo.started x = false) → explained_from before (display_all l').
Proof.
  intros Ht Ha Hs Hl. unfold display_all, explained_from. pose proof (map_outcome_cases SendInfo_fmt l') as H.
  destruct (map_outcome SendInfo_fmt l') as [t|msg|]; cbn; [done| |].
  - destruct H as (x & Hx & Hf). destruct (Hl x Hx) as [Hin Hst]. exists i. rewrite app_nil_r. by eapply PathNotShown.
  - destruct H as (x & _ & H). by apply SendInfo_fmt_fuel in H.
Qed.
Lemma list_send_explained i : explained calls (handle_blob (calls i) BlobHandle.CListSend).
Proof.
  apply explained_from_nil. cbn [handle_blob].
  destruct (ask_cases calls typed i (λ tx, Node.RBlob (BlobTypes.ListSend tx)) (from_blob BlobHandle.get_send_infos)
    eq_refl ltac:(answers) eq_refl) as [He Hd].
  apply explained_from_bind; [exact He|]. intros l x Hx. destruct (Hd l x Hx) as (-> & now & n & a & Ht & Hg & Ha).
  destruct a as [a|a|a|[]|a|a|a|a]; try done. injection Hg as ->.
  apply explained_from_bind.
  { eapply display_explained; [done|done|left|]. intros y [Hy Hin]%list_elem_of_filter. by split. }
  intros l1 s1 _. apply explained_from_bind; [|done].
  eapply display_explained; [done|done|left|]. intros y [Hy Hin]%list_elem_of_filter. by split.
Qed.
Lemma send_file_explained i to path : explained calls (send_file (calls i) to path).
Proof.
  unfold send_file. destruct (is_dir _ _); [done|]. destruct (open_read _ _) as [file|e]; [|done].
  set (ev := Node.RBlob (BlobTypes.SendFile file path to (tx (calls i)))). unfold send, explained.
  destruct (task (calls i)) as [now n| |] eqn:Ht; cbn; [|exists i; by apply NoRoom|exists i; by apply TaskGone].
  pose proof (reply_explained calls typed i ev (from_blob BlobHandle.get_send_file) now n Ht eq_refl ltac:(answers)) as H.
  destruct (callback_answer _ _ _) as [[x|]|msg|]; cbn; [done| | |done].
  - destruct H as [Hl Hf]. destruct (elapsed (calls i)) eqn:Ee; cbn; [done|]. exists i. by apply NoAnswer; [left|..].
  - exists i. apply H. left.
Qed.
Lemma recv_file_explained i recv_id path : explained calls (recv_file (calls i) recv_id path).
Proof. unfold recv_file. destruct (create_new _ _) as [[file|e] f]; explain. Qed.
Definition unfinished (command : BlobHandle.Command) : Prop :=
  match command with
  | BlobHandle.CListRecv | BlobHandle.CCancelSend _ | BlobHandle.CCancelRecv _ => True
  | _ => False
  end.
Lemma handle_blob_explained i command : ¬ unfinished command → explained calls (handle_blob (calls i) command).
Proof.
  destruct command; intros H; try by destruct H.
  - cbn [handle_blob]. apply explained_bind; [apply send_file_explained|]. intros []; explain.
  - apply list_send_explained.
  - cbn [handle_blob]. apply explained_bind; [apply recv_file_explained|]. intros []; explain.
Qed.

(** *** kad *)
Lemma query_explained i peer_id : explained calls (query (calls i) peer_id).
Proof.
  unfold query. set (ev := Node.RKad (Kad.PeerLookup peer_id (tx (calls i)))). unfold send, explained.
  destruct (task (calls i)) as [now n| |] eqn:Ht; cbn; [|exists i; by apply NoRoom|exists i; by apply TaskGone].
  pose proof (reply_explained calls typed i ev (from_kad Kad.get_query_id) now n Ht eq_refl ltac:(answers)) as H.
  destruct (callback_answer _ _ _) as [[id|]|msg|]; cbn; [| | |done].
  - pose proof (listen_cases (on_progress id) (heard (calls i)) []) as Hl.
    destruct (listen_event _ _ _) as [[x|]|msg|]; cbn; [done| | |done].
    + exists i. apply NoEvent; [left|done|done|done].
    + destruct Hl as [Hl ->]. exists i. by apply SubscriptionFailed.
  - destruct H as [Hl Hf]. exists i. by apply NoAnswer; [left|..].
  - exists i. apply H. left.
Qed.
Lemma insert_all_explained nodes : ∀ i, nodes ⊆ Kad.default_nodes → explained calls (insert_all calls i nodes).
Proof.
  induction nodes as [|node nodes IH]; intros i Hn; [done|]. cbn [insert_all].
  assert (node ∈ Kad.default_nodes) as Hin by (apply Hn; left).
  apply explained_bind; [|intros _; apply IH; intros x Hx; apply Hn; by right]. unfold insert_default, expects.
  destruct (parse_peer node.1) eqn:Ep; [|exists i; apply (NodeNotParsed _ _ node Hin); by left].
  destruct (parse_addr node.2) eqn:Ea; [|exists i; apply (NodeNotParsed _ _ node Hin); by right]. cbn [bind ret].
  match goal with |- explained _ (let '(_, _) := let '(_, _) := ?m in _ in _) =>
    assert (explained calls m) as Hm by explain; destruct m as [l e] end. by destruct e.
Qed.
Lemma handle_kad_explained command : explained calls (handle_kad calls command).
Proof.
  destruct command; cbn [handle_kad]; unfold set_mode; try solve [explain].
  - apply explained_bind; [apply query_explained|]. intros x. done.
  - by apply insert_all_explained.
Qed.

(** *** gossipsub: the store of topics never refuses *)
Lemma subscribe_returns h t : ∃ r, Concurrent.run (GossipTopics.subscribe_topic h None) t = Return r.
Proof.
  unfold GossipTopics.subscribe_topic, GossipTopics.insert_hash. cbn.
  repeat (case_match; cbn); by eexists.
Qed.
Lemma unsubscribe_returns h t : ∃ r, Concurrent.run (GossipTopics.unsubscribe_topic h) t = Return r.
Proof. by eexists. Qed.
Lemma in_topics_explained cx p : (∃ r, Concurrent.run p (topics cx) = Return r) → explained calls (in_topics cx p).
Proof. intros [[b t] H]. unfold in_topics. by rewrite H. Qed.
Lemma handle_gossipsub_explained i command : explained calls (handle_gossipsub (calls i) command).
Proof.
  destruct command as [c|c|c|p|p| |c]; cbn [handle_gossipsub]; unfold subscribe_topic_hash, unsubscribe_topic_hash, publish_message.
  - explain. repeat (case_match; explain). apply in_topics_explained, subscribe_returns.
  - explain. repeat (case_match; explain).
  - destruct (Gossipsub.PublishCommand_destruct c). explain. repeat (case_match; explain).
  - explain.
  - explain.
  - explain.
  - explain.
Qed.
End all_commands.

(** ** No command of this file notifies [main] *)
Definition quiet {X} (m : Run X) : Prop := NotifyShutdown ∉ m.1.
Lemma quiet_bind {X Y} (m : Run X) (f : X → Run Y) : quiet m → (∀ x, quiet (f x)) → quiet (bind m f).
Proof.
  destruct m as [l [x|w|msg]]; unfold quiet; cbn; intros Hm Hf; [|done..]. specialize (Hf x).
  destruct (f x) as [l' e]. cbn in *. by intros [?|?]%elem_of_app.
Qed.
Lemma quiet_end {X} (e : End X) : quiet ([], e).
Proof. apply not_elem_of_nil. Qed.
Lemma quiet_act a : a ≠ NotifyShutdown → quiet (act a).
Proof. by intros Ha [<-|?%elem_of_nil]%elem_of_cons. Qed.
Lemma quiet_send gone cx ev : quiet (send gone cx ev).
Proof. unfold send. case_match; [|apply quiet_end..]. by intros [?|?%elem_of_nil]%elem_of_cons. Qed.
Lemma quiet_reply {X} (r : outcome (Poll X)) w : quiet (reply r w).
Proof. unfold reply. repeat case_match; apply quiet_end. Qed.

Ltac quiets :=
  repeat first
    [ apply quiet_end | apply quiet_send | apply quiet_reply | (apply quiet_act; discriminate)
    | (apply quiet_bind; [|intros ?]) | case_match ].
Lemma handle_swarm_quiet cx command : quiet (handle_swarm cx command).
Proof.
  destruct command as [a|a|[]|[|a|a]|p|]; cbn [handle_swarm handle_swarm_listener handle_swarm_externaladdress];
    unfold handle_dial, handle_listen, ask; quiets.
Qed.
Lemma handle_listen_quiet cx address : quiet (handle_listen cx address).
Proof. unfold handle_listen, ask. quiets. Qed.
Lemma handle_utils_quiet lookup command : quiet (handle_utils lookup command).
Proof. destruct command. unfold handle_utils. quiets. Qed.
Lemma handle_advertise_quiet cx command : quiet (handle_advertise cx command).
Proof.
  destruct command as [p b|p|[]]; cbn [handle_advertise handle_provider];
    unfold query_advertised_peer, remove_advertised, ask_events, ask, tell; quiets.
Qed.
Lemma handle_blob_quiet cx command : quiet (handle_blob cx command).
Proof. destruct command; cbn [handle_blob]; unfold send_file, recv_file, display_all, ask; quiets. Qed.
Lemma handle_messaging_quiet cx ident command : quiet (handle_messaging cx ident command).
Proof. destruct command. unfold handle_messaging, MessagingHandle.cli_message, ask. quiets. Qed.
Lemma handle_autonat_quiet cx command : quiet (handle_autonat cx command).
Proof. destruct command; cbn [handle_autonat]; unfold ask, tell; quiets. Qed.
Lemma handle_mdns_quiet cx command : quiet (handle_mdns cx command).
Proof. destruct command; cbn [handle_mdns]; unfold ask; quiets. Qed.
Lemma insert_all_quiet calls nodes : ∀ i, quiet (insert_all calls i nodes).
Proof.
  induction nodes as [|node nodes IH]; intros i; cbn [insert_all]; [apply quiet_end|].
  apply quiet_bind; [|intros _; apply IH]. unfold insert_default, expects, ask. quiets.
Qed.
Lemma handle_kad_quiet calls command : quiet (handle_kad calls command).
Proof.
  destruct command; cbn [handle_kad]; [..|apply insert_all_quiet];
    unfold query, set_mode, ask_events, ask, tell; quiets.
Qed.
Lemma handle_gossipsub_quiet cx command : quiet (handle_gossipsub cx command).
Proof.
  destruct command; cbn [handle_gossipsub]; unfold subscribe_topic_hash, unsubscribe_topic_hash, publish_message, in_topics,
    ask, tell; quiets.
Qed.
End commands.
End Commands.
