(* ===== verification/Shell.v ===== *)
(** * The program: start, interactive shell, end ([main.rs], [cli/mod.rs])

    Module [Shell]: the loop that reads lines and runs the commands of [Commands],
    and what [main] does before and after.  Reading, splitting and parsing a line
    are libraries' ([Terminal]). *)

From stdpp Require Import base gmap sets list strings.
From Stdlib Require Import Lia NArith.
From S2P Require Import Prelude Std Core Files Calls BlobTypes Messaging Advertise MessagingHandle AdvertiseHandle.
From S2P Require Import BlobHandle GossipTopics Gossipsub Kad Adapters SwarmEvents SwarmLoop Requests Node Commands Identity.
Import Files Calls Commands.

Module Shell.
Section shell.
Context {P : Platform} {T : SwarmEvents.EventTypes} {S : Type} {swarm_ops : SwarmEvents.Libp2pSwarm S}.
Context {TT : GossipTopics.TopicTypes} {G : Gossipsub.GossipBehaviour} {K : Kad.Libp2pKad}.
Context {M : Mdns.Libp2pMdns} {A : AutoNat.Libp2pAutonat} {O : RelayClient.MultiaddrOps}.
Context {gossip_texts : Gossipsub.GossipTexts} {texts : Texts}.
#[local] Abbreviation CallCx := (Commands.CallCx (S := S)).

(** ** cli/mod.rs *)
Inductive Command :=
| Id
| Clear
| Shutdown
| Dial (address : Multiaddr)
| Listen (address : Multiaddr)
| SwarmCommand (c : Swarm)
| AdvertiseCommand (c : AdvertiseHandle.Command)
| BlobCommand (c : BlobHandle.Command)
| MessagingCommand (c : MessagingHandle.Command)
| AutoNatCommand (c : AutoNat.Command)
| GossipsubCommand (c : Gossipsub.Command)
| KadCommand (c : Kad.Command)
| MdnsCommand (c : Mdns.Command)
| RelayClientCommand (c : RelayClient.Command)
| UtilsCommand (c : Utils).

Inductive ReadlineError := RIo (e : ErrorKind) | REof | RInterrupted | ROther (debug : string).

(** [shlex::split] and [Cli::try_parse_from]; [str::trim], the name lookup and the
    text of an I/O error come from the platform. *)
Class Terminal := {
  trim : string → string;
  shlex_split : string → option (list string);
  try_parse_from : list string → result Command string;
  to_socket_addrs : string → result string string;
  io_debug : ErrorKind → string;
}.
Context {terminal : Terminal}.

Context (ident : PeerId).

Definition in_quotes (s : string) : string :=
  String (Ascii.ascii_of_nat 34) (s +:+ String (Ascii.ascii_of_nat 34) EmptyString).

(** The protocols' commands run in the executor of the node, and the thread waits
    for them; clearing the screen may fail without notice. *)
Definition run_command (calls : nat → CallCx) (command : Command) : Run () :=
  let cx := calls 0 in
  match command with
  | Clear => act ClearTerminal
  | Id => println ("Local peer ID: " +:+ peer_display ident)
  | Dial address => handle_dial cx address
  | Listen address => handle_listen cx address
  | Shutdown => bind (println "Shutting down...") (λ _, act NotifyShutdown)
  | SwarmCommand command => handle_swarm cx command
  | AdvertiseCommand command => handle_advertise cx command
  | BlobCommand command => handle_blob cx command
  | MessagingCommand command => handle_messaging cx ident command
  | AutoNatCommand command => handle_autonat cx command
  | KadCommand command => handle_kad calls command
  | MdnsCommand command => handle_mdns cx command
  | RelayClientCommand command => handle_relay_client cx command
  | GossipsubCommand command => handle_gossipsub cx command
  | UtilsCommand command => handle_utils to_socket_addrs command
  end.

Definition handle_command (calls : nat → CallCx) (line : string) : Run () :=
  match shlex_split (trim ("owlnest " +:+ line)) with
  | None => println ("Cannot properly split " +:+ in_quotes line +:+ ": unclosed delimiters")
  | Some commands =>
      match try_parse_from commands with
      | Err e => println e
      | Ok command => run_command calls command
      end
  end.

(** ** The loop *)

(** A line with what appending it to the history answers and what its calls
    meet, or an error. *)
Record LineCx := { add_history_entry : result () string; calls : nat → CallCx }.
Inductive Input := Typed (line : string) (cx : LineCx) | Failed (e : ReadlineError).

Definition U32 : N := 2 ^ 32.
Definition MAX_RETRY : string :=
  "Maximum retry attempts reached, exiting interactive shell. To exit the process, send interrupt signal.".
Definition should_exit (retry_times max_retry_times : N) : Run (bool * N) :=
  bind (if (retry_times + 1 <? U32)%N then ret (retry_times + 1)%N
        else if overflow_checks then panic "attempt to add with overflow" else ret 0%N) (λ retry_times,
  if (max_retry_times <=? retry_times)%N then bind (println MAX_RETRY) (λ _, ret (true, retry_times))
  else ret (false, retry_times)).
Definition error_text (e : ReadlineError) : string :=
  match e with
  | RIo e => "Failed to read input with IO error: " +:+ io_debug e
  | REof => "Failed to read input: Unexpected EOF"
  | RInterrupted => "Interrupt signal received."
  | ROther debug => "rustyline: " +:+ debug
  end.
Definition handle_err (e : ReadlineError) (retry_times : N) : Run (bool * N) :=
  bind (println (error_text e)) (λ _,
  match e with
  | RInterrupted => ret (true, retry_times)
  | _ => should_exit retry_times 5
  end).

(** The state of the shell's thread: its counter, and all it has done. *)
Record State := { retry_times : N; actions : list Action }.
Definition performed (l : list Action) (st : State) : State :=
  {| retry_times := retry_times st; actions := actions st ++ l |}.
Definition counted (n : N) (l : list Action) (st : State) : State :=
  {| retry_times := n; actions := actions st ++ l |}.

(** The thread waits for input, has left its loop, waits for the rest of the
    program, or has panicked. *)
Inductive Thread := Reading | Finished | Blocked (w : Wait) | Panicked (msg : string).

Definition closing : list Action :=
  [Print (Text "shutdown criteria reached, shutting down this peer..."); NotifyShutdown].
Fixpoint shell (inputs : list Input) (st : State) : Thread * State :=
  match inputs with
  | [] => (Reading, st)
  | Typed line cx :: inputs =>
      match add_history_entry cx with
      | Err e => (Panicked ("append history to succeed: " +:+ e), st)
      | Ok _ =>
          match handle_command (calls cx) line with
          | (l, Done _) => shell inputs (performed l st)
          | (l, Waits w) => (Blocked w, performed l st)
          | (l, Panics msg) => (Panicked msg, performed l st)
          end
      end
  | Failed e :: inputs =>
      match handle_err e (retry_times st) with
      | (l, Done (true, n)) => (Finished, counted n (l ++ closing) st)
      | (l, Done (false, n)) => shell inputs (counted n l st)
      | (l, Waits w) => (Blocked w, performed l st)
      | (l, Panics msg) => (Panicked msg, performed l st)
      end
  end.

(** Before the loop: the screen is cleared and the editor is made; the task that
    prints incoming messages is [MessagingHandle.cli_incoming]'s. *)
Definition opening : list Action :=
  [ClearTerminal;
   Print (Text ("OwlNest is now running in interactive mode, type " +:+ in_quotes "help" +:+ " for more information."))].
Definition setup_interactive_shell (clear editor : result () string) (inputs : list Input) : Thread * State :=
  match clear with
  | Err e => (Panicked ("clean up of terminal to succeed: " +:+ e), {| retry_times := 0; actions := [] |})
  | Ok _ =>
      match editor with
      | Err e => (Panicked ("CLI editor to be created successfully: " +:+ e), {| retry_times := 0; actions := opening |})
      | Ok _ => shell inputs {| retry_times := 0; actions := opening |}
      end
  end.

(** ** When the thread ends, and what it has done *)
Definition errors (l : list Input) : list ReadlineError :=
  omap (λ i, match i with Failed e => Some e | Typed _ _ => None end) l.
(** An interrupt, or five other errors, however many lines lie between them. *)
Definition exits (l : list Input) : Prop := RInterrupted ∈ errors l ∨ 5 ≤ length (errors l).

(** What is done for inputs that do not end the loop, if every line was appended
    to the history and every command ended. *)
Fixpoint transcript (l : list Input) : option (list Action) :=
  match l with
  | [] => Some []
  | Typed line cx :: l =>
      match add_history_entry cx, handle_command (calls cx) line with
      | Ok _, (acts, Done _) => app acts <$> transcript l
      | _, _ => None
      end
  | Failed e :: l => app [Print (Text (error_text e))] <$> transcript l
  end.
Definition is_notify (a : Action) : bool := match a with NotifyShutdown => true | _ => false end.
Definition notified (st : State) : bool := existsb is_notify (actions st).

Definition parsed (line : string) : option Command :=
  match shlex_split (trim ("owlnest " +:+ line)) with
  | None => None
  | Some commands => match try_parse_from commands with Ok c => Some c | Err _ => None end
  end.
(** The commands of the blob protocol that are not written yet. *)
Definition unfinished (c : Command) : Prop :=
  match c with BlobCommand c => Commands.unfinished c | _ => False end.

(** How a line ends. *)
Lemma handle_command_ends calls line : (∀ i, well_typed (calls i)) →
  match handle_command calls line with
  | (_, Done _) => True
  | (l, Waits w) => NotifyShutdown ∉ l ∧ ∃ i, Waiting (calls i) l w
  | (l, Panics msg) => NotifyShutdown ∉ l ∧
      ((∃ c, parsed line = Some c ∧ unfinished c) ∨ ∃ i, Cause (calls i) l msg)
  end.
Proof.
  intros Hw. unfold handle_command, parsed. destruct (shlex_split _) as [commands|]; [|done].
  destruct (try_parse_from commands) as [c|e]; [|done].
  assert ((∃ l, run_command calls c = (l, Done ())) ∨
          (unfinished c ∧ run_command calls c = panic "not yet implemented") ∨
          (quiet (run_command calls c) ∧ explained calls (run_command calls c))) as H.
  { destruct c as [| | |a|a|c|c|c|c|c|c|c|c|c|c]; cbn [run_command unfinished]; try (left; by eexists); right.
    - right. split; [apply (handle_swarm_quiet _ (SDial a))|apply (handle_swarm_explained calls Hw 0 (SDial a))].
    - right. split; [apply (handle_swarm_quiet _ (SListen a))|apply (handle_swarm_explained calls Hw 0 (SListen a))].
    - right. split; [apply handle_swarm_quiet|by apply handle_swarm_explained].
    - right. split; [apply handle_advertise_quiet|by apply handle_advertise_explained].
    - destruct c; try (by left); right; (split; [apply handle_blob_quiet|]); apply (handle_blob_explained calls Hw 0); intros [].
    - right. split; [apply handle_messaging_quiet|by apply handle_messaging_explained].
    - right. split; [apply handle_autonat_quiet|by apply handle_autonat_explained].
    - right. split; [apply handle_gossipsub_quiet|by apply handle_gossipsub_explained].
    - right. split; [apply handle_kad_quiet|by apply handle_kad_explained].
    - right. split; [apply handle_mdns_quiet|by apply handle_mdns_explained].
    - right. split; [apply handle_listen_quiet|by apply handle_relay_explained].
    - right. split; [apply handle_utils_quiet|]. destruct c. unfold handle_utils. by case_match. }
  destruct H as [[l ->]|[[Hu ->]|[Hq H]]]; [done| |].
  - split; [apply not_elem_of_nil|]. left. by exists c.
  - unfold quiet, explained in *. destruct (run_command calls c) as [l [x|w|msg]]; cbn in *; [done|by split|].
    split; [done|by right].
Qed.

Lemma transcript_app l1 l2 : transcript (l1 ++ l2) =
  match transcript l1, transcript l2 with Some a, Some b => Some (a ++ b) | _, _ => None end.
Proof.
  induction l1 as [|[line cx|e] l1 IH]; cbn [transcript app].
  - by destruct (transcript l2).
  - destruct (add_history_entry cx); [|by destruct (transcript l2)].
    destruct (handle_command (calls cx) line) as [acts [x|w|msg]]; [|by destruct (transcript l2)..].
    rewrite IH. destruct (transcript l1), (transcript l2); cbn; try done. by rewrite app_assoc.
  - rewrite IH. destruct (transcript l1), (transcript l2); cbn; done.
Qed.

(** What holds while the thread reads: the errors so far are counted, and what
    was to be done for the inputs so far is done. *)
Definition reading (before : list Input) (l : list Action) (st : State) : Prop :=
  ¬ exits before ∧ retry_times st = N.of_nat (length (errors before)) ∧
  transcript before = Some l ∧ actions st = opening ++ l.

Lemma reading_line before l st line cx acts r :
  reading before l st → add_history_entry cx = Ok r → handle_command (calls cx) line = (acts, Done ()) →
  reading (before ++ [Typed line cx]) (l ++ acts) (performed acts st).
Proof.
  intros (He & Hn & Ht & Ha) Hh Hc. unfold reading, exits, errors in *. rewrite !omap_app. cbn. rewrite app_nil_r.
  split_and!; try done.
  - rewrite transcript_app, Ht. cbn. rewrite Hh, Hc. cbn. by rewrite app_nil_r.
  - change (actions st ++ acts = opening ++ (l ++ acts)). by rewrite Ha, <-app_assoc.
Qed.

Lemma few_errors before : ¬ exits before → length (errors before) < 5.
Proof. unfold exits. intros H. destruct (decide (5 ≤ length (errors before))); [tauto|lia]. Qed.
Lemma exits_snoc before e : ¬ exits before →
  (exits (before ++ [Failed e]) ↔ e = RInterrupted ∨ 4 ≤ length (errors before)).
Proof.
  unfold exits, errors. intros H. rewrite omap_app, elem_of_app, length_app. cbn.
  rewrite list_elem_of_singleton. split; [intros [[?|?]|?]|intros [->|?]]; try (by auto); try tauto; try lia.
Qed.

(** What is printed when an error ends the loop. *)
Definition last_words (e : ReadlineError) : list Action :=
  Print (Text (error_text e)) :: match e with RInterrupted => [] | _ => [Print (Text MAX_RETRY)] end.
Definition ends (e : ReadlineError) (n : N) : bool :=
  match e with RInterrupted => true | _ => (5 <=? n + 1)%N end.
Definition count (e : ReadlineError) (n : N) : N := match e with RInterrupted => n | _ => n + 1 end.
Lemma handle_err_spec e n : (n < 5)%N →
  handle_err e n = if ends e n then (last_words e, Done (true, count e n))
                   else ([Print (Text (error_text e))], Done (false, count e n)).
Proof.
  intros Hn. unfold handle_err, should_exit. rewrite (proj2 (N.ltb_lt (n + 1) U32)) by (unfold U32; lia).
  destruct e; cbn; try done; by destruct (5 <=? n + 1)%N.
Qed.
Lemma ends_spec before e n : ¬ exits before → n = N.of_nat (length (errors before)) →
  (ends e n = true ↔ exits (before ++ [Failed e])) ∧
  (ends e n = false → count e n = N.of_nat (length (errors (before ++ [Failed e])))).
Proof.
  intros He ->. rewrite exits_snoc by done. unfold errors. rewrite omap_app, length_app. cbn. split.
  - destruct e; cbn; rewrite ?N.leb_le; (split; [intros H; try (by left); right; lia|intros [H|H]; try done; lia]).
  - destruct e; cbn; [intros; lia..|done|intros; lia].
Qed.

Lemma reading_error before l st e :
  reading before l st →
  (∃ n, handle_err e (retry_times st) = (last_words e, Done (true, n)) ∧ exits (before ++ [Failed e])) ∨
  (∃ n, handle_err e (retry_times st) = ([Print (Text (error_text e))], Done (false, n)) ∧
     reading (before ++ [Failed e]) (l ++ [Print (Text (error_text e))])
       (counted n [Print (Text (error_text e))] st)).
Proof.
  intros (He & Hn & Ht & Ha). pose proof (few_errors before He) as Hlt. rewrite handle_err_spec by lia.
  destruct (ends_spec before e _ He Hn) as [Hx Hc]. destruct (ends e (retry_times st)).
  - left. eexists. split; [done|]. by apply Hx.
  - right. eexists. split; [done|]. split; [intros H; by apply Hx in H|]. split; [by apply Hc|].
    rewrite transcript_app, Ht. split; [done|].
    change (actions st ++ [Print (Text (error_text e))] = opening ++ (l ++ [Print (Text (error_text e))])).
    by rewrite Ha, <-app_assoc.
Qed.

(** What is known of the thread after the inputs. *)
Definition outcome_ok (inputs : list Input) (t : Thread) (st : State) : Prop :=
  match t with
  | Reading => ¬ exits inputs ∧ ∃ l, transcript inputs = Some l ∧ actions st = opening ++ l
  | Finished =>
      ∃ before e after l, inputs = before ++ Failed e :: after ∧ ¬ exits before ∧ exits (before ++ [Failed e]) ∧
        transcript before = Some l ∧ actions st = opening ++ l ++ last_words e ++ closing
  | Blocked w =>
      ∃ before line cx after l acts i, inputs = before ++ Typed line cx :: after ∧ ¬ exits before ∧
        transcript before = Some l ∧ actions st = opening ++ l ++ acts ∧ NotifyShutdown ∉ acts ∧
        Waiting (calls cx i) acts w
  | Panicked msg =>
      ∃ before line cx after l acts, inputs = before ++ Typed line cx :: after ∧ ¬ exits before ∧
        transcript before = Some l ∧ actions st = opening ++ l ++ acts ∧ NotifyShutdown ∉ acts ∧
        ((∃ e, add_history_entry cx = Err e) ∨ (∃ c, parsed line = Some c ∧ unfinished c) ∨
         ∃ i, Cause (calls cx i) acts msg)
  end.

Lemma shell_ok inputs : ∀ before l st, reading before l st →
  (∀ line cx i, Typed line cx ∈ inputs → well_typed (calls cx i)) →
  outcome_ok (before ++ inputs) (shell inputs st).1 (shell inputs st).2.
Proof.
  induction inputs as [|[line cx|e] inputs IH]; intros before l st Hr Hw; cbn [shell].
  - rewrite app_nil_r. destruct Hr as (? & _ & ? & ?). split; [done|]. by exists l.
  - pose proof Hr as (He & _ & Ht & Ha). destruct (add_history_entry cx) as [u|e] eqn:Eh.
    2: { exists before, line, cx, inputs, l, []. split_and!; try done; [by rewrite app_nil_r|apply not_elem_of_nil|].
         left. by exists e. }
    pose proof (handle_command_ends (calls cx) line (λ i, Hw line cx i ltac:(left))) as Hc.
    destruct (handle_command (calls cx) line) as [acts [[]|w|msg]] eqn:Ec.
    + rewrite cons_middle, app_assoc. eapply IH; [by eapply reading_line|]. intros line' cx' i H. apply (Hw line' cx' i). by right.
    + destruct Hc as (Hq & i & Hi). exists before, line, cx, inputs, l, acts, i. split_and!; try done.
      change (actions st ++ acts = opening ++ (l ++ acts)). by rewrite Ha, <-app_assoc.
    + destruct Hc as (Hq & Hc). exists before, line, cx, inputs, l, acts. split_and!; try done; [|by right].
      change (actions st ++ acts = opening ++ (l ++ acts)). by rewrite Ha, <-app_assoc.
  - destruct (reading_error before l st e Hr) as [(n & -> & Hx)|(n & -> & Hr')].
    + destruct Hr as (He & _ & Ht & Ha). exists before, e, inputs, l. split_and!; try done.
      change (actions st ++ (last_words e ++ closing) = opening ++ (l ++ last_words e ++ closing)). by rewrite Ha, <-app_assoc.
    + rewrite cons_middle, app_assoc. eapply IH; [exact Hr'|]. intros line' cx' i H. apply (Hw line' cx' i). by right.
Qed.

Lemma quiet_actions l : NotifyShutdown ∉ l → existsb is_notify l = false.
Proof.
  intros H. apply not_true_iff_false. intros ([] & Hin & Ha)%existsb_exists; try done. apply H. by apply list_elem_of_In.
Qed.

(** C26: when the shell ends, where it is stuck, and what it has done by then.
    Whatever is typed, whatever fails and whatever the rest of the program does,
    as long as callbacks carry answers of their requests: the thread leaves its
    loop at the first interrupt or at the fifth other error counted from the
    start, not from the last line that was read, and [main] is then notified.
    By then, and while it reads, it has done what the lines before ask for, in
    order, and nothing else.  It waits for the program only in a command: for room
    in a channel that is full, for the answer to a request of messaging, advertise
    or a transfer, or for an event; a call with a time limit only until its time
    is over, the others for as long as nothing comes.  It panics when the terminal fails at the start, when a line cannot be
    appended to the history, at a command that is not written yet, and where the
    calls of a command do: the task of the node is gone or ends at the request, a
    request for a remote is dropped, the subscription fails, the listing of
    sends cuts a path inside a character, a default node does not parse.  Stuck
    or dead, it has notified [main] only if a shutdown was asked for before. *)
Theorem shell_ends clear editor inputs :
  (∀ line cx i, Typed line cx ∈ inputs → well_typed (calls cx i)) →
  let '(t, st) := setup_interactive_shell clear editor inputs in
  match t with
  | Reading =>
      ¬ exits inputs ∧ ∃ l, transcript inputs = Some l ∧ actions st = opening ++ l ∧
        notified st = existsb is_notify l
  | Finished =>
      ∃ before e after l, inputs = before ++ Failed e :: after ∧ ¬ exits before ∧ exits (before ++ [Failed e]) ∧
        transcript before = Some l ∧ actions st = opening ++ l ++ last_words e ++ closing ∧ notified st = true
  | Blocked w =>
      ∃ before line cx after l acts i, inputs = before ++ Typed line cx :: after ∧ ¬ exits before ∧
        transcript before = Some l ∧ actions st = opening ++ l ++ acts ∧ notified st = existsb is_notify l ∧
        Waiting (calls cx i) acts w
  | Panicked msg =>
      ((∃ e, clear = Err e) ∨ (∃ e, editor = Err e)) ∧ notified st = false ∨
      ∃ before line cx after l acts, inputs = before ++ Typed line cx :: after ∧ ¬ exits before ∧
        transcript before = Some l ∧ actions st = opening ++ l ++ acts ∧ notified st = existsb is_notify l ∧
        ((∃ e, add_history_entry cx = Err e) ∨ (∃ c, parsed line = Some c ∧ unfinished c) ∨
         ∃ i, Cause (calls cx i) acts msg)
  end.
Proof.
  intros Hw. unfold setup_interactive_shell. destruct clear as [u|e]; [|left; split; [left; by exists e|done]].
  destruct editor as [u'|e]; [|left; split; [right; by exists e|done]].
  assert (reading [] [] {| retry_times := 0; actions := opening |}) as H0.
  { split_and!; try done. intros [H|H]; [by apply not_elem_of_nil in H|cbn in H; lia]. }
  pose proof (shell_ok inputs [] [] _ H0 Hw) as H. destruct (shell inputs _) as [t st]. cbn [fst snd app] in H.
  unfold notified. destruct t; cbn [outcome_ok] in H.
  - destruct H as (He & l & Ht & Ha). split; [done|]. exists l. rewrite Ha, existsb_app. by split_and!.
  - destruct H as (before & e & after & l & Hi & He & Hx & Ht & Ha). exists before, e, after, l.
    split_and!; try done. rewrite Ha, !existsb_app. cbn. by rewrite !orb_true_r.
  - destruct H as (before & line & cx & after & l & acts & i & Hi & He & Ht & Ha & Hq & Hc).
    exists before, line, cx, after, l, acts, i. split_and!; try done.
    rewrite Ha, !existsb_app, (quiet_actions acts Hq). cbn. by rewrite orb_false_r.
  - right. destruct H as (before & line & cx & after & l & acts & Hi & He & Ht & Ha & Hq & Hc).
    exists before, line, cx, after, l, acts. split_and!; try done.
    rewrite Ha, !existsb_app, (quiet_actions acts Hq). cbn. by rewrite orb_false_r.
Qed.
End shell.

(** ** main.rs *)
Section main.
Context {P : Platform} {keys : Identity.Keys}.

(** [toml], with the check that [read_to_string] makes. *)
Class ConfigText := {
  is_utf8 : bytes → bool;
  from_str : bytes → option Node.SwarmConfig;
  to_string_pretty : Node.SwarmConfig → bytes;
}.
Context {text : ConfigText} (version : string).
(** The text of an I/O error; the microseconds at which the program starts. *)
Context (error_debug : ErrorKind → string) (time : string).

Definition config_path : string := "./owlnest_config.toml".
Definition example_path : string := "./owlnest_config.toml.example".

(** The text [read_config] parses: what was read before an error, and nothing
    if it is not UTF-8. *)
Definition config_text (fuel : nat) (path : string) (fs : Fs) : outcome (option bytes) :=
  match open_read path fs with
  | Err _ => Return None
  | Ok f =>
      if is_dir path fs then Return (Some [])
      else
        ' (buf, _) ← read_to_end fuel f;
        Return (Some (if is_utf8 buf then buf else []))
  end.

(** One [write] of the example, which may be short, and no error. *)
Definition write_example (fs : Fs) : Fs :=
  match create example_path fs with
  | (Err _, fs) => fs
  | (Ok f, fs) =>
      let '(_, f) := File.write (to_string_pretty (Node.SwarmConfig_default version)) f in
      set_file example_path (on_disk example_path f fs) fs
  end.

Definition read_config (fuel : nat) (path : string) (fs : Fs)
    : outcome (result Node.SwarmConfig ErrorKind * Fs) :=
  maybe_text ← config_text fuel path fs;
  Return (match maybe_text ≫= from_str with
          | Some v => (Ok v, fs)
          | None => (Err InvalidData, write_example fs)
          end)%stdpp.

(** The file the log goes to: in the directory, if there is one.  Installing the
    subscriber does not fail, as it is done once. *)
Definition logs_dir : string := "./logs".
Definition log_in_dir : string := "./logs/" +:+ time +:+ ".log".
Definition log_here : string := time +:+ ".log".
Definition setup_logging (fs : Fs) : result File ErrorKind * Fs :=
  match create_dir logs_dir fs with
  | (Ok _, fs) => create log_in_dir fs
  | (Err e, fs) =>
      let error := error_debug e in
      if contains "AlreadyExists" error then create log_in_dir fs else create log_here fs
  end.

(** [main] up to the spawn of the shell: what the node is built from.  Without a
    log file it goes on. *)
Definition main (fuel : nat) (random : N) (fs : Fs)
    : outcome (result (Node.SwarmConfig * Identity.IdentityUnion) ErrorKind * Fs) :=
  ' (r, fs) ← read_config fuel config_path fs;
  match r with
  | Err e => Return (Err e, fs)
  | Ok config =>
      let '(_, fs) := setup_logging fs in
      let identity_path := SwarmLoop.identity_path (Node.c_swarm config) in
      if String.eqb identity_path "" then Return (Ok (config, Identity.generate random), fs)
      else
        ' (r, fs) ← Identity.get_ident fuel random identity_path fs;
        Return (match r with Ok ident => Ok (config, ident) | Err e => Err e end, fs)
  end.

Lemma write_example_only fs p : p ≠ example_path → nodes (write_example fs) !! p = nodes fs !! p.
Proof.
  intros Hp. unfold write_example. rewrite <-(create_only example_path fs p Hp).
  destruct (create example_path fs) as [[f|e] fs1]; [|done].
  destruct (File.write _ _). cbn. by rewrite lookup_insert_ne.
Qed.

(** The log is one new file, next to the program only if there can be no
    directory for it; what was in it is dropped. *)
Definition log_paths : list string := [logs_dir; log_in_dir; log_here].
Lemma setup_logging_only fs q : q ∉ log_paths → nodes (setup_logging fs).2 !! q = nodes fs !! q.
Proof.
  unfold log_paths. rewrite !not_elem_of_cons. intros (Hd & Hi & Hh & _). unfold setup_logging.
  pose proof (create_dir_only logs_dir fs q Hd) as Hdir. destruct (create_dir logs_dir fs) as [[?|e] fs1].
  - by rewrite create_only.
  - destruct (contains _ _); by rewrite create_only.
Qed.
Lemma setup_logging_ok fs f : (setup_logging fs).1 = Ok f →
  nodes (setup_logging fs).2 !! log_in_dir = Some (Regular f) ∨
  (nodes (setup_logging fs).2 !! log_here = Some (Regular f) ∧ ∃ e, (create_dir logs_dir fs).1 = Err e).
Proof.
  unfold setup_logging. destruct (create_dir logs_dir fs) as [[?|e] fs1].
  - intros H. left. by apply create_ok.
  - destruct (contains _ _); intros H; [left|right]; [by apply create_ok|]. split; [by apply create_ok|]. by exists e.
Qed.

Lemma get_ident_only fuel random path fs r fs' q :
  Identity.get_ident fuel random path fs = Return (r, fs') → q ≠ path → nodes fs' !! q = nodes fs !! q.
Proof.
  unfold Identity.get_ident, Identity.export_keypair. intros H Hq. inv_return. destruct x; inv_return; [done|].
  match goal with H : Identity.export_to_file _ _ _ _ = _ |- _ => apply Identity.export_to_file_spec in H as
    [[-> _]|(k & g & -> & _)]; [done|] end. by rewrite lookup_insert_ne.
Qed.

(** What a start of the program does to the file system.  Without a configuration
    it can parse it fails, and changes at most the example configuration.
    Otherwise it changes at most its log and the identity file, and not the latter
    if its path is empty.  If it starts, the configuration is what the file says,
    and the peer ID is the one of the key. *)
Theorem start_changes_its_files fuel random fs r fs' :
  main fuel random fs = Return (r, fs') →
  ∃ t, config_text fuel config_path fs = Return t ∧
  match mbind (M := option) from_str t with
  | None => r = Err InvalidData ∧ ∀ q, q ≠ example_path → nodes fs' !! q = nodes fs !! q
  | Some config =>
      let path := SwarmLoop.identity_path (Node.c_swarm config) in
      (∀ q, q ≠ path → q ∉ log_paths → nodes fs' !! q = nodes fs !! q) ∧
      (path = "" → fs' = (setup_logging fs).2 ∧ r = Ok (config, Identity.generate random)) ∧
      ∀ c i, r = Ok (c, i) → c = config ∧ Identity.well_formed i
  end.
Proof.
  unfold main, read_config. intros H. destruct (config_text fuel config_path fs) as [x| |]; [|done..].
  exists x. split; [done|]. cbn [obind] in H. destruct (mbind from_str x) as [config|]; cbn [obind] in H; inv_return.
  - pose proof (setup_logging_only fs) as Hlog. destruct (setup_logging fs) as [l fs1]. cbn [snd] in Hlog |- *.
    destruct (String.eqb_spec (SwarmLoop.identity_path (Node.c_swarm config)) "") as [->|Hne]; inv_return.
    + split_and!; try done; [by intros q _; apply Hlog|]. intros c i [= <- <-]. by split.
    + split_and!; [|done|].
      * intros q Hq Hl. rewrite <-(Hlog q Hl). by eapply get_ident_only.
      * intros c i Hr. case_match; simplify_eq/=. split; [done|]. by eapply Identity.get_ident_well_formed.
  - split; [done|]. apply write_example_only.
Qed.
End main.

(** ** Witnesses *)
Section witnesses.
#[local] Existing Instance demo_platform.
#[local] Existing Instance Identity.demo_keys.
#[local] Existing Instance Node.demo_types.
#[local] Existing Instance Node.demo_swarm.
#[local] Existing Instance GossipTopics.demo_types.
#[local] Existing Instance Gossipsub.demo_gossip.
#[local] Existing Instance Kad.demo_kad.
#[local] Existing Instance Node.demo_mdns.
#[local] Existing Instance Node.demo_autonat.

#[local] Instance demo_multiaddr : RelayClient.MultiaddrOps := {| RelayClient.with_protocol := λ a _, a |}.
#[local] Instance demo_gossip_texts : Gossipsub.GossipTexts := {|
  Gossipsub.topic_display := λ _, "topic"; Gossipsub.message_id_display := λ _, "id";
  Gossipsub.subscription_error_debug := λ _, ""; Gossipsub.publish_error_debug := λ _, "";
  Gossipsub.printable := column;
|}.
#[local] Instance demo_texts : Texts := {|
  addr_display := λ a, a; listener_debug := λ _, "0"; transport_view := λ _, Other "";
  peers_debug := λ _, "[]"; send_error_debug := λ _, ""; recv_error_debug := λ _, "";
  results_debug := λ _, "[]"; addresses_debug := λ _, "None"; routing_debug := λ _, "";
  parse_peer := λ _, None; parse_addr := λ _, None;
|}.
(** Two lines are understood. *)
#[local] Instance demo_terminal : Terminal := {|
  trim := id; shlex_split := λ s, Some [s];
  try_parse_from := λ l,
    match l with
    | ["owlnest listen"] => Ok (Listen ("/a" : @Multiaddr demo_platform))
    | ["owlnest send"] => Ok (MessagingCommand (MessagingHandle.CSend (5%N : @PeerId demo_platform) "hi"))
    | _ => Err "unrecognized subcommand"
    end;
  to_socket_addrs := λ _, Err ""; io_debug := λ _, "";
|}.
Definition empty_fs : Fs := {| nodes := ∅; refuse := λ _, None; fresh_os := λ _ _, OsUpTo 1 |}.
(** The node takes a request; nothing comes later. *)
Definition demo_call (i : nat) : CallCx := {|
  tx_id := N.of_nat i; task := Takes 0 Node.demo_node; later := λ _, []; heard := []; elapsed := false; now_ms := 0;
  fs := empty_fs; topics := GossipTopics.MemTopicStore_default; messages := GossipTopics.MemMessageStore_default;
  routing_heard := [];
|}.
Definition demo_cx : LineCx := {| add_history_entry := Ok (); calls := demo_call |}.
Definition demo_shell (inputs : list Input) : Thread * State :=
  setup_interactive_shell (5%N : @PeerId demo_platform) (Ok ()) (Ok ()) inputs.

(** A line is run, then the user interrupts. *)
Definition demo_inputs : list Input := [Typed "listen" demo_cx; Failed RInterrupted; Typed "send" demo_cx].
Lemma demo_finishes : (demo_shell demo_inputs).1 = Finished.
Proof. vm_cast_no_check (eq_refl (Finished (P := demo_platform))). Qed.
(** A message whose answer does not come blocks the shell. *)
Lemma demo_blocks : match (demo_shell [Typed "send" demo_cx; Failed RInterrupted]).1 with Blocked (OnCallback _) => true | _ => false end = true.
Proof. vm_cast_no_check (eq_refl true). Qed.

Lemma demo_typed (inputs : list Input) : (∀ line cx, Typed line cx ∈ inputs → cx = demo_cx) →
  ∀ line cx i, Typed line cx ∈ inputs → well_typed (calls cx i).
Proof. intros H line cx i Hin. rewrite (H line cx Hin). intros ev r _ Hr. by apply elem_of_nil in Hr. Qed.

Lemma shell_ends_witness : ∃ st, demo_shell demo_inputs = (Finished, st) ∧
  ∃ before e after l, demo_inputs = before ++ Failed e :: after ∧ ¬ exits before ∧ exits (before ++ [Failed e]) ∧
    transcript (5%N : @PeerId demo_platform) before = Some l ∧
    actions st = opening ++ l ++ last_words e ++ closing ∧ notified st = true.
Proof.
  assert (∀ line cx i, Typed line cx ∈ demo_inputs → well_typed (calls cx i)) as Hw.
  { apply demo_typed. intros line cx H. repeat (apply elem_of_cons in H as [H|H]; [by simplify_eq|]). by apply elem_of_nil in H. }
  pose proof demo_finishes as Hf.
  pose proof (shell_ends (5%N : @PeerId demo_platform) (Ok ()) (Ok ()) demo_inputs Hw) as H.
  change (setup_interactive_shell _ _ _ _) with (demo_shell demo_inputs) in H.
  destruct (demo_shell demo_inputs) as [t st]. cbn [fst] in Hf. rewrite Hf in H. exists st. split; [by rewrite Hf|exact H].
Defined.

(** The text names the identity file. *)

Definition demo_config : Node.SwarmConfig := {|
  Node.c_swarm := {| SwarmLoop.identity_path := "id"; SwarmLoop.swarm_event_buffer_size := 16;
                     SwarmLoop.swarm_event_timeout := 200 |};
  Node.c_autonat := AutoNat.Config_default; Node.c_kad := Kad.Config_default;
  Node.c_identify := Identify.Config_default "1"; Node.c_mdns := Mdns.Config_default;
  Node.c_messaging := Messaging.Config_default; Node.c_blob := BlobTypes.Config_default;
  Node.c_advertise := Advertise.Config_default; Node.c_relay_server := RelayServer.Config_default;
  Node.c_gossipsub := Gossipsub.config.Config_default;
|}.
#[local] Instance demo_text : ConfigText := {|
  is_utf8 := λ _, true;
  from_str := λ b, match b with [] => None | _ => Some demo_config end;
  to_string_pretty := λ _, [Byte.x01];
|}.
Definition demo_fs : Fs := {|
  nodes := {[ config_path := Regular {| f_bytes := [Byte.x01]; f_pos := 0; f_metadata := Ok ();
                                        f_os := λ _, OsUpTo 1; f_calls := 0 |} ]};
  refuse := λ _, None; fresh_os := λ _ _, OsUpTo 1;
|}.

Definition demo_debug (e : ErrorKind) : string := match e with AlreadyExists => "AlreadyExists" | _ => "" end.

Lemma start_changes_its_files_witness :
  ∃ fs', main "1" demo_debug "0" 4 7 demo_fs = Return (Ok (demo_config, Identity.generate 7), fs') ∧
    (∀ q, q ≠ "id" → q ∉ log_paths "0" → nodes fs' !! q = nodes demo_fs !! q) ∧ Identity.well_formed (Identity.generate 7).
Proof.
  assert (∃ fs', main "1" demo_debug "0" 4 7 demo_fs = Return (Ok (demo_config, Identity.generate 7), fs')) as [fs' H]
    by (eexists; reflexivity).
  exists fs'. split; [exact H|].
  destruct (start_changes_its_files "1" demo_debug "0" 4 7 demo_fs _ fs' H) as (t & Ht & Hm). injection Ht as <-.
  destruct Hm as (Hq & _ & Hi). split; [exact Hq|]. exact (proj2 (Hi _ _ eq_refl)).
Defined.
End witnesses.
End Shell.
