(* ===== verification/Hyper.v ===== *)
(** * HTTP over a stream ([src/protocols/owlnest-hyper])

    Module [Hyper]: errors, configuration, the behaviour and the connection
    handler.  The crate is not part of the build of the node.  hyper and the
    tasks it runs in are an interface ([HyperTasks]): the handler starts them and
    polls their join handles and channels. *)

From stdpp Require Import base gmap sets list strings.
From Stdlib Require Import Lia NArith.
From S2P Require Import Prelude Std Core.

Module Hyper.

(** ** error.rs, config.rs *)
Inductive Error := UnrecognizedMessage (msg : string) | IO (msg : string) | Channel.
Definition Error_fmt (e : Error) : string :=
  match e with
  | UnrecognizedMessage msg => msg
  | IO msg => msg
  | Channel => "Callback channel closed unexpectedly"
  end.

Record Config := { timeout : N }.
Definition Config_new : Config := {| timeout := from_secs 60 |}.
Definition Config_default : Config := Config_new.
Definition with_timeout (timeout : N) (self : Config) : Config := {| timeout := timeout |}.

Definition PROTOCOL_NAME : string := "/owlnest/hyper/0.0.1".

(** hyper's client and server, the tasks they run in and their channels. *)
Class HyperTasks := {
  Stream : Type;
  Request : Type;
  Sender : Type;
  SendFuture : Type;
  JoinHandle : Type;
  Receiver : Type;
  spawn_server : Stream → Receiver;
  spawn_client : Stream → JoinHandle * Receiver;
  poll_join : JoinHandle → Poll (result Sender string) * JoinHandle;
  poll_recv : Receiver → Poll (option string) * Receiver;
  send_request : Request → Sender → SendFuture;
}.

Section hyper.
Context {P : Platform} {tasks : HyperTasks}.

(** ** lib.rs *)
Inductive InEvent :=
| ESendRequest (peer : PeerId) (request : Request) (callback : Callback)
| ListConnected (callback : Callback).
Inductive OutEvent :=
| Response (inner : bytes) (ticket : N)
| OutError (e : Error)
| OutInboundNegotiated (peer : PeerId)
| OutOutboundNegotiated (peer : PeerId)
| OutUnsupported (peer : PeerId).
Inductive Answer := AnsListConnected (l : list PeerId).

(** ** handler.rs: data *)
Inductive FromBehaviourEvent := FRequest (request : Request) (callback : Callback).
Inductive ToBehaviourEvent := TError (e : Error) | InboundNegotiated | OutboundNegotiated | Unsupported.
Inductive State := Inactive (reported : bool) | Active.
Inductive StreamState := Negotiating | StreamReady (stream : Stream) | Consumed.
Definition StreamState_default : StreamState := Negotiating.
Inductive ClientState := ClientReady (client : Sender) | Opening (handle : JoinHandle).

Record Handler := {
  state : State;
  pending_in_events : list FromBehaviourEvent;
  pending_out_events : list ToBehaviourEvent;
  inbound_stream : option StreamState;
  outbound_stream : option StreamState;
  server_event_tap : option Receiver;
  client_event_tap : option Receiver;
  client : option ClientState;
  ongoing_request : option (SendFuture * Callback);
  pending_requests : list (Request * Callback);
}.
Definition Handler_new (config : Config) : Handler := {|
  state := Active; pending_in_events := []; pending_out_events := []; inbound_stream := None;
  outbound_stream := None; server_event_tap := None; client_event_tap := None; client := None;
  ongoing_request := None; pending_requests := [];
|}.

(** The queues and the state, and the streams with their tasks. *)
Definition with_queues (st : State) (ins : list FromBehaviourEvent) (outs : list ToBehaviourEvent) (s : Handler) : Handler := {|
  state := st; pending_in_events := ins; pending_out_events := outs; inbound_stream := inbound_stream s;
  outbound_stream := outbound_stream s; server_event_tap := server_event_tap s;
  client_event_tap := client_event_tap s; client := client s; ongoing_request := ongoing_request s;
  pending_requests := pending_requests s;
|}.
Definition set_state (st : State) (s : Handler) : Handler := with_queues st (pending_in_events s) (pending_out_events s) s.
Definition push_out (ev : ToBehaviourEvent) (s : Handler) : Handler :=
  with_queues (state s) (pending_in_events s) (pending_out_events s ++ [ev]) s.
Definition with_streams (i o : option StreamState) (st ct : option Receiver) (c : option ClientState) (s : Handler) : Handler := {|
  state := state s; pending_in_events := pending_in_events s; pending_out_events := pending_out_events s;
  inbound_stream := i; outbound_stream := o; server_event_tap := st; client_event_tap := ct; client := c;
  ongoing_request := ongoing_request s; pending_requests := pending_requests s;
|}.
Definition set_inbound (i : option StreamState) (s : Handler) : Handler :=
  with_streams i (outbound_stream s) (server_event_tap s) (client_event_tap s) (client s) s.
Definition set_outbound (o : option StreamState) (s : Handler) : Handler :=
  with_streams (inbound_stream s) o (server_event_tap s) (client_event_tap s) (client s) s.
Definition set_client (c : option ClientState) (s : Handler) : Handler :=
  with_streams (inbound_stream s) (outbound_stream s) (server_event_tap s) (client_event_tap s) c s.
Definition set_server_tap (t : option Receiver) (s : Handler) : Handler :=
  with_streams (inbound_stream s) (outbound_stream s) t (client_event_tap s) (client s) s.
Definition set_client_tap (t : option Receiver) (s : Handler) : Handler :=
  with_streams (inbound_stream s) (outbound_stream s) (server_event_tap s) t (client s) s.
Definition set_requests (ongoing : option (SendFuture * Callback)) (pending : list (Request * Callback)) (s : Handler) : Handler := {|
  state := state s; pending_in_events := pending_in_events s; pending_out_events := pending_out_events s;
  inbound_stream := inbound_stream s; outbound_stream := outbound_stream s;
  server_event_tap := server_event_tap s; client_event_tap := client_event_tap s; client := client s;
  ongoing_request := ongoing; pending_requests := pending;
|}.

(** ** handler.rs: operations *)
Definition on_dial_upgrade_error (error : StreamUpgradeError) (s : Handler) : Handler :=
  let s := set_inbound None s in
  match error with
  | NegotiationFailed => set_state (Inactive false) s
  | _ => s
  end.
Definition on_behaviour_event (event : FromBehaviourEvent) (s : Handler) : Handler :=
  with_queues (state s) (pending_in_events s ++ [event]) (pending_out_events s) s.
Definition connection_keep_alive (s : Handler) : bool := true.

(** The arms of a turn of the loop either [break] or go on. *)
Inductive Turn := Break (s : Handler) | Next (s : Handler) | ReturnEvent (s : Handler).

Definition check_inbound (s : Handler) : Turn :=
  match inbound_stream s with
  | Some Negotiating => Break s
  | Some (StreamReady stream) => Next (set_inbound (Some Consumed) (set_server_tap (Some (spawn_server stream)) s))
  | Some Consumed => Next s
  | None => Next s
  end.
Definition check_outbound (s : Handler) : Turn :=
  match outbound_stream s with
  | Some Negotiating => Break s
  | Some (StreamReady stream) =>
      let '(handle, rx) := spawn_client stream in
      Next (set_client_tap (Some rx) (set_client (Some (Opening handle)) (set_outbound None s)))
  | Some Consumed => Next s
  | None => ReturnEvent (set_outbound (Some Negotiating) s)
  end.
Definition check_client (s : Handler) : outcome Turn :=
  let taken := set_client None s in
  match client s with
  | Some (ClientReady c) =>
      match ongoing_request s with
      | None =>
          match pending_requests s with
          | (request, callback) :: rest =>
              Return (Break (set_requests (Some (send_request request c, callback)) rest taken))
          | [] => Return (Break taken)
          end
      | Some _ => Return (Next taken)
      end
  | Some (Opening handle) =>
      match poll_join handle with
      | (Ready (Ok c), _) => Return (Next (set_client (Some (ClientReady c)) s))
      | (Ready (Err e), _) => Panic e
      | (Pending, handle) => Return (Break (set_client (Some (Opening handle)) s))
      end
  | None => Return (Next (set_outbound None s))
  end.
Definition check_server_events (s : Handler) : Turn :=
  match server_event_tap s with
  | Some ev_tap =>
      match poll_recv ev_tap with
      | (Ready (Some _), ev_tap) => Next (set_server_tap (Some ev_tap) s)
      | (Ready None, _) => Break (set_inbound None (set_server_tap None s))
      | (Pending, ev_tap) => Next (set_server_tap (Some ev_tap) s)
      end
  | None => Next s
  end.
Definition check_client_events (s : Handler) : Turn :=
  match client_event_tap s with
  | Some ev_tap =>
      match poll_recv ev_tap with
      | (Ready (Some _), ev_tap) => Next (set_client_tap (Some ev_tap) s)
      | (Ready None, ev_tap) => Break (set_outbound None (set_server_tap None (set_client_tap (Some ev_tap) s)))
      | (Pending, ev_tap) => Next (set_client_tap (Some ev_tap) s)
      end
  | None => Next s
  end.

Definition and_then (t : Turn) (f : Handler → outcome Turn) : outcome Turn :=
  match t with Next s => f s | t => Return t end.
Definition turn (s : Handler) : outcome Turn :=
  and_then (check_inbound s) (λ s,
  and_then (check_outbound s) (λ s,
  t ← check_client s;
  and_then t (λ s,
  and_then (check_server_events s) (λ s, Return (check_client_events s))))).

(** How the loop ends: by [break], or by returning the request of a stream. *)
Definition loop_body (s : Handler) : outcome (Handler + (bool * Handler)) :=
  t ← turn s;
  Return (match t with
          | Next s => inl s
          | Break s => inr (false, s)
          | ReturnEvent s => inr (true, s)
          end).

Definition poll (fuel : nat) (s : Handler) : outcome (Poll (ConnectionHandlerEvent ToBehaviourEvent) * Handler) :=
  match state s with
  | Inactive true => Return (Pending, s)
  | Inactive false => Return (Ready (NotifyBehaviour Unsupported), set_state (Inactive true) s)
  | Active =>
      ' (requested, s) ← loop loop_body fuel s;
      if (requested : bool) then Return (Ready (OutboundSubstreamRequest PROTOCOL_NAME), s)
      else
        match pending_out_events s with
        | ev :: rest => Return (Ready (NotifyBehaviour ev), with_queues (state s) (pending_in_events s) rest s)
        | [] => Return (Pending, s)
        end
  end.

Definition on_connection_event (event : ConnectionEvent Stream) (s : Handler) : outcome Handler :=
  match event with
  | FullyNegotiatedInbound stream => Return (push_out InboundNegotiated (set_inbound (Some (StreamReady stream)) s))
  | FullyNegotiatedOutbound stream => Return (push_out OutboundNegotiated (set_outbound (Some (StreamReady stream)) s))
  | DialUpgradeError e => Return (on_dial_upgrade_error e s)
  | AddressChange _ | LocalProtocolsChange | RemoteProtocolsChange => Return s
  | ListenUpgradeError | UncoveredConnectionEvent => Panic "not implemented: New branch not covered"
  end.

(** ** behaviour.rs *)
Record Behaviour := {
  config : Config;
  out_events : list OutEvent;
  in_events : list InEvent;
  connected_peers : gset PeerId;
}.
Definition new (config : Config) : Behaviour :=
  {| config := config; out_events := []; in_events := []; connected_peers := ∅ |}.
Definition push_event (msg : InEvent) (s : Behaviour) : Behaviour :=
  {| config := config s; out_events := out_events s; in_events := in_events s ++ [msg]; connected_peers := connected_peers s |}.
Definition on_connect (peer : PeerId) (s : Behaviour) : Behaviour :=
  {| config := config s; out_events := out_events s; in_events := in_events s;
     connected_peers := {[peer]} ∪ connected_peers s |}.
Definition on_disconnect (info : ConnectionClosed) (s : Behaviour) : Behaviour :=
  if (cc_remaining_established info <? 1)%N then
    {| config := config s; out_events := out_events s; in_events := in_events s;
       connected_peers := connected_peers s ∖ {[cc_peer_id info]} |}
  else s.
Definition push_out_event (ev : OutEvent) (s : Behaviour) : Behaviour :=
  {| config := config s; out_events := out_events s ++ [ev]; in_events := in_events s; connected_peers := connected_peers s |}.
Definition on_connection_handler_event (peer_id : PeerId) (event : ToBehaviourEvent) (s : Behaviour) : Behaviour :=
  match event with
  | TError e => push_out_event (OutError e) s
  | InboundNegotiated => push_out_event (OutInboundNegotiated peer_id) s
  | OutboundNegotiated => push_out_event (OutOutboundNegotiated peer_id) s
  | Unsupported => push_out_event (OutUnsupported peer_id) s
  end.
Definition behaviour_poll (s : Behaviour)
    : Poll (ToSwarm OutEvent FromBehaviourEvent) * Behaviour * list (Sent Answer) :=
  match out_events s with
  | ev :: rest =>
      (Ready (GenerateEvent ev),
       {| config := config s; out_events := rest; in_events := in_events s; connected_peers := connected_peers s |}, [])
  | [] =>
      match in_events s with
      | ev :: rest =>
          let s := {| config := config s; out_events := []; in_events := rest; connected_peers := connected_peers s |} in
          match ev with
          | ESendRequest peer_id request callback =>
              (Ready (NotifyHandler peer_id Any (FRequest request callback)), s, [])
          | ListConnected callback =>
              (Pending, s, handle_callback_sender (AnsListConnected (hs_iter (connected_peers s))) callback)
          end
      | [] => (Pending, s, [])
      end
  end.
Definition on_swarm_event (event : FromSwarm) (s : Behaviour) : Behaviour :=
  match event with
  | FromSwarmConnectionClosed info => on_disconnect info s
  | FromSwarmOther => s
  end.
Definition handle_established_inbound_connection (peer : PeerId) (s : Behaviour) : Behaviour * Handler :=
  (on_connect peer s, Handler_new (config s)).
Definition handle_established_outbound_connection (peer : PeerId) (s : Behaviour) : Behaviour * Handler :=
  (on_connect peer s, Handler_new (config s)).

(** ** Runs of a handler *)
Inductive Op :=
| OpRequest (event : FromBehaviourEvent)
| OpConnection (event : ConnectionEvent Stream)
| OpPoll (fuel : nat).
Definition step (op : Op) (s : Handler) : outcome Handler :=
  match op with
  | OpRequest event => Return (on_behaviour_event event s)
  | OpConnection event => on_connection_event event s
  | OpPoll fuel => ' (_, s) ← poll fuel s; Return s
  end.
Definition run (ops : list Op) (s : Handler) : outcome Handler := fold_outcome step ops s.
Definition requests (ops : list Op) : list FromBehaviourEvent :=
  omap (λ op, match op with OpRequest ev => Some ev | _ => None end) ops.

(** No stream of the handler is ever in these states, and nothing is sent. *)
Definition idle (s : Handler) : Prop :=
  pending_requests s = [] ∧ ongoing_request s = None ∧
  inbound_stream s ≠ Some Negotiating ∧ outbound_stream s ≠ Some Consumed.
(** A step that is not a request leaves the queue of requests alone. *)
Definition keeps (s s' : Handler) : Prop := idle s' ∧ pending_in_events s' = pending_in_events s ∧ state s' = state s.

Definition turn_state (t : Turn) : Handler := match t with Break s | Next s | ReturnEvent s => s end.
Definition turn_keeps (s : Handler) (t : Turn) : Prop := keeps s (turn_state t).

Lemma keeps_refl s : idle s → keeps s s.
Proof. by intros. Qed.

Lemma and_then_keeps s t f t' : turn_keeps s t → (∀ s1, keeps s s1 → ∀ t1, f s1 = Return t1 → turn_keeps s t1) →
  and_then t f = Return t' → turn_keeps s t'.
Proof. intros Ht Hf. destruct t; cbn; [by intros [= <-]|by apply Hf|by intros [= <-]]. Qed.

(** Every clause of [keeps] is one of the state before, or computes. *)
Ltac keep := unfold turn_keeps, keeps, idle in *; cbn; split_and!; (done || congruence).

Lemma check_inbound_keeps s s0 : keeps s0 s → turn_keeps s0 (check_inbound s).
Proof.
  intros ((Hp & Ho & Hi & Hout) & Hq & Hs). unfold check_inbound.
  destruct (inbound_stream s) as [[]|] eqn:E; keep.
Qed.
Lemma check_outbound_keeps s s0 : keeps s0 s → turn_keeps s0 (check_outbound s).
Proof.
  intros ((Hp & Ho & Hi & Hout) & Hq & Hs). unfold check_outbound.
  destruct (outbound_stream s) as [[]|] eqn:E; try destruct (spawn_client _); keep.
Qed.
Lemma check_client_keeps s s0 t : keeps s0 s → check_client s = Return t → turn_keeps s0 t.
Proof.
  intros ((Hp & Ho & Hi & Hout) & Hq & Hs). unfold check_client. rewrite Hp, Ho.
  destruct (client s) as [[|handle]|]; [|destruct (poll_join handle) as [[[]|]]|];
    intros [= <-]; keep.
Qed.
Lemma check_events_keeps s s0 : keeps s0 s → turn_keeps s0 (check_server_events s) ∧ turn_keeps s0 (check_client_events s).
Proof.
  intros ((Hp & Ho & Hi & Hout) & Hq & Hs). unfold check_server_events, check_client_events. split.
  - destruct (server_event_tap s) as [rx|]; [destruct (poll_recv rx) as [[[]|]]|]; keep.
  - destruct (client_event_tap s) as [rx|]; [destruct (poll_recv rx) as [[[]|]]|]; keep.
Qed.

Lemma turn_keeps_all s s0 t : keeps s0 s → turn s = Return t → turn_keeps s0 t.
Proof.
  intros Hk. apply and_then_keeps; [by apply check_inbound_keeps|]. intros s1 H1 t1.
  apply and_then_keeps; [by apply check_outbound_keeps|]. intros s2 H2 t2 H. inv_return.
  match goal with H : check_client _ = Return _ |- _ => apply (check_client_keeps _ s0) in H; [|done] end.
  revert H0. apply and_then_keeps; [done|]. intros s3 H3 t3.
  apply and_then_keeps; [by apply check_events_keeps|]. intros s4 H4 t4 [= <-]. by apply check_events_keeps.
Qed.

Lemma loop_keeps fuel s q : idle s → loop loop_body fuel s = Return q → keeps s q.2.
Proof.
  intros Hi. apply (loop_inv loop_body (keeps s) (λ q, keeps s q.2)); [..|by apply keeps_refl].
  - intros s1 s2 H1 H. unfold loop_body in H. inv_return.
    match goal with H : turn _ = Return _ |- _ => apply (turn_keeps_all _ s) in H; [|done] end.
    destruct x; by simplify_eq/=.
  - intros s1 r H1 H. unfold loop_body in H. inv_return.
    match goal with H : turn _ = Return _ |- _ => apply (turn_keeps_all _ s) in H; [|done] end.
    destruct x; by simplify_eq/=.
Qed.

Lemma poll_keeps fuel s r s' : idle s → poll fuel s = Return (r, s') →
  idle s' ∧ pending_in_events s' = pending_in_events s.
Proof.
  intros Hi. unfold poll. destruct (state s) as [[]|]; [by intros [= <- <-]..|]. intros H. inv_return.
  match goal with H : loop _ _ _ = Return _ |- _ => apply loop_keeps in H as (H1 & H2 & _); [|done] end.
  repeat case_match; inv_return; done.
Qed.

Lemma step_keeps op s s' : idle s → step op s = Return s' →
  idle s' ∧ pending_in_events s' = pending_in_events s ++ requests [op].
Proof.
  intros Hi. pose proof Hi as (Hp & Ho & Hin & Hout). destruct op as [ev|ev|fuel]; cbn.
  - by intros [= <-].
  - rewrite app_nil_r. destruct ev as [| | |[]| | | |]; cbn; intros [= <-]; by split_and!.
  - intros H. inv_return. apply poll_keeps in H as [? ->]; [|done]. by rewrite app_nil_r.
Qed.

Lemma requests_cons op ops : requests (op :: ops) = requests [op] ++ requests ops.
Proof. by destruct op. Qed.

Lemma run_keeps ops : ∀ s s', idle s → run ops s = Return s' →
  idle s' ∧ pending_in_events s' = pending_in_events s ++ requests ops.
Proof.
  induction ops as [|op ops IH]; intros s s' Hi H; cbn in H.
  - inv_return. by rewrite app_nil_r.
  - inv_return. apply step_keeps in H as [Hi' Hq]; [|done]. apply IH in H0 as [? ->]; [|done].
    split; [done|]. by rewrite Hq, <-app_assoc, <-requests_cons.
Qed.

Lemma Handler_new_idle config : idle (Handler_new config).
Proof. by split_and!. Qed.

(** C40: the handler never sends a request.  Whatever it is told and however
    often it is polled, every request of the behaviour stays in the queue it was
    put into, in order: none reaches the client, and none is under way, so no
    callback is ever answered. *)
Theorem requests_are_never_sent config ops s :
  run ops (Handler_new config) = Return s →
  pending_in_events s = requests ops ∧ pending_requests s = [] ∧ ongoing_request s = None.
Proof.
  intros H. apply run_keeps in H as [(Hp & Ho & _) Hq]; [|by apply Handler_new_idle]. by split_and!.
Qed.

(** ** Polls end, and ask for streams *)

(** Without an outbound stream, the rest of a turn does not make one. *)
Definition no_outbound (t : Turn) : Prop :=
  match t with Break s | Next s => outbound_stream s = None | ReturnEvent _ => False end.

Lemma and_then_no_outbound t f t' : no_outbound t →
  (∀ s, outbound_stream s = None → ∀ t1, f s = Return t1 → no_outbound t1) →
  and_then t f = Return t' → no_outbound t'.
Proof. intros Ht Hf. destruct t; cbn; [by intros [= <-]|by apply Hf|done]. Qed.

Lemma check_client_no_outbound s t : outbound_stream s = None → check_client s = Return t → no_outbound t.
Proof. intros Ho. unfold check_client. repeat case_match; by intros [= <-]. Qed.

Lemma check_events_no_outbound s : outbound_stream s = None →
  no_outbound (check_server_events s) ∧ no_outbound (check_client_events s).
Proof. intros Ho. unfold check_server_events, check_client_events. split; repeat case_match; done. Qed.

Lemma turn_ready s stream t : outbound_stream s = Some (StreamReady stream) → inbound_stream s ≠ Some Negotiating →
  turn s = Return t → no_outbound t.
Proof.
  intros Ho Hi. unfold turn.
  assert (∃ s1, check_inbound s = Next s1 ∧ outbound_stream s1 = outbound_stream s) as (s1 & -> & H1).
  { unfold check_inbound. destruct (inbound_stream s) as [[]|]; [done|by eexists..]. }
  cbn [and_then]. unfold check_outbound. rewrite H1, Ho. destruct (spawn_client stream) as [handle rx].
  apply and_then_no_outbound; [done|]. intros s2 H2 t2 H. inv_return.
  match goal with H : check_client _ = Return _ |- _ => apply check_client_no_outbound in H; [|done] end.
  revert H0. apply and_then_no_outbound; [done|]. intros s3 H3 t3.
  apply and_then_no_outbound; [by apply check_events_no_outbound|]. intros s4 H4 t4 [= <-].
  by apply check_events_no_outbound.
Qed.

Lemma turn_negotiating s : outbound_stream s = Some Negotiating → ∃ s', turn s = Return (Break s').
Proof.
  intros Ho. unfold turn, check_inbound, check_outbound.
  destruct (inbound_stream s) as [[]|]; cbn; rewrite ?Ho; by eexists.
Qed.

Lemma turn_without_outbound s : idle s → outbound_stream s = None →
  ∃ s', turn s = Return (ReturnEvent s') ∧ outbound_stream s' = Some Negotiating.
Proof.
  intros (_ & _ & Hi & _) Ho. unfold turn, check_inbound.
  destruct (inbound_stream s) as [[]|]; [done|..]; cbn; unfold check_outbound; cbn; rewrite Ho; by eexists.
Qed.

(** The tasks of the clients do not panic. *)
Definition clients_open : Prop := ∀ handle e, (poll_join handle).1 ≠ Ready (Err e).

Lemma turn_total s : clients_open → ∃ t, turn s = Return t.
Proof.
  intros Hc. unfold turn. destruct (check_inbound s) as [|s1|]; cbn; [by eexists| |by eexists].
  destruct (check_outbound s1) as [|s2|]; cbn; [by eexists| |by eexists].
  assert (∃ t, check_client s2 = Return t) as [t ->].
  { unfold check_client. destruct (client s2) as [[|handle]|]; [repeat case_match; by eexists| |by eexists].
    pose proof (Hc handle) as Hh. destruct (poll_join handle) as [[[]|]]; try (by eexists). by destruct (Hh e). }
  cbn. destruct t as [|s3|]; cbn; [by eexists| |by eexists].
  destruct (check_server_events s3); cbn; by eexists.
Qed.

Lemma poll_asks fuel s : idle s → outbound_stream s = None → state s = Active →
  ∃ s', poll (S fuel) s = Return (Ready (OutboundSubstreamRequest PROTOCOL_NAME), s').
Proof.
  intros Hi Ho Hs. destruct (turn_without_outbound s Hi Ho) as (s' & Ht & _).
  unfold poll. rewrite Hs. cbn [loop]. unfold loop_body. rewrite Ht. by eexists.
Qed.

Lemma poll_break fuel s s' : turn s = Return (Break s') → state s = Active →
  ∃ r s2, poll (S fuel) s = Return (r, s2) ∧ r ≠ Ready (OutboundSubstreamRequest PROTOCOL_NAME) ∧
    outbound_stream s2 = outbound_stream s' ∧ state s2 = state s' ∧ (idle s' → idle s2).
Proof.
  intros Ht Hs. unfold poll. rewrite Hs. cbn [loop]. unfold loop_body. rewrite Ht. cbn.
  destruct (pending_out_events s'); eexists _, _; by split_and!.
Qed.

(** Every poll of a handler ends within two turns of its loop, and the
    handler asks for streams without end: a poll that finds no outbound stream
    asks for one, and a negotiated stream is used up by the next poll, so that
    this poll, or the one after it, asks for another although a client was
    started on the stream. *)
Theorem polls_ask_for_streams config ops s fuel :
  clients_open → run ops (Handler_new config) = Return s → state s = Active → 2 ≤ fuel →
  ∃ r s', poll fuel s = Return (r, s') ∧
  match outbound_stream s with
  | None => r = Ready (OutboundSubstreamRequest PROTOCOL_NAME)
  | Some (StreamReady stream) =>
      r = Ready (OutboundSubstreamRequest PROTOCOL_NAME) ∨
      ∃ s'', poll fuel s' = Return (Ready (OutboundSubstreamRequest PROTOCOL_NAME), s'')
  | Some _ => r ≠ Ready (OutboundSubstreamRequest PROTOCOL_NAME)
  end.
Proof.
  intros Hc Hr Hs Hf. destruct fuel as [|[|fuel]]; [lia|lia|].
  destruct (run_keeps _ _ _ (Handler_new_idle config) Hr) as [Hi _]. clear Hr.
  destruct (outbound_stream s) as [[|stream|]|] eqn:Ho.
  - destruct (turn_negotiating s Ho) as [s' Ht]. destruct (poll_break (S fuel) s s' Ht Hs) as (r & s2 & H & Hr & _).
    by exists r, s2.
  - destruct (turn_total s Hc) as [t Ht]. pose proof Hi as (_ & _ & Hin & _).
    pose proof (turn_ready s stream t Ho Hin Ht) as Hn.
    pose proof (turn_keeps_all s s t (keeps_refl _ Hi) Ht) as Hk. destruct t as [s1|s1|s1]; [..|done].
    + destruct Hk as (Hi1 & _ & Hs1). destruct (poll_break (S fuel) s s1 Ht Hs) as (r & s2 & H & _ & Ho2 & Hs2 & Hi2).
      exists r, s2. split; [done|right]. apply poll_asks; cbn in *; [by auto|congruence..].
    + destruct Hk as (Hi1 & _ & Hs1). destruct (turn_without_outbound s1 Hi1 Hn) as (s2 & Ht2 & _).
      unfold poll. rewrite Hs. cbn [loop]. unfold loop_body. rewrite Ht. cbn. rewrite Ht2. cbn.
      eexists _, _. split; [reflexivity|by left].
  - by destruct Hi as (_ & _ & _ & []).
  - destruct (poll_asks (S fuel) s Hi Ho Hs) as [s'' ->]. by eexists _, _.
Qed.
End hyper.

(** ** Witnesses: a client opens when its stream's number is odd *)
Section witnesses.
#[local] Existing Instance demo_platform.
#[local] Instance demo_tasks : HyperTasks := {|
  Stream := N; Request := N; Sender := N; SendFuture := N * N; JoinHandle := N; Receiver := unit;
  spawn_server := λ _, tt; spawn_client := λ stream, (stream, tt);
  poll_join := λ handle, (if N.even handle then Pending else Ready (Ok handle), handle);
  poll_recv := λ rx, (Pending, rx);
  send_request := λ request client, (request, client);
|}.
Definition demo_request : FromBehaviourEvent := FRequest (5%N : @Request demo_tasks) {| cb_id := 1; cb_open := true |}.
(** A request, and a stream that is asked for, negotiated and used up. *)
Definition demo_ops : list (@Op demo_platform demo_tasks) :=
  [OpRequest demo_request; OpPoll 2; OpConnection (FullyNegotiatedOutbound (3%N : @Stream demo_tasks))].
Definition demo_after : Handler := {|
  state := Active; pending_in_events := [demo_request]; pending_out_events := [OutboundNegotiated];
  inbound_stream := None; outbound_stream := Some (StreamReady (3%N : @Stream demo_tasks));
  server_event_tap := None; client_event_tap := None; client := None; ongoing_request := None;
  pending_requests := [];
|}.

Lemma requests_are_never_sent_witness :
  run demo_ops (Handler_new Config_default) = Return demo_after ∧
  pending_in_events demo_after = [demo_request] ∧ pending_requests demo_after = [] ∧
  ongoing_request demo_after = None.
Proof.
  split; [reflexivity|]. exact (requests_are_never_sent Config_default demo_ops demo_after eq_refl).
Defined.

Lemma polls_ask_for_streams_witness :
  ∃ r s', poll 2 demo_after = Return (r, s') ∧
    (r = Ready (OutboundSubstreamRequest PROTOCOL_NAME) ∨
     ∃ s'', poll 2 s' = Return (Ready (OutboundSubstreamRequest PROTOCOL_NAME), s'')).
Proof.
  refine (polls_ask_for_streams Config_default demo_ops demo_after 2 _ eq_refl eq_refl (le_n 2)).
  intros handle e. simpl. by destruct (N.even handle).
Defined.
End witnesses.
End Hyper.
